(** * Reconciliation engine of the AAP inventory resource

    A shallow embedding of [internal/provider/aap_inventory_resource.go]
    (the revision with the full Create/Read/Update/Delete handlers) and of
    the part of [internal/provider/client.go] it calls.

    Conventions.
    - A Go [string] is modelled as the sequence of its Unicode code points
      ([gostring]).  Terraform string values are UTF-8 text, and
      [encoding/json] works on the decoded runes of a string; ill-formed
      UTF-8 (which [encoding/json] coerces to U+FFFD) is outside the type.
    - [int64] identifiers are [Z].  Where a client method takes the
      identifier as [strconv.Itoa(int(id))], the decimal spelling of the
      same number, the model passes the number; where it takes
      [state.ID.String()], which also spells a null or unknown value, the
      model passes the text.
    - The HTTP client is an abstract gateway over a remote world; every
      handler threads the world and records the calls it makes. *)

From stdpp Require Import base option list strings gmap sorting.
From Stdlib Require Import Ascii NArith ZArith Lia DecimalString.

Local Open Scope N_scope.

(** ** Go strings *)

Definition rune := N.
Abbreviation gostring := (list rune).

(** A Go string literal of ASCII text. *)
Definition str (s : string) : gostring :=
  (λ a, N_of_ascii a) <$> String.list_ascii_of_string s.

(** ** encoding/json, restricted to [map[string]string] *)

Module Json.

Definition quote : rune := 34.
Definition backslash : rune := 92.
Definition lbrace : rune := 123.
Definition rbrace : rune := 125.
Definition colon : rune := 58.
Definition comma : rune := 44.

(** [hex[n]] of "0123456789abcdef". *)
Definition hexdigit (n : N) : rune := if n <? 10 then 48 + n else 87 + n.

(** One iteration of the loop of [appendString] (escapeHTML on): the text
    written for the rune [r]. *)
Definition escape_rune (r : rune) : gostring :=
  if r <? 128 then
    if (r =? backslash) || (r =? quote) then [backslash; r]
    else if r =? 10 then [backslash; 110]
    else if r =? 13 then [backslash; 114]
    else if r =? 9 then [backslash; 116]
    else if (r <? 32) || (r =? 60) || (r =? 62) || (r =? 38)
         then [backslash; 117; 48; 48; hexdigit (r / 16); hexdigit (r mod 16)]
    else [r]
  else if (r =? 8232) || (r =? 8233)
       then [backslash; 117; 50; 48; 50; hexdigit (r mod 16)]
  else [r].

Definition appendString (s : gostring) : gostring :=
  quote :: List.concat (escape_rune <$> s) ++ [quote].

(** [strings.Compare(a, b) <= 0]: bytewise order of UTF-8 text is the
    lexicographic order of the code points. *)
Fixpoint string_le (a b : gostring) : bool :=
  match a, b with
  | [], _ => true
  | _ :: _, [] => false
  | x :: a', y :: b' => (x <? y) || ((x =? y) && string_le a' b')
  end.

Definition key_le (p q : gostring * gostring) : Prop := string_le p.1 q.1 = true.

#[global] Instance key_le_dec p q : Decision (key_le p q).
Proof. unfold key_le. apply _. Defined.

Definition encode_member (p : gostring * gostring) : gostring :=
  appendString p.1 ++ colon :: appendString p.2.

Fixpoint encode_members (l : list (gostring * gostring)) : gostring :=
  match l with
  | [] => []
  | [p] => encode_member p
  | p :: l' => encode_member p ++ comma :: encode_members l'
  end.

(** [json.Marshal(m)] for [m : map[string]string]; [None] is the nil map.
    Keys are written in sorted order.  It never fails on this type. *)
Definition Marshal (m : option (gmap gostring gostring)) : gostring :=
  match m with
  | None => str "null"
  | Some m =>
      lbrace :: encode_members (merge_sort key_le (map_to_list m)) ++ [rbrace]
  end.

(** *** Decoding *)

Definition hexval (r : rune) : option N :=
  if (48 <=? r) && (r <=? 57) then Some (r - 48)
  else if (97 <=? r) && (r <=? 102) then Some (r - 87)
  else if (65 <=? r) && (r <=? 70) then Some (r - 55)
  else None.

(** The four hex digits of a [\uXXXX] escape. *)
Definition u4 (a b c d : rune) : option N :=
  x ← hexval a; y ← hexval b; z ← hexval c; w ← hexval d;
  Some (((x * 16 + y) * 16 + z) * 16 + w).

Definition ReplacementChar : rune := 65533.

Definition IsSurrogate (r : rune) : bool := (55296 <=? r) && (r <? 57344).

(** [utf16.DecodeRune]. *)
Definition utf16_DecodeRune (r1 r2 : rune) : rune :=
  if (55296 <=? r1) && (r1 <? 56320) && (56320 <=? r2) && (r2 <? 57344)
  then (r1 - 55296) * 1024 + (r2 - 56320) + 65536
  else ReplacementChar.

Definition simple_escape (e : rune) : option rune :=
  if (e =? quote) || (e =? backslash) || (e =? 47) then Some e
  else if e =? 98 then Some 8
  else if e =? 102 then Some 12
  else if e =? 110 then Some 10
  else if e =? 114 then Some 13
  else if e =? 116 then Some 9
  else None.

Definition push (r : rune) (k : option (gostring * gostring)) :
  option (gostring * gostring) :=
  '(t, rest) ← k; Some (r :: t, rest).

(** The scanner's string state together with [unquote]: reads a string
    literal after its opening quote and returns the decoded text and the
    input after the closing quote. *)
Fixpoint unquote (s : gostring) : option (gostring * gostring) :=
  match s with
  | [] => None
  | c :: s1 =>
      if c =? quote then Some ([], s1)
      else if c =? backslash then
        match s1 with
        | [] => None
        | e :: s2 =>
            if e =? 117 then
              match s2 with
              | a :: b :: c' :: d :: s3 =>
                  match u4 a b c' d with
                  | None => None
                  | Some rr =>
                      if IsSurrogate rr then
                        match s3 with
                        | bs :: u :: a2 :: b2 :: c2 :: d2 :: s4 =>
                            match (if (bs =? backslash) && (u =? 117)
                                   then u4 a2 b2 c2 d2 else None) with
                            | Some rr1 =>
                                let dec := utf16_DecodeRune rr rr1 in
                                if dec =? ReplacementChar
                                then push ReplacementChar (unquote s3)
                                else push dec (unquote s4)
                            | None => push ReplacementChar (unquote s3)
                            end
                        | _ => push ReplacementChar (unquote s3)
                        end
                      else push rr (unquote s3)
                  end
              | _ => None
              end
            else
              match simple_escape e with
              | Some r => push r (unquote s2)
              | None => None
              end
        end
      else if c <? 32 then None
      else push c (unquote s1)
  end.

Definition is_space (c : rune) : bool :=
  (c =? 32) || (c =? 9) || (c =? 13) || (c =? 10).

Fixpoint skip_space (s : gostring) : gostring :=
  match s with
  | c :: s' => if is_space c then skip_space s' else s
  | [] => []
  end.

Definition parse_string (s : gostring) : option (gostring * gostring) :=
  match s with
  | c :: s' => if c =? quote then unquote s' else None
  | [] => None
  end.

Definition parse_null (s : gostring) : option gostring :=
  match s with
  | a :: b :: c :: d :: rest =>
      if (a =? 110) && (b =? 117) && (c =? 108) && (d =? 108)
      then Some rest else None
  | _ => None
  end.

(** A member value stored into a [string] element: a string literal, or
    [null], which leaves the zero value. *)
Definition parse_elem (s : gostring) : option (gostring * gostring) :=
  match parse_string s with
  | Some r => Some r
  | None => rest ← parse_null s; Some ([], rest)
  end.

(** The members of an object, stored left to right (a repeated key keeps
    its last value).  [fuel] bounds the number of members. *)
Fixpoint parse_members (fuel : nat) (m : gmap gostring gostring)
    (s : gostring) : option (gmap gostring gostring * gostring) :=
  match fuel with
  | O => None
  | S fuel =>
      '(k, s1) ← parse_string (skip_space s);
      match skip_space s1 with
      | c :: s2 =>
          if c =? colon then
            '(v, s3) ← parse_elem (skip_space s2);
            let m' := <[k:=v]> m in
            match skip_space s3 with
            | d :: s4 =>
                if d =? comma then parse_members fuel m' s4
                else if d =? rbrace then Some (m', s4)
                else None
            | [] => None
            end
          else None
      | [] => None
      end
  end.

Definition parse_object (s : gostring) :
    option (gmap gostring gostring * gostring) :=
  match skip_space s with
  | c :: s1 =>
      if c =? rbrace then Some (∅, s1) else parse_members (length s) ∅ s
  | [] => None
  end.

Definition at_end (s : gostring) : bool :=
  match skip_space s with [] => true | _ => false end.

(** [json.Unmarshal(data, &m)] for a nil [m : map[string]string]:
    [None] is an error (syntax error, or a value that is not a string
    where one is stored); [Some None] leaves [m] nil (JSON [null]);
    [Some (Some m)] is the decoded map. *)
Definition Unmarshal (data : gostring) :
    option (option (gmap gostring gostring)) :=
  match skip_space data with
  | c :: s1 =>
      if c =? lbrace then
        '(m, rest) ← parse_object s1;
        if at_end rest then Some (Some m) else None
      else
        rest ← parse_null (c :: s1);
        if at_end rest then Some None else None
  | [] => None
  end.

End Json.

(** ** Terraform plugin framework values and diagnostics *)

(** A framework value ([types.String], [types.Int64], [types.Set],
    [types.Map], [types.Object]) is null, unknown or known. *)
Inductive tfval (A : Type) : Type :=
| Null
| Unknown
| Known (a : A).
Arguments Null {A}.
Arguments Unknown {A}.
Arguments Known {A} a.

#[global] Instance tfval_eq_dec `{EqDecision A} : EqDecision (tfval A).
Proof. solve_decision. Defined.

Abbreviation MapValue := (tfval (gmap gostring (tfval gostring))).

(** [ValueString()], [ValueInt64()]: the zero value unless known. *)
Definition ValueString (v : tfval gostring) : gostring :=
  match v with Known s => s | _ => [] end.

Definition ValueInt64 (v : tfval Z) : Z :=
  match v with Known z => z | _ => 0%Z end.

(** [Elements()] of a set or a map value. *)
Definition SetElements {A} (v : tfval (list A)) : list A :=
  match v with Known l => l | _ => [] end.

Definition MapElements (v : MapValue) : gmap gostring (tfval gostring) :=
  match v with Known m => m | _ => ∅ end.

(** Errors: what the client returns (transport failure or a status
    outside 200, 201, 202, 204, with the body), what [encoding/json]
    returns, and the error built by [GroupIdFromName]. *)
Inductive error :=
| ErrRemote (msg : gostring)
| ErrJson
| ErrGroupName (name : gostring).

#[global] Instance error_eq_dec : EqDecision error.
Proof. solve_decision. Defined.

(** An error diagnostic.  [AddError summary (detail + err.Error())] is
    [ErrorDiagnostic summary detail (Some err)]; the framework's own
    conversion errors carry no Go error. *)
Inductive Diagnostic :=
| ErrorDiagnostic (summary : string) (detail : gostring) (err : option error).

Abbreviation Diagnostics := (list Diagnostic).

Definition HasError (ds : Diagnostics) : bool :=
  match ds with [] => false | _ :: _ => true end.

Definition ConversionError : Diagnostic :=
  ErrorDiagnostic "Value Conversion Error" [] None.

Definition known {A} (v : tfval A) : option A :=
  match v with Known a => Some a | _ => None end.

Definition all_known {A} (m : gmap gostring (tfval A)) : bool :=
  bool_decide (map_Forall (λ _ v, is_Some (known v)) m).

(** [v.ElementsAs(ctx, &target, false)] for a map value and a target of
    type [map[string]string] holding [target]: a null map stores the nil
    map; an unknown map, or an element that is not known, is a conversion
    error and leaves the target as it was. *)
Definition MapElementsAs (v : MapValue)
    (target : option (gmap gostring gostring)) :
    option (gmap gostring gostring) * Diagnostics :=
  match v with
  | Null => (None, [])
  | Unknown => (target, [ConversionError])
  | Known m =>
      if all_known m then (Some (omap known m), [])
      else (target, [ConversionError])
  end.

(** ... and for a set of strings and a target of type [[]string]. *)
Definition SetElementsAs (v : tfval (list (tfval gostring)))
    (target : list gostring) : list gostring * Diagnostics :=
  match v with
  | Null => ([], [])
  | Unknown => (target, [ConversionError])
  | Known l =>
      match mapM known l with
      | Some l' => (l', [])
      | None => (target, [ConversionError])
      end
  end.

(** ... and for a set of objects and a target of type [[]types.Object]:
    every element is kept as the value it is. *)
Definition ObjectsElementsAs {A} (v : tfval (list (tfval A)))
    (target : list (tfval A)) : list (tfval A) * Diagnostics :=
  match v with
  | Null => ([], [])
  | Unknown => (target, [ConversionError])
  | Known l => (l, [])
  end.

(** [o.As(ctx, &target, basetypes.ObjectAsOptions{})]: only a known object
    fills the struct. *)
Definition ObjectAs {A} (o : tfval A) (target : A) : A * Diagnostics :=
  match o with
  | Known a => (a, [])
  | _ => (target, [ConversionError])
  end.

(** [types.MapValueFrom(ctx, types.StringType, m)]: a nil map gives the
    null value. *)
Definition MapValueFrom (m : option (gmap gostring gostring)) : MapValue :=
  match m with
  | None => Null
  | Some m => Known (Known <$> m)
  end.

(** [len(m)] of a Go map. *)
Definition maplen (m : option (gmap gostring gostring)) : nat :=
  match m with
  | None => O
  | Some m => size m
  end.

(** [types.SetValueFrom(ctx, elemType, l)]: a nil slice gives the null
    value.  The slices given to it here are nil exactly when they are
    empty, or the result is only used when it has elements. *)
Definition SetValueFrom {A B} (f : A → B) (l : list A) : tfval (list B) :=
  match l with
  | [] => Null
  | _ :: _ => Known (f <$> l)
  end.

(** [strconv.Itoa], and [String()] of a [types.Int64]. *)
Definition Itoa (z : Z) : gostring := str (NilZero.string_of_int (Z.to_int z)).

Definition Int64String (v : tfval Z) : gostring :=
  match v with
  | Null => str "<null>"
  | Unknown => str "<unknown>"
  | Known z => Itoa z
  end.

(** ** The variable codec *)

(** Converts variables from TF framework MapType to a JSON encoded string.
    [json.Marshal] has no error on a [map[string]string], so the error
    branch of the source is unreachable and not represented. *)
Definition VariablesMapToString (resourceVariables : MapValue) :
    gostring * Diagnostics :=
  let variables : option (gmap gostring gostring) := Some ∅ in
  let '(variables, diagnostics) := MapElementsAs resourceVariables variables in
  let variablesJson := Json.Marshal variables in
  (variablesJson, diagnostics).

(** Converts variables from a JSON encoded string to a TF framework
    MapType. *)
Definition VariablesStringToMap (variables : gostring) :
    MapValue * Diagnostics :=
  let diagnostics : Diagnostics := [] in
  match Json.Unmarshal variables with
  | None =>
      (Null,
       diagnostics ++
       [ErrorDiagnostic "Error unmarshalling variables string"
          (str "Could not convert variables string to map, unexpected error: ")
          (Some ErrJson)])
  | Some newVariables =>
      let mapVariables : MapValue := Null in
      if (0 <? maplen newVariables)%nat
      then (MapValueFrom newVariables, diagnostics)
      else (mapVariables, diagnostics)
  end.

(** ** Wire entities ([client.go]) *)

Module AapGroup.
Record t := mk {
  Id : Z;
  Inventory : Z;
  Name : gostring;
  Children : list gostring;
  Description : gostring;
  Variables : gostring
}.
Definition with_Id (g : t) (id : Z) : t :=
  mk id (Inventory g) (Name g) (Children g) (Description g) (Variables g).
Definition with_Children (g : t) (c : list gostring) : t :=
  mk (Id g) (Inventory g) (Name g) c (Description g) (Variables g).
End AapGroup.

Module AapHost.
Record t := mk {
  Id : Z;
  Inventory : Z;
  Name : gostring;
  Groups : list gostring;
  Description : gostring;
  Variables : gostring
}.
Definition with_Id (h : t) (id : Z) : t :=
  mk id (Inventory h) (Name h) (Groups h) (Description h) (Variables h).
Definition with_Groups (h : t) (g : list gostring) : t :=
  mk (Id h) (Inventory h) (Name h) g (Description h) (Variables h).
End AapHost.

Module AapInventory.
Record t := mk {
  Id : Z;
  Organization : Z;
  Name : gostring;
  Description : gostring;
  Variables : gostring
}.
Definition with_Variables (i : t) (v : gostring) : t :=
  mk (Id i) (Organization i) (Name i) (Description i) v.
End AapInventory.

(** ** Resource models (the declarative state surface) *)

Module aapGroupResourceModel.
Record t := mk {
  ID : tfval Z;
  Inventory : tfval Z;
  Name : tfval gostring;
  Children : tfval (list (tfval gostring));
  Description : tfval gostring;
  Variables : MapValue
}.
Definition zero : t := mk Null Null Null Null Null Null.
End aapGroupResourceModel.

Module aapHostResourceModel.
Record t := mk {
  Id : tfval Z;
  Inventory : tfval Z;
  Name : tfval gostring;
  Description : tfval gostring;
  Groups : tfval (list (tfval gostring));
  Variables : MapValue
}.
Definition zero : t := mk Null Null Null Null Null Null.
End aapHostResourceModel.

Module aapInventoryResourceModel.
Record t := mk {
  ID : tfval Z;
  Organization : tfval Z;
  Name : tfval gostring;
  Description : tfval gostring;
  Variables : MapValue;
  Groups : tfval (list (tfval aapGroupResourceModel.t));
  Hosts : tfval (list (tfval aapHostResourceModel.t))
}.
End aapInventoryResourceModel.

(** ** Name resolver *)

(** Given a group name, retrieves its ID from a slice of AapGroup structs.
    As in Go, the pair holds the id (0 on failure) and the error. *)
Fixpoint GroupIdFromName (name : gostring) (groups : list AapGroup.t) :
    Z * option error :=
  match groups with
  | [] => (0%Z, Some (ErrGroupName name))
  | group :: groups' =>
      if decide (AapGroup.Name group = name)
      then (AapGroup.Id group, None)
      else GroupIdFromName name groups'
  end.

(** ** Snapshot builder *)

(** One iteration of the loop of [GroupsToSchema]: the object built for
    [group], or the diagnostics it returns with. *)
Definition GroupToSchema (group : AapGroup.t) :
    tfval aapGroupResourceModel.t + Diagnostics :=
  let children : tfval (list (tfval gostring)) :=
    SetValueFrom Known (AapGroup.Children group) in
  let v_children :=
    if (0 <? length (SetElements children))%nat then children else Null in
  let v_description :=
    if decide (AapGroup.Description group ≠ [])
    then Known (AapGroup.Description group) else Null in
  let '(variables, diags) := VariablesStringToMap (AapGroup.Variables group) in
  if HasError diags then inr diags
  else
    let v_variables : MapValue :=
      if (0 <? size (MapElements variables))%nat then variables else Null in
    inl (Known (aapGroupResourceModel.mk
                  (Known (AapGroup.Id group))
                  (Known (AapGroup.Inventory group))
                  (Known (AapGroup.Name group))
                  v_children v_description v_variables)).

(** Convert groups from Go types to schema. *)
Fixpoint GroupsToSchema_from (schemaGroups : list (tfval aapGroupResourceModel.t))
    (groups : list AapGroup.t) :
    list (tfval aapGroupResourceModel.t) * Diagnostics :=
  match groups with
  | [] => (schemaGroups, [])
  | group :: groups' =>
      match GroupToSchema group with
      | inr diags => (schemaGroups, diags)
      | inl groupValue => GroupsToSchema_from (schemaGroups ++ [groupValue]) groups'
      end
  end.

Definition GroupsToSchema (groups : list AapGroup.t) :=
  GroupsToSchema_from [] groups.

Definition HostToSchema (host : AapHost.t) :
    tfval aapHostResourceModel.t + Diagnostics :=
  let v_description :=
    if decide (AapHost.Description host ≠ [])
    then Known (AapHost.Description host) else Null in
  let hostGroups : tfval (list (tfval gostring)) :=
    SetValueFrom Known (AapHost.Groups host) in
  let v_groups :=
    if (0 <? length (SetElements hostGroups))%nat then hostGroups else Null in
  let '(variables, diags) := VariablesStringToMap (AapHost.Variables host) in
  if HasError diags then inr diags
  else
    let v_variables : MapValue :=
      if (0 <? size (MapElements variables))%nat then variables else Null in
    inl (Known (aapHostResourceModel.mk
                  (Known (AapHost.Id host))
                  (Known (AapHost.Inventory host))
                  (Known (AapHost.Name host))
                  v_description v_groups v_variables)).

Fixpoint HostsToSchema_from (schemaHosts : list (tfval aapHostResourceModel.t))
    (hosts : list AapHost.t) :
    list (tfval aapHostResourceModel.t) * Diagnostics :=
  match hosts with
  | [] => (schemaHosts, [])
  | host :: hosts' =>
      match HostToSchema host with
      | inr diags => (schemaHosts, diags)
      | inl hostValue => HostsToSchema_from (schemaHosts ++ [hostValue]) hosts'
      end
  end.

Definition HostsToSchema (hosts : list AapHost.t) :=
  HostsToSchema_from [] hosts.

(** ** The remote entity gateway ([AAPClient]) *)

(** A Go result [(value, err)] whose value is nil when [err] is not. *)
Inductive res (A : Type) : Type :=
| Ok (a : A)
| Fail (e : error).
Arguments Ok {A} a.
Arguments Fail {A} e.

(** The methods of [*AAPClient] used by the resource, over a remote world
    [W].  A request body is identified with the struct it encodes. *)
Module AAPClient.
Record t (W : Type) := mk {
  CreateInventory : AapInventory.t → W → res AapInventory.t * W;
  GetInventory : gostring → W → res AapInventory.t * W;
  UpdateInventory : Z → AapInventory.t → W → res AapInventory.t * W;
  DeleteInventory : gostring → W → res unit * W;
  CreateGroup : AapGroup.t → W → res AapGroup.t * W;
  UpdateGroup : Z → AapGroup.t → W → res AapGroup.t * W;
  DeleteGroup : Z → W → res unit * W;
  GetInventoryGroups : Z → W → res (list AapGroup.t) * W;
  GetGroupChildren : Z → W → res (list AapGroup.t) * W;
  AddChildToGroup : Z → Z → W → res unit * W;
  RemoveChildFromGroup : Z → Z → W → res unit * W;
  CreateHost : AapHost.t → W → res AapHost.t * W;
  UpdateHost : Z → AapHost.t → W → res AapHost.t * W;
  DeleteHost : Z → W → res unit * W;
  GetInventoryHosts : Z → W → res (list AapHost.t) * W;
  GetHostGroups : Z → W → res (list AapGroup.t) * W;
  AddGroupToHost : Z → Z → W → res unit * W;
  RemoveGroupFromHost : Z → Z → W → res unit * W
}.
Arguments CreateInventory {W}.
Arguments GetInventory {W}.
Arguments UpdateInventory {W}.
Arguments DeleteInventory {W}.
Arguments CreateGroup {W}.
Arguments UpdateGroup {W}.
Arguments DeleteGroup {W}.
Arguments GetInventoryGroups {W}.
Arguments GetGroupChildren {W}.
Arguments AddChildToGroup {W}.
Arguments RemoveChildFromGroup {W}.
Arguments CreateHost {W}.
Arguments UpdateHost {W}.
Arguments DeleteHost {W}.
Arguments GetInventoryHosts {W}.
Arguments GetHostGroups {W}.
Arguments AddGroupToHost {W}.
Arguments RemoveGroupFromHost {W}.
End AAPClient.

(** A remote call as issued, and what came back. *)
Module Call.
Inductive t :=
| CreateInventory (body : AapInventory.t)
| GetInventory (inventoryId : gostring)
| UpdateInventory (inventoryId : Z) (body : AapInventory.t)
| DeleteInventory (inventoryId : gostring)
| CreateGroup (body : AapGroup.t)
| UpdateGroup (groupId : Z) (body : AapGroup.t)
| DeleteGroup (groupId : Z)
| GetInventoryGroups (inventoryId : Z)
| GetGroupChildren (groupId : Z)
| AddChildToGroup (groupId childGroupId : Z)
| RemoveChildFromGroup (groupId childGroupId : Z)
| CreateHost (body : AapHost.t)
| UpdateHost (hostId : Z) (body : AapHost.t)
| DeleteHost (hostId : Z)
| GetInventoryHosts (inventoryId : Z)
| GetHostGroups (hostId : Z)
| AddGroupToHost (hostId groupId : Z)
| RemoveGroupFromHost (hostId groupId : Z).
End Call.

Module Reply.
Inductive t :=
| Error (e : error)
| Inventory (i : AapInventory.t)
| Group (g : AapGroup.t)
| Host (h : AapHost.t)
| Groups (l : list AapGroup.t)
| Hosts (l : list AapHost.t)
| Done.
End Reply.

(** ** Handler state *)

(** [resp]: the diagnostics and the state a handler hands back. *)
Module Response.
Record t := mk {
  Diagnostics : Diagnostics;
  State : option aapInventoryResourceModel.t
}.
End Response.

(** What a handler does that can be observed: remote calls with their
    replies, error diagnostics, and writes of the persisted state. *)
Inductive Event :=
| Called (c : Call.t) (r : Reply.t)
| Diagnosed (d : Diagnostic)
| StateSet (s : aapInventoryResourceModel.t).

Record St (W : Type) := mkSt {
  world : W;
  resp : Response.t;
  log : list Event
}.
Arguments mkSt {W}.
Arguments world {W}.
Arguments resp {W}.
Arguments log {W}.

(** A piece of a handler: runs from a state and either goes on with a
    value or has executed [return]. *)
Definition M (W A : Type) : Type := St W → option A * St W.

#[global] Instance M_ret {W} : MRet (M W) := λ A a st, (Some a, st).
#[global] Instance M_bind {W} : MBind (M W) := λ A B f m st,
  match m st with
  | (Some a, st') => f a st'
  | (None, st') => (None, st')
  end.

Section Handlers.
Context {W : Type}.

(** The [return] statement of a handler. *)
Definition Return {A} : M W A := λ st, (None, st).

(** [resp.Diagnostics.AddError(summary, detail + err.Error())]. *)
Definition AddError (summary : string) (detail : gostring) (err : error) :
    M W unit := λ st,
  let d := ErrorDiagnostic summary detail (Some err) in
  (Some tt,
   mkSt (world st)
     (Response.mk (Response.Diagnostics (resp st) ++ [d])
        (Response.State (resp st)))
     (log st ++ [Diagnosed d])).

(** [resp.Diagnostics.Append(diags...)]. *)
Definition Append (diags : Diagnostics) : M W unit := λ st,
  (Some tt,
   mkSt (world st)
     (Response.mk (Response.Diagnostics (resp st) ++ diags)
        (Response.State (resp st)))
     (log st ++ (Diagnosed <$> diags))).

(** [if resp.Diagnostics.HasError() { return }]. *)
Definition ReturnIfError : M W unit := λ st,
  if HasError (Response.Diagnostics (resp st)) then (None, st)
  else (Some tt, st).

(** [v, diags := f(...); resp.Diagnostics.Append(diags...);
    if resp.Diagnostics.HasError() { return }]. *)
Definition check {A} (p : A * Diagnostics) : M W A :=
  Append p.2;; ReturnIfError;; mret p.1.

(** [resp.State.Set(ctx, plan)]. *)
Definition StateSet_ (plan : aapInventoryResourceModel.t) :
    M W Diagnostics := λ st,
  (Some [],
   mkSt (world st)
     (Response.mk (Response.Diagnostics (resp st)) (Some plan))
     (log st ++ [StateSet plan])).

(** A client method: the world moves and the call is recorded. *)
Definition call {A} (c : Call.t) (reply : A → Reply.t)
    (f : W → res A * W) : M W (res A) := λ st,
  let '(r, w') := f (world st) in
  let rep := match r with Ok a => reply a | Fail e => Reply.Error e end in
  (Some r, mkSt w' (resp st) (log st ++ [Called c rep])).

(** [v, err := ...; if err != nil { resp.Diagnostics.AddError(summary,
    detail + err.Error()); return }]. *)
Definition try {A} (m : M W (res A)) (summary : string)
    (detail : gostring) : M W A :=
  r ← m;
  match r with
  | Ok a => mret a
  | Fail err => AddError summary detail err;; Return
  end.

(** [for _, x := range l { s = body(x, s) }]. *)
Fixpoint for_range {A S} (l : list A) (body : A → S → M W S) (s : S) :
    M W S :=
  match l with
  | [] => mret s
  | x :: l' => s' ← body x s; for_range l' body s'
  end.

Definition for_each {A} (l : list A) (body : A → M W unit) : M W unit :=
  for_range l (λ x _, body x) tt.

End Handlers.

Local Close Scope N_scope.
Local Open Scope Z_scope.

(** ** Helpers of the standard library and of the resource model *)

(** [slices.IndexFunc]. *)
Fixpoint IndexFunc {A} (s : list A) (f : A → bool) : Z :=
  match s with
  | [] => -1
  | x :: s' =>
      if f x then 0
      else let i := IndexFunc s' f in if i =? -1 then -1 else i + 1
  end.

(** [slices.Contains] on strings. *)
Fixpoint Contains (s : list gostring) (v : gostring) : bool :=
  match s with
  | [] => false
  | x :: s' => if decide (x = v) then true else Contains s' v
  end.

(** The block that maps an inventory response onto the model: [ID],
    [Organization], [Name], and [Description] (null when empty). *)
Definition with_inventory (plan : aapInventoryResourceModel.t)
    (inventory : AapInventory.t) : aapInventoryResourceModel.t :=
  aapInventoryResourceModel.mk
    (Known (AapInventory.Id inventory))
    (Known (AapInventory.Organization inventory))
    (Known (AapInventory.Name inventory))
    (if decide (AapInventory.Description inventory ≠ [])
     then Known (AapInventory.Description inventory) else Null)
    (aapInventoryResourceModel.Variables plan)
    (aapInventoryResourceModel.Groups plan)
    (aapInventoryResourceModel.Hosts plan).

Definition with_Variables (plan : aapInventoryResourceModel.t)
    (v : MapValue) : aapInventoryResourceModel.t :=
  aapInventoryResourceModel.mk
    (aapInventoryResourceModel.ID plan)
    (aapInventoryResourceModel.Organization plan)
    (aapInventoryResourceModel.Name plan)
    (aapInventoryResourceModel.Description plan)
    v
    (aapInventoryResourceModel.Groups plan)
    (aapInventoryResourceModel.Hosts plan).

Definition with_Groups (plan : aapInventoryResourceModel.t)
    (g : tfval (list (tfval aapGroupResourceModel.t))) :
    aapInventoryResourceModel.t :=
  aapInventoryResourceModel.mk
    (aapInventoryResourceModel.ID plan)
    (aapInventoryResourceModel.Organization plan)
    (aapInventoryResourceModel.Name plan)
    (aapInventoryResourceModel.Description plan)
    (aapInventoryResourceModel.Variables plan)
    g
    (aapInventoryResourceModel.Hosts plan).

Definition with_Hosts (plan : aapInventoryResourceModel.t)
    (h : tfval (list (tfval aapHostResourceModel.t))) :
    aapInventoryResourceModel.t :=
  aapInventoryResourceModel.mk
    (aapInventoryResourceModel.ID plan)
    (aapInventoryResourceModel.Organization plan)
    (aapInventoryResourceModel.Name plan)
    (aapInventoryResourceModel.Description plan)
    (aapInventoryResourceModel.Variables plan)
    (aapInventoryResourceModel.Groups plan)
    h.

(** ** The resource ([aapInventoryResource]) *)

Section Resource.
Context {W : Type}.
Context (client : AAPClient.t W).

(** *** [r.client.Method(...)] *)

Definition client_CreateInventory body :=
  call (Call.CreateInventory body) Reply.Inventory
    (AAPClient.CreateInventory client body).
Definition client_GetInventory id :=
  call (Call.GetInventory id) Reply.Inventory
    (AAPClient.GetInventory client id).
Definition client_UpdateInventory id body :=
  call (Call.UpdateInventory id body) Reply.Inventory
    (AAPClient.UpdateInventory client id body).
Definition client_DeleteInventory id :=
  call (Call.DeleteInventory id) (λ _, Reply.Done)
    (AAPClient.DeleteInventory client id).
Definition client_CreateGroup body :=
  call (Call.CreateGroup body) Reply.Group
    (AAPClient.CreateGroup client body).
Definition client_UpdateGroup id body :=
  call (Call.UpdateGroup id body) Reply.Group
    (AAPClient.UpdateGroup client id body).
Definition client_DeleteGroup id :=
  call (Call.DeleteGroup id) (λ _, Reply.Done)
    (AAPClient.DeleteGroup client id).
Definition client_GetInventoryGroups id :=
  call (Call.GetInventoryGroups id) Reply.Groups
    (AAPClient.GetInventoryGroups client id).
Definition client_GetGroupChildren id :=
  call (Call.GetGroupChildren id) Reply.Groups
    (AAPClient.GetGroupChildren client id).
Definition client_AddChildToGroup groupId childGroupId :=
  call (Call.AddChildToGroup groupId childGroupId) (λ _, Reply.Done)
    (AAPClient.AddChildToGroup client groupId childGroupId).
Definition client_RemoveChildFromGroup groupId childGroupId :=
  call (Call.RemoveChildFromGroup groupId childGroupId) (λ _, Reply.Done)
    (AAPClient.RemoveChildFromGroup client groupId childGroupId).
Definition client_CreateHost body :=
  call (Call.CreateHost body) Reply.Host
    (AAPClient.CreateHost client body).
Definition client_UpdateHost id body :=
  call (Call.UpdateHost id body) Reply.Host
    (AAPClient.UpdateHost client id body).
Definition client_DeleteHost id :=
  call (Call.DeleteHost id) (λ _, Reply.Done)
    (AAPClient.DeleteHost client id).
Definition client_GetInventoryHosts id :=
  call (Call.GetInventoryHosts id) Reply.Hosts
    (AAPClient.GetInventoryHosts client id).
Definition client_GetHostGroups id :=
  call (Call.GetHostGroups id) Reply.Groups
    (AAPClient.GetHostGroups client id).
Definition client_AddGroupToHost hostId groupId :=
  call (Call.AddGroupToHost hostId groupId) (λ _, Reply.Done)
    (AAPClient.AddGroupToHost client hostId groupId).
Definition client_RemoveGroupFromHost hostId groupId :=
  call (Call.RemoveGroupFromHost hostId groupId) (λ _, Reply.Done)
    (AAPClient.RemoveGroupFromHost client hostId groupId).

(** [id, err := GroupIdFromName(name, groups); if err != nil { AddError;
    return }]. *)
Definition resolve (name : gostring) (groups : list AapGroup.t)
    (summary : string) (detail : gostring) : M W Z :=
  match GroupIdFromName name groups with
  | (id, None) => mret id
  | (_, Some err) => AddError summary detail err;; Return
  end.

(** [diags = resp.State.Set(ctx, plan); resp.Diagnostics.Append(diags...);
    if resp.Diagnostics.HasError() { return }]. *)
Definition SetState (plan : aapInventoryResourceModel.t) : M W unit :=
  diags ← StateSet_ plan; Append diags;; ReturnIfError.

(** *** Create *)

(** "Create inventory groups": the first loop, which creates every group
    of the plan and keeps it with its id and its declared children. *)
Definition Create_groups (plan : aapInventoryResourceModel.t)
    (groups : list (tfval aapGroupResourceModel.t)) : M W (list AapGroup.t) :=
  for_range groups (λ g newGroups,
    groupResource ← check (ObjectAs g aapGroupResourceModel.zero);
    variables ← check
      (VariablesMapToString (aapGroupResourceModel.Variables groupResource));
    let group := AapGroup.mk 0
      (ValueInt64 (aapInventoryResourceModel.ID plan))
      (ValueString (aapGroupResourceModel.Name groupResource))
      []
      (ValueString (aapGroupResourceModel.Description groupResource))
      variables in
    newGroup ← try (client_CreateGroup group)
      "Error creating AAP group"
      (str "Could not create AAP group, unexpected error: ");
    let group := AapGroup.with_Id group (AapGroup.Id newGroup) in
    children ← check
      (SetElementsAs (aapGroupResourceModel.Children groupResource) []);
    let group := AapGroup.with_Children group children in
    mret (newGroups ++ [group])) [].

(** "Add all children to parent groups". *)
Definition Create_children (newGroups : list AapGroup.t) : M W unit :=
  for_each newGroups (λ group,
    for_each (AapGroup.Children group) (λ childName,
      childId ← resolve childName newGroups
        "Error retrieving group ID"
        (str "Could not retrieve ID for child group, unexpected error: ");
      let parentId := AapGroup.Id group in
      try (client_AddChildToGroup parentId childId)
        "Error creating AAP group child"
        (str "Could not create AAP group child, unexpected error: "))).

(** "Create inventory hosts": the loop that creates every host. *)
Definition Create_hosts (plan : aapInventoryResourceModel.t)
    (hosts : list (tfval aapHostResourceModel.t)) : M W (list AapHost.t) :=
  for_range hosts (λ h newHosts,
    hostResource ← check (ObjectAs h aapHostResourceModel.zero);
    variables ← check
      (VariablesMapToString (aapHostResourceModel.Variables hostResource));
    let host := AapHost.mk 0
      (ValueInt64 (aapInventoryResourceModel.ID plan))
      (ValueString (aapHostResourceModel.Name hostResource))
      []
      (ValueString (aapHostResourceModel.Description hostResource))
      variables in
    newHost ← try (client_CreateHost host)
      "Error creating AAP host"
      (str "Could not create AAP host, unexpected error: ");
    let host := AapHost.with_Id host (AapHost.Id newHost) in
    hostGroups ← check
      (SetElementsAs (aapHostResourceModel.Groups hostResource) []);
    let host := AapHost.with_Groups host hostGroups in
    mret (newHosts ++ [host])) [].

(** "Add all groups to hosts". *)
Definition Create_hostGroups (newGroups : list AapGroup.t)
    (newHosts : list AapHost.t) : M W unit :=
  for_each newHosts (λ host,
    for_each (AapHost.Groups host) (λ groupName,
      groupId ← resolve groupName newGroups
        "Error retrieving group ID"
        (str "Could not retrieve ID for host group, unexpected error: ");
      let hostId := AapHost.Id host in
      try (client_AddGroupToHost hostId groupId)
        "Error adding AAP group to host"
        (str "Could not add AAP group to host, unexpected error: "))).

(** Create creates the resource and sets the new Terraform state on
    success.  [plan] is what [req.Plan.Get] read. *)
Definition Create (plan : aapInventoryResourceModel.t) : M W unit :=
  let inventory := AapInventory.mk 0 1
    (ValueString (aapInventoryResourceModel.Name plan))
    (ValueString (aapInventoryResourceModel.Description plan))
    [] in
  variables ← check
    (VariablesMapToString (aapInventoryResourceModel.Variables plan));
  let inventory := AapInventory.with_Variables inventory variables in
  newInventory ← try (client_CreateInventory inventory)
    "Error creating AAP inventory"
    (str "Could not create AAP inventory, unexpected error: ");
  let plan := with_inventory plan newInventory in
  newVariables ← check
    (VariablesStringToMap (AapInventory.Variables newInventory));
  let plan := with_Variables plan newVariables in
  groups ← check
    (ObjectsElementsAs (aapInventoryResourceModel.Groups plan) []);
  newGroups ← Create_groups plan groups;
  Create_children newGroups;;
  schemaGroups ← check (GroupsToSchema newGroups);
  stateGroups ← check (SetValueFrom id schemaGroups, []);
  let plan := with_Groups plan stateGroups in
  hosts ← check
    (ObjectsElementsAs (aapInventoryResourceModel.Hosts plan) []);
  newHosts ← Create_hosts plan hosts;
  Create_hostGroups newGroups newHosts;;
  schemaHosts ← check (HostsToSchema newHosts);
  stateHosts ← check (SetValueFrom id schemaHosts, []);
  let plan := with_Hosts plan stateHosts in
  SetState plan.

(** *** Read *)

(** "Get groups' children from AAP": each group gets the names of the
    children the gateway lists for it. *)
Definition Read_children (groups : list AapGroup.t) : M W (list AapGroup.t) :=
  for_range groups (λ group done,
    let groupId := AapGroup.Id group in
    groupChildren ← try (client_GetGroupChildren groupId)
      "Error reading AAP group children"
      (str "Could not retrieve children from group with ID "
         ++ Itoa groupId ++ str ": ");
    let childNames := AapGroup.Name <$> groupChildren in
    mret (done ++ [AapGroup.with_Children group childNames])) [].

(** "Get hosts' groups from AAP". *)
Definition Read_hostGroups (hosts : list AapHost.t) : M W (list AapHost.t) :=
  for_range hosts (λ host done,
    let hostId := AapHost.Id host in
    hostGroups ← try (client_GetHostGroups hostId)
      "Error reading AAP host groups"
      (str "Could not retrieve groups for host with ID "
         ++ Itoa hostId ++ str ": ");
    let groupNames := AapGroup.Name <$> hostGroups in
    mret (done ++ [AapHost.with_Groups host groupNames])) [].

(** Read refreshes the Terraform state with the latest data.  [state] is
    what [req.State.Get] read. *)
Definition Read (state : aapInventoryResourceModel.t) : M W unit :=
  let stateID := Int64String (aapInventoryResourceModel.ID state) in
  inventory ← try (client_GetInventory stateID)
    "Error reading AAP inventory"
    (str "Could not retrieve AAP inventory with ID " ++ stateID ++ str ": ");
  let state := with_inventory state inventory in
  variables ← check (VariablesStringToMap (AapInventory.Variables inventory));
  let state := with_Variables state variables in
  let stateId := ValueInt64 (aapInventoryResourceModel.ID state) in
  groups ← try (client_GetInventoryGroups stateId)
    "Error reading AAP inventory groups"
    (str "Could not read AAP groups from inventory with ID "
       ++ Itoa stateId ++ str ": ");
  groups ← Read_children groups;
  updatedGroups ← check (GroupsToSchema groups);
  stateGroups ← check (SetValueFrom id updatedGroups, []);
  let state := with_Groups state stateGroups in
  hosts ← try (client_GetInventoryHosts stateId)
    "Error reading AAP inventory hosts"
    (str "Could not read AAP hosts from inventory with ID "
       ++ Itoa stateId ++ str ": ");
  hosts ← Read_hostGroups hosts;
  updatedHosts ← check (HostsToSchema hosts);
  stateHosts ← check (SetValueFrom id updatedHosts, []);
  let state := with_Hosts state stateHosts in
  SetState state.

(** *** Update *)

(** "Create or update groups in plan": a group whose carried id is not
    among the current groups of the inventory is created, any other is
    updated by that id. *)
Definition Update_groups (plan : aapInventoryResourceModel.t)
    (currentGroups : list AapGroup.t)
    (groups : list (tfval aapGroupResourceModel.t)) : M W (list AapGroup.t) :=
  for_range groups (λ g updatedGroups,
    groupResource ← check (ObjectAs g aapGroupResourceModel.zero);
    variables ← check
      (VariablesMapToString (aapGroupResourceModel.Variables groupResource));
    let group := AapGroup.mk 0
      (ValueInt64 (aapInventoryResourceModel.ID plan))
      (ValueString (aapGroupResourceModel.Name groupResource))
      []
      (ValueString (aapGroupResourceModel.Description groupResource))
      variables in
    let groupId := ValueInt64 (aapGroupResourceModel.ID groupResource) in
    let groupIndex :=
      IndexFunc currentGroups (λ g, AapGroup.Id g =? groupId) in
    updatedGroup ←
      (if groupIndex =? -1 then
         try (client_CreateGroup group)
           "Error creating AAP group"
           (str "Could not create AAP group " ++ AapGroup.Name group
              ++ str ", unexpected error: ")
       else
         try (client_UpdateGroup groupId group)
           "Error updating AAP group"
           (str "Could not update AAP group " ++ AapGroup.Name group
              ++ str ", unexpected error: "));
    let group := AapGroup.with_Id group (AapGroup.Id updatedGroup) in
    children ← check
      (SetElementsAs (aapGroupResourceModel.Children groupResource) []);
    let group := AapGroup.with_Children group children in
    mret (updatedGroups ++ [group])) [].

(** "If any current inventory groups are not in updated plan groups,
    delete them". *)
Definition Update_deleteGroups (currentGroups updatedGroups : list AapGroup.t) :
    M W unit :=
  for_each currentGroups (λ currentGroup,
    let groupIndex :=
      IndexFunc updatedGroups
        (λ g, AapGroup.Id g =? AapGroup.Id currentGroup) in
    if groupIndex =? -1 then
      let groupId := AapGroup.Id currentGroup in
      try (client_DeleteGroup groupId)
        "Error deleting group"
        (str "Could not delete group " ++ AapGroup.Name currentGroup
           ++ str ", unexpected error: ")
    else mret tt).

(** The body of "Ensure all parent groups have updated children" for one
    group: fetch its current children, add the declared ones that are not
    among them, remove the current ones that are not declared. *)
Definition Update_groupChildren (updatedGroups : list AapGroup.t)
    (group : AapGroup.t) : M W unit :=
  let groupId := AapGroup.Id group in
  currentChildren ← try (client_GetGroupChildren groupId)
    "Error retrieving current children for group"
    (str "Could not retrieve current children for group "
       ++ AapGroup.Name group ++ str ", unexpected error: ");
  for_each (AapGroup.Children group) (λ childName,
    let childIndex :=
      IndexFunc currentChildren
        (λ g, bool_decide (AapGroup.Name g = childName)) in
    if childIndex =? -1 then
      childId ← resolve childName updatedGroups
        "Error retrieving group ID"
        (str "Could not retrieve ID for child group " ++ childName
           ++ str ", unexpected error: ");
      try (client_AddChildToGroup groupId childId)
        "Error adding child to group"
        (str "Could not add child " ++ childName ++ str " to group "
           ++ AapGroup.Name group ++ str ", unexpected error: ")
    else mret tt);;
  for_each currentChildren (λ child,
    let containsChild := Contains (AapGroup.Children group) (AapGroup.Name child) in
    if negb containsChild then
      try (client_RemoveChildFromGroup groupId (AapGroup.Id child))
        "Error removing child from group"
        (str "Could not remove child " ++ AapGroup.Name child
           ++ str " from group " ++ AapGroup.Name group
           ++ str ", unexpected error: ")
    else mret tt).

Definition Update_children (updatedGroups : list AapGroup.t) : M W unit :=
  for_each updatedGroups (Update_groupChildren updatedGroups).

(** The host loop of "Update inventory hosts". *)
Definition Update_hosts (plan : aapInventoryResourceModel.t)
    (currentHosts : list AapHost.t)
    (hosts : list (tfval aapHostResourceModel.t)) : M W (list AapHost.t) :=
  for_range hosts (λ h updatedHosts,
    hostResource ← check (ObjectAs h aapHostResourceModel.zero);
    variables ← check
      (VariablesMapToString (aapHostResourceModel.Variables hostResource));
    let host := AapHost.mk 0
      (ValueInt64 (aapInventoryResourceModel.ID plan))
      (ValueString (aapHostResourceModel.Name hostResource))
      []
      (ValueString (aapHostResourceModel.Description hostResource))
      variables in
    let hostId := ValueInt64 (aapHostResourceModel.Id hostResource) in
    let hostIndex :=
      IndexFunc currentHosts (λ h, AapHost.Id h =? hostId) in
    updatedHost ←
      (if hostIndex =? -1 then
         try (client_CreateHost host)
           "Error creating AAP host"
           (str "Could not create AAP host " ++ AapHost.Name host
              ++ str ", unexpected error: ")
       else
         try (client_UpdateHost hostId host)
           "Error updating AAP host"
           (str "Could not update AAP host " ++ AapHost.Name host
              ++ str ", unexpected error: "));
    let host := AapHost.with_Id host (AapHost.Id updatedHost) in
    hostGroups ← check
      (SetElementsAs (aapHostResourceModel.Groups hostResource) []);
    let host := AapHost.with_Groups host hostGroups in
    mret (updatedHosts ++ [host])) [].

(** "If any current inventory hosts are not in updated plan hosts, delete
    them". *)
Definition Update_deleteHosts (currentHosts updatedHosts : list AapHost.t) :
    M W unit :=
  for_each currentHosts (λ currentHost,
    let hostIndex :=
      IndexFunc updatedHosts
        (λ h, AapHost.Id h =? AapHost.Id currentHost) in
    if hostIndex =? -1 then
      let hostId := AapHost.Id currentHost in
      try (client_DeleteHost hostId)
        "Error deleting group"
        (str "Could not delete group " ++ AapHost.Name currentHost
           ++ str ", unexpected error: ")
    else mret tt).

(** The body of "Ensure all hosts have updated groups" for one host. *)
Definition Update_hostGroups (updatedGroups : list AapGroup.t)
    (host : AapHost.t) : M W unit :=
  let hostId := AapHost.Id host in
  currentHostGroups ← try (client_GetHostGroups hostId)
    "Error retrieving current groups for host"
    (str "Could not retrieve current groups for host "
       ++ AapHost.Name host ++ str ", unexpected error: ");
  for_each (AapHost.Groups host) (λ groupName,
    let groupIndex :=
      IndexFunc currentHostGroups
        (λ g, bool_decide (AapGroup.Name g = groupName)) in
    if groupIndex =? -1 then
      hostGroupId ← resolve groupName updatedGroups
        "Error retrieving group ID"
        (str "Could not retrieve ID for host group " ++ groupName
           ++ str ", unexpected error: ");
      try (client_AddGroupToHost hostId hostGroupId)
        "Error adding group to host"
        (str "Could not add group " ++ groupName ++ str " to host "
           ++ AapHost.Name host ++ str ", unexpected error: ")
    else mret tt);;
  for_each currentHostGroups (λ hostGroup,
    let containsGroup := Contains (AapHost.Groups host) (AapGroup.Name hostGroup) in
    if negb containsGroup then
      try (client_RemoveGroupFromHost hostId (AapGroup.Id hostGroup))
        "Error removing group from host"
        (str "Could not remove group " ++ AapGroup.Name hostGroup
           ++ str " from host " ++ AapHost.Name host
           ++ str ", unexpected error: ")
    else mret tt).

Definition Update_allHostGroups (updatedGroups : list AapGroup.t)
    (updatedHosts : list AapHost.t) : M W unit :=
  for_each updatedHosts (Update_hostGroups updatedGroups).

(** Update updates the resource and sets the updated Terraform state on
    success.  [plan] is what [req.Plan.Get] read. *)
Definition Update (plan : aapInventoryResourceModel.t) : M W unit :=
  let inventory := AapInventory.mk 0
    (ValueInt64 (aapInventoryResourceModel.Organization plan))
    (ValueString (aapInventoryResourceModel.Name plan))
    (ValueString (aapInventoryResourceModel.Description plan))
    [] in
  variables ← check
    (VariablesMapToString (aapInventoryResourceModel.Variables plan));
  let inventory := AapInventory.with_Variables inventory variables in
  let inventoryId := ValueInt64 (aapInventoryResourceModel.ID plan) in
  updatedInventory ← try (client_UpdateInventory inventoryId inventory)
    "Error updating AAP inventory"
    (str "Could not update AAP inventory, unexpected error: ");
  let plan := with_inventory plan updatedInventory in
  updatedVariables ← check
    (VariablesStringToMap (AapInventory.Variables updatedInventory));
  let plan := with_Variables plan updatedVariables in
  currentGroups ← try (client_GetInventoryGroups inventoryId)
    "Error retrieving groups for inventory"
    (str "Could not retrieve groups for inventory "
       ++ AapInventory.Name inventory ++ str ", unexpected error: ");
  groups ← check
    (ObjectsElementsAs (aapInventoryResourceModel.Groups plan) []);
  updatedGroups ← Update_groups plan currentGroups groups;
  Update_deleteGroups currentGroups updatedGroups;;
  Update_children updatedGroups;;
  schemaGroups ← check (GroupsToSchema updatedGroups);
  updatedStateGroups ← check (SetValueFrom id schemaGroups, []);
  let plan := with_Groups plan updatedStateGroups in
  currentHosts ← try (client_GetInventoryHosts inventoryId)
    "Error retrieving hosts for inventory"
    (str "Could not retrieve hosts for inventory "
       ++ AapInventory.Name inventory ++ str ", unexpected error: ");
  hosts ← check
    (ObjectsElementsAs (aapInventoryResourceModel.Hosts plan) []);
  updatedHosts ← Update_hosts plan currentHosts hosts;
  Update_deleteHosts currentHosts updatedHosts;;
  Update_allHostGroups updatedGroups updatedHosts;;
  schemaHosts ← check (HostsToSchema updatedHosts);
  updatedStateHosts ← check (SetValueFrom id schemaHosts, []);
  let plan := with_Hosts plan updatedStateHosts in
  SetState plan.

(** *** Delete *)

(** Delete deletes the resource and removes the Terraform state on
    success. *)
Definition Delete (state : aapInventoryResourceModel.t) : M W unit :=
  let stateID := Int64String (aapInventoryResourceModel.ID state) in
  try (client_DeleteInventory stateID)
    "Error deleting AAP inventory"
    (str "Could not delete AAP inventory with ID " ++ stateID ++ str ": ").

End Resource.

(** A handler is entered with no diagnostics and with the state the
    framework put in the response: none for Create, the prior state for
    Update and Read. *)
Definition enter {W} (w : W) (prior : option aapInventoryResourceModel.t) :
    St W :=
  mkSt w (Response.mk [] prior) [].

Definition run {W A} (m : M W A) (w : W)
    (prior : option aapInventoryResourceModel.t) : St W :=
  (m (enter w prior)).2.

(** ** A reference remote

    An in-memory automation platform to run the handlers against: ids are
    handed out in sequence, a group name is unique within its inventory,
    an association needs both ends to exist, deleting a group drops its
    associations, and a list endpoint answers with its first page of
    [page] results only. *)

Module Remote.

Record t := mk {
  next : Z;
  inventories : list AapInventory.t;
  groups : list AapGroup.t;
  children : list (Z * Z);
  hosts : list AapHost.t;
  memberships : list (Z * Z)
}.

Definition empty : t := mk 1 [] [] [] [] [].

Definition status (code : string) : error :=
  ErrRemote (str "status: " ++ str code ++ str ", body: ").

Definition has_group (w : t) (id : Z) : bool :=
  existsb (λ g, AapGroup.Id g =? id) (groups w).

Definition has_host (w : t) (id : Z) : bool :=
  existsb (λ h, AapHost.Id h =? id) (hosts w).

Definition has_inventory (w : t) (id : Z) : bool :=
  existsb (λ i, AapInventory.Id i =? id) (inventories w).

Definition name_taken (w : t) (inv : Z) (name : gostring) (except : Z) : bool :=
  existsb (λ g, (AapGroup.Inventory g =? inv)
                && bool_decide (AapGroup.Name g = name)
                && negb (AapGroup.Id g =? except)) (groups w).

Definition stored_group (id : Z) (body : AapGroup.t) : AapGroup.t :=
  AapGroup.with_Children (AapGroup.with_Id body id) [].

Definition stored_host (id : Z) (body : AapHost.t) : AapHost.t :=
  AapHost.with_Groups (AapHost.with_Id body id) [].

Definition stored_inventory (id : Z) (body : AapInventory.t) : AapInventory.t :=
  AapInventory.mk id (AapInventory.Organization body) (AapInventory.Name body)
    (AapInventory.Description body) (AapInventory.Variables body).

Definition pair_eqb (p q : Z * Z) : bool := (p.1 =? q.1) && (p.2 =? q.2).

Definition linked (l : list (Z * Z)) (a b : Z) : bool :=
  existsb (pair_eqb (a, b)) l.

Definition CreateInventory (body : AapInventory.t) (w : t) :
    res AapInventory.t * t :=
  let i := stored_inventory (next w) body in
  (Ok i, mk (next w + 1) (inventories w ++ [i]) (groups w) (children w)
            (hosts w) (memberships w)).

Definition GetInventory (id : gostring) (w : t) : res AapInventory.t * t :=
  match List.find (λ i, bool_decide (Itoa (AapInventory.Id i) = id))
          (inventories w) with
  | Some i => (Ok i, w)
  | None => (Fail (status "404"), w)
  end.

Definition UpdateInventory (id : Z) (body : AapInventory.t) (w : t) :
    res AapInventory.t * t :=
  if has_inventory w id then
    let i := stored_inventory id body in
    (Ok i,
     mk (next w)
        ((λ j, if AapInventory.Id j =? id then i else j) <$> inventories w)
        (groups w) (children w) (hosts w) (memberships w))
  else (Fail (status "404"), w).

Definition DeleteInventory (id : gostring) (w : t) : res unit * t :=
  match List.find (λ i, bool_decide (Itoa (AapInventory.Id i) = id))
          (inventories w) with
  | Some i =>
      let keep_g := List.filter (λ g, negb (AapGroup.Inventory g =? AapInventory.Id i)) (groups w) in
      let keep_h := List.filter (λ h, negb (AapHost.Inventory h =? AapInventory.Id i)) (hosts w) in
      let live_g id := existsb (λ g, AapGroup.Id g =? id) keep_g in
      let live_h id := existsb (λ h, AapHost.Id h =? id) keep_h in
      (Ok tt,
       mk (next w)
          (List.filter (λ j, negb (AapInventory.Id j =? AapInventory.Id i))
             (inventories w))
          keep_g
          (List.filter (λ p, live_g p.1 && live_g p.2) (children w))
          keep_h
          (List.filter (λ p, live_h p.1 && live_g p.2) (memberships w)))
  | None => (Fail (status "404"), w)
  end.

Definition CreateGroup (body : AapGroup.t) (w : t) : res AapGroup.t * t :=
  if negb (has_inventory w (AapGroup.Inventory body)) then
    (Fail (status "400"), w)
  else if name_taken w (AapGroup.Inventory body) (AapGroup.Name body) 0 then
    (Fail (status "400"), w)
  else
    let g := stored_group (next w) body in
    (Ok g, mk (next w + 1) (inventories w) (groups w ++ [g]) (children w)
              (hosts w) (memberships w)).

Definition UpdateGroup (id : Z) (body : AapGroup.t) (w : t) :
    res AapGroup.t * t :=
  if negb (has_group w id) then (Fail (status "404"), w)
  else if name_taken w (AapGroup.Inventory body) (AapGroup.Name body) id then
    (Fail (status "400"), w)
  else
    let g := stored_group id body in
    (Ok g,
     mk (next w) (inventories w)
        ((λ h, if AapGroup.Id h =? id then g else h) <$> groups w)
        (children w) (hosts w) (memberships w)).

Definition DeleteGroup (id : Z) (w : t) : res unit * t :=
  if has_group w id then
    (Ok tt,
     mk (next w) (inventories w)
        (List.filter (λ g, negb (AapGroup.Id g =? id)) (groups w))
        (List.filter (λ p, negb (p.1 =? id) && negb (p.2 =? id)) (children w))
        (hosts w)
        (List.filter (λ p, negb (p.2 =? id)) (memberships w)))
  else (Fail (status "404"), w).

Definition GetInventoryGroups (page : nat) (id : Z) (w : t) :
    res (list AapGroup.t) * t :=
  if has_inventory w id then
    (Ok (take page (List.filter (λ g, AapGroup.Inventory g =? id) (groups w))), w)
  else (Fail (status "404"), w).

Definition GetGroupChildren (page : nat) (id : Z) (w : t) :
    res (list AapGroup.t) * t :=
  if has_group w id then
    (Ok (take page
           (List.filter (λ g, linked (children w) id (AapGroup.Id g)) (groups w))),
     w)
  else (Fail (status "404"), w).

Definition AddChildToGroup (id child : Z) (w : t) : res unit * t :=
  if has_group w id && has_group w child && negb (id =? child) then
    (Ok tt,
     mk (next w) (inventories w) (groups w)
        (if linked (children w) id child then children w
         else children w ++ [(id, child)])
        (hosts w) (memberships w))
  else (Fail (status "400"), w).

Definition RemoveChildFromGroup (id child : Z) (w : t) : res unit * t :=
  if has_group w id then
    (Ok tt,
     mk (next w) (inventories w) (groups w)
        (List.filter (λ p, negb (pair_eqb (id, child) p)) (children w))
        (hosts w) (memberships w))
  else (Fail (status "404"), w).

Definition CreateHost (body : AapHost.t) (w : t) : res AapHost.t * t :=
  if negb (has_inventory w (AapHost.Inventory body)) then
    (Fail (status "400"), w)
  else
    let h := stored_host (next w) body in
    (Ok h, mk (next w + 1) (inventories w) (groups w) (children w)
              (hosts w ++ [h]) (memberships w)).

Definition UpdateHost (id : Z) (body : AapHost.t) (w : t) :
    res AapHost.t * t :=
  if negb (has_host w id) then (Fail (status "404"), w)
  else
    let h := stored_host id body in
    (Ok h,
     mk (next w) (inventories w) (groups w) (children w)
        ((λ k, if AapHost.Id k =? id then h else k) <$> hosts w)
        (memberships w)).

Definition DeleteHost (id : Z) (w : t) : res unit * t :=
  if has_host w id then
    (Ok tt,
     mk (next w) (inventories w) (groups w) (children w)
        (List.filter (λ h, negb (AapHost.Id h =? id)) (hosts w))
        (List.filter (λ p, negb (p.1 =? id)) (memberships w)))
  else (Fail (status "404"), w).

Definition GetInventoryHosts (page : nat) (id : Z) (w : t) :
    res (list AapHost.t) * t :=
  if has_inventory w id then
    (Ok (take page (List.filter (λ h, AapHost.Inventory h =? id) (hosts w))), w)
  else (Fail (status "404"), w).

Definition GetHostGroups (page : nat) (id : Z) (w : t) :
    res (list AapGroup.t) * t :=
  if has_host w id then
    (Ok (take page
           (List.filter (λ g, linked (memberships w) id (AapGroup.Id g))
              (groups w))),
     w)
  else (Fail (status "404"), w).

Definition AddGroupToHost (id group : Z) (w : t) : res unit * t :=
  if has_host w id && has_group w group then
    (Ok tt,
     mk (next w) (inventories w) (groups w) (children w) (hosts w)
        (if linked (memberships w) id group then memberships w
         else memberships w ++ [(id, group)]))
  else (Fail (status "400"), w).

Definition RemoveGroupFromHost (id group : Z) (w : t) : res unit * t :=
  if has_host w id then
    (Ok tt,
     mk (next w) (inventories w) (groups w) (children w) (hosts w)
        (List.filter (λ p, negb (pair_eqb (id, group) p)) (memberships w)))
  else (Fail (status "404"), w).

(** The client talking to this remote, with list pages of [page] results. *)
Definition client (page : nat) : AAPClient.t t :=
  AAPClient.mk t
    CreateInventory GetInventory UpdateInventory DeleteInventory
    CreateGroup UpdateGroup DeleteGroup
    (GetInventoryGroups page) (GetGroupChildren page)
    AddChildToGroup RemoveChildFromGroup
    CreateHost UpdateHost DeleteHost
    (GetInventoryHosts page) (GetHostGroups page)
    AddGroupToHost RemoveGroupFromHost.

End Remote.

(** ** Vocabulary of the statements *)

(** The string-to-string mapping a map value holds. *)
Definition mapping (v : MapValue) : gmap gostring gostring :=
  omap known (MapElements v).

(** Storing one decoded member into the map under construction. *)
Definition store (m : gmap gostring gostring) (p : gostring * gostring) :
    gmap gostring gostring :=
  <[p.1:=p.2]> m.

(** Declarations for examples: a group, a host and an inventory as they
    stand in a plan, with the ids they carry. *)
Definition decl_group (id : tfval Z) (name : string) (children : list string) :
    tfval aapGroupResourceModel.t :=
  Known (aapGroupResourceModel.mk id Unknown (Known (str name))
           (SetValueFrom (λ c, Known (str c)) children) Null Null).

Definition decl_host (id : tfval Z) (name : string) (groups : list string) :
    tfval aapHostResourceModel.t :=
  Known (aapHostResourceModel.mk id Unknown (Known (str name)) Null
           (SetValueFrom (λ c, Known (str c)) groups) Null).

Definition decl_inventory (i : tfval Z) (name : string)
    (groups : list (tfval aapGroupResourceModel.t))
    (hosts : list (tfval aapHostResourceModel.t)) :
    aapInventoryResourceModel.t :=
  aapInventoryResourceModel.mk i Unknown (Known (str name)) Null Null
    (SetValueFrom id groups) (SetValueFrom id hosts).

(** The number of groups of a set that carry a name. *)
Definition named (name : gostring) (groups : list AapGroup.t) : nat :=
  length (filter (λ g, AapGroup.Name g = name) groups).

(** A group set for examples: A (id 2) with child B, and B (id 3). *)
Definition groups_AB : list AapGroup.t :=
  [AapGroup.mk 2 1 (str "A") [str "B"] [] (str "null");
   AapGroup.mk 3 1 (str "B") [] [] (str "null")].

(** *** Reading a log *)

(** The diagnostics a log reports and the state it leaves persisted. *)
Definition diags_of (l : list Event) : Diagnostics :=
  omap (λ e, match e with Diagnosed d => Some d | _ => None end) l.

Definition state_of (prior : option aapInventoryResourceModel.t)
    (l : list Event) : option aapInventoryResourceModel.t :=
  foldl (λ s e, match e with StateSet s' => Some s' | _ => s end) prior l.

(** The calls of a log, in order. *)
Definition calls_of (l : list Event) : list Call.t :=
  omap (λ e, match e with Called c _ => Some c | _ => None end) l.

Definition is_call (e : Event) : Prop :=
  match e with Called _ _ => True | _ => False end.

Definition is_diag (e : Event) : Prop :=
  match e with Diagnosed _ => True | _ => False end.

(** A call that was answered without an error. *)
Definition answered (e : Event) : Prop :=
  match e with
  | Called _ (Reply.Error _) => False
  | Called _ _ => True
  | _ => False
  end.

(** A failure: a call answered with an error, or a reported diagnostic. *)
Definition failure (e : Event) : Prop :=
  match e with
  | Called _ (Reply.Error _) => True
  | Diagnosed _ => True
  | _ => False
  end.

Definition quiet (l : list Event) : Prop := Forall (λ e, ¬ is_diag e) l.

(** The response agrees with the log: it holds the diagnostics reported
    and the state last written (the prior one when none was). *)
Definition coherent {W} (prior : option aapInventoryResourceModel.t)
    (st : St W) : Prop :=
  Response.Diagnostics (resp st) = diags_of (log st) ∧
  Response.State (resp st) = state_of prior (log st).

(** [produces prior m Q R]: run from a coherent state that has reported
    nothing yet, [m] extends the log by some events [evs]; it goes on with
    a value [a] such that [Q a evs], having reported nothing, or it returns
    with [R evs]. *)
Definition produces {W A} (prior : option aapInventoryResourceModel.t)
    (m : M W A) (Q : A → list Event → Prop) (R : list Event → Prop) : Prop :=
  ∀ st, coherent prior st → quiet (log st) →
    match m st with
    | (Some a, st') =>
        coherent prior st' ∧
        ∃ evs, log st' = log st ++ evs ∧ quiet evs ∧ Q a evs
    | (None, st') =>
        coherent prior st' ∧ ∃ evs, log st' = log st ++ evs ∧ R evs
    end.

(** The iterations of a loop: [steps Qb l s s' evs] when running the body
    on the elements of [l] in turn takes the loop variable from [s] to
    [s'] and logs [evs], each iteration according to [Qb]. *)
Inductive steps {A S} (Qb : A → S → S → list Event → Prop) :
    list A → S → S → list Event → Prop :=
| steps_nil s : steps Qb [] s s []
| steps_cons x l s s' s'' evs1 evs2 :
    Qb x s s' evs1 → steps Qb l s' s'' evs2 →
    steps Qb (x :: l) s s'' (evs1 ++ evs2).

(** The way a handler stops on an error: after answered calls, either a
    call answered with an error and the diagnostic that reports this very
    error, or diagnostics alone. *)
Definition error_tail (tail : list Event) : Prop :=
  (∃ c e summary detail,
     tail = [Called c (Reply.Error e);
             Diagnosed (ErrorDiagnostic summary detail (Some e))]) ∨
  (∃ ds, ds ≠ [] ∧ tail = Diagnosed <$> ds).

Definition stopped (evs : list Event) : Prop :=
  ∃ evs0 tail, evs = evs0 ++ tail ∧ Forall answered evs0 ∧ error_tail tail.

(** The way a handler completes: answered calls, then the state write. *)
Definition completed (evs : list Event) : Prop :=
  ∃ evs0 s, evs = evs0 ++ [StateSet s] ∧ Forall answered evs0.

(** A piece of a handler that stops at its first failure: while it goes
    on, every call it made was answered; when it returns, it has stopped
    on an error. *)
Definition fail_fast {W A} (prior : option aapInventoryResourceModel.t)
    (m : M W A) : Prop :=
  produces prior m (λ _ evs, Forall answered evs) stopped.

(** A whole handler: it completes with the state write or has stopped on
    an error. *)
Definition finishing {W A} (prior : option aapInventoryResourceModel.t)
    (m : M W A) : Prop :=
  produces prior m (λ _, completed) stopped.

(** Plans for examples: a child name that no declared group carries, and
    two declared groups with one name (the reference remote refuses the
    second). *)
Definition plan_dangling : aapInventoryResourceModel.t :=
  decl_inventory Unknown "Inv" [decl_group Unknown "A" ["Z"]] [].

Definition plan_twice : aapInventoryResourceModel.t :=
  decl_inventory Unknown "Inv"
    [decl_group Unknown "A" []; decl_group Unknown "A" []] [].

Definition log_twice : list Event :=
  Eval vm_compute in
    log (run (Create (Remote.client 25) plan_twice) Remote.empty None).

(** The end-to-end scenario: inventory Inv, group A with child B, group B,
    host H in A and B. *)
Definition plan_AB : aapInventoryResourceModel.t :=
  decl_inventory Unknown "Inv"
    [decl_group Unknown "A" ["B"]; decl_group Unknown "B" []]
    [decl_host Unknown "H" ["A"; "B"]].

Definition log_AB : list Event :=
  Eval vm_compute in
    log (run (Create (Remote.client 25) plan_AB) Remote.empty None).

Definition state_AB : option aapInventoryResourceModel.t :=
  Eval vm_compute in
    Response.State (resp (run (Create (Remote.client 25) plan_AB)
                            Remote.empty None)).

(** The last element of a log, for examples. *)
Definition last_write (l : list Event) : aapInventoryResourceModel.t :=
  match last l with
  | Some (StateSet s) => s
  | _ => decl_inventory Null "" [] []
  end.

(** The handler has reported nothing so far. *)
Definition ready {W} (prior : option aapInventoryResourceModel.t)
    (st : St W) : Prop :=
  coherent prior st ∧ quiet (log st).

(** *** Reconciling associations *)

(** The declared names to associate: those no current member carries; and
    the current members to disassociate: those whose name is not declared. *)
Definition to_associate (declared : list gostring)
    (current : list AapGroup.t) : list gostring :=
  filter (λ n, n ∉ AapGroup.Name <$> current) declared.

Definition to_disassociate (declared : list gostring)
    (current : list AapGroup.t) : list AapGroup.t :=
  filter (λ c, AapGroup.Name c ∉ declared) current.

(** What reconciling the children of [group] does when every call is
    answered and the remote lists [current] as its children: the listing,
    one association per name to associate (by the id the name has in
    [updatedGroups]), one disassociation per member to disassociate. *)
Definition group_reconciliation (updatedGroups : list AapGroup.t)
    (group : AapGroup.t) (current : list AapGroup.t) : list Event :=
  Called (Call.GetGroupChildren (AapGroup.Id group)) (Reply.Groups current)
  :: ((λ n, Called (Call.AddChildToGroup (AapGroup.Id group)
                      (GroupIdFromName n updatedGroups).1) Reply.Done)
        <$> to_associate (AapGroup.Children group) current)
  ++ ((λ c, Called (Call.RemoveChildFromGroup (AapGroup.Id group)
                      (AapGroup.Id c)) Reply.Done)
        <$> to_disassociate (AapGroup.Children group) current).

Definition host_reconciliation (updatedGroups : list AapGroup.t)
    (host : AapHost.t) (current : list AapGroup.t) : list Event :=
  Called (Call.GetHostGroups (AapHost.Id host)) (Reply.Groups current)
  :: ((λ n, Called (Call.AddGroupToHost (AapHost.Id host)
                      (GroupIdFromName n updatedGroups).1) Reply.Done)
        <$> to_associate (AapHost.Groups host) current)
  ++ ((λ c, Called (Call.RemoveGroupFromHost (AapHost.Id host)
                      (AapGroup.Id c)) Reply.Done)
        <$> to_disassociate (AapHost.Groups host) current).

(** The set-reconciliation scenario: group P has the children A, B and C
    on the remote, and the plan declares B, C and D. *)
Definition plan_P : aapInventoryResourceModel.t :=
  decl_inventory Unknown "Inv"
    [decl_group Unknown "P" ["A"; "B"; "C"]; decl_group Unknown "A" [];
     decl_group Unknown "B" []; decl_group Unknown "C" [];
     decl_group Unknown "D" []]
    [].

Definition world_P : Remote.t :=
  Eval vm_compute in
    world (run (Create (Remote.client 25) plan_P) Remote.empty None).

Definition plan_P' : aapInventoryResourceModel.t :=
  decl_inventory (Known 1) "Inv"
    [decl_group (Known 2) "P" ["B"; "C"; "D"]; decl_group (Known 3) "A" [];
     decl_group (Known 4) "B" []; decl_group (Known 5) "C" [];
     decl_group (Known 6) "D" []]
    [].

Definition group_P' : AapGroup.t :=
  AapGroup.mk 2 1 (str "P") [str "B"; str "C"; str "D"] [] (str "null").

Definition groups_P' : list AapGroup.t :=
  [group_P';
   AapGroup.mk 3 1 (str "A") [] [] (str "null");
   AapGroup.mk 4 1 (str "B") [] [] (str "null");
   AapGroup.mk 5 1 (str "C") [] [] (str "null");
   AapGroup.mk 6 1 (str "D") [] [] (str "null")].

(** The association calls of a log. *)
Definition association_calls (l : list Event) : list Call.t :=
  List.filter
    (λ c, match c with
          | Call.AddChildToGroup _ _ | Call.RemoveChildFromGroup _ _
          | Call.AddGroupToHost _ _ | Call.RemoveGroupFromHost _ _ => true
          | _ => false
          end)
    (calls_of l).

(** *** Materializing entities *)

(** The request body built for a declared group or host, and the names it
    declares. *)
Definition group_body (plan : aapInventoryResourceModel.t)
    (r : aapGroupResourceModel.t) : AapGroup.t :=
  AapGroup.mk 0
    (ValueInt64 (aapInventoryResourceModel.ID plan))
    (ValueString (aapGroupResourceModel.Name r))
    []
    (ValueString (aapGroupResourceModel.Description r))
    (VariablesMapToString (aapGroupResourceModel.Variables r)).1.

Definition host_body (plan : aapInventoryResourceModel.t)
    (r : aapHostResourceModel.t) : AapHost.t :=
  AapHost.mk 0
    (ValueInt64 (aapInventoryResourceModel.ID plan))
    (ValueString (aapHostResourceModel.Name r))
    []
    (ValueString (aapHostResourceModel.Description r))
    (VariablesMapToString (aapHostResourceModel.Variables r)).1.

Definition declared_children (r : aapGroupResourceModel.t) : list gostring :=
  (SetElementsAs (aapGroupResourceModel.Children r) []).1.

Definition declared_groups (r : aapHostResourceModel.t) : list gostring :=
  (SetElementsAs (aapHostResourceModel.Groups r) []).1.

(** The entry kept for a group (a host) once the remote answered [reply]:
    the body, with the id of the reply and the declared names. *)
Definition kept_group (plan : aapInventoryResourceModel.t)
    (r : aapGroupResourceModel.t) (reply : AapGroup.t) : AapGroup.t :=
  AapGroup.with_Children
    (AapGroup.with_Id (group_body plan r) (AapGroup.Id reply))
    (declared_children r).

Definition kept_host (plan : aapInventoryResourceModel.t)
    (r : aapHostResourceModel.t) (reply : AapHost.t) : AapHost.t :=
  AapHost.with_Groups
    (AapHost.with_Id (host_body plan r) (AapHost.Id reply))
    (declared_groups r).

(** The call of the update path for a declared group: an update by the
    carried id when a current group has this id, a creation otherwise. *)
Definition group_call (plan : aapInventoryResourceModel.t)
    (currentGroups : list AapGroup.t) (r : aapGroupResourceModel.t) : Call.t :=
  let groupId := ValueInt64 (aapGroupResourceModel.ID r) in
  if decide (groupId ∈ AapGroup.Id <$> currentGroups)
  then Call.UpdateGroup groupId (group_body plan r)
  else Call.CreateGroup (group_body plan r).

Definition host_call (plan : aapInventoryResourceModel.t)
    (currentHosts : list AapHost.t) (r : aapHostResourceModel.t) : Call.t :=
  let hostId := ValueInt64 (aapHostResourceModel.Id r) in
  if decide (hostId ∈ AapHost.Id <$> currentHosts)
  then Call.UpdateHost hostId (host_body plan r)
  else Call.CreateHost (host_body plan r).

(** One declared group reconciled: the object of the plan, the event it
    logged and the entry kept for it. *)
Definition group_reconciled (plan : aapInventoryResourceModel.t)
    (currentGroups : list AapGroup.t)
    (g : tfval aapGroupResourceModel.t) (e : Event) (kept : AapGroup.t) : Prop :=
  ∃ r reply,
    g = Known r ∧
    e = Called (group_call plan currentGroups r) (Reply.Group reply) ∧
    kept = kept_group plan r reply.

Definition host_reconciled (plan : aapInventoryResourceModel.t)
    (currentHosts : list AapHost.t)
    (h : tfval aapHostResourceModel.t) (e : Event) (kept : AapHost.t) : Prop :=
  ∃ r reply,
    h = Known r ∧
    e = Called (host_call plan currentHosts r) (Reply.Host reply) ∧
    kept = kept_host plan r reply.

(** One declared group created, in the create path. *)
Definition group_created (plan : aapInventoryResourceModel.t)
    (g : tfval aapGroupResourceModel.t) (e : Event) (kept : AapGroup.t) : Prop :=
  ∃ r reply,
    g = Known r ∧
    e = Called (Call.CreateGroup (group_body plan r)) (Reply.Group reply) ∧
    kept = kept_group plan r reply.

Definition host_created (plan : aapInventoryResourceModel.t)
    (h : tfval aapHostResourceModel.t) (e : Event) (kept : AapHost.t) : Prop :=
  ∃ r reply,
    h = Known r ∧
    e = Called (Call.CreateHost (host_body plan r)) (Reply.Host reply) ∧
    kept = kept_host plan r reply.

(** The deletions of the update path: the current entities whose id no
    kept entity has. *)
Definition group_deletions (currentGroups updatedGroups : list AapGroup.t) :
    list Event :=
  (λ g, Called (Call.DeleteGroup (AapGroup.Id g)) Reply.Done)
    <$> filter (λ g, AapGroup.Id g ∉ AapGroup.Id <$> updatedGroups)
          currentGroups.

Definition host_deletions (currentHosts updatedHosts : list AapHost.t) :
    list Event :=
  (λ h, Called (Call.DeleteHost (AapHost.Id h)) Reply.Done)
    <$> filter (λ h, AapHost.Id h ∉ AapHost.Id <$> updatedHosts)
          currentHosts.

(** *** The phases of a pass *)

(** Every event a piece of a handler logs is of the kind [C]. *)
Definition within {W A} (prior : option aapInventoryResourceModel.t)
    (C : Event → Prop) (m : M W A) : Prop :=
  produces prior m (λ _ evs, Forall C evs) (λ evs, Forall C evs).

(** In the log, the remote answered the id [id] to the creation or the
    update of a group (a host) named [name]. *)
Definition group_reconciled_as (evs : list Event) (name : gostring)
    (id : Z) : Prop :=
  ∃ call body reply,
    Called call (Reply.Group reply) ∈ evs ∧
    (call = Call.CreateGroup body ∨ ∃ i, call = Call.UpdateGroup i body) ∧
    AapGroup.Name body = name ∧
    AapGroup.Id reply = id.

Definition host_reconciled_as (evs : list Event) (name : gostring)
    (id : Z) : Prop :=
  ∃ call body reply,
    Called call (Reply.Host reply) ∈ evs ∧
    (call = Call.CreateHost body ∨ ∃ i, call = Call.UpdateHost i body) ∧
    AapHost.Name body = name ∧
    AapHost.Id reply = id.

(** ... and to a creation. *)
Definition group_created_as (evs : list Event) (name : gostring)
    (id : Z) : Prop :=
  ∃ body reply,
    Called (Call.CreateGroup body) (Reply.Group reply) ∈ evs ∧
    AapGroup.Name body = name ∧
    AapGroup.Id reply = id.

Definition host_created_as (evs : list Event) (name : gostring)
    (id : Z) : Prop :=
  ∃ body reply,
    Called (Call.CreateHost body) (Reply.Host reply) ∈ evs ∧
    AapHost.Name body = name ∧
    AapHost.Id reply = id.

(** The log backs a kept group: the remote answered its id to the creation
    or the update of a group of its name. *)
Definition group_answered (evs : list Event) (g : AapGroup.t) : Prop :=
  group_reconciled_as evs (AapGroup.Name g) (AapGroup.Id g).

Definition host_answered (evs : list Event) (h : AapHost.t) : Prop :=
  host_reconciled_as evs (AapHost.Name h) (AapHost.Id h).

(** Events that create a group, a host. *)
Definition creates_group (e : Event) : Prop :=
  match e with Called (Call.CreateGroup _) _ => True | _ => False end.

Definition creates_host (e : Event) : Prop :=
  match e with Called (Call.CreateHost _) _ => True | _ => False end.

(** [c] is the id a name resolves to in a group set. *)
Definition resolved_in (groups : list AapGroup.t) (c : Z) : Prop :=
  ∃ n, GroupIdFromName n groups = (c, None).

(** The kinds of events of the four phases of the create path: the
    inventory and the groups; the children of the kept groups [G]; the
    hosts; the groups of the kept hosts [H] and the state write. *)
Definition create_A (e : Event) : Prop :=
  match e with
  | Called (Call.CreateInventory _) _ | Called (Call.CreateGroup _) _
  | Diagnosed _ => True
  | _ => False
  end.

Definition create_B (G : list AapGroup.t) (e : Event) : Prop :=
  match e with
  | Called (Call.AddChildToGroup p c) _ =>
      p ∈ AapGroup.Id <$> G ∧ resolved_in G c
  | Diagnosed _ => True
  | _ => False
  end.

Definition create_C (e : Event) : Prop :=
  match e with
  | Called (Call.CreateHost _) _ | Diagnosed _ => True
  | _ => False
  end.

Definition create_D (G : list AapGroup.t) (H : list AapHost.t) (e : Event) :
    Prop :=
  match e with
  | Called (Call.AddGroupToHost h g) _ =>
      h ∈ AapHost.Id <$> H ∧ resolved_in G g
  | Diagnosed _ | StateSet _ => True
  | _ => False
  end.

(** ... and of the update path. *)
Definition update_A (e : Event) : Prop :=
  match e with
  | Called (Call.UpdateInventory _ _) _ | Called (Call.GetInventoryGroups _) _
  | Called (Call.CreateGroup _) _ | Called (Call.UpdateGroup _ _) _
  | Diagnosed _ => True
  | _ => False
  end.

Definition update_B (G : list AapGroup.t) (e : Event) : Prop :=
  match e with
  | Called (Call.DeleteGroup _) _ | Called (Call.GetGroupChildren _) _
  | Called (Call.RemoveChildFromGroup _ _) _ | Diagnosed _ => True
  | Called (Call.AddChildToGroup p c) _ =>
      p ∈ AapGroup.Id <$> G ∧ resolved_in G c
  | _ => False
  end.

Definition update_C (e : Event) : Prop :=
  match e with
  | Called (Call.GetInventoryHosts _) _ | Called (Call.CreateHost _) _
  | Called (Call.UpdateHost _ _) _ | Diagnosed _ => True
  | _ => False
  end.

Definition update_D (G : list AapGroup.t) (H : list AapHost.t) (e : Event) :
    Prop :=
  match e with
  | Called (Call.DeleteHost _) _ | Called (Call.GetHostGroups _) _
  | Called (Call.RemoveGroupFromHost _ _) _ | Diagnosed _ | StateSet _ => True
  | Called (Call.AddGroupToHost h g) _ =>
      h ∈ AapHost.Id <$> H ∧ resolved_in G g
  | _ => False
  end.

(** A log in four phases of the kinds [A], [B], [C] and [D]: the first
    backs the kept groups [G], the third the kept hosts [H]. *)
Definition phased_C (C : Event → Prop)
    (D : list AapGroup.t → list AapHost.t → Event → Prop)
    (G : list AapGroup.t) (evs : list Event) : Prop :=
  ∃ eC eD H,
    evs = eC ++ eD ∧ Forall C eC ∧ Forall (host_answered eC) H ∧
    Forall (D G H) eD.

Definition phased_B (B : list AapGroup.t → Event → Prop) (C : Event → Prop)
    (D : list AapGroup.t → list AapHost.t → Event → Prop)
    (G : list AapGroup.t) (evs : list Event) : Prop :=
  ∃ eB rest, evs = eB ++ rest ∧ Forall (B G) eB ∧ phased_C C D G rest.

Definition phased (A : Event → Prop) (B : list AapGroup.t → Event → Prop)
    (C : Event → Prop)
    (D : list AapGroup.t → list AapHost.t → Event → Prop)
    (evs : list Event) : Prop :=
  ∃ eA rest G,
    evs = eA ++ rest ∧ Forall A eA ∧ Forall (group_answered eA) G ∧
    phased_B B C D G rest.

(** The out-of-band scenario: group D (id 6) was deleted on the remote
    behind the back of the state, which still carries its id. *)
Definition world_lost : Remote.t :=
  Eval vm_compute in (Remote.DeleteGroup 6 world_P).2.

Definition log_lost : list Event :=
  Eval vm_compute in
    log (run (Update (Remote.client 25) plan_P') world_lost None).

(** The entity-diff scenario: of the remote groups P, A, B, C and D, the
    plan keeps P, A and C and declares a new group E. *)
Definition plan_diff : aapInventoryResourceModel.t :=
  decl_inventory (Known 1) "Inv"
    [decl_group (Known 2) "P" []; decl_group (Known 3) "A" [];
     decl_group (Known 5) "C" []; decl_group Unknown "E" []]
    [].

(** A short form of a call for examples: its name and its ids. *)
Definition brief (c : Call.t) : string * Z * Z :=
  match c with
  | Call.CreateInventory _ => ("CreateInventory", 0, 0)
  | Call.GetInventory _ => ("GetInventory", 0, 0)
  | Call.UpdateInventory i _ => ("UpdateInventory", i, 0)
  | Call.DeleteInventory _ => ("DeleteInventory", 0, 0)
  | Call.CreateGroup _ => ("CreateGroup", 0, 0)
  | Call.UpdateGroup i _ => ("UpdateGroup", i, 0)
  | Call.DeleteGroup i => ("DeleteGroup", i, 0)
  | Call.GetInventoryGroups i => ("GetInventoryGroups", i, 0)
  | Call.GetGroupChildren i => ("GetGroupChildren", i, 0)
  | Call.AddChildToGroup a b => ("AddChildToGroup", a, b)
  | Call.RemoveChildFromGroup a b => ("RemoveChildFromGroup", a, b)
  | Call.CreateHost _ => ("CreateHost", 0, 0)
  | Call.UpdateHost i _ => ("UpdateHost", i, 0)
  | Call.DeleteHost i => ("DeleteHost", i, 0)
  | Call.GetInventoryHosts i => ("GetInventoryHosts", i, 0)
  | Call.GetHostGroups i => ("GetHostGroups", i, 0)
  | Call.AddGroupToHost a b => ("AddGroupToHost", a, b)
  | Call.RemoveGroupFromHost a b => ("RemoveGroupFromHost", a, b)
  end.

(** *** What a snapshot holds *)

(** An object of the snapshot holds the names that the object of the plan
    declares. *)
Definition group_as_declared (g o : tfval aapGroupResourceModel.t) : Prop :=
  ∃ r o',
    g = Known r ∧ o = Known o' ∧
    SetElements (aapGroupResourceModel.Children o')
      = Known <$> declared_children r.

Definition host_as_declared (h o : tfval aapHostResourceModel.t) : Prop :=
  ∃ r o',
    h = Known r ∧ o = Known o' ∧
    SetElements (aapHostResourceModel.Groups o')
      = Known <$> declared_groups r.

Definition snapshot_as_declared (plan s : aapInventoryResourceModel.t) : Prop :=
  Forall2 group_as_declared
    (SetElements (aapInventoryResourceModel.Groups plan))
    (SetElements (aapInventoryResourceModel.Groups s)) ∧
  Forall2 host_as_declared
    (SetElements (aapInventoryResourceModel.Hosts plan))
    (SetElements (aapInventoryResourceModel.Hosts s)).

(** A call that lists the members of an association. *)
Definition lists_members (e : Event) : Prop :=
  match e with
  | Called (Call.GetGroupChildren _) _ | Called (Call.GetHostGroups _) _ => True
  | _ => False
  end.

(** The names the gateway lists, in a world, as the children of a group
    and as the groups of a host. *)
Definition listed_children {W} (client : AAPClient.t W) (w : W) (id : Z) :
    list gostring :=
  match (AAPClient.GetGroupChildren client id w).1 with
  | Ok l => AapGroup.Name <$> l
  | Fail _ => []
  end.

Definition listed_groups {W} (client : AAPClient.t W) (w : W) (id : Z) :
    list gostring :=
  match (AAPClient.GetHostGroups client id w).1 with
  | Ok l => AapGroup.Name <$> l
  | Fail _ => []
  end.

(** The snapshot a pass left is fresh: every group in it holds the names
    the gateway lists as its children after the pass, and every host the
    names the gateway lists as its groups. *)
Definition snapshot_fresh {W} (client : AAPClient.t W) (st : St W) : Prop :=
  ∀ s, Response.State (resp st) = Some s →
    (∀ o, Known o ∈ SetElements (aapInventoryResourceModel.Groups s) →
       SetElements (aapGroupResourceModel.Children o)
       = Known <$> listed_children client (world st)
                     (ValueInt64 (aapGroupResourceModel.ID o))) ∧
    (∀ o, Known o ∈ SetElements (aapInventoryResourceModel.Hosts s) →
       SetElements (aapHostResourceModel.Groups o)
       = Known <$> listed_groups client (world st)
                     (ValueInt64 (aapHostResourceModel.Id o))).

(** A group with two children, for a remote whose list pages hold one
    result. *)
Definition plan_two : aapInventoryResourceModel.t :=
  decl_inventory Unknown "Inv"
    [decl_group Unknown "P" ["A"; "B"]; decl_group Unknown "A" [];
     decl_group Unknown "B" []]
    [].

(** A kept entity holds the names that the object of the plan declares,
    and an object of the snapshot holds the names of the kept entity. *)
Definition group_keeps (g : tfval aapGroupResourceModel.t)
    (kept : AapGroup.t) : Prop :=
  ∃ r, g = Known r ∧ AapGroup.Children kept = declared_children r.

Definition host_keeps (h : tfval aapHostResourceModel.t)
    (kept : AapHost.t) : Prop :=
  ∃ r, h = Known r ∧ AapHost.Groups kept = declared_groups r.

Definition group_shown (kept : AapGroup.t)
    (o : tfval aapGroupResourceModel.t) : Prop :=
  ∃ o', o = Known o' ∧
    SetElements (aapGroupResourceModel.Children o')
      = Known <$> AapGroup.Children kept.

Definition host_shown (kept : AapHost.t)
    (o : tfval aapHostResourceModel.t) : Prop :=
  ∃ o', o = Known o' ∧
    SetElements (aapHostResourceModel.Groups o')
      = Known <$> AapHost.Groups kept.

(** A pass that ends with the write of a snapshot [s] such that [K s]. *)
Definition writes (K : aapInventoryResourceModel.t → Prop)
    (evs : list Event) : Prop :=
  ∃ pre s, evs = pre ++ [StateSet s] ∧ K s.

Definition state_two : St Remote.t :=
  Eval vm_compute in run (Create (Remote.client 1) plan_two) Remote.empty None.

(** The object of group P in the snapshot of that pass. *)
Definition object_P : aapGroupResourceModel.t :=
  aapGroupResourceModel.mk (Known 2) (Known 1) (Known (str "P"))
    (Known [Known (str "A"); Known (str "B")]) Null Null.

(** The entity-diff scenario after its groups were created or updated:
    the kept groups and the state of the handler. *)
Definition kept_diff : list AapGroup.t :=
  Eval vm_compute in
    default []
      (Update_groups (Remote.client 25) plan_diff (Remote.groups world_P)
         (SetElements (aapInventoryResourceModel.Groups plan_diff))
         (enter world_P None)).1.

Definition state_diff : St Remote.t :=
  Eval vm_compute in
    (Update_groups (Remote.client 25) plan_diff (Remote.groups world_P)
       (SetElements (aapInventoryResourceModel.Groups plan_diff))
       (enter world_P None)).2.

(** *** The log is the record of the interaction *)

(** What the gateway answers to a call in a world, and the world after. *)
Definition reply_of {A} (k : A → Reply.t) (r : res A) : Reply.t :=
  match r with
  | Ok a => k a
  | Fail e => Reply.Error e
  end.

Definition answer {A W} (k : A → Reply.t) (out : res A * W) : Reply.t * W :=
  (reply_of k out.1, out.2).

Definition perform {W} (client : AAPClient.t W) (c : Call.t) (w : W) :
    Reply.t * W :=
  match c with
  | Call.CreateInventory body =>
      answer Reply.Inventory (AAPClient.CreateInventory client body w)
  | Call.GetInventory id =>
      answer Reply.Inventory (AAPClient.GetInventory client id w)
  | Call.UpdateInventory id body =>
      answer Reply.Inventory (AAPClient.UpdateInventory client id body w)
  | Call.DeleteInventory id =>
      answer (λ _, Reply.Done) (AAPClient.DeleteInventory client id w)
  | Call.CreateGroup body =>
      answer Reply.Group (AAPClient.CreateGroup client body w)
  | Call.UpdateGroup id body =>
      answer Reply.Group (AAPClient.UpdateGroup client id body w)
  | Call.DeleteGroup id =>
      answer (λ _, Reply.Done) (AAPClient.DeleteGroup client id w)
  | Call.GetInventoryGroups id =>
      answer Reply.Groups (AAPClient.GetInventoryGroups client id w)
  | Call.GetGroupChildren id =>
      answer Reply.Groups (AAPClient.GetGroupChildren client id w)
  | Call.AddChildToGroup id child =>
      answer (λ _, Reply.Done) (AAPClient.AddChildToGroup client id child w)
  | Call.RemoveChildFromGroup id child =>
      answer (λ _, Reply.Done)
        (AAPClient.RemoveChildFromGroup client id child w)
  | Call.CreateHost body =>
      answer Reply.Host (AAPClient.CreateHost client body w)
  | Call.UpdateHost id body =>
      answer Reply.Host (AAPClient.UpdateHost client id body w)
  | Call.DeleteHost id =>
      answer (λ _, Reply.Done) (AAPClient.DeleteHost client id w)
  | Call.GetInventoryHosts id =>
      answer Reply.Hosts (AAPClient.GetInventoryHosts client id w)
  | Call.GetHostGroups id =>
      answer Reply.Groups (AAPClient.GetHostGroups client id w)
  | Call.AddGroupToHost id group =>
      answer (λ _, Reply.Done) (AAPClient.AddGroupToHost client id group w)
  | Call.RemoveGroupFromHost id group =>
      answer (λ _, Reply.Done)
        (AAPClient.RemoveGroupFromHost client id group w)
  end.

(** [replays client w evs w']: the calls of [evs], made in this order from
    the world [w], get the replies recorded in [evs] and lead to [w']. *)
Inductive replays {W} (client : AAPClient.t W) : W → list Event → W → Prop :=
| replays_nil w : replays client w [] w
| replays_call w c r w' evs w'' :
    perform client c w = (r, w') → replays client w' evs w'' →
    replays client w (Called c r :: evs) w''
| replays_diag w d evs w' :
    replays client w evs w' → replays client w (Diagnosed d :: evs) w'
| replays_write w s evs w' :
    replays client w evs w' → replays client w (StateSet s :: evs) w'.

(** A piece of a handler whose log is the record of what it did with the
    gateway. *)
Definition genuine {W A} (client : AAPClient.t W) (m : M W A) : Prop :=
  ∀ st, ∃ evs,
    log (m st).2 = log st ++ evs ∧
    replays client (world st) evs (world (m st).2).

(** The groups the reference remote lists as the children of a group. *)
Definition listed_children_groups (w : Remote.t) (id : Z) : list AapGroup.t :=
  match (Remote.GetGroupChildren 25 id w).1 with
  | Ok l => l
  | Fail _ => []
  end.

(** * Further properties of the code *)

(** ** What the snapshot builder gives *)

(** A variables text that [encoding/json] decodes into a
    [map[string]string], and the mapping it holds (JSON [null] holds the
    empty one). *)
Definition decodable (variables : gostring) : Prop :=
  is_Some (Json.Unmarshal variables).


(** The diagnostic of [VariablesStringToMap]. *)
Definition unmarshal_error : Diagnostic :=
  ErrorDiagnostic "Error unmarshalling variables string"
    (str "Could not convert variables string to map, unexpected error: ")
    (Some ErrJson).

Definition is_known {A} (v : tfval A) : bool :=
  match v with Known _ => true | _ => false end.

(** The forms of an optional attribute in a snapshot: null, or known and
    not empty, with known elements. *)
Definition normal_string (v : tfval gostring) : bool :=
  match v with
  | Null => true
  | Known (_ :: _) => true
  | _ => false
  end.

Definition normal_set (v : tfval (list (tfval gostring))) : bool :=
  match v with
  | Null => true
  | Known (x :: l) => forallb is_known (x :: l)
  | _ => false
  end.

Definition normal_map (v : MapValue) : bool :=
  match v with
  | Null => true
  | Known m => negb (bool_decide (m = ∅)) && all_known m
  | Unknown => false
  end.

Definition normal_group (r : aapGroupResourceModel.t) : bool :=
  is_known (aapGroupResourceModel.Name r)
  && normal_set (aapGroupResourceModel.Children r)
  && normal_string (aapGroupResourceModel.Description r)
  && normal_map (aapGroupResourceModel.Variables r).

Definition normal_host (r : aapHostResourceModel.t) : bool :=
  is_known (aapHostResourceModel.Name r)
  && normal_set (aapHostResourceModel.Groups r)
  && normal_string (aapHostResourceModel.Description r)
  && normal_map (aapHostResourceModel.Variables r).



(** The object that stands in a snapshot for a declared group (host):
    the declaration, with the id the remote gave and the id of the
    inventory. *)
Definition group_object (plan : aapInventoryResourceModel.t)
    (r : aapGroupResourceModel.t) (reply : AapGroup.t) :
    tfval aapGroupResourceModel.t :=
  Known (aapGroupResourceModel.mk
           (Known (AapGroup.Id reply))
           (Known (ValueInt64 (aapInventoryResourceModel.ID plan)))
           (aapGroupResourceModel.Name r)
           (aapGroupResourceModel.Children r)
           (aapGroupResourceModel.Description r)
           (aapGroupResourceModel.Variables r)).

Definition host_object (plan : aapInventoryResourceModel.t)
    (r : aapHostResourceModel.t) (reply : AapHost.t) :
    tfval aapHostResourceModel.t :=
  Known (aapHostResourceModel.mk
           (Known (AapHost.Id reply))
           (Known (ValueInt64 (aapInventoryResourceModel.ID plan)))
           (aapHostResourceModel.Name r)
           (aapHostResourceModel.Description r)
           (aapHostResourceModel.Groups r)
           (aapHostResourceModel.Variables r)).

#[global] Instance decodable_dec s : Decision (decodable s).
Proof. unfold decodable. apply _. Defined.

(** Data for examples: two groups named A, a group whose variables text
    is empty, and a declared group in normal form. *)
Definition groups_BAA : list AapGroup.t :=
  [AapGroup.mk 3 1 (str "B") [] [] (str "null");
   AapGroup.mk 2 1 (str "A") [] [] (str "null");
   AapGroup.mk 9 1 (str "A") [] [] (str "null")].


Definition model_A : aapGroupResourceModel.t :=
  aapGroupResourceModel.mk Unknown Unknown (Known (str "A"))
    (Known [Known (str "B")]) (Known (str "first"))
    (Known {[ str "k" := Known (str "v") ]}).

Definition group_schema (g : AapGroup.t) : tfval aapGroupResourceModel.t :=
  Known (aapGroupResourceModel.mk
           (Known (AapGroup.Id g))
           (Known (AapGroup.Inventory g))
           (Known (AapGroup.Name g))
           (SetValueFrom Known (AapGroup.Children g))
           (if decide (AapGroup.Description g ≠ [])
            then Known (AapGroup.Description g) else Null)
           (VariablesStringToMap (AapGroup.Variables g)).1).

Definition host_schema (h : AapHost.t) : tfval aapHostResourceModel.t :=
  Known (aapHostResourceModel.mk
           (Known (AapHost.Id h))
           (Known (AapHost.Inventory h))
           (Known (AapHost.Name h))
           (if decide (AapHost.Description h ≠ [])
            then Known (AapHost.Description h) else Null)
           (SetValueFrom Known (AapHost.Groups h))
           (VariablesStringToMap (AapHost.Variables h)).1).

(** *** The kinds of calls of each handler *)

Definition create_call (c : Call.t) : bool :=
  match c with
  | Call.CreateInventory _ | Call.CreateGroup _ | Call.CreateHost _
  | Call.AddChildToGroup _ _ | Call.AddGroupToHost _ _ => true
  | _ => false
  end.

Definition read_call (c : Call.t) : bool :=
  match c with
  | Call.GetInventory _ | Call.GetInventoryGroups _ | Call.GetGroupChildren _
  | Call.GetInventoryHosts _ | Call.GetHostGroups _ => true
  | _ => false
  end.

Definition update_call (c : Call.t) : bool :=
  match c with
  | Call.CreateInventory _ | Call.GetInventory _ | Call.DeleteInventory _ =>
      false
  | _ => true
  end.

Definition calls_only (k : Call.t → bool) (e : Event) : Prop :=
  match e with
  | Called c _ => k c = true
  | _ => True
  end.

(** *** What a read pass does *)

(** The groups of a listing with the names of the children listed for
    each, and the listing calls that gave them. *)
Definition read_groups (groups : list AapGroup.t)
    (children : list (list AapGroup.t)) : list AapGroup.t :=
  zip_with (λ g c, AapGroup.with_Children g (AapGroup.Name <$> c))
    groups children.

Definition read_hosts (hosts : list AapHost.t)
    (hostGroups : list (list AapGroup.t)) : list AapHost.t :=
  zip_with (λ h c, AapHost.with_Groups h (AapGroup.Name <$> c))
    hosts hostGroups.

Definition children_listings (groups : list AapGroup.t)
    (children : list (list AapGroup.t)) : list Event :=
  zip_with (λ g c, Called (Call.GetGroupChildren (AapGroup.Id g))
                     (Reply.Groups c))
    groups children.

Definition hostGroups_listings (hosts : list AapHost.t)
    (hostGroups : list (list AapGroup.t)) : list Event :=
  zip_with (λ h c, Called (Call.GetHostGroups (AapHost.Id h))
                     (Reply.Groups c))
    hosts hostGroups.

(** The plan (or the state) with the attributes of the inventory as the
    gateway answered them, and the snapshot a pass writes: this, with the
    objects of the kept groups and hosts. *)
Definition answered_plan (plan : aapInventoryResourceModel.t)
    (inventory : AapInventory.t) : aapInventoryResourceModel.t :=
  with_Variables (with_inventory plan inventory)
    (VariablesStringToMap (AapInventory.Variables inventory)).1.

Definition pass_snapshot (plan : aapInventoryResourceModel.t)
    (groups : list AapGroup.t) (hosts : list AapHost.t) :
    aapInventoryResourceModel.t :=
  with_Hosts
    (with_Groups plan (SetValueFrom id (GroupsToSchema groups).1))
    (SetValueFrom id (HostsToSchema hosts).1).

(** The state a read pass writes from what the gateway answered. *)
Definition read_snapshot (state : aapInventoryResourceModel.t)
    (inventory : AapInventory.t) (groups : list AapGroup.t)
    (hosts : list AapHost.t) : aapInventoryResourceModel.t :=
  pass_snapshot (answered_plan state inventory) groups hosts.

(** The log of a read pass that goes through. *)
Definition read_log (state : aapInventoryResourceModel.t)
    (inventory : AapInventory.t)
    (groups : list AapGroup.t) (children : list (list AapGroup.t))
    (hosts : list AapHost.t) (hostGroups : list (list AapGroup.t)) :
    list Event :=
  [Called (Call.GetInventory
             (Int64String (aapInventoryResourceModel.ID state)))
     (Reply.Inventory inventory);
   Called (Call.GetInventoryGroups (AapInventory.Id inventory))
     (Reply.Groups groups)]
  ++ children_listings groups children
  ++ [Called (Call.GetInventoryHosts (AapInventory.Id inventory))
        (Reply.Hosts hosts)]
  ++ hostGroups_listings hosts hostGroups
  ++ [StateSet (read_snapshot state inventory
                  (read_groups groups children)
                  (read_hosts hosts hostGroups))].

(** The variables texts a read pass decodes: the one of the inventory and
    those of the groups and hosts listed for it. *)
Definition checked_variables (e : Event) : list gostring :=
  match e with
  | Called (Call.GetInventory _) (Reply.Inventory i) =>
      [AapInventory.Variables i]
  | Called (Call.GetInventoryGroups _) (Reply.Groups l) =>
      AapGroup.Variables <$> l
  | Called (Call.GetInventoryHosts _) (Reply.Hosts l) =>
      AapHost.Variables <$> l
  | _ => []
  end.

(** A remote whose inventory 1 has a group A with an empty variables
    text, and the state that names this inventory. *)
Definition world_bare : Remote.t :=
  Eval vm_compute in
    (Remote.CreateGroup (AapGroup.mk 0 1 (str "A") [] [] [])
       (Remote.CreateInventory
          (AapInventory.mk 0 1 (str "Inv") [] (str "{}")) Remote.empty).2).2.

Definition state_1 : aapInventoryResourceModel.t :=
  decl_inventory (Known 1%Z) "Inv" [] [].

(** *** What a create pass and an update pass do *)

(** The request bodies for the inventory. *)
Definition create_body (plan : aapInventoryResourceModel.t) : AapInventory.t :=
  AapInventory.mk 0 1
    (ValueString (aapInventoryResourceModel.Name plan))
    (ValueString (aapInventoryResourceModel.Description plan))
    (VariablesMapToString (aapInventoryResourceModel.Variables plan)).1.

Definition update_body (plan : aapInventoryResourceModel.t) : AapInventory.t :=
  AapInventory.mk 0
    (ValueInt64 (aapInventoryResourceModel.Organization plan))
    (ValueString (aapInventoryResourceModel.Name plan))
    (ValueString (aapInventoryResourceModel.Description plan))
    (VariablesMapToString (aapInventoryResourceModel.Variables plan)).1.

(** The associations of the create path: one per declared child of each
    kept group, one per declared group of each kept host, by the id the
    name has among the kept groups. *)
Definition child_associations (G : list AapGroup.t) : list Event :=
  List.concat
    ((λ g, (λ n, Called (Call.AddChildToGroup (AapGroup.Id g)
                           (GroupIdFromName n G).1) Reply.Done)
             <$> AapGroup.Children g) <$> G).

Definition host_associations (G : list AapGroup.t) (H : list AapHost.t) :
    list Event :=
  List.concat
    ((λ h, (λ n, Called (Call.AddGroupToHost (AapHost.Id h)
                           (GroupIdFromName n G).1) Reply.Done)
             <$> AapHost.Groups h) <$> H).

(** Every member name of the kept entities is the name of a kept group. *)
Definition names_closed (G : list AapGroup.t) (H : list AapHost.t) : Prop :=
  Forall (λ g, Forall (λ n, n ∈ AapGroup.Name <$> G) (AapGroup.Children g)) G ∧
  Forall (λ h, Forall (λ n, n ∈ AapGroup.Name <$> G) (AapHost.Groups h)) H.

(** The log of a create pass that goes through. *)
Definition create_log (plan : aapInventoryResourceModel.t)
    (inventory : AapInventory.t)
    (evG : list Event) (G : list AapGroup.t)
    (evH : list Event) (H : list AapHost.t) : list Event :=
  [Called (Call.CreateInventory (create_body plan)) (Reply.Inventory inventory)]
  ++ evG ++ child_associations G
  ++ evH ++ host_associations G H
  ++ [StateSet (pass_snapshot (answered_plan plan inventory) G H)].

(** The reconciliations of the update path, given what the gateway lists
    for each kept group (host). *)
Definition children_reconciliations (G : list AapGroup.t)
    (currents : list (list AapGroup.t)) : list Event :=
  List.concat (zip_with (group_reconciliation G) G currents).

Definition hostGroups_reconciliations (G : list AapGroup.t)
    (H : list AapHost.t) (currents : list (list AapGroup.t)) : list Event :=
  List.concat (zip_with (host_reconciliation G) H currents).

(** The log of an update pass that goes through. *)
Definition update_log (plan : aapInventoryResourceModel.t)
    (inventory : AapInventory.t)
    (currentGroups : list AapGroup.t) (evG : list Event) (G : list AapGroup.t)
    (children : list (list AapGroup.t))
    (currentHosts : list AapHost.t) (evH : list Event) (H : list AapHost.t)
    (hostGroups : list (list AapGroup.t)) : list Event :=
  let inventoryId := ValueInt64 (aapInventoryResourceModel.ID plan) in
  [Called (Call.UpdateInventory inventoryId (update_body plan))
     (Reply.Inventory inventory);
   Called (Call.GetInventoryGroups inventoryId) (Reply.Groups currentGroups)]
  ++ evG ++ group_deletions currentGroups G
  ++ children_reconciliations G children
  ++ [Called (Call.GetInventoryHosts inventoryId) (Reply.Hosts currentHosts)]
  ++ evH ++ host_deletions currentHosts H
  ++ hostGroups_reconciliations G H hostGroups
  ++ [StateSet (pass_snapshot (answered_plan plan inventory) G H)].

(** A declared entity in normal form, and its object in a snapshot: the
    declaration with an id and the id of the inventory. *)
Definition declared_normal_group (g : tfval aapGroupResourceModel.t) : bool :=
  match g with Known r => normal_group r | _ => false end.

Definition declared_normal_host (h : tfval aapHostResourceModel.t) : bool :=
  match h with Known r => normal_host r | _ => false end.

Definition group_as_planned (inventoryId : Z)
    (g o : tfval aapGroupResourceModel.t) : Prop :=
  ∃ r id, g = Known r ∧
    o = Known (aapGroupResourceModel.mk (Known id) (Known inventoryId)
                 (aapGroupResourceModel.Name r)
                 (aapGroupResourceModel.Children r)
                 (aapGroupResourceModel.Description r)
                 (aapGroupResourceModel.Variables r)).

Definition host_as_planned (inventoryId : Z)
    (h o : tfval aapHostResourceModel.t) : Prop :=
  ∃ r id, h = Known r ∧
    o = Known (aapHostResourceModel.mk (Known id) (Known inventoryId)
                 (aapHostResourceModel.Name r)
                 (aapHostResourceModel.Description r)
                 (aapHostResourceModel.Groups r)
                 (aapHostResourceModel.Variables r)).

(** *** How a failed call is reported *)

(** The four handlers, and the pass of each on a plan or a state. *)
Inductive Handler := OnCreate | OnRead | OnUpdate | OnDelete.

Definition pass {W} (client : AAPClient.t W) (h : Handler)
    (x : aapInventoryResourceModel.t) : M W unit :=
  match h with
  | OnCreate => Create client x
  | OnRead => Read client x
  | OnUpdate => Update client x
  | OnDelete => Delete client x
  end.

(** The summary under which each handler reports the failure of a call
    (the empty text for the calls it never makes). *)
Definition failure_summary (h : Handler) (c : Call.t) : string :=
  match h, c with
  | OnCreate, Call.CreateInventory _ => "Error creating AAP inventory"
  | OnCreate, Call.CreateGroup _ => "Error creating AAP group"
  | OnCreate, Call.AddChildToGroup _ _ => "Error creating AAP group child"
  | OnCreate, Call.CreateHost _ => "Error creating AAP host"
  | OnCreate, Call.AddGroupToHost _ _ => "Error adding AAP group to host"
  | OnRead, Call.GetInventory _ => "Error reading AAP inventory"
  | OnRead, Call.GetInventoryGroups _ => "Error reading AAP inventory groups"
  | OnRead, Call.GetGroupChildren _ => "Error reading AAP group children"
  | OnRead, Call.GetInventoryHosts _ => "Error reading AAP inventory hosts"
  | OnRead, Call.GetHostGroups _ => "Error reading AAP host groups"
  | OnUpdate, Call.UpdateInventory _ _ => "Error updating AAP inventory"
  | OnUpdate, Call.GetInventoryGroups _ =>
      "Error retrieving groups for inventory"
  | OnUpdate, Call.CreateGroup _ => "Error creating AAP group"
  | OnUpdate, Call.UpdateGroup _ _ => "Error updating AAP group"
  | OnUpdate, Call.DeleteGroup _ => "Error deleting group"
  | OnUpdate, Call.GetGroupChildren _ =>
      "Error retrieving current children for group"
  | OnUpdate, Call.AddChildToGroup _ _ => "Error adding child to group"
  | OnUpdate, Call.RemoveChildFromGroup _ _ =>
      "Error removing child from group"
  | OnUpdate, Call.GetInventoryHosts _ => "Error retrieving hosts for inventory"
  | OnUpdate, Call.CreateHost _ => "Error creating AAP host"
  | OnUpdate, Call.UpdateHost _ _ => "Error updating AAP host"
  | OnUpdate, Call.DeleteHost _ => "Error deleting group"
  | OnUpdate, Call.GetHostGroups _ =>
      "Error retrieving current groups for host"
  | OnUpdate, Call.AddGroupToHost _ _ => "Error adding group to host"
  | OnUpdate, Call.RemoveGroupFromHost _ _ =>
      "Error removing group from host"
  | OnDelete, Call.DeleteInventory _ => "Error deleting AAP inventory"
  | _, _ => ""
  end.

(** The way a handler stops, with the summary of a failed call given by
    [L]. *)
Definition labelled_tail (L : Call.t → string) (tail : list Event) : Prop :=
  (∃ c e detail,
     tail = [Called c (Reply.Error e);
             Diagnosed (ErrorDiagnostic (L c) detail (Some e))]) ∨
  (∃ ds, ds ≠ [] ∧ tail = Diagnosed <$> ds).

Definition halted (L : Call.t → string) (evs : list Event) : Prop :=
  ∃ evs0 tail, evs = evs0 ++ tail ∧ Forall answered evs0 ∧ labelled_tail L tail.

Definition reporting {W A} (prior : option aapInventoryResourceModel.t)
    (L : Call.t → string) (m : M W A) : Prop :=
  produces prior m (λ _ evs, Forall answered evs) (halted L).

Definition reporting_whole {W A} (prior : option aapInventoryResourceModel.t)
    (L : Call.t → string) (m : M W A) : Prop :=
  produces prior m (λ _, completed) (halted L).

(** ** The HTTP client ([client.go])

    The client over the part of [net/http] it uses: whether a request can
    be built ([http.NewRequest], whose error the source drops), and the
    exchange itself ([client.Do] followed by [io.ReadAll]), which moves a
    network state [T].  Decoding a response body into a struct
    ([json.Unmarshal]) is the [Codec].  Encoding a request body has no
    error on the types encoded here, so these branches of the source are
    unreachable and not represented. *)

Module Http.

(** A decoded JSON document ([interface{}] as [json.Unmarshal] fills it);
    a number is kept as its literal. *)
#[warnings="-register-all"]
Inductive any :=
| nil_
| bool_ (b : bool)
| float64_ (literal : gostring)
| string_ (s : gostring)
| slice_ (l : list any)
| map_ (m : gmap gostring any).

Record AAPClient := mkClient {
  HostURL : gostring;
  Username : option gostring;
  Password : option gostring;
  InsecureSkipVerify : bool
}.

Record AnsibleHost := mkAnsibleHost {
  Name : gostring;
  Groups : list gostring;
  Variables : gmap gostring gostring
}.

Record PagedGroupsResponse := mkPagedGroups {
  GroupsCount : Z;
  GroupsNext : gostring;
  GroupsPrevious : gostring;
  GroupsResults : list AapGroup.t
}.

Record PagedHostsResponse := mkPagedHosts {
  HostsCount : Z;
  HostsNext : gostring;
  HostsPrevious : gostring;
  HostsResults : list AapHost.t
}.

Record Request := mkRequest {
  Method : string;
  URL : gostring;
  Body : option gostring;
  BasicAuth : option (gostring * gostring);
  Header : list (string * string);
  TLSInsecureSkipVerify : bool
}.

Record Response := mkResponse {
  StatusCode : Z;
  ResponseBody : gostring
}.

Record Net (T : Type) := mkNet {
  NewRequest_ok : string → gostring → bool;
  Do : Request → T → (Response + gostring) * T
}.
Arguments NewRequest_ok {T}.
Arguments Do {T}.

Record Codec := mkCodec {
  Unmarshal_AapGroup : gostring → res AapGroup.t;
  Unmarshal_AapHost : gostring → res AapHost.t;
  Unmarshal_AapInventory : gostring → res AapInventory.t;
  Unmarshal_PagedGroupsResponse : gostring → res PagedGroupsResponse;
  Unmarshal_PagedHostsResponse : gostring → res PagedHostsResponse;
  Unmarshal_map : gostring → res (gmap gostring any)
}.

(** What a function of the client does: it returns (a value or an error)
    or it panics. *)
Inductive outcome (A : Type) : Type :=
| Returns (r : res A)
| Panics.
Arguments Returns {A} r.
Arguments Panics {A}.

Definition aapSuccessCodes : list Z := [200; 201; 202; 204].

(** [strings.HasSuffix], and [slices.Contains] on ints. *)
Definition HasSuffix (s suffix : gostring) : bool :=
  (length suffix <=? length s)%nat
  && bool_decide (drop (length s - length suffix) s = suffix).

Fixpoint Contains (s : list Z) (v : Z) : bool :=
  match s with
  | [] => false
  | x :: s' => if x =? v then true else Contains s' v
  end.

(** NewClient - *)
Definition NewClient (host : gostring) (username password : option gostring)
    (insecure_skip_verify : bool) : res AAPClient :=
  let host := if negb (HasSuffix host (str "/")) then host ++ str "/" else host in
  let client := mkClient host username password insecure_skip_verify in
  Ok client.

Section Client.
Context {T : Type} (net : Net T) (codec : Codec).

(** When the request cannot be built, [req] is nil and setting a header
    on it panics. *)
Definition MakeRequest (c : AAPClient) (method : string) (endpoint : gostring)
    (requestBody : option gostring) (t : T) : outcome gostring * T :=
  if negb (NewRequest_ok net method endpoint) then (Panics, t)
  else
    let auth :=
      match Username c, Password c with
      | Some username, Some password => Some (username, password)
      | _, _ => None
      end in
    let req :=
      mkRequest method endpoint requestBody auth
        [("Accept", "application/json"); ("Content-Type", "application/json")]
        (InsecureSkipVerify c) in
    match Do net req t with
    | (inr err, t') => (Returns (Fail (ErrRemote err)), t')
    | (inl resp, t') =>
        if negb (Contains aapSuccessCodes (StatusCode resp)) then
          (Returns (Fail (ErrRemote
             (str "status: " ++ Itoa (StatusCode resp) ++ str ", body: "
                ++ ResponseBody resp))), t')
        else (Returns (Ok (ResponseBody resp)), t')
    end.

(** [response, err := c.MakeRequest(...); if err != nil { return nil, err };
    return parse(response)]. *)
Definition parsed {A} (made : outcome gostring * T) (parse : gostring → res A) :
    outcome A * T :=
  match made with
  | (Returns (Ok response), t') => (Returns (parse response), t')
  | (Returns (Fail err), t') => (Returns (Fail err), t')
  | (Panics, t') => (Panics, t')
  end.

(** [_, err = c.MakeRequest(...); if err != nil { return err }; return nil]. *)
Definition done_ (made : outcome gostring * T) : outcome unit * T :=
  parsed made (λ _, Ok tt).

(** [json.NewEncoder(&buf).Encode(map[string]int64{"id": id})] and the
    same for a [DisassociateRequest]. *)
Definition Encode_id (id : Z) : gostring :=
  [Json.lbrace] ++ Json.appendString (str "id") ++ [Json.colon] ++ Itoa id
  ++ [Json.rbrace; 10%N].

Definition Encode_DisassociateRequest (id : Z) : gostring :=
  [Json.lbrace] ++ Json.appendString (str "id") ++ [Json.colon] ++ Itoa id
  ++ [Json.comma] ++ Json.appendString (str "disassociate") ++ [Json.colon]
  ++ str "true" ++ [Json.rbrace; 10%N].

(** Parse responses *)
Definition ParseGroupResponse (body : gostring) : res AapGroup.t :=
  Unmarshal_AapGroup codec body.

Definition ParseHostResponse (body : gostring) : res AapHost.t :=
  Unmarshal_AapHost codec body.

Definition ParseInventoryResponse (body : gostring) : res AapInventory.t :=
  Unmarshal_AapInventory codec body.

Definition ParsePagedGroupsResponse (body : gostring) : res (list AapGroup.t) :=
  match Unmarshal_PagedGroupsResponse codec body with
  | Fail err => Fail err
  | Ok groupsResponse => Ok (GroupsResults groupsResponse)
  end.

Definition ParsePagedHostsResponse (body : gostring) : res (list AapHost.t) :=
  match Unmarshal_PagedHostsResponse codec body with
  | Fail err => Fail err
  | Ok hostsResponse => Ok (HostsResults hostsResponse)
  end.

(** The type assertions of [GetAnsibleHost]: [value.(string)] on an
    element, and the assertions on a looked-up value. *)
Definition string_of (value : any) : option gostring :=
  match value with string_ s => Some s | _ => None end.

Definition as_string (v : option any) : option gostring :=
  match v with Some (string_ s) => Some s | _ => None end.

Definition as_slice (v : option any) : option (list any) :=
  match v with Some (slice_ l) => Some l | _ => None end.

Definition as_map (v : option any) : option (gmap gostring any) :=
  match v with Some (map_ m) => Some m | _ => None end.

(** [resource_type, ok := resource_obj["type"];
    ok && resource_type == "ansible_host"]. *)
Definition is_ansible_host (resource_type : option any) : bool :=
  match resource_type with
  | Some (string_ s) => bool_decide (s = str "ansible_host")
  | _ => false
  end.

(** The body of the innermost block: the host of an [attributes] object;
    [None] when one of its type assertions panics. *)
Definition host_of (attributes : gmap gostring any) : option AnsibleHost :=
  name ← as_string (attributes !! str "name");
  groups ← as_slice (attributes !! str "groups");
  groups ← mapM string_of groups;
  variables ← as_map (attributes !! str "variables");
  if bool_decide (map_Forall (λ _ value, is_Some (string_of value)) variables)
  then Some (mkAnsibleHost name groups (omap string_of variables))
  else None.

(** The loop over the instances of a resource. *)
Fixpoint instances_hosts (hosts : list AnsibleHost) (instances : list any) :
    option (list AnsibleHost) :=
  match instances with
  | [] => Some hosts
  | instance :: instances' =>
      match instance with
      | map_ instance_obj =>
          match as_map (instance_obj !! str "attributes") with
          | Some attributes =>
              host ← host_of attributes;
              instances_hosts (hosts ++ [host]) instances'
          | None => instances_hosts hosts instances'
          end
      | _ => None
      end
  end.

(** The loop over the resources. *)
Fixpoint resources_hosts (hosts : list AnsibleHost) (resources : list any) :
    option (list AnsibleHost) :=
  match resources with
  | [] => Some hosts
  | resource :: resources' =>
      match resource with
      | map_ resource_obj =>
          if is_ansible_host (resource_obj !! str "type") then
            match as_slice (resource_obj !! str "instances") with
            | Some instances =>
                hosts' ← instances_hosts hosts instances;
                resources_hosts hosts' resources'
            | None => resources_hosts hosts resources'
            end
          else resources_hosts hosts resources'
      | _ => None
      end
  end.

Definition GetAnsibleHost (body : gostring) : outcome (list AnsibleHost) :=
  match Unmarshal_map codec body with
  | Fail err => Returns (Fail err)
  | Ok result =>
      match as_slice (result !! str "resources") with
      | Some resources =>
          match resources_hosts [] resources with
          | Some hosts => Returns (Ok hosts)
          | None => Panics
          end
      | None => Returns (Ok [])
      end
  end.

(** The methods of [*AAPClient]. *)
Definition AddChildToGroup (c : AAPClient) (groupId : gostring)
    (childGroupId : Z) (t : T) : outcome unit * T :=
  let buf := Encode_id childGroupId in
  done_ (MakeRequest c "POST"
           (HostURL c ++ str "api/v2/groups/" ++ groupId ++ str "/children/")
           (Some buf) t).

Definition AddGroupToHost (c : AAPClient) (hostId : gostring) (groupId : Z)
    (t : T) : outcome unit * T :=
  let buf := Encode_id groupId in
  done_ (MakeRequest c "POST"
           (HostURL c ++ str "api/v2/hosts/" ++ hostId ++ str "/groups/")
           (Some buf) t).

Definition CreateGroup (c : AAPClient) (requestBody : gostring) (t : T) :
    outcome AapGroup.t * T :=
  parsed (MakeRequest c "POST" (HostURL c ++ str "api/v2/groups/")
            (Some requestBody) t)
    ParseGroupResponse.

Definition CreateHost (c : AAPClient) (requestBody : gostring) (t : T) :
    outcome AapHost.t * T :=
  parsed (MakeRequest c "POST" (HostURL c ++ str "api/v2/hosts/")
            (Some requestBody) t)
    ParseHostResponse.

Definition CreateInventory (c : AAPClient) (requestBody : gostring) (t : T) :
    outcome AapInventory.t * T :=
  parsed (MakeRequest c "POST" (HostURL c ++ str "api/v2/inventories/")
            (Some requestBody) t)
    ParseInventoryResponse.

Definition DeleteGroup (c : AAPClient) (groupId : gostring) (t : T) :
    outcome unit * T :=
  done_ (MakeRequest c "DELETE"
           (HostURL c ++ str "api/v2/groups/" ++ groupId ++ str "/") None t).

Definition DeleteHost (c : AAPClient) (hostId : gostring) (t : T) :
    outcome unit * T :=
  done_ (MakeRequest c "DELETE"
           (HostURL c ++ str "api/v2/hosts/" ++ hostId ++ str "/") None t).

Definition DeleteInventory (c : AAPClient) (inventoryId : gostring) (t : T) :
    outcome unit * T :=
  done_ (MakeRequest c "DELETE"
           (HostURL c ++ str "api/v2/inventories/" ++ inventoryId ++ str "/")
           None t).

Definition GetGroup (c : AAPClient) (groupId : gostring) (t : T) :
    outcome AapGroup.t * T :=
  parsed (MakeRequest c "GET"
            (HostURL c ++ str "api/v2/groups/" ++ groupId ++ str "/") None t)
    ParseGroupResponse.

Definition GetGroupChildren (c : AAPClient) (groupId : gostring) (t : T) :
    outcome (list AapGroup.t) * T :=
  parsed (MakeRequest c "GET"
            (HostURL c ++ str "api/v2/groups/" ++ groupId ++ str "/children")
            None t)
    ParsePagedGroupsResponse.

Definition GetHostGroups (c : AAPClient) (hostId : gostring) (t : T) :
    outcome (list AapGroup.t) * T :=
  parsed (MakeRequest c "GET"
            (HostURL c ++ str "api/v2/hosts/" ++ hostId ++ str "/groups")
            None t)
    ParsePagedGroupsResponse.

Definition GetHosts (c : AAPClient) (stateId : gostring) (t : T) :
    outcome (list AnsibleHost) * T :=
  match MakeRequest c "GET"
          (HostURL c ++ str "api/v2/state/" ++ stateId ++ str "/") None t with
  | (Returns (Ok response), t') => (GetAnsibleHost response, t')
  | (Returns (Fail err), t') => (Returns (Fail err), t')
  | (Panics, t') => (Panics, t')
  end.

Definition GetInventory (c : AAPClient) (inventoryId : gostring) (t : T) :
    outcome AapInventory.t * T :=
  parsed (MakeRequest c "GET"
            (HostURL c ++ str "api/v2/inventories/" ++ inventoryId ++ str "/")
            None t)
    ParseInventoryResponse.

Definition GetInventoryGroups (c : AAPClient) (inventoryId : gostring)
    (t : T) : outcome (list AapGroup.t) * T :=
  parsed (MakeRequest c "GET"
            (HostURL c ++ str "api/v2/inventories/" ++ inventoryId
               ++ str "/groups/") None t)
    ParsePagedGroupsResponse.

Definition GetInventoryHosts (c : AAPClient) (inventoryId : gostring)
    (t : T) : outcome (list AapHost.t) * T :=
  parsed (MakeRequest c "GET"
            (HostURL c ++ str "api/v2/inventories/" ++ inventoryId
               ++ str "/hosts/") None t)
    ParsePagedHostsResponse.

Definition RemoveChildFromGroup (c : AAPClient) (groupId : gostring)
    (childGroupId : Z) (t : T) : outcome unit * T :=
  let buf := Encode_DisassociateRequest childGroupId in
  done_ (MakeRequest c "POST"
           (HostURL c ++ str "api/v2/groups/" ++ groupId ++ str "/children/")
           (Some buf) t).

Definition RemoveGroupFromHost (c : AAPClient) (hostId : gostring)
    (groupId : Z) (t : T) : outcome unit * T :=
  let buf := Encode_DisassociateRequest groupId in
  done_ (MakeRequest c "POST"
           (HostURL c ++ str "api/v2/hosts/" ++ hostId ++ str "/groups/")
           (Some buf) t).

Definition UpdateGroup (c : AAPClient) (groupId : gostring)
    (requestBody : gostring) (t : T) : outcome AapGroup.t * T :=
  parsed (MakeRequest c "PUT"
            (HostURL c ++ str "api/v2/groups/" ++ groupId ++ str "/")
            (Some requestBody) t)
    ParseGroupResponse.

Definition UpdateHost (c : AAPClient) (hostId : gostring)
    (requestBody : gostring) (t : T) : outcome AapHost.t * T :=
  parsed (MakeRequest c "PUT"
            (HostURL c ++ str "api/v2/hosts/" ++ hostId ++ str "/")
            (Some requestBody) t)
    ParseHostResponse.

Definition UpdateInventory (c : AAPClient) (inventoryId : gostring)
    (requestBody : gostring) (t : T) : outcome AapInventory.t * T :=
  parsed (MakeRequest c "PUT"
            (HostURL c ++ str "api/v2/inventories/" ++ inventoryId ++ str "/")
            (Some requestBody) t)
    ParseInventoryResponse.

End Client.

(** The attributes of an instance have the shape of the host [h]: a name,
    a list of group names and a mapping of variables, all strings. *)
Definition shaped (attributes : gmap gostring any) (h : AnsibleHost) : Prop :=
  attributes !! str "name" = Some (string_ (Name h)) ∧
  attributes !! str "groups" = Some (slice_ (string_ <$> Groups h)) ∧
  attributes !! str "variables" = Some (map_ (string_ <$> Variables h)).

(** [h] is the host of an instance of the list, and of an instance of an
    [ansible_host] resource of the document. *)
Definition instanced (instances : list any) (h : AnsibleHost) : Prop :=
  ∃ instance_obj attributes,
    map_ instance_obj ∈ instances ∧
    instance_obj !! str "attributes" = Some (map_ attributes) ∧
    shaped attributes h.

Definition hosted (resources : list any) (h : AnsibleHost) : Prop :=
  ∃ resource_obj instances,
    map_ resource_obj ∈ resources ∧
    resource_obj !! str "type" = Some (string_ (str "ansible_host")) ∧
    resource_obj !! str "instances" = Some (slice_ instances) ∧
    instanced instances h.

(** The instances and the resources on which a type assertion fails. *)
Definition bad_instance (instance : any) : Prop :=
  match instance with
  | map_ instance_obj =>
      ∃ attributes,
        instance_obj !! str "attributes" = Some (map_ attributes) ∧
        ¬ ∃ h, shaped attributes h
  | _ => True
  end.

Definition bad_resource (resource : any) : Prop :=
  match resource with
  | map_ resource_obj =>
      resource_obj !! str "type" = Some (string_ (str "ansible_host")) ∧
      ∃ instances,
        resource_obj !! str "instances" = Some (slice_ instances) ∧
        Exists bad_instance instances
  | _ => True
  end.

End Http.

(** Documents for examples: a state with one [ansible_host] resource of
    one instance and a resource of another type; a state whose resources
    list holds a null; the codecs that decode every body into these. *)
Definition host_web : Http.AnsibleHost :=
  Http.mkAnsibleHost (str "web") [str "g"] {[ str "k" := str "v" ]}.

Definition doc_web : gmap gostring Http.any :=
  {[ str "resources" :=
       Http.slice_
         [Http.map_
            {[ str "type" := Http.string_ (str "ansible_host");
               str "instances" :=
                 Http.slice_
                   [Http.map_
                      {[ str "attributes" :=
                           Http.map_
                             {[ str "name" := Http.string_ (str "web");
                                str "groups" :=
                                  Http.slice_ [Http.string_ (str "g")];
                                str "variables" :=
                                  Http.map_
                                    {[ str "k" := Http.string_ (str "v") ]}
                             ]} ]} ] ]};
          Http.map_ {[ str "type" := Http.string_ (str "aws_instance") ]} ] ]}.

Definition doc_null : gmap gostring Http.any :=
  {[ str "resources" := Http.slice_ [Http.nil_] ]}.

Definition codec_of (result : gmap gostring Http.any) : Http.Codec :=
  Http.mkCodec (λ _, Fail ErrJson) (λ _, Fail ErrJson) (λ _, Fail ErrJson)
    (λ _, Fail ErrJson) (λ _, Fail ErrJson) (λ _, Ok result).

(** ** The handlers over the HTTP client

    How the handlers use the client: a request body is the struct written
    by [json.NewEncoder(&buf).Encode], an id goes as its decimal text
    ([strconv.Itoa]). *)

Module Wire.
Import Http.

(** [json.NewEncoder(&buf).Encode(v)] for the three structs.  A [[]string]
    is nil in every body the handlers encode. *)
Definition member (key : string) (value : gostring) : gostring :=
  Json.appendString (str key) ++ [Json.colon] ++ value.

Fixpoint strings_members (l : list gostring) : gostring :=
  match l with
  | [] => []
  | [s] => Json.appendString s
  | s :: l' => Json.appendString s ++ [Json.comma] ++ strings_members l'
  end.

Definition Encode_strings (l : list gostring) : gostring :=
  match l with
  | [] => str "null"
  | _ :: _ => [91%N] ++ strings_members l ++ [93%N]
  end.

Definition Encode_AapInventory (v : AapInventory.t) : gostring :=
  [Json.lbrace]
  ++ member "id" (Itoa (AapInventory.Id v)) ++ [Json.comma]
  ++ member "organization" (Itoa (AapInventory.Organization v)) ++ [Json.comma]
  ++ member "name" (Json.appendString (AapInventory.Name v)) ++ [Json.comma]
  ++ member "description" (Json.appendString (AapInventory.Description v))
  ++ [Json.comma]
  ++ member "variables" (Json.appendString (AapInventory.Variables v))
  ++ [Json.rbrace; 10%N].

Definition Encode_AapGroup (v : AapGroup.t) : gostring :=
  [Json.lbrace]
  ++ member "id" (Itoa (AapGroup.Id v)) ++ [Json.comma]
  ++ member "inventory" (Itoa (AapGroup.Inventory v)) ++ [Json.comma]
  ++ member "name" (Json.appendString (AapGroup.Name v)) ++ [Json.comma]
  ++ member "children" (Encode_strings (AapGroup.Children v)) ++ [Json.comma]
  ++ member "description" (Json.appendString (AapGroup.Description v))
  ++ [Json.comma]
  ++ member "variables" (Json.appendString (AapGroup.Variables v))
  ++ [Json.rbrace; 10%N].

Definition Encode_AapHost (v : AapHost.t) : gostring :=
  [Json.lbrace]
  ++ member "id" (Itoa (AapHost.Id v)) ++ [Json.comma]
  ++ member "inventory" (Itoa (AapHost.Inventory v)) ++ [Json.comma]
  ++ member "name" (Json.appendString (AapHost.Name v)) ++ [Json.comma]
  ++ member "groups" (Encode_strings (AapHost.Groups v)) ++ [Json.comma]
  ++ member "description" (Json.appendString (AapHost.Description v))
  ++ [Json.comma]
  ++ member "variables" (Json.appendString (AapHost.Variables v))
  ++ [Json.rbrace; 10%N].

(** A network that keeps its exchanges: each request it is given, with
    what came back. *)
Definition Exchange : Type := Request * (Response + gostring).

Definition recording {T} (net : Net T) : Net (list Exchange * T) :=
  mkNet (list Exchange * T) (NewRequest_ok net)
    (λ req w,
       let '(r, t') := Do net req w.2 in (r, (w.1 ++ [(req, r)], t'))).

Definition requests {T} (w : list Exchange * T) : list Request := fst <$> w.1.

(** The error [MakeRequest] makes of what came back: the error of the
    exchange, or a status that is none of 200, 201, 202 and 204. *)
Definition failed_exchange (back : Response + gostring) : option error :=
  match back with
  | inr err => Some (ErrRemote err)
  | inl resp =>
      if Http.Contains aapSuccessCodes (StatusCode resp) then None
      else Some (ErrRemote
                   (str "status: " ++ Itoa (StatusCode resp) ++ str ", body: "
                      ++ ResponseBody resp))
  end.

(** The result of a method that did not panic.  (Over a network on which
    every request can be built no method panics.) *)
Definition returned {A T} (o : outcome A * T) : res A * T :=
  match o with
  | (Returns r, t) => (r, t)
  | (Panics, t) => (Fail (ErrRemote (str "panic")), t)
  end.

(** The client as the gateway of the handlers. *)
Definition gateway {T} (net : Net T) (codec : Codec) (c : Http.AAPClient) :
    AAPClient.t T :=
  AAPClient.mk T
    (λ body t,
       returned (CreateInventory net codec c (Encode_AapInventory body) t))
    (λ id t, returned (GetInventory net codec c id t))
    (λ id body t,
       returned (UpdateInventory net codec c (Itoa id)
                   (Encode_AapInventory body) t))
    (λ id t, returned (DeleteInventory net c id t))
    (λ body t, returned (CreateGroup net codec c (Encode_AapGroup body) t))
    (λ id body t,
       returned (UpdateGroup net codec c (Itoa id) (Encode_AapGroup body) t))
    (λ id t, returned (DeleteGroup net c (Itoa id) t))
    (λ id t, returned (GetInventoryGroups net codec c (Itoa id) t))
    (λ id t, returned (GetGroupChildren net codec c (Itoa id) t))
    (λ id child t, returned (AddChildToGroup net c (Itoa id) child t))
    (λ id child t, returned (RemoveChildFromGroup net c (Itoa id) child t))
    (λ body t, returned (CreateHost net codec c (Encode_AapHost body) t))
    (λ id body t,
       returned (UpdateHost net codec c (Itoa id) (Encode_AapHost body) t))
    (λ id t, returned (DeleteHost net c (Itoa id) t))
    (λ id t, returned (GetInventoryHosts net codec c (Itoa id) t))
    (λ id t, returned (GetHostGroups net codec c (Itoa id) t))
    (λ id group t, returned (AddGroupToHost net c (Itoa id) group t))
    (λ id group t, returned (RemoveGroupFromHost net c (Itoa id) group t)).

(** The verb, the path under [api/v2/] and the body of the request that
    stands for a call of a handler. *)
Definition verb (call : Call.t) : string :=
  match call with
  | Call.GetInventory _ | Call.GetInventoryGroups _ | Call.GetGroupChildren _
  | Call.GetInventoryHosts _ | Call.GetHostGroups _ => "GET"
  | Call.UpdateInventory _ _ | Call.UpdateGroup _ _ | Call.UpdateHost _ _ =>
      "PUT"
  | Call.DeleteInventory _ | Call.DeleteGroup _ | Call.DeleteHost _ => "DELETE"
  | _ => "POST"
  end.

Definition path (call : Call.t) : gostring :=
  match call with
  | Call.CreateInventory _ => str "inventories/"
  | Call.GetInventory id => str "inventories/" ++ id ++ str "/"
  | Call.UpdateInventory id _ => str "inventories/" ++ Itoa id ++ str "/"
  | Call.DeleteInventory id => str "inventories/" ++ id ++ str "/"
  | Call.CreateGroup _ => str "groups/"
  | Call.UpdateGroup id _ => str "groups/" ++ Itoa id ++ str "/"
  | Call.DeleteGroup id => str "groups/" ++ Itoa id ++ str "/"
  | Call.GetInventoryGroups id =>
      str "inventories/" ++ Itoa id ++ str "/groups/"
  | Call.GetGroupChildren id => str "groups/" ++ Itoa id ++ str "/children"
  | Call.AddChildToGroup id _ => str "groups/" ++ Itoa id ++ str "/children/"
  | Call.RemoveChildFromGroup id _ =>
      str "groups/" ++ Itoa id ++ str "/children/"
  | Call.CreateHost _ => str "hosts/"
  | Call.UpdateHost id _ => str "hosts/" ++ Itoa id ++ str "/"
  | Call.DeleteHost id => str "hosts/" ++ Itoa id ++ str "/"
  | Call.GetInventoryHosts id =>
      str "inventories/" ++ Itoa id ++ str "/hosts/"
  | Call.GetHostGroups id => str "hosts/" ++ Itoa id ++ str "/groups"
  | Call.AddGroupToHost id _ => str "hosts/" ++ Itoa id ++ str "/groups/"
  | Call.RemoveGroupFromHost id _ =>
      str "hosts/" ++ Itoa id ++ str "/groups/"
  end.

Definition body (call : Call.t) : option gostring :=
  match call with
  | Call.CreateInventory b | Call.UpdateInventory _ b =>
      Some (Encode_AapInventory b)
  | Call.CreateGroup b | Call.UpdateGroup _ b => Some (Encode_AapGroup b)
  | Call.CreateHost b | Call.UpdateHost _ b => Some (Encode_AapHost b)
  | Call.AddChildToGroup _ id | Call.AddGroupToHost _ id =>
      Some (Encode_id id)
  | Call.RemoveChildFromGroup _ id | Call.RemoveGroupFromHost _ id =>
      Some (Encode_DisassociateRequest id)
  | _ => None
  end.

(** What the network is asked: the verb, the URL and the body. *)
Definition asked (r : Request) : string * gostring * option gostring :=
  (Method r, URL r, Body r).

Definition request_line (c : Http.AAPClient) (call : Call.t) :
    string * gostring * option gostring :=
  (verb call, HostURL c ++ str "api/v2/" ++ path call, body call).

(** The verbs a handler uses. *)
Definition verbs (h : Handler) : list string :=
  match h with
  | OnCreate => ["POST"]
  | OnRead => ["GET"]
  | OnUpdate => ["PUT"; "GET"; "POST"; "DELETE"]
  | OnDelete => ["DELETE"]
  end.

End Wire.

(** The calls each handler makes. *)
Definition delete_call (c : Call.t) : bool :=
  match c with Call.DeleteInventory _ => true | _ => false end.

Definition handler_call (h : Handler) : Call.t → bool :=
  match h with
  | OnCreate => create_call
  | OnRead => read_call
  | OnUpdate => update_call
  | OnDelete => delete_call
  end.

(** The calls of a log with their replies. *)
Definition called (l : list Event) : list (Call.t * Reply.t) :=
  omap (λ e, match e with Called c r => Some (c, r) | _ => None end) l.

(** A network for examples: it answers every request with the status 404
    and an empty body. *)
Definition net_404 : Http.Net unit :=
  Http.mkNet unit (λ _ _, true) (λ _ t, (inl (Http.mkResponse 404 []), t)).

Definition client_local : Http.AAPClient :=
  Http.mkClient (str "http://localhost/") None None false.

(** * Properties *)

(** ** encoding/json: decoding what was encoded *)

Section JsonFacts.
Import Json.
Local Open Scope N_scope.

Lemma small_rune_check :
  forallb (λ n, let r := N.of_nat n in
     match u4 48 48 (hexdigit (r / 16)) (hexdigit (r mod 16)) with
     | Some r' => (r' =? r) | None => false end) (seq 0 128) = true.
Proof. vm_compute. reflexivity. Qed.

Lemma u4_small r : r < 128 →
  u4 48 48 (hexdigit (r / 16)) (hexdigit (r mod 16)) = Some r.
Proof.
  intros Hr.
  pose proof small_rune_check as H.
  rewrite forallb_forall in H.
  specialize (H (N.to_nat r)).
  rewrite N2Nat.id in H. cbv zeta in H.
  destruct (u4 _ _ _ _) as [r'|].
  - f_equal. apply N.eqb_eq. apply H. apply in_seq. lia.
  - exfalso. assert (false = true) by (apply H; apply in_seq; lia). discriminate.
Qed.

Lemma unquote_plain r X :
  r ≠ quote → r ≠ backslash → 32 <= r →
  unquote (r :: X) = push r (unquote X).
Proof.
  intros H1 H2 H3. cbn [unquote].
  destruct (N.eqb_spec r quote); [done|].
  destruct (N.eqb_spec r backslash); [done|].
  destruct (N.ltb_spec r 32); [lia|]. done.
Qed.

Lemma unquote_escape_rune r X :
  unquote (escape_rune r ++ X) = push r (unquote X).
Proof.
  unfold escape_rune.
  destruct (N.ltb_spec r 128) as [Hlt|Hge].
  - destruct (N.eqb_spec r backslash) as [->|Hb]; [reflexivity|].
    destruct (N.eqb_spec r quote) as [->|Hq]; [reflexivity|].
    cbn [orb].
    destruct (N.eqb_spec r 10) as [->|H10]; [reflexivity|].
    destruct (N.eqb_spec r 13) as [->|H13]; [reflexivity|].
    destruct (N.eqb_spec r 9) as [->|H9]; [reflexivity|].
    destruct (N.ltb_spec r 32) as [H32|H32]; cbn [orb].
    + cbn [app unquote]. change (backslash =? quote) with false.
      change (backslash =? backslash) with true. change (117 =? 117) with true.
      cbv iota. rewrite u4_small by done.
      replace (IsSurrogate r) with false; [done|].
      unfold IsSurrogate. destruct (N.leb_spec 55296 r); [lia|done].
    + destruct (N.eqb_spec r 60) as [->|H60]; [reflexivity|].
      destruct (N.eqb_spec r 62) as [->|H62]; [reflexivity|].
      destruct (N.eqb_spec r 38) as [->|H38]; [reflexivity|].
      cbn [orb app]. by apply unquote_plain.
  - destruct (N.eqb_spec r 8232) as [->|Ha]; [reflexivity|].
    destruct (N.eqb_spec r 8233) as [->|Hb]; [reflexivity|].
    cbn [orb app]. apply unquote_plain; unfold quote, backslash; lia.
Qed.

Lemma unquote_escaped s rest :
  unquote (List.concat (escape_rune <$> s) ++ quote :: rest) = Some (s, rest).
Proof.
  induction s as [|r s IH]; [reflexivity|].
  rewrite fmap_cons. cbn [List.concat]. rewrite <- app_assoc.
  rewrite unquote_escape_rune, IH. reflexivity.
Qed.

Lemma parse_string_appendString s rest :
  parse_string (appendString s ++ rest) = Some (s, rest).
Proof.
  unfold appendString. cbn [app parse_string].
  change (quote =? quote) with true. cbv iota.
  rewrite <- app_assoc. apply unquote_escaped.
Qed.

Lemma skip_space_appendString s rest :
  skip_space (appendString s ++ rest) = appendString s ++ rest.
Proof. reflexivity. Qed.

Lemma parse_elem_appendString s rest :
  parse_elem (appendString s ++ rest) = Some (s, rest).
Proof. unfold parse_elem. by rewrite parse_string_appendString. Qed.

Lemma parse_member_step fuel m p X :
  parse_members (S fuel) m (encode_member p ++ X) =
  match skip_space X with
  | d :: s4 =>
      if d =? comma then parse_members fuel (store m p) s4
      else if d =? rbrace then Some (store m p, s4) else None
  | [] => None
  end.
Proof.
  unfold encode_member. cbn [parse_members].
  rewrite <- app_assoc, skip_space_appendString, parse_string_appendString.
  cbn [mbind option_bind app skip_space is_space].
  change (is_space colon) with false. cbv iota.
  change (colon =? colon) with true. cbv iota.
  rewrite skip_space_appendString, parse_elem_appendString.
  reflexivity.
Qed.

Lemma parse_members_encode l : ∀ fuel m rest,
  l ≠ [] → (length l ≤ fuel)%nat →
  parse_members fuel m (encode_members l ++ rbrace :: rest) =
  Some (foldl store m l, rest).
Proof.
  induction l as [|p l IH]; intros fuel m rest Hne Hfuel; [done|].
  destruct fuel as [|fuel]; [cbn in Hfuel; lia|].
  destruct l as [|q l].
  - cbn [encode_members]. rewrite parse_member_step. reflexivity.
  - change (encode_members (p :: q :: l))
      with (encode_member p ++ comma :: encode_members (q :: l)).
    rewrite <- app_assoc. rewrite parse_member_step.
    cbn [app skip_space]. change (is_space comma) with false. cbv iota.
    change (comma =? comma) with true. cbv iota.
    rewrite IH; [done|done|cbn in *; lia].
Qed.

Lemma encode_members_length l : (length l ≤ length (encode_members l))%nat.
Proof.
  induction l as [|p l IH]; [done|].
  destruct l as [|q l].
  - cbn. lia.
  - change (encode_members (p :: q :: l))
      with (encode_member p ++ comma :: encode_members (q :: l)).
    rewrite length_app. cbn [length] in *. lia.
Qed.

Lemma encode_members_head p l :
  ∃ X, encode_members (p :: l) = quote :: X.
Proof. destruct l; eexists; reflexivity. Qed.

Lemma parse_object_encode l :
  parse_object (encode_members l ++ [rbrace]) = Some (foldl store ∅ l, []).
Proof.
  destruct l as [|p l]; [reflexivity|].
  unfold parse_object.
  destruct (encode_members_head p l) as [X HX].
  rewrite HX at 1. cbn [app skip_space]. change (is_space quote) with false.
  cbv iota. change (quote =? rbrace) with false. cbv iota.
  apply parse_members_encode; [done|].
  rewrite length_app. pose proof (encode_members_length (p :: l)). lia.
Qed.

Lemma foldl_store_list_to_map (l : list (gostring * gostring)) (m : gmap gostring gostring) :
  NoDup l.*1 → foldl store m l = list_to_map l ∪ m.
Proof.
  revert m. induction l as [|[k v] l IH]; intros m Hnd.
  - cbn. by rewrite (left_id_L ∅ (∪)).
  - apply NoDup_cons in Hnd as [Hk Hnd]. cbn [foldl]. rewrite IH by done.
    unfold store; cbn. rewrite <- insert_union_r.
    + by rewrite insert_union_l.
    + by apply not_elem_of_list_to_map_1.
Qed.

Theorem Unmarshal_Marshal (m : gmap gostring gostring) :
  Unmarshal (Marshal (Some m)) = Some (Some m).
Proof.
  unfold Marshal, Unmarshal. cbn [skip_space]. change (is_space lbrace) with false.
  cbv iota. change (lbrace =? lbrace) with true. cbv iota.
  rewrite parse_object_encode. cbn.
  do 2 f_equal.
  assert (Hp : merge_sort key_le (map_to_list m) ≡ₚ map_to_list m)
    by apply merge_sort_Permutation.
  rewrite foldl_store_list_to_map.
  - rewrite (right_id_L ∅ (∪)).
    rewrite <- (list_to_map_to_list m) at 2.
    apply list_to_map_proper; [|done].
    rewrite Hp. apply NoDup_fst_map_to_list.
  - rewrite Hp. apply NoDup_fst_map_to_list.
Qed.

Lemma Unmarshal_Marshal_nil : Unmarshal (Marshal None) = Some None.
Proof. reflexivity. Qed.

End JsonFacts.

(** ** Variable codec *)

Lemma all_known_fmap (m : gmap gostring gostring) :
  all_known (Known <$> m) = true.
Proof.
  unfold all_known. apply bool_decide_eq_true.
  intros k v Hv. apply lookup_fmap_Some in Hv as (s & <- & _). by eexists.
Qed.

Lemma omap_known_fmap (m : gmap gostring gostring) :
  omap known (Known <$> m) = m.
Proof.
  apply map_eq. intros k. rewrite lookup_omap, lookup_fmap.
  by destruct (m !! k).
Qed.

Lemma mapping_MapValueFrom (m : gmap gostring gostring) :
  mapping (MapValueFrom (Some m)) = m.
Proof. apply omap_known_fmap. Qed.

Lemma VariablesMapToString_known (m : gmap gostring gostring) :
  VariablesMapToString (MapValueFrom (Some m)) = (Json.Marshal (Some m), []).
Proof.
  unfold VariablesMapToString, MapValueFrom, MapElementsAs.
  by rewrite all_known_fmap, omap_known_fmap.
Qed.

Lemma VariablesStringToMap_Marshal (m : gmap gostring gostring) :
  VariablesStringToMap (Json.Marshal (Some m)) =
  (if decide (m = ∅) then Null else MapValueFrom (Some m), []).
Proof.
  unfold VariablesStringToMap. rewrite Unmarshal_Marshal. cbn [maplen].
  destruct (decide (m = ∅)) as [->|Hne].
  - by rewrite map_size_empty.
  - apply map_size_non_empty_iff in Hne.
    destruct (Nat.ltb_spec 0 (size m)); [done|lia].
Qed.

(** C4.  Decoding what [VariablesMapToString] wrote for a string-to-string
    mapping [m] gives [m] again: neither direction reports a diagnostic and
    the decoded map value holds exactly the mapping [m] (the null map value
    when [m] is empty). *)
Theorem variables_round_trip (m : gmap gostring gostring) :
  let encoded := VariablesMapToString (MapValueFrom (Some m)) in
  let decoded := VariablesStringToMap encoded.1 in
  encoded.2 = [] ∧ decoded.2 = [] ∧ mapping decoded.1 = m.
Proof.
  cbv zeta. rewrite VariablesMapToString_known. cbn [fst snd].
  rewrite VariablesStringToMap_Marshal. cbn [fst snd].
  split; [done|]. split; [done|].
  destruct (decide (m = ∅)) as [->|_]; [done|].
  apply mapping_MapValueFrom.
Qed.

(** The absent (null) variables of a plan come back absent. *)
Lemma variables_round_trip_null :
  VariablesStringToMap (VariablesMapToString Null).1 = (Null, []).
Proof. reflexivity. Qed.

(** C5, as stated, fails: the known empty mapping is encoded as the
    empty-object text, and decoding the empty wire text is an error. *)
Lemma codec_empty_counterexample :
  (VariablesMapToString (MapValueFrom (Some ∅))).1 = str "{}" ∧
  HasError (VariablesStringToMap (str "")).2 = true.
Proof. split; reflexivity. Qed.

(** C5, amended.  The null map value is encoded as the JSON text [null] and
    the known empty map as [{}], both without a diagnostic; decoding either
    text gives the null map value without a diagnostic; decoding the empty
    text is the error "Error unmarshalling variables string". *)
Theorem codec_empty_forms :
  VariablesMapToString Null = (str "null", []) ∧
  VariablesMapToString (MapValueFrom (Some ∅)) = (str "{}", []) ∧
  VariablesStringToMap (str "null") = (Null, []) ∧
  VariablesStringToMap (str "{}") = (Null, []) ∧
  VariablesStringToMap (str "") =
    (Null,
     [ErrorDiagnostic "Error unmarshalling variables string"
        (str "Could not convert variables string to map, unexpected error: ")
        (Some ErrJson)]).
Proof. repeat split; reflexivity. Qed.

(** ** Name resolver *)

Lemma GroupIdFromName_absent name groups :
  Forall (λ g, AapGroup.Name g ≠ name) groups →
  GroupIdFromName name groups = (0%Z, Some (ErrGroupName name)).
Proof.
  induction 1 as [|g groups Hg _ IH]; [done|].
  cbn. by destruct (decide (AapGroup.Name g = name)).
Qed.

Lemma GroupIdFromName_found name groups :
  Exists (λ g, AapGroup.Name g = name) groups →
  ∃ g, g ∈ groups ∧ AapGroup.Name g = name ∧
       GroupIdFromName name groups = (AapGroup.Id g, None).
Proof.
  induction groups as [|g groups IH]; intros H; [by apply Exists_nil in H|].
  cbn. destruct (decide (AapGroup.Name g = name)) as [Hg|Hg].
  - exists g. split; [left|done].
  - apply Exists_cons in H as [H|H]; [done|].
    destruct (IH H) as (g' & Hin & Hn & Hr). exists g'. split; [by right|done].
Qed.

Lemma named_zero name groups :
  named name groups = O → Forall (λ g, AapGroup.Name g ≠ name) groups.
Proof.
  unfold named. intros H. apply length_zero_iff_nil in H.
  apply Forall_forall. intros g Hin Hg.
  assert (g ∈ filter (λ g, AapGroup.Name g = name) groups)
    by (by apply list_elem_of_filter).
  rewrite H in *. by eapply not_elem_of_nil.
Qed.

Lemma named_pos name groups :
  named name groups ≠ O → Exists (λ g, AapGroup.Name g = name) groups.
Proof.
  unfold named. intros H. apply Exists_exists.
  destruct (filter _ groups) as [|g l] eqn:E; [done|].
  assert (Hin : g ∈ filter (λ g, AapGroup.Name g = name) groups)
    by (rewrite E; left).
  apply list_elem_of_filter in Hin as [? ?]. eauto.
Qed.

(** C7.  When exactly one group of the set carries the name,
    [GroupIdFromName] returns the id of that group and no error; when no
    group carries it, it returns the error built for that name (and the
    zero id). *)
Theorem GroupIdFromName_contract (name : gostring) (groups : list AapGroup.t) :
  (named name groups = 1%nat →
   ∃ g, g ∈ groups ∧ AapGroup.Name g = name ∧
        GroupIdFromName name groups = (AapGroup.Id g, None)) ∧
  (named name groups = 0%nat →
   GroupIdFromName name groups = (0%Z, Some (ErrGroupName name))).
Proof.
  split; intros H.
  - apply GroupIdFromName_found, named_pos. lia.
  - by apply GroupIdFromName_absent, named_zero.
Qed.

Lemma GroupIdFromName_contract_witness :
  (∃ g, g ∈ groups_AB ∧ AapGroup.Name g = str "B" ∧
        GroupIdFromName (str "B") groups_AB = (AapGroup.Id g, None)) ∧
  GroupIdFromName (str "Z") groups_AB = (0%Z, Some (ErrGroupName (str "Z"))).
Proof.
  split.
  - apply (proj1 (GroupIdFromName_contract (str "B") groups_AB)). reflexivity.
  - apply (proj2 (GroupIdFromName_contract (str "Z") groups_AB)). reflexivity.
Defined.

(** ** Reasoning about handlers *)

Ltac proj :=
  cbn [resp log world Response.Diagnostics Response.State fst snd].

Section Logic.
Context {W : Type} (prior : option aapInventoryResourceModel.t).

Lemma diags_of_app l1 l2 : diags_of (l1 ++ l2) = diags_of l1 ++ diags_of l2.
Proof. apply omap_app. Qed.

Lemma state_of_app l1 l2 :
  state_of prior (l1 ++ l2) = state_of (state_of prior l1) l2.
Proof. apply foldl_app. Qed.

Lemma diags_of_Diagnosed ds : diags_of (Diagnosed <$> ds) = ds.
Proof. induction ds as [|d ds IH]; [done|]. cbn. f_equal. exact IH. Qed.

Lemma state_of_Diagnosed s ds : state_of s (Diagnosed <$> ds) = s.
Proof. induction ds as [|d ds IH]; [done|]. apply IH. Qed.

Lemma quiet_diags_of l : quiet l → diags_of l = [].
Proof.
  induction 1 as [|e l He _ IH]; [done|].
  destruct e; cbn in *; [done| |done]. by destruct He.
Qed.

Lemma quiet_app l1 l2 : quiet l1 → quiet l2 → quiet (l1 ++ l2).
Proof. apply Forall_app_2. Qed.

Lemma produces_ret {A} (a : A) (Q : A → list Event → Prop) R :
  Q a [] → produces (W:=W) prior (mret a) Q R.
Proof.
  intros HQ st Hco Hq. cbn. split; [done|].
  exists []. rewrite app_nil_r. repeat split; [constructor|done].
Qed.

Lemma produces_bind {A B} (m : M W A) (f : A → M W B) Q1 R1 Q R :
  produces prior m Q1 R1 →
  (∀ a evs1, Q1 a evs1 →
     produces prior (f a) (λ b evs2, Q b (evs1 ++ evs2))
       (λ evs2, R (evs1 ++ evs2))) →
  (∀ evs, R1 evs → R evs) →
  produces prior (m ≫= f) Q R.
Proof.
  intros Hm Hf HR st Hco Hq. unfold mbind, M_bind.
  specialize (Hm st Hco Hq). destruct (m st) as [[a|] st1].
  - destruct Hm as (Hco1 & evs1 & Hlog1 & Hq1 & HQ1).
    assert (Hq' : quiet (log st1)) by (rewrite Hlog1; by apply quiet_app).
    specialize (Hf a evs1 HQ1 st1 Hco1 Hq').
    destruct (f a st1) as [[b|] st2].
    + destruct Hf as (Hco2 & evs2 & Hlog2 & Hq2 & HQ2). split; [done|].
      exists (evs1 ++ evs2). rewrite Hlog2, Hlog1, app_assoc.
      split; [done|]. split; [by apply quiet_app|done].
    + destruct Hf as (Hco2 & evs2 & Hlog2 & HR2). split; [done|].
      exists (evs1 ++ evs2). by rewrite Hlog2, Hlog1, app_assoc.
  - destruct Hm as (Hco1 & evs1 & Hlog1 & HR1). split; [done|].
    exists evs1. split; [done|]. by apply HR.
Qed.

Lemma produces_mono {A} (m : M W A) Q R (Q' : A → list Event → Prop)
    (R' : list Event → Prop) :
  produces prior m Q R →
  (∀ a evs, Q a evs → Q' a evs) → (∀ evs, R evs → R' evs) →
  produces prior m Q' R'.
Proof.
  intros Hm HQ HR st Hco Hq. specialize (Hm st Hco Hq).
  destruct (m st) as [[a|] st1].
  - destruct Hm as (? & evs & ? & ? & ?). split; [done|]. exists evs. eauto.
  - destruct Hm as (? & evs & ? & ?). split; [done|]. exists evs. eauto.
Qed.

Lemma produces_check {A} (p : A * Diagnostics) Q R :
  (p.2 = [] → Q p.1 []) →
  (p.2 ≠ [] → R (Diagnosed <$> p.2)) →
  produces (W:=W) prior (check p) Q R.
Proof.
  intros HQ HR st [Hd Hs] Hq.
  unfold check, Append, ReturnIfError, mbind, M_bind, mret, M_ret.
  proj. rewrite Hd, (quiet_diags_of _ Hq). cbn [app].
  destruct p as [a [|d ds]]; cbn [fst snd HasError] in *.
  - unfold coherent. proj. cbn [fmap list_fmap]. rewrite !app_nil_r.
    rewrite (quiet_diags_of _ Hq). split; [done|].
    exists []. rewrite app_nil_r. repeat split; [constructor|]. by apply HQ.
  - unfold coherent. proj.
    rewrite diags_of_app, state_of_app, (quiet_diags_of _ Hq).
    rewrite (diags_of_Diagnosed (d :: ds)), state_of_Diagnosed.
    split; [done|]. eexists. split; [done|]. by apply HR.
Qed.

Lemma produces_try_call {A} (c : Call.t) (reply : A → Reply.t)
    (f : W → res A * W) summary detail Q R :
  (∀ a, ¬ is_diag (Called c (reply a))) →
  (∀ a, Q a [Called c (reply a)]) →
  (∀ e, R [Called c (Reply.Error e);
           Diagnosed (ErrorDiagnostic summary detail (Some e))]) →
  produces prior (try (call c reply f) summary detail) Q R.
Proof.
  intros Hnd HQ HR st [Hd Hs] Hq.
  unfold try, call, AddError, Return, mbind, M_bind, mret, M_ret.
  destruct (f (world st)) as [[a|e] w']; unfold coherent; proj.
  - rewrite diags_of_app, state_of_app. cbn. rewrite app_nil_r.
    split; [done|]. eexists. split; [done|]. split; [|done].
    constructor; [|constructor]. apply Hnd.
  - rewrite Hd, !diags_of_app, !state_of_app. cbn. rewrite app_nil_r.
    split; [done|]. eexists. rewrite <- app_assoc. split; [done|]. apply HR.
Qed.

Lemma produces_resolve name groups summary detail Q R :
  (∀ id, GroupIdFromName name groups = (id, None) → Q id []) →
  (∀ id err, GroupIdFromName name groups = (id, Some err) →
     R [Diagnosed (ErrorDiagnostic summary detail (Some err))]) →
  produces (W:=W) prior (resolve name groups summary detail) Q R.
Proof.
  intros HQ HR st [Hd Hs] Hq.
  unfold resolve, AddError, Return, mbind, M_bind, mret, M_ret.
  destruct (GroupIdFromName name groups) as [id [err|]];
    unfold coherent; proj.
  - rewrite Hd, !diags_of_app, !state_of_app. cbn.
    split; [done|]. eexists. split; [done|]. by eapply HR.
  - split; [done|]. exists []. rewrite app_nil_r.
    repeat split; [constructor|]. by apply HQ.
Qed.

Lemma produces_SetState plan Q R :
  Q tt [StateSet plan] → produces (W:=W) prior (SetState plan) Q R.
Proof.
  intros HQ st [Hd Hs] Hq.
  unfold SetState, StateSet_, Append, ReturnIfError, mbind, M_bind.
  proj. cbn [fmap list_fmap]. rewrite !app_nil_r, Hd, (quiet_diags_of _ Hq).
  cbn [HasError]. unfold coherent; proj.
  rewrite diags_of_app, state_of_app, (quiet_diags_of _ Hq). cbn.
  split; [done|]. eexists. split; [done|]. split; [|done].
  constructor; [|constructor]. cbn. tauto.
Qed.

Lemma produces_for_range {A S} (l : list A) (body : A → S → M W S)
    (Qb : A → S → S → list Event → Prop)
    (Rb : A → S → list Event → Prop) s0 :
  (∀ x s, produces prior (body x s) (Qb x s) (Rb x s)) →
  produces prior (for_range l body s0)
    (λ s' evs, steps Qb l s0 s' evs)
    (λ evs, ∃ l1 x l2 s1 evs1 evs2,
       l = l1 ++ x :: l2 ∧ steps Qb l1 s0 s1 evs1 ∧ Rb x s1 evs2 ∧
       evs = evs1 ++ evs2).
Proof.
  intros Hb. revert s0. induction l as [|x l IH]; intros s0.
  - apply produces_ret. constructor.
  - cbn [for_range]. eapply produces_bind; [apply Hb| |].
    + intros s1 evs1 HQ1. eapply produces_mono; [apply IH| |].
      * intros s' evs2 Hst. cbn. econstructor; eauto.
      * intros evs2 (l1 & y & l2 & s2 & e1 & e2 & -> & Hst & HR & ->).
        exists (x :: l1), y, l2, s2, (evs1 ++ e1), e2.
        rewrite app_assoc. repeat split; [|done]. econstructor; eauto.
    + intros evs HR. exists [], x, l, s0, [], evs.
      repeat split; [constructor|done].
Qed.

Lemma produces_for_each {A} (l : list A) (body : A → M W unit)
    (Qb : A → list Event → Prop) (Rb : A → list Event → Prop) :
  (∀ x, produces prior (body x) (λ _, Qb x) (Rb x)) →
  produces prior (for_each l body)
    (λ _ evs, steps (λ x _ _, Qb x) l tt tt evs)
    (λ evs, ∃ l1 x l2 evs1 evs2,
       l = l1 ++ x :: l2 ∧ steps (λ x _ _, Qb x) l1 tt tt evs1 ∧
       Rb x evs2 ∧ evs = evs1 ++ evs2).
Proof.
  intros Hb. unfold for_each.
  eapply produces_mono;
    [apply (produces_for_range l (λ x _, body x)
              (λ x _ _, Qb x) (λ x _, Rb x) tt); intros; apply Hb| |].
  - intros [] evs H. exact H.
  - intros evs (l1 & x & l2 & [] & e1 & e2 & ? & ? & ? & ?).
    exists l1, x, l2, e1, e2. eauto.
Qed.

End Logic.

(** ** Every handler stops at its first failure *)

Section FailFast.
Context {W : Type} (prior : option aapInventoryResourceModel.t).

Lemma stopped_app evs1 evs2 :
  Forall answered evs1 → stopped evs2 → stopped (evs1 ++ evs2).
Proof.
  intros H1 (evs0 & tail & -> & H0 & Ht).
  exists (evs1 ++ evs0), tail. rewrite app_assoc.
  repeat split; [by apply Forall_app_2|done].
Qed.

Lemma stopped_diags ds : ds ≠ [] → stopped (Diagnosed <$> ds).
Proof.
  intros H. exists [], (Diagnosed <$> ds). repeat split; [constructor|].
  right. eauto.
Qed.

Lemma stopped_call c e summary detail :
  stopped [Called c (Reply.Error e);
           Diagnosed (ErrorDiagnostic summary detail (Some e))].
Proof.
  eexists [], _. repeat split; [constructor|]. left. eauto 6.
Qed.

Lemma fail_fast_ret {A} (a : A) : fail_fast (W:=W) prior (mret a).
Proof. apply produces_ret. constructor. Qed.

Lemma fail_fast_bind {A B} (m : M W A) (f : A → M W B) :
  fail_fast prior m → (∀ a, fail_fast prior (f a)) →
  fail_fast prior (m ≫= f).
Proof.
  intros Hm Hf. eapply produces_bind; [apply Hm| |done].
  intros a evs1 H1. eapply produces_mono; [apply Hf| |].
  - intros b evs2 H2. by apply Forall_app_2.
  - intros evs2 H2. by apply stopped_app.
Qed.

Lemma fail_fast_check {A} (p : A * Diagnostics) :
  fail_fast (W:=W) prior (check p).
Proof.
  apply produces_check; [constructor|]. apply stopped_diags.
Qed.

Lemma fail_fast_try_call {A} c (reply : A → Reply.t) (f : W → res A * W)
    summary detail :
  (∀ a, answered (Called c (reply a))) →
  fail_fast prior (try (call c reply f) summary detail).
Proof.
  intros Ha. apply produces_try_call.
  - intros a Hd. specialize (Ha a). cbn in *. by destruct (reply a).
  - intros a. constructor; [apply Ha|constructor].
  - intros e. apply stopped_call.
Qed.

Lemma fail_fast_resolve name groups summary detail :
  fail_fast (W:=W) prior (resolve name groups summary detail).
Proof.
  apply produces_resolve; [constructor|].
  intros id err _. apply (stopped_diags [_]). done.
Qed.

Lemma steps_answered {A S} (Qb : A → S → S → list Event → Prop) l s s' evs :
  (∀ x s s' evs, Qb x s s' evs → Forall answered evs) →
  steps Qb l s s' evs → Forall answered evs.
Proof.
  intros HQ. induction 1; [constructor|]. apply Forall_app_2; eauto.
Qed.

Lemma fail_fast_for_range {A S} (l : list A) (body : A → S → M W S) s0 :
  (∀ x s, fail_fast prior (body x s)) →
  fail_fast prior (for_range l body s0).
Proof.
  intros Hb.
  eapply produces_mono;
    [apply (produces_for_range prior l body
              (λ _ _ _ evs, Forall answered evs) (λ _ _ evs, stopped evs)
              s0 Hb)| |].
  - intros s' evs Hst. eapply steps_answered; [|done]. by cbn.
  - intros evs (l1 & x & l2 & s1 & e1 & e2 & _ & Hst & HR & ->).
    apply stopped_app; [|done]. eapply steps_answered; [|done]. by cbn.
Qed.

Lemma fail_fast_for_each {A} (l : list A) (body : A → M W unit) :
  (∀ x, fail_fast prior (body x)) → fail_fast prior (for_each l body).
Proof. intros Hb. apply fail_fast_for_range. intros. apply Hb. Qed.

Lemma finishing_bind {A B} (m : M W A) (f : A → M W B) :
  fail_fast prior m → (∀ a, finishing prior (f a)) →
  finishing prior (m ≫= f).
Proof.
  intros Hm Hf. eapply produces_bind; [apply Hm| |done].
  intros a evs1 H1. eapply produces_mono; [apply Hf| |].
  - intros b evs2 (evs0 & s & -> & H0). exists (evs1 ++ evs0), s.
    rewrite app_assoc. split; [done|]. by apply Forall_app_2.
  - intros evs2 H2. by apply stopped_app.
Qed.

Lemma finishing_SetState plan : finishing (W:=W) prior (SetState plan).
Proof. apply produces_SetState. by exists [], plan. Qed.

End FailFast.

Ltac unfold_client :=
  unfold client_CreateInventory, client_GetInventory, client_UpdateInventory,
    client_DeleteInventory, client_CreateGroup, client_UpdateGroup,
    client_DeleteGroup, client_GetInventoryGroups, client_GetGroupChildren,
    client_AddChildToGroup, client_RemoveChildFromGroup, client_CreateHost,
    client_UpdateHost, client_DeleteHost, client_GetInventoryHosts,
    client_GetHostGroups, client_AddGroupToHost, client_RemoveGroupFromHost.

(** Walks a handler: every piece is one of the forms above. *)
Ltac fail_fast_walk :=
  repeat first
    [ apply fail_fast_ret
    | apply fail_fast_check
    | apply fail_fast_resolve
    | apply fail_fast_try_call; intros; exact I
    | apply fail_fast_for_each; intros
    | apply fail_fast_for_range; intros
    | apply fail_fast_bind; [|intros]
    | match goal with
      | |- fail_fast _ (if ?b then _ else _) => destruct b
      end
    | progress unfold_client
    | progress cbv beta zeta ].

Ltac finishing_walk lemmas :=
  repeat first
    [ apply finishing_SetState
    | apply finishing_bind; [first [lemmas | fail_fast_walk]|intros]
    | progress cbv beta zeta ].

Section HandlersFailFast.
Context {W : Type} (client : AAPClient.t W).
Context (prior : option aapInventoryResourceModel.t).

Lemma Create_groups_fail_fast plan groups :
  fail_fast prior (Create_groups client plan groups).
Proof. unfold Create_groups. fail_fast_walk. Qed.

Lemma Create_children_fail_fast newGroups :
  fail_fast prior (Create_children client newGroups).
Proof. unfold Create_children. fail_fast_walk. Qed.

Lemma Create_hosts_fail_fast plan hosts :
  fail_fast prior (Create_hosts client plan hosts).
Proof. unfold Create_hosts. fail_fast_walk. Qed.

Lemma Create_hostGroups_fail_fast newGroups newHosts :
  fail_fast prior (Create_hostGroups client newGroups newHosts).
Proof. unfold Create_hostGroups. fail_fast_walk. Qed.

Lemma Update_groups_fail_fast plan currentGroups groups :
  fail_fast prior (Update_groups client plan currentGroups groups).
Proof. unfold Update_groups. fail_fast_walk. Qed.

Lemma Update_deleteGroups_fail_fast currentGroups updatedGroups :
  fail_fast prior (Update_deleteGroups client currentGroups updatedGroups).
Proof. unfold Update_deleteGroups. fail_fast_walk. Qed.

Lemma Update_children_fail_fast updatedGroups :
  fail_fast prior (Update_children client updatedGroups).
Proof. unfold Update_children, Update_groupChildren. fail_fast_walk. Qed.

Lemma Update_hosts_fail_fast plan currentHosts hosts :
  fail_fast prior (Update_hosts client plan currentHosts hosts).
Proof. unfold Update_hosts. fail_fast_walk. Qed.

Lemma Update_deleteHosts_fail_fast currentHosts updatedHosts :
  fail_fast prior (Update_deleteHosts client currentHosts updatedHosts).
Proof. unfold Update_deleteHosts. fail_fast_walk. Qed.

Lemma Update_allHostGroups_fail_fast updatedGroups updatedHosts :
  fail_fast prior (Update_allHostGroups client updatedGroups updatedHosts).
Proof. unfold Update_allHostGroups, Update_hostGroups. fail_fast_walk. Qed.

Lemma Create_finishing plan : finishing prior (Create client plan).
Proof.
  unfold Create.
  finishing_walk ltac:(first
    [ apply Create_groups_fail_fast | apply Create_children_fail_fast
    | apply Create_hosts_fail_fast | apply Create_hostGroups_fail_fast ]).
Qed.

Lemma Update_finishing plan : finishing prior (Update client plan).
Proof.
  unfold Update.
  finishing_walk ltac:(first
    [ apply Update_groups_fail_fast | apply Update_deleteGroups_fail_fast
    | apply Update_children_fail_fast | apply Update_hosts_fail_fast
    | apply Update_deleteHosts_fail_fast
    | apply Update_allHostGroups_fail_fast ]).
Qed.

Lemma Read_finishing state : finishing prior (Read client state).
Proof.
  unfold Read, Read_children, Read_hostGroups.
  finishing_walk ltac:(fail).
Qed.

End HandlersFailFast.

(** ** Consequences for a whole pass *)

Lemma answered_not_failure e : answered e → ¬ failure e.
Proof. destruct e as [c []| |]; cbn; tauto. Qed.

Lemma split_after_answered (evs0 tail pre post : list Event) e :
  evs0 ++ tail = pre ++ e :: post → Forall answered evs0 → failure e →
  ∃ mid, pre = evs0 ++ mid ∧ tail = mid ++ e :: post.
Proof.
  revert pre. induction evs0 as [|x evs0 IH]; intros pre Heq Hans Hf.
  - exists pre. by cbn in *.
  - apply Forall_cons in Hans as [Hx Hans].
    destruct pre as [|y pre]; cbn in Heq.
    + injection Heq as -> _. by destruct (answered_not_failure e).
    + injection Heq as -> Heq. destruct (IH pre Heq Hans Hf) as (mid & -> & ->).
      by exists mid.
Qed.

Lemma diags_of_answered evs : Forall answered evs → diags_of evs = [].
Proof.
  intros H. apply quiet_diags_of. eapply Forall_impl; [done|].
  intros [] ?; cbn in *; tauto.
Qed.

Lemma state_of_answered s evs : Forall answered evs → state_of s evs = s.
Proof.
  induction 1 as [|e evs He _ IH]; [done|].
  destruct e; cbn in *; [apply IH|done|done].
Qed.

Lemma Diagnosed_split ds (mid post : list Event) e :
  Diagnosed <$> ds = mid ++ e :: post →
  Forall is_diag post ∧ is_diag e.
Proof.
  intros H.
  assert (Hall : Forall is_diag (Diagnosed <$> ds))
    by (apply Forall_fmap, Forall_true; by cbn).
  rewrite H in Hall. apply Forall_app in Hall as [_ Hall].
  by apply Forall_cons in Hall as [? ?].
Qed.

Lemma stopped_after evs pre e post :
  stopped evs → evs = pre ++ e :: post → failure e →
  Forall is_diag post ∧
  (∀ c err, e = Called c (Reply.Error err) →
     ∃ summary detail,
       post = [Diagnosed (ErrorDiagnostic summary detail (Some err))] ∧
       diags_of evs = [ErrorDiagnostic summary detail (Some err)]).
Proof.
  intros (evs0 & tail & -> & Hans & Htail) Heq Hf.
  destruct (split_after_answered _ _ _ _ _ Heq Hans Hf) as (mid & -> & ->).
  destruct Htail as [(c0 & e0 & s0 & d0 & Ht)|(ds & Hne & Ht)].
  - destruct mid as [|x mid]; cbn in Ht.
    + injection Ht as -> ->. split; [repeat constructor|].
      intros c err [= -> ->]. exists s0, d0. split; [done|].
      rewrite diags_of_app, (diags_of_answered _ Hans). done.
    + injection Ht as -> Ht. destruct mid as [|y mid]; cbn in Ht.
      * injection Ht as -> ->. split; [constructor|]. by intros c err [=].
      * injection Ht as _ Ht. by destruct mid.
  - destruct (Diagnosed_split _ _ _ _ (eq_sym Ht)) as [Hpost He].
    split; [done|].
    intros c err ->. by cbn in He.
Qed.

Lemma stopped_has_error evs : stopped evs → HasError (diags_of evs) = true.
Proof.
  intros (evs0 & tail & -> & Hans & Htail).
  rewrite diags_of_app, (diags_of_answered _ Hans). cbn [app].
  destruct Htail as [(c0 & e0 & s0 & d0 & ->)|(ds & Hne & ->)]; [done|].
  rewrite diags_of_Diagnosed. by destruct ds.
Qed.

Lemma stopped_state s evs : stopped evs → state_of s evs = s.
Proof.
  intros (evs0 & tail & -> & Hans & Htail).
  rewrite state_of_app, (state_of_answered _ _ Hans).
  destruct Htail as [(c0 & e0 & s0 & d0 & ->)|(ds & Hne & ->)]; [done|].
  apply state_of_Diagnosed.
Qed.

Lemma completed_no_failure evs pre e post :
  completed evs → evs = pre ++ e :: post → ¬ failure e.
Proof.
  intros (evs0 & s & -> & Hans) Heq Hf.
  destruct (split_after_answered _ _ _ _ _ Heq Hans Hf) as (mid & -> & Ht).
  destruct mid as [|x mid]; cbn in Ht.
  - injection Ht as <- _. done.
  - injection Ht as _ Ht. by destruct mid.
Qed.

Lemma completed_diags evs : completed evs → diags_of evs = [].
Proof.
  intros (evs0 & s & -> & Hans).
  rewrite diags_of_app, (diags_of_answered _ Hans). done.
Qed.

Lemma completed_write evs pre s post :
  completed evs → evs = pre ++ StateSet s :: post →
  post = [] ∧ Forall answered pre ∧ ∀ s0, state_of s0 evs = Some s.
Proof.
  intros (evs0 & s' & -> & Hans) Heq.
  destruct post as [|y post _] using rev_ind.
  - apply app_inj_tail in Heq as [-> [= ->]].
    repeat split; [done|]. intros s0.
    rewrite state_of_app, (state_of_answered _ _ Hans). done.
  - rewrite app_comm_cons, app_assoc in Heq.
    apply app_inj_tail in Heq as [-> _].
    apply Forall_app in Hans as [_ Hans].
    apply Forall_cons in Hans as [[] _].
Qed.

Lemma stopped_no_write evs pre s post :
  stopped evs → evs ≠ pre ++ StateSet s :: post.
Proof.
  intros (evs0 & tail & -> & Hans & Htail) Heq.
  assert (Hin : StateSet s ∈ evs0 ++ tail)
    by (rewrite Heq; apply elem_of_app; right; left).
  apply elem_of_app in Hin as [Hin|Hin].
  - rewrite Forall_forall in Hans. by apply Hans in Hin.
  - destruct Htail as [(c0 & e0 & s0 & d0 & ->)|(ds & Hne & ->)].
    + apply list_elem_of_In in Hin. cbn in Hin.
      destruct Hin as [|[|[]]]; done.
    + apply list_elem_of_fmap in Hin as (d & [=] & _).
Qed.

(** What running a whole handler gives. *)
Lemma finishing_run {W A} (m : M W A) w prior :
  finishing prior m →
  Response.Diagnostics (resp (run m w prior)) = diags_of (log (run m w prior)) ∧
  Response.State (resp (run m w prior)) = state_of prior (log (run m w prior)) ∧
  (completed (log (run m w prior)) ∨ stopped (log (run m w prior))).
Proof.
  intros Hm. unfold run.
  assert (Hco : coherent prior (enter w prior)) by done.
  assert (Hq : quiet (log (enter w prior))) by constructor.
  specialize (Hm (enter w prior) Hco Hq).
  destruct (m (enter w prior)) as [[a|] st']; cbn [snd].
  - destruct Hm as ([Hd Hs] & evs & Hlog & _ & Hc). cbn in Hlog. subst evs.
    auto.
  - destruct Hm as ([Hd Hs] & evs & Hlog & Hc). cbn in Hlog. subst evs. auto.
Qed.

(** C9.  In a create or an update pass, nothing but diagnostics follows a
    failure (a call answered with an error, or a reported error such as a
    name that does not resolve): no further call is issued and no state is
    written.  The response then has an error and holds exactly the
    diagnostics reported; a failed call is followed at once by the one
    diagnostic of the response, which carries the error of that call. *)
Theorem pass_stops_at_first_failure {W} (client : AAPClient.t W)
    (plan : aapInventoryResourceModel.t) (m : M W unit) (w : W)
    (prior : option aapInventoryResourceModel.t)
    (pre : list Event) (e : Event) (post : list Event) :
  m = Create client plan ∨ m = Update client plan →
  log (run m w prior) = pre ++ e :: post →
  failure e →
  Forall is_diag post ∧
  HasError (Response.Diagnostics (resp (run m w prior))) = true ∧
  Response.Diagnostics (resp (run m w prior)) = diags_of (log (run m w prior)) ∧
  (∀ c err, e = Called c (Reply.Error err) →
     ∃ summary detail,
       post = [Diagnosed (ErrorDiagnostic summary detail (Some err))] ∧
       Response.Diagnostics (resp (run m w prior)) =
         [ErrorDiagnostic summary detail (Some err)]).
Proof.
  intros Hm Hlog Hf.
  assert (Hfin : finishing prior m)
    by (destruct Hm as [-> | ->];
        [apply Create_finishing | apply Update_finishing]).
  destruct (finishing_run m w prior Hfin) as (Hd & Hs & [Hc|Hst]).
  - by destruct (completed_no_failure _ _ _ _ Hc Hlog).
  - destruct (stopped_after _ _ _ _ Hst Hlog Hf) as [Hpost Hcall].
    rewrite Hd. split; [done|]. split; [by apply stopped_has_error|].
    split; [done|]. exact Hcall.
Qed.

Lemma pass_stops_at_first_failure_witness :
  let st := run (Create (Remote.client 25) plan_twice) Remote.empty None in
  Forall is_diag (drop 3 log_twice) ∧
  HasError (Response.Diagnostics (resp st)) = true ∧
  Response.Diagnostics (resp st) = diags_of (log st) ∧
  (∀ c err, nth 2 log_twice (Diagnosed ConversionError)
            = Called c (Reply.Error err) →
     ∃ summary detail,
       drop 3 log_twice =
         [Diagnosed (ErrorDiagnostic summary detail (Some err))] ∧
       Response.Diagnostics (resp st) =
         [ErrorDiagnostic summary detail (Some err)]).
Proof.
  apply (pass_stops_at_first_failure (Remote.client 25) plan_twice
           (Create (Remote.client 25) plan_twice) Remote.empty None
           (take 2 log_twice) (nth 2 log_twice (Diagnosed ConversionError))
           (drop 3 log_twice)).
  - left. reflexivity.
  - vm_compute. reflexivity.
  - vm_compute. exact I.
Defined.

(** A child name that no declared group carries stops the create pass
    after the groups were created: the error names it, no association is
    attempted and nothing is persisted. *)
Example dangling_child_stops_create :
  let st := run (Create (Remote.client 25) plan_dangling) Remote.empty None in
  calls_of (log st) =
    [Call.CreateInventory (AapInventory.mk 0 1 (str "Inv") [] (str "null"));
     Call.CreateGroup (AapGroup.mk 0 1 (str "A") [] [] (str "null"))] ∧
  Response.Diagnostics (resp st) =
    [ErrorDiagnostic "Error retrieving group ID"
       (str "Could not retrieve ID for child group, unexpected error: ")
       (Some (ErrGroupName (str "Z")))] ∧
  Response.State (resp st) = None.
Proof. vm_compute. repeat split. Qed.

(** C10.  In a create or an update pass the persisted state is written
    once, as the last thing, after every call was answered and with no
    diagnostic reported; when the pass reports an error, or any call
    failed, the state in the response is still the one the pass was
    entered with. *)
Theorem state_written_last {W} (client : AAPClient.t W)
    (plan : aapInventoryResourceModel.t) (m : M W unit) (w : W)
    (prior : option aapInventoryResourceModel.t) :
  m = Create client plan ∨ m = Update client plan →
  (HasError (Response.Diagnostics (resp (run m w prior))) = true ∨
   Exists failure (log (run m w prior)) →
   Response.State (resp (run m w prior)) = prior) ∧
  (∀ pre s post, log (run m w prior) = pre ++ StateSet s :: post →
     post = [] ∧ Forall answered pre ∧
     Response.Diagnostics (resp (run m w prior)) = [] ∧
     Response.State (resp (run m w prior)) = Some s).
Proof.
  intros Hm.
  assert (Hfin : finishing prior m)
    by (destruct Hm as [-> | ->];
        [apply Create_finishing | apply Update_finishing]).
  destruct (finishing_run m w prior Hfin) as (Hd & Hs & [Hc|Hst]).
  - split.
    + intros [He|He].
      * rewrite Hd, (completed_diags _ Hc) in He. done.
      * apply Exists_exists in He as (e & Hin & Hf).
        apply list_elem_of_In, in_split in Hin as (pre & post & Hlog).
        by destruct (completed_no_failure _ _ _ _ Hc Hlog).
    + intros pre s post Hlog.
      destruct (completed_write _ _ _ _ Hc Hlog) as (-> & Hans & Hw).
      rewrite Hd, Hs, (completed_diags _ Hc), Hw. done.
  - split.
    + intros _. rewrite Hs. by apply stopped_state.
    + intros pre s post Hlog. by destruct (stopped_no_write _ pre s post Hst).
Qed.

Lemma state_written_last_witness :
  Response.State
    (resp (run (Create (Remote.client 25) plan_twice) Remote.empty None))
  = None ∧
  (([] : list Event) = [] ∧ Forall answered (removelast log_AB) ∧
   Response.Diagnostics
     (resp (run (Create (Remote.client 25) plan_AB) Remote.empty None)) = [] ∧
   Response.State
     (resp (run (Create (Remote.client 25) plan_AB) Remote.empty None))
   = Some (last_write log_AB)).
Proof.
  split.
  - apply (proj1 (state_written_last (Remote.client 25) plan_twice
                    (Create (Remote.client 25) plan_twice) Remote.empty None
                    (or_introl eq_refl))).
    left. vm_compute. reflexivity.
  - apply (proj2 (state_written_last (Remote.client 25) plan_AB
                    (Create (Remote.client 25) plan_AB) Remote.empty None
                    (or_introl eq_refl))
             (removelast log_AB) (last_write log_AB) []).
    vm_compute. reflexivity.
Defined.

(** The remote keeps what a failed pass had already created: nothing is
    rolled back. *)
Example failed_create_is_not_rolled_back :
  let st := run (Create (Remote.client 25) plan_twice) Remote.empty None in
  HasError (Response.Diagnostics (resp st)) = true ∧
  Response.State (resp st) = None ∧
  AapInventory.Name <$> Remote.inventories (world st) = [str "Inv"] ∧
  AapGroup.Name <$> Remote.groups (world st) = [str "A"].
Proof. vm_compute. repeat split. Qed.

(** ** Set reconciliation of associations *)

Lemma IndexFunc_ge {A} (s : list A) f : (-1 ≤ IndexFunc s f)%Z.
Proof.
  induction s as [|x s IH]; cbn; [lia|].
  destruct (f x); [lia|]. destruct (Z.eqb_spec (IndexFunc s f) (-1)); lia.
Qed.

Lemma IndexFunc_none {A} (s : list A) f :
  (IndexFunc s f =? -1)%Z = negb (existsb f s).
Proof.
  induction s as [|x s IH]; [done|]. cbn.
  destruct (f x); [done|]. cbn.
  pose proof (IndexFunc_ge s f).
  destruct (Z.eqb_spec (IndexFunc s f) (-1)) as [E|E]; rewrite <- IH.
  - done.
  - apply Z.eqb_neq. lia.
Qed.

Lemma existsb_name (current : list AapGroup.t) n :
  existsb (λ g, bool_decide (AapGroup.Name g = n)) current
  = bool_decide (n ∈ AapGroup.Name <$> current).
Proof.
  induction current as [|g current IH]; cbn.
  - symmetry. apply bool_decide_eq_false. apply not_elem_of_nil.
  - rewrite IH. destruct (decide (AapGroup.Name g = n)) as [<-|Hne].
    + rewrite bool_decide_eq_true_2 by done. cbn. symmetry.
      apply bool_decide_eq_true. left.
    + rewrite bool_decide_eq_false_2 by done. cbn.
      apply bool_decide_ext. rewrite elem_of_cons. intuition congruence.
Qed.

Lemma Contains_elem_of s v : Contains s v = bool_decide (v ∈ s).
Proof.
  induction s as [|x s IH]; cbn.
  - symmetry. apply bool_decide_eq_false. apply not_elem_of_nil.
  - destruct (decide (x = v)) as [->|Hne].
    + symmetry. apply bool_decide_eq_true. left.
    + rewrite IH. apply bool_decide_ext. rewrite elem_of_cons.
      intuition congruence.
Qed.

Lemma steps_concat {A} (ev : A → list Event) l (s s' : unit) evs :
  steps (λ x _ _ evs, evs = ev x) l s s' evs →
  evs = List.concat (ev <$> l).
Proof.
  induction 1 as [|x l s s' s'' e1 e2 -> _ IH]; [done|].
  cbn. by rewrite IH.
Qed.

Lemma concat_filter {A} (P : A → Prop) `{∀ x, Decision (P x)}
    (f : A → Event) (l : list A) :
  List.concat ((λ x, if decide (P x) then [f x] else []) <$> l)
  = f <$> filter P l.
Proof.
  induction l as [|x l IH]; [done|].
  rewrite fmap_cons, filter_cons. cbn [List.concat]. rewrite IH.
  by destruct (decide (P x)).
Qed.

Section Reconciliation.
Context {W : Type} (client : AAPClient.t W).
Context (prior : option aapInventoryResourceModel.t).

Lemma produces_for_each_events {A} (l : list A) (body : A → M W unit)
    (ev : A → list Event) :
  (∀ x, produces prior (body x) (λ _ evs, evs = ev x) (λ _, True)) →
  produces prior (for_each l body)
    (λ _ evs, evs = List.concat (ev <$> l)) (λ _, True).
Proof.
  intros Hb.
  eapply produces_mono;
    [apply (produces_for_each prior l body (λ x evs, evs = ev x)
              (λ _ _, True) Hb)| |done].
  intros u evs H. exact (steps_concat ev l tt tt evs H).
Qed.

Lemma index_absent (current : list AapGroup.t) n :
  (IndexFunc current (λ g, bool_decide (AapGroup.Name g = n)) =? -1)%Z
  = bool_decide (n ∉ AapGroup.Name <$> current).
Proof.
  rewrite IndexFunc_none, existsb_name.
  destruct (decide (n ∈ AapGroup.Name <$> current)).
  - rewrite bool_decide_eq_true_2, bool_decide_eq_false_2 by tauto. done.
  - rewrite bool_decide_eq_false_2, bool_decide_eq_true_2 by tauto. done.
Qed.

Lemma not_contained (declared : list gostring) n :
  negb (Contains declared n) = bool_decide (n ∉ declared).
Proof.
  rewrite Contains_elem_of. destruct (decide (n ∈ declared)).
  - rewrite bool_decide_eq_true_2, bool_decide_eq_false_2 by tauto. done.
  - rewrite bool_decide_eq_false_2, bool_decide_eq_true_2 by tauto. done.
Qed.

Lemma Update_groupChildren_produces updatedGroups group :
  produces prior (Update_groupChildren client updatedGroups group)
    (λ _ evs, ∃ current,
       evs = group_reconciliation updatedGroups group current)
    (λ _, True).
Proof.
  unfold Update_groupChildren. cbv zeta. unfold_client.
  eapply produces_bind; [| |done].
  { apply (produces_try_call prior _ _ _ _ _
             (λ current evs,
                evs = [Called (Call.GetGroupChildren (AapGroup.Id group))
                         (Reply.Groups current)])
             (λ _, True)); [tauto|done|done]. }
  intros current evs1 ->.
  eapply produces_bind; [| |done].
  { apply (produces_for_each_events _ _
             (λ n, if decide (n ∉ AapGroup.Name <$> current)
                   then [Called (Call.AddChildToGroup (AapGroup.Id group)
                                   (GroupIdFromName n updatedGroups).1)
                           Reply.Done]
                   else [])).
    intros n. rewrite index_absent.
    destruct (decide (n ∉ AapGroup.Name <$> current)) as [Hn|Hn].
    - rewrite bool_decide_eq_true_2 by done.
      eapply produces_bind; [| |done].
      + apply (produces_resolve prior _ _ _ _
                 (λ id evs, evs = [] ∧
                    id = (GroupIdFromName n updatedGroups).1) (λ _, True));
          [|done].
        intros id ->. done.
      + intros id evs [-> ->]. cbn [app].
        apply produces_try_call; [tauto|done|done].
    - rewrite bool_decide_eq_false_2 by done. by apply produces_ret. }
  intros _ evs2 ->.
  eapply produces_mono; [| |done].
  { apply (produces_for_each_events _ _
             (λ c, if decide (AapGroup.Name c ∉ AapGroup.Children group)
                   then [Called (Call.RemoveChildFromGroup (AapGroup.Id group)
                                   (AapGroup.Id c)) Reply.Done]
                   else [])).
    intros c. rewrite not_contained.
    destruct (decide (AapGroup.Name c ∉ AapGroup.Children group)) as [Hc|Hc].
    - rewrite bool_decide_eq_true_2 by done.
      apply produces_try_call; [tauto|done|done].
    - rewrite bool_decide_eq_false_2 by done. by apply produces_ret. }
  intros _ evs3 ->. exists current. unfold group_reconciliation.
  cbn [app]. f_equal. f_equal.
  - apply (concat_filter (λ n, n ∉ AapGroup.Name <$> current)).
  - apply (concat_filter (λ c, AapGroup.Name c ∉ AapGroup.Children group)).
Qed.

Lemma Update_hostGroups_produces updatedGroups host :
  produces prior (Update_hostGroups client updatedGroups host)
    (λ _ evs, ∃ current,
       evs = host_reconciliation updatedGroups host current)
    (λ _, True).
Proof.
  unfold Update_hostGroups. cbv zeta. unfold_client.
  eapply produces_bind; [| |done].
  { apply (produces_try_call prior _ _ _ _ _
             (λ current evs,
                evs = [Called (Call.GetHostGroups (AapHost.Id host))
                         (Reply.Groups current)])
             (λ _, True)); [tauto|done|done]. }
  intros current evs1 ->.
  eapply produces_bind; [| |done].
  { apply (produces_for_each_events _ _
             (λ n, if decide (n ∉ AapGroup.Name <$> current)
                   then [Called (Call.AddGroupToHost (AapHost.Id host)
                                   (GroupIdFromName n updatedGroups).1)
                           Reply.Done]
                   else [])).
    intros n. rewrite index_absent.
    destruct (decide (n ∉ AapGroup.Name <$> current)) as [Hn|Hn].
    - rewrite bool_decide_eq_true_2 by done.
      eapply produces_bind; [| |done].
      + apply (produces_resolve prior _ _ _ _
                 (λ id evs, evs = [] ∧
                    id = (GroupIdFromName n updatedGroups).1) (λ _, True));
          [|done].
        intros id ->. done.
      + intros id evs [-> ->]. cbn [app].
        apply produces_try_call; [tauto|done|done].
    - rewrite bool_decide_eq_false_2 by done. by apply produces_ret. }
  intros _ evs2 ->.
  eapply produces_mono; [| |done].
  { apply (produces_for_each_events _ _
             (λ c, if decide (AapGroup.Name c ∉ AapHost.Groups host)
                   then [Called (Call.RemoveGroupFromHost (AapHost.Id host)
                                   (AapGroup.Id c)) Reply.Done]
                   else [])).
    intros c. rewrite not_contained.
    destruct (decide (AapGroup.Name c ∉ AapHost.Groups host)) as [Hc|Hc].
    - rewrite bool_decide_eq_true_2 by done.
      apply produces_try_call; [tauto|done|done].
    - rewrite bool_decide_eq_false_2 by done. by apply produces_ret. }
  intros _ evs3 ->. exists current. unfold host_reconciliation.
  cbn [app]. f_equal. f_equal.
  - apply (concat_filter (λ n, n ∉ AapGroup.Name <$> current)).
  - apply (concat_filter (λ c, AapGroup.Name c ∉ AapHost.Groups host)).
Qed.

End Reconciliation.

Lemma produces_run {W A} prior (m : M W A) Q R (st : St W) a st' :
  produces prior m Q R → ready prior st → m st = (Some a, st') →
  ∃ evs, log st' = log st ++ evs ∧ Q a evs.
Proof.
  intros Hm [Hco Hq] Hrun. specialize (Hm st Hco Hq). rewrite Hrun in Hm.
  destruct Hm as (_ & evs & ? & _ & ?). eauto.
Qed.

Lemma ready_enter {W} (w : W) prior : ready prior (enter w prior).
Proof. split; [done|constructor]. Qed.

(** ** Entity-level diff *)

Section Entities.
Context {W : Type} (client : AAPClient.t W).
Context (prior : option aapInventoryResourceModel.t).

Lemma produces_check_value {A} (p : A * Diagnostics) :
  produces (W:=W) prior (check p)
    (λ a evs, evs = [] ∧ a = p.1 ∧ p.2 = []) (λ _, True).
Proof. apply produces_check; done. Qed.

Lemma ObjectAs_known {A} (o : tfval A) (target : A) :
  (ObjectAs o target).2 = [] → o = Known (ObjectAs o target).1.
Proof. by destruct o. Qed.

Lemma existsb_group_id (l : list AapGroup.t) (id : Z) :
  existsb (λ g, (AapGroup.Id g =? id)%Z) l
  = bool_decide (id ∈ AapGroup.Id <$> l).
Proof.
  induction l as [|g l IH]; cbn.
  - symmetry. apply bool_decide_eq_false. apply not_elem_of_nil.
  - rewrite IH. destruct (Z.eqb_spec (AapGroup.Id g) id) as [<-|Hne]; cbn.
    + symmetry. apply bool_decide_eq_true. left.
    + apply bool_decide_ext. rewrite elem_of_cons. intuition congruence.
Qed.

Lemma existsb_host_id (l : list AapHost.t) (id : Z) :
  existsb (λ h, (AapHost.Id h =? id)%Z) l
  = bool_decide (id ∈ AapHost.Id <$> l).
Proof.
  induction l as [|h l IH]; cbn.
  - symmetry. apply bool_decide_eq_false. apply not_elem_of_nil.
  - rewrite IH. destruct (Z.eqb_spec (AapHost.Id h) id) as [<-|Hne]; cbn.
    + symmetry. apply bool_decide_eq_true. left.
    + apply bool_decide_ext. rewrite elem_of_cons. intuition congruence.
Qed.

Lemma steps_Forall3 {A B} (step : A → Event → B → Prop) l :
  ∀ s s' evs,
  steps (λ x s s' evs, ∃ e b, evs = [e] ∧ s' = s ++ [b] ∧ step x e b)
    l s s' evs →
  ∃ added, s' = s ++ added ∧ Forall3 step l evs added.
Proof.
  induction l as [|x l IH]; intros s s' evs H; inversion H; subst.
  - exists []. rewrite app_nil_r. split; [done|constructor].
  - match goal with
    | H1 : ∃ e b, _ |- _ => destruct H1 as (e & b & -> & -> & Hstep)
    end.
    match goal with
    | H2 : steps _ l _ _ _ |- _ =>
        destruct (IH _ _ _ H2) as (added & -> & Hall)
    end.
    exists (b :: added). rewrite <- app_assoc. split; [done|].
    by constructor.
Qed.

Lemma Update_groups_body plan currentGroups g updatedGroups :
  produces prior
    (groupResource ← check (ObjectAs g aapGroupResourceModel.zero);
     variables ← check
       (VariablesMapToString (aapGroupResourceModel.Variables groupResource));
     let group := AapGroup.mk 0
       (ValueInt64 (aapInventoryResourceModel.ID plan))
       (ValueString (aapGroupResourceModel.Name groupResource))
       []
       (ValueString (aapGroupResourceModel.Description groupResource))
       variables in
     let groupId := ValueInt64 (aapGroupResourceModel.ID groupResource) in
     let groupIndex :=
       IndexFunc currentGroups (λ g, (AapGroup.Id g =? groupId)%Z) in
     updatedGroup ←
       (if (groupIndex =? -1)%Z then
          try (client_CreateGroup client group)
            "Error creating AAP group"
            (str "Could not create AAP group " ++ AapGroup.Name group
               ++ str ", unexpected error: ")
        else
          try (client_UpdateGroup client groupId group)
            "Error updating AAP group"
            (str "Could not update AAP group " ++ AapGroup.Name group
               ++ str ", unexpected error: "));
     let group := AapGroup.with_Id group (AapGroup.Id updatedGroup) in
     children ← check
       (SetElementsAs (aapGroupResourceModel.Children groupResource) []);
     let group := AapGroup.with_Children group children in
     mret (updatedGroups ++ [group]))
    (λ s' evs, ∃ e b, evs = [e] ∧ s' = updatedGroups ++ [b] ∧
                      group_reconciled plan currentGroups g e b)
    (λ _, True).
Proof.
  eapply produces_bind; [apply produces_check_value| |done].
  intros r evs1 (-> & -> & Hr). apply ObjectAs_known in Hr.
  set (r := (ObjectAs g aapGroupResourceModel.zero).1) in *.
  eapply produces_bind; [apply produces_check_value| |done].
  intros variables evs2 (-> & -> & _). cbv zeta.
  rewrite IndexFunc_none, existsb_group_id. unfold_client.
  eapply (produces_bind prior _ _
            (λ reply evs,
               evs = [Called (group_call plan currentGroups r)
                        (Reply.Group reply)]) (λ _, True)); [| |done].
  { unfold group_call. cbv zeta.
    destruct (decide (ValueInt64 (aapGroupResourceModel.ID r)
                        ∈ AapGroup.Id <$> currentGroups)).
    - rewrite bool_decide_eq_true_2 by done. cbn [negb].
      apply produces_try_call; [tauto|done|done].
    - rewrite bool_decide_eq_false_2 by done. cbn [negb].
      apply produces_try_call; [tauto|done|done]. }
  intros reply evs3 ->.
  eapply produces_bind; [apply produces_check_value| |done].
  intros children evs4 (-> & -> & _). apply produces_ret.
  eexists _, _. split; [done|]. split; [done|].
  exists r, reply. done.
Qed.

Lemma Update_groups_produces plan currentGroups groups :
  produces prior (Update_groups client plan currentGroups groups)
    (λ updatedGroups evs,
       Forall3 (group_reconciled plan currentGroups) groups evs updatedGroups)
    (λ _, True).
Proof.
  unfold Update_groups.
  eapply produces_mono;
    [apply produces_for_range; intros; apply Update_groups_body| |done].
  intros updatedGroups evs H. cbv beta in H.
  apply steps_Forall3 in H as (added & -> & H). done.
Qed.

Lemma Update_hosts_body plan currentHosts h updatedHosts :
  produces prior
    (hostResource ← check (ObjectAs h aapHostResourceModel.zero);
     variables ← check
       (VariablesMapToString (aapHostResourceModel.Variables hostResource));
     let host := AapHost.mk 0
       (ValueInt64 (aapInventoryResourceModel.ID plan))
       (ValueString (aapHostResourceModel.Name hostResource))
       []
       (ValueString (aapHostResourceModel.Description hostResource))
       variables in
     let hostId := ValueInt64 (aapHostResourceModel.Id hostResource) in
     let hostIndex :=
       IndexFunc currentHosts (λ h, (AapHost.Id h =? hostId)%Z) in
     updatedHost ←
       (if (hostIndex =? -1)%Z then
          try (client_CreateHost client host)
            "Error creating AAP host"
            (str "Could not create AAP host " ++ AapHost.Name host
               ++ str ", unexpected error: ")
        else
          try (client_UpdateHost client hostId host)
            "Error updating AAP host"
            (str "Could not update AAP host " ++ AapHost.Name host
               ++ str ", unexpected error: "));
     let host := AapHost.with_Id host (AapHost.Id updatedHost) in
     hostGroups ← check
       (SetElementsAs (aapHostResourceModel.Groups hostResource) []);
     let host := AapHost.with_Groups host hostGroups in
     mret (updatedHosts ++ [host]))
    (λ s' evs, ∃ e b, evs = [e] ∧ s' = updatedHosts ++ [b] ∧
                      host_reconciled plan currentHosts h e b)
    (λ _, True).
Proof.
  eapply produces_bind; [apply produces_check_value| |done].
  intros r evs1 (-> & -> & Hr). apply ObjectAs_known in Hr.
  set (r := (ObjectAs h aapHostResourceModel.zero).1) in *.
  eapply produces_bind; [apply produces_check_value| |done].
  intros variables evs2 (-> & -> & _). cbv zeta.
  rewrite IndexFunc_none, existsb_host_id. unfold_client.
  eapply (produces_bind prior _ _
            (λ reply evs,
               evs = [Called (host_call plan currentHosts r)
                        (Reply.Host reply)]) (λ _, True)); [| |done].
  { unfold host_call. cbv zeta.
    destruct (decide (ValueInt64 (aapHostResourceModel.Id r)
                        ∈ AapHost.Id <$> currentHosts)).
    - rewrite bool_decide_eq_true_2 by done. cbn [negb].
      apply produces_try_call; [tauto|done|done].
    - rewrite bool_decide_eq_false_2 by done. cbn [negb].
      apply produces_try_call; [tauto|done|done]. }
  intros reply evs3 ->.
  eapply produces_bind; [apply produces_check_value| |done].
  intros groups evs4 (-> & -> & _). apply produces_ret.
  eexists _, _. split; [done|]. split; [done|].
  exists r, reply. done.
Qed.

Lemma Update_hosts_produces plan currentHosts hosts :
  produces prior (Update_hosts client plan currentHosts hosts)
    (λ updatedHosts evs,
       Forall3 (host_reconciled plan currentHosts) hosts evs updatedHosts)
    (λ _, True).
Proof.
  unfold Update_hosts.
  eapply produces_mono;
    [apply produces_for_range; intros; apply Update_hosts_body| |done].
  intros updatedHosts evs H. cbv beta in H.
  apply steps_Forall3 in H as (added & -> & H). done.
Qed.

Lemma Update_deleteGroups_produces currentGroups updatedGroups :
  produces prior (Update_deleteGroups client currentGroups updatedGroups)
    (λ _ evs, evs = group_deletions currentGroups updatedGroups)
    (λ _, True).
Proof.
  unfold Update_deleteGroups.
  eapply produces_mono; [| |done].
  { apply (produces_for_each_events prior _ _
             (λ g, if decide (AapGroup.Id g ∉ AapGroup.Id <$> updatedGroups)
                   then [Called (Call.DeleteGroup (AapGroup.Id g)) Reply.Done]
                   else [])).
    intros g. cbv zeta. rewrite IndexFunc_none, existsb_group_id.
    destruct (decide (AapGroup.Id g ∉ AapGroup.Id <$> updatedGroups)).
    - rewrite bool_decide_eq_false_2 by done. cbn [negb]. unfold_client.
      apply produces_try_call; [tauto|done|done].
    - rewrite bool_decide_eq_true_2 by (by apply dec_stable). cbn [negb].
      by apply produces_ret. }
  intros _ evs ->.
  apply (concat_filter (λ g, AapGroup.Id g ∉ AapGroup.Id <$> updatedGroups)).
Qed.

Lemma Update_deleteHosts_produces currentHosts updatedHosts :
  produces prior (Update_deleteHosts client currentHosts updatedHosts)
    (λ _ evs, evs = host_deletions currentHosts updatedHosts)
    (λ _, True).
Proof.
  unfold Update_deleteHosts.
  eapply produces_mono; [| |done].
  { apply (produces_for_each_events prior _ _
             (λ h, if decide (AapHost.Id h ∉ AapHost.Id <$> updatedHosts)
                   then [Called (Call.DeleteHost (AapHost.Id h)) Reply.Done]
                   else [])).
    intros h. cbv zeta. rewrite IndexFunc_none, existsb_host_id.
    destruct (decide (AapHost.Id h ∉ AapHost.Id <$> updatedHosts)).
    - rewrite bool_decide_eq_false_2 by done. cbn [negb]. unfold_client.
      apply produces_try_call; [tauto|done|done].
    - rewrite bool_decide_eq_true_2 by (by apply dec_stable). cbn [negb].
      by apply produces_ret. }
  intros _ evs ->.
  apply (concat_filter (λ h, AapHost.Id h ∉ AapHost.Id <$> updatedHosts)).
Qed.

End Entities.

(** C2.  In the update path that goes through, every declared group is
    updated by its carried id when a current remote group has that id and
    created otherwise (so a group deleted out of band is created again),
    and it is kept with the id the remote answered; then exactly the
    current remote groups whose id no kept group has are deleted.  Hosts
    follow the same rule. *)
Theorem entity_diff_by_identity {W} (client : AAPClient.t W)
    (prior : option aapInventoryResourceModel.t)
    (plan : aapInventoryResourceModel.t) (st : St W) :
  ready prior st →
  (∀ currentGroups groups updatedGroups st',
     Update_groups client plan currentGroups groups st
       = (Some updatedGroups, st') →
     ∃ evs, log st' = log st ++ evs ∧
       Forall3 (group_reconciled plan currentGroups) groups evs updatedGroups) ∧
  (∀ currentGroups updatedGroups st',
     Update_deleteGroups client currentGroups updatedGroups st
       = (Some tt, st') →
     log st' = log st ++ group_deletions currentGroups updatedGroups) ∧
  (∀ currentHosts hosts updatedHosts st',
     Update_hosts client plan currentHosts hosts st
       = (Some updatedHosts, st') →
     ∃ evs, log st' = log st ++ evs ∧
       Forall3 (host_reconciled plan currentHosts) hosts evs updatedHosts) ∧
  (∀ currentHosts updatedHosts st',
     Update_deleteHosts client currentHosts updatedHosts st
       = (Some tt, st') →
     log st' = log st ++ host_deletions currentHosts updatedHosts).
Proof.
  intros Hready. repeat split.
  - intros currentGroups groups updatedGroups st' Hrun.
    exact (produces_run prior _ _ _ st _ st'
             (Update_groups_produces client prior plan currentGroups groups)
             Hready Hrun).
  - intros currentGroups updatedGroups st' Hrun.
    destruct (produces_run prior _ _ _ st _ st'
                (Update_deleteGroups_produces client prior
                   currentGroups updatedGroups)
                Hready Hrun) as (evs & Hlog & ->).
    exact Hlog.
  - intros currentHosts hosts updatedHosts st' Hrun.
    exact (produces_run prior _ _ _ st _ st'
             (Update_hosts_produces client prior plan currentHosts hosts)
             Hready Hrun).
  - intros currentHosts updatedHosts st' Hrun.
    destruct (produces_run prior _ _ _ st _ st'
                (Update_deleteHosts_produces client prior
                   currentHosts updatedHosts)
                Hready Hrun) as (evs & Hlog & ->).
    exact Hlog.
Qed.

(** ** The kinds of events a piece of a handler logs *)

Section Within.
Context {W : Type} (prior : option aapInventoryResourceModel.t).
Context (C : Event → Prop).
Context (C_diag : ∀ d, C (Diagnosed d)).

Lemma within_ret {A} (a : A) : within (W:=W) prior C (mret a).
Proof. apply produces_ret. constructor. Qed.

Lemma within_bind {A B} (m : M W A) (f : A → M W B) :
  within prior C m → (∀ a, within prior C (f a)) → within prior C (m ≫= f).
Proof.
  intros Hm Hf. eapply produces_bind; [apply Hm| |done].
  intros a evs1 H1.
  eapply produces_mono; [apply Hf| |]; intros; by apply Forall_app_2.
Qed.

Lemma within_check {A} (p : A * Diagnostics) : within (W:=W) prior C (check p).
Proof.
  apply produces_check; [constructor|]. intros _.
  apply Forall_fmap, Forall_true. intros d. apply C_diag.
Qed.

Lemma within_try_call {A} c (reply : A → Reply.t) (f : W → res A * W)
    summary detail :
  (∀ r, C (Called c r)) →
  within prior C (try (call c reply f) summary detail).
Proof.
  intros Hc. apply produces_try_call.
  - intros a. cbn. tauto.
  - intros a. constructor; [apply Hc|constructor].
  - intros e. constructor; [apply Hc|]. constructor; [apply C_diag|constructor].
Qed.

Lemma within_resolve_bind {B} name groups summary detail (f : Z → M W B) :
  (∀ id, GroupIdFromName name groups = (id, None) → within prior C (f id)) →
  within prior C (id ← resolve name groups summary detail; f id).
Proof.
  intros Hf. eapply produces_bind; [| |done].
  - apply (produces_resolve prior name groups summary detail
             (λ id evs, evs = [] ∧ GroupIdFromName name groups = (id, None))
             (λ evs, Forall C evs)); [done|].
    intros id err _. constructor; [apply C_diag|constructor].
  - intros id evs1 [-> Hid]. cbn [app]. by apply Hf.
Qed.

Lemma within_for_range {A S} (l : list A) (body : A → S → M W S) s0 :
  (∀ x s, x ∈ l → within prior C (body x s)) →
  within prior C (for_range l body s0).
Proof.
  revert s0. induction l as [|x l IH]; intros s0 Hb; [apply within_ret|].
  cbn [for_range]. apply within_bind.
  - apply Hb. left.
  - intros s'. apply IH. intros y s Hy. apply Hb. by right.
Qed.

Lemma within_for_each {A} (l : list A) (body : A → M W unit) :
  (∀ x, x ∈ l → within prior C (body x)) → within prior C (for_each l body).
Proof. intros Hb. apply within_for_range. intros x _ Hx. by apply Hb. Qed.

Lemma within_SetState plan :
  C (StateSet plan) → within (W:=W) prior C (SetState plan).
Proof. intros Hs. apply produces_SetState. by repeat constructor. Qed.

End Within.

Lemma within_mono {W A} prior (C C' : Event → Prop) (m : M W A) :
  (∀ e, C e → C' e) → within prior C m → within prior C' m.
Proof.
  intros HC Hm. eapply produces_mono; [apply Hm| |]; cbv beta; intros;
    by eapply Forall_impl.
Qed.

Lemma produces_conj {W A} prior (m : M W A) Q R Q' R' :
  produces prior m Q R → produces prior m Q' R' →
  produces prior m (λ a evs, Q a evs ∧ Q' a evs) (λ evs, R evs ∧ R' evs).
Proof.
  intros H1 H2 st Hco Hq. specialize (H1 st Hco Hq). specialize (H2 st Hco Hq).
  destruct (m st) as [[a|] st'].
  - destruct H1 as (? & evs & Hl & ? & ?), H2 as (_ & evs' & Hl' & _ & ?).
    rewrite Hl in Hl'. apply app_inv_head in Hl'. subst evs'.
    split; [done|]. eauto.
  - destruct H1 as (? & evs & Hl & ?), H2 as (_ & evs' & Hl' & ?).
    rewrite Hl in Hl'. apply app_inv_head in Hl'. subst evs'.
    split; [done|]. eauto.
Qed.

(** Walks a piece of a handler; [kind] settles the kind of each call. *)
Ltac within_walk kind :=
  repeat first
    [ apply within_ret
    | apply within_check; [intros; exact I]
    | apply within_SetState; exact I
    | apply within_resolve_bind; [intros; exact I|intros ? ?]
    | apply within_try_call; [intros; exact I|intros; kind]
    | apply within_for_each; intros ? ?
    | apply within_for_range; intros ? ? ?
    | apply within_bind; [|intros]
    | match goal with
      | |- within _ _ (if ?b then _ else _) => destruct b
      end
    | progress unfold_client
    | progress cbv beta zeta ].

Lemma resolved_in_intro groups n id :
  GroupIdFromName n groups = (id, None) → resolved_in groups id.
Proof. intros H. by exists n. Qed.

Lemma elem_of_group_ids (g : AapGroup.t) (groups : list AapGroup.t) :
  g ∈ groups → AapGroup.Id g ∈ AapGroup.Id <$> groups.
Proof. intros H. apply list_elem_of_fmap. eauto. Qed.

Lemma elem_of_host_ids (h : AapHost.t) (hosts : list AapHost.t) :
  h ∈ hosts → AapHost.Id h ∈ AapHost.Id <$> hosts.
Proof. intros H. apply list_elem_of_fmap. eauto. Qed.

Ltac kind_of_call :=
  first
    [ exact I
    | split;
      [ first [by apply elem_of_group_ids | by apply elem_of_host_ids]
      | by eapply resolved_in_intro ] ].

Section Kinds.
Context {W : Type} (client : AAPClient.t W).
Context (prior : option aapInventoryResourceModel.t).

Lemma Create_groups_within plan groups :
  within prior create_A (Create_groups client plan groups).
Proof. unfold Create_groups. within_walk kind_of_call. Qed.

Lemma Create_children_within newGroups :
  within prior (create_B newGroups) (Create_children client newGroups).
Proof. unfold Create_children. within_walk kind_of_call. Qed.

Lemma Create_hosts_within plan hosts :
  within prior create_C (Create_hosts client plan hosts).
Proof. unfold Create_hosts. within_walk kind_of_call. Qed.

Lemma Create_hostGroups_within newGroups newHosts :
  within prior (create_D newGroups newHosts)
    (Create_hostGroups client newGroups newHosts).
Proof. unfold Create_hostGroups. within_walk kind_of_call. Qed.

Lemma Update_groups_within plan currentGroups groups :
  within prior update_A (Update_groups client plan currentGroups groups).
Proof. unfold Update_groups. within_walk kind_of_call. Qed.

Lemma Update_deleteGroups_within G currentGroups updatedGroups :
  within prior (update_B G)
    (Update_deleteGroups client currentGroups updatedGroups).
Proof. unfold Update_deleteGroups. within_walk kind_of_call. Qed.

Lemma Update_children_within updatedGroups :
  within prior (update_B updatedGroups)
    (Update_children client updatedGroups).
Proof.
  unfold Update_children, Update_groupChildren. within_walk kind_of_call.
Qed.

Lemma Update_hosts_within plan currentHosts hosts :
  within prior update_C (Update_hosts client plan currentHosts hosts).
Proof. unfold Update_hosts. within_walk kind_of_call. Qed.

Lemma Update_deleteHosts_within G H currentHosts updatedHosts :
  within prior (update_D G H)
    (Update_deleteHosts client currentHosts updatedHosts).
Proof. unfold Update_deleteHosts. within_walk kind_of_call. Qed.

Lemma Update_allHostGroups_within updatedGroups updatedHosts :
  within prior (update_D updatedGroups updatedHosts)
    (Update_allHostGroups client updatedGroups updatedHosts).
Proof.
  unfold Update_allHostGroups, Update_hostGroups. within_walk kind_of_call.
Qed.

End Kinds.

(** ** What the create path keeps *)

Section Created.
Context {W : Type} (client : AAPClient.t W).
Context (prior : option aapInventoryResourceModel.t).

Lemma Create_groups_produces plan groups :
  produces prior (Create_groups client plan groups)
    (λ newGroups evs, Forall3 (group_created plan) groups evs newGroups)
    (λ _, True).
Proof.
  unfold Create_groups.
  eapply produces_mono;
    [apply (produces_for_range prior groups _
              (λ g s s' evs, ∃ e b, evs = [e] ∧ s' = s ++ [b] ∧
                                    group_created plan g e b)
              (λ _ _ _, True))| |done].
  - intros g newGroups.
    eapply produces_bind; [apply produces_check_value| |done].
    intros r evs1 (-> & -> & Hr). apply ObjectAs_known in Hr.
    set (r := (ObjectAs g aapGroupResourceModel.zero).1) in *.
    eapply produces_bind; [apply produces_check_value| |done].
    intros variables evs2 (-> & -> & _). cbv zeta. unfold_client.
    eapply (produces_bind prior _ _
              (λ reply evs,
                 evs = [Called (Call.CreateGroup (group_body plan r))
                          (Reply.Group reply)]) (λ _, True)); [| |done].
    { apply produces_try_call; [tauto|done|done]. }
    intros reply evs3 ->.
    eapply produces_bind; [apply produces_check_value| |done].
    intros children evs4 (-> & -> & _). apply produces_ret.
    eexists _, _. split; [done|]. split; [done|].
    exists r, reply. done.
  - intros newGroups evs H. cbv beta in H.
    apply steps_Forall3 in H as (added & -> & H). done.
Qed.

Lemma Create_hosts_produces plan hosts :
  produces prior (Create_hosts client plan hosts)
    (λ newHosts evs, Forall3 (host_created plan) hosts evs newHosts)
    (λ _, True).
Proof.
  unfold Create_hosts.
  eapply produces_mono;
    [apply (produces_for_range prior hosts _
              (λ h s s' evs, ∃ e b, evs = [e] ∧ s' = s ++ [b] ∧
                                    host_created plan h e b)
              (λ _ _ _, True))| |done].
  - intros h newHosts.
    eapply produces_bind; [apply produces_check_value| |done].
    intros r evs1 (-> & -> & Hr). apply ObjectAs_known in Hr.
    set (r := (ObjectAs h aapHostResourceModel.zero).1) in *.
    eapply produces_bind; [apply produces_check_value| |done].
    intros variables evs2 (-> & -> & _). cbv zeta. unfold_client.
    eapply (produces_bind prior _ _
              (λ reply evs,
                 evs = [Called (Call.CreateHost (host_body plan r))
                          (Reply.Host reply)]) (λ _, True)); [| |done].
    { apply produces_try_call; [tauto|done|done]. }
    intros reply evs3 ->.
    eapply produces_bind; [apply produces_check_value| |done].
    intros groups evs4 (-> & -> & _). apply produces_ret.
    eexists _, _. split; [done|]. split; [done|].
    exists r, reply. done.
  - intros newHosts evs H. cbv beta in H.
    apply steps_Forall3 in H as (added & -> & H). done.
Qed.

End Created.

(** ** The kept entities are backed by the log *)

Lemma group_answered_app evs1 evs2 g :
  group_answered evs1 g ∨ group_answered evs2 g →
  group_answered (evs1 ++ evs2) g.
Proof.
  intros [H|H]; destruct H as (call & body & reply & Hin & ?);
    exists call, body, reply; (split; [|done]);
    apply elem_of_app; auto.
Qed.

Lemma host_answered_app evs1 evs2 h :
  host_answered evs1 h ∨ host_answered evs2 h →
  host_answered (evs1 ++ evs2) h.
Proof.
  intros [H|H]; destruct H as (call & body & reply & Hin & ?);
    exists call, body, reply; (split; [|done]);
    apply elem_of_app; auto.
Qed.

Lemma Forall3_answered {A B} (step : A → Event → B → Prop)
    (backed : list Event → B → Prop) l evs kept :
  (∀ x e b, step x e b → backed [e] b) →
  (∀ e1 e2 b, backed e1 b ∨ backed e2 b → backed (e1 ++ e2) b) →
  Forall3 step l evs kept → Forall (backed evs) kept.
Proof.
  intros Hstep Happ. induction 1 as [|x e b l evs kept Hx _ IH]; [constructor|].
  constructor.
  - apply (Happ [e] evs). left. by eapply Hstep.
  - eapply Forall_impl; [exact IH|]. intros b' Hb'.
    apply (Happ [e] evs). by right.
Qed.

Lemma group_created_answered plan g e b :
  group_created plan g e b → group_answered [e] b.
Proof.
  intros (r & reply & -> & -> & ->).
  exists (Call.CreateGroup (group_body plan r)), (group_body plan r), reply.
  repeat split; [left|by left].
Qed.

Lemma group_reconciled_answered plan current g e b :
  group_reconciled plan current g e b → group_answered [e] b.
Proof.
  intros (r & reply & -> & -> & ->).
  exists (group_call plan current r), (group_body plan r), reply.
  repeat split; [left|]. unfold group_call. cbv zeta.
  destruct (decide _); eauto.
Qed.

Lemma host_created_answered plan h e b :
  host_created plan h e b → host_answered [e] b.
Proof.
  intros (r & reply & -> & -> & ->).
  exists (Call.CreateHost (host_body plan r)), (host_body plan r), reply.
  repeat split; [left|by left].
Qed.

Lemma host_reconciled_answered plan current h e b :
  host_reconciled plan current h e b → host_answered [e] b.
Proof.
  intros (r & reply & -> & -> & ->).
  exists (host_call plan current r), (host_body plan r), reply.
  repeat split; [left|]. unfold host_call. cbv zeta.
  destruct (decide _); eauto.
Qed.

(** ** A pass runs in four phases *)

Section Phases.
Context {W : Type} (prior : option aapInventoryResourceModel.t).
Context (A : Event → Prop) (B : list AapGroup.t → Event → Prop).
Context (C : Event → Prop).
Context (D : list AapGroup.t → list AapHost.t → Event → Prop).

Lemma phased_C_of_C G evs : Forall C evs → phased_C C D G evs.
Proof.
  intros H. exists evs, [], []. rewrite app_nil_r.
  repeat split; [done|constructor|constructor].
Qed.

Lemma phased_C_app G evs1 evs2 :
  Forall C evs1 → phased_C C D G evs2 → phased_C C D G (evs1 ++ evs2).
Proof.
  intros H1 (eC & eD & H & -> & HC & HH & HD).
  exists (evs1 ++ eC), eD, H. rewrite app_assoc.
  repeat split; [by apply Forall_app_2| |done].
  eapply Forall_impl; [exact HH|]. intros h Hh. apply host_answered_app. auto.
Qed.

Lemma phased_C_switch G H evs1 evs2 :
  Forall C evs1 → Forall (host_answered evs1) H → Forall (D G H) evs2 →
  phased_C C D G (evs1 ++ evs2).
Proof. intros. by exists evs1, evs2, H. Qed.

Lemma phased_B_of_B G evs : Forall (B G) evs → phased_B B C D G evs.
Proof.
  intros H. exists evs, []. rewrite app_nil_r.
  repeat split; [done|]. apply phased_C_of_C. constructor.
Qed.

Lemma phased_B_of_C G evs : phased_C C D G evs → phased_B B C D G evs.
Proof. intros H. exists [], evs. repeat split; [constructor|done]. Qed.

Lemma phased_B_app G evs1 evs2 :
  Forall (B G) evs1 → phased_B B C D G evs2 → phased_B B C D G (evs1 ++ evs2).
Proof.
  intros H1 (eB & rest & -> & HB & HC).
  exists (evs1 ++ eB), rest. rewrite app_assoc.
  repeat split; [by apply Forall_app_2|done].
Qed.

Lemma phased_of_A evs : Forall A evs → phased A B C D evs.
Proof.
  intros H. exists evs, [], []. rewrite app_nil_r.
  repeat split; [done|constructor|]. apply phased_B_of_B. constructor.
Qed.

Lemma phased_app evs1 evs2 :
  Forall A evs1 → phased A B C D evs2 → phased A B C D (evs1 ++ evs2).
Proof.
  intros H1 (eA & rest & G & -> & HA & HG & HB).
  exists (evs1 ++ eA), rest, G. rewrite app_assoc.
  repeat split; [by apply Forall_app_2| |done].
  eapply Forall_impl; [exact HG|]. intros g Hg. apply group_answered_app. auto.
Qed.

Lemma phased_switch G evs1 evs2 :
  Forall A evs1 → Forall (group_answered evs1) G → phased_B B C D G evs2 →
  phased A B C D (evs1 ++ evs2).
Proof. intros. by exists evs1, evs2, G. Qed.

Lemma runs_A_bind {X Y} (m : M W X) (f : X → M W Y) :
  within prior A m →
  (∀ a, produces prior (f a) (λ _, phased A B C D) (phased A B C D)) →
  produces prior (m ≫= f) (λ _, phased A B C D) (phased A B C D).
Proof.
  intros Hm Hf. eapply produces_bind; [apply Hm| |apply phased_of_A].
  intros a evs1 H1.
  eapply produces_mono; [apply Hf| |]; cbv beta; intros; by apply phased_app.
Qed.

Lemma runs_A_switch {X Y} (m : M W X) (f : X → M W Y)
    (G : X → list AapGroup.t) :
  produces prior m
    (λ a evs, Forall A evs ∧ Forall (group_answered evs) (G a)) (Forall A) →
  (∀ a, produces prior (f a) (λ _, phased_B B C D (G a))
          (phased_B B C D (G a))) →
  produces prior (m ≫= f) (λ _, phased A B C D) (phased A B C D).
Proof.
  intros Hm Hf. eapply produces_bind; [apply Hm| |apply phased_of_A].
  intros a evs1 [H1 HG].
  eapply produces_mono; [apply Hf| |]; cbv beta; intros;
    by eapply phased_switch.
Qed.

Lemma runs_B_bind {X Y} G (m : M W X) (f : X → M W Y) :
  within prior (B G) m →
  (∀ a, produces prior (f a) (λ _, phased_B B C D G) (phased_B B C D G)) →
  produces prior (m ≫= f) (λ _, phased_B B C D G) (phased_B B C D G).
Proof.
  intros Hm Hf. eapply produces_bind; [apply Hm| |apply phased_B_of_B].
  intros a evs1 H1.
  eapply produces_mono; [apply Hf| |]; cbv beta; intros;
    by apply phased_B_app.
Qed.

Lemma runs_B_of_C {X} G (m : M W X) :
  produces prior m (λ _, phased_C C D G) (phased_C C D G) →
  produces prior m (λ _, phased_B B C D G) (phased_B B C D G).
Proof.
  intros Hm. eapply produces_mono; [apply Hm| |]; cbv beta; intros;
    by apply phased_B_of_C.
Qed.

Lemma runs_C_bind {X Y} G (m : M W X) (f : X → M W Y) :
  within prior C m →
  (∀ a, produces prior (f a) (λ _, phased_C C D G) (phased_C C D G)) →
  produces prior (m ≫= f) (λ _, phased_C C D G) (phased_C C D G).
Proof.
  intros Hm Hf. eapply produces_bind; [apply Hm| |apply phased_C_of_C].
  intros a evs1 H1.
  eapply produces_mono; [apply Hf| |]; cbv beta; intros;
    by apply phased_C_app.
Qed.

Lemma runs_C_switch {X Y} G (m : M W X) (f : X → M W Y)
    (H : X → list AapHost.t) :
  produces prior m
    (λ a evs, Forall C evs ∧ Forall (host_answered evs) (H a)) (Forall C) →
  (∀ a, within prior (D G (H a)) (f a)) →
  produces prior (m ≫= f) (λ _, phased_C C D G) (phased_C C D G).
Proof.
  intros Hm Hf. eapply produces_bind; [apply Hm| |apply phased_C_of_C].
  intros a evs1 [H1 HH].
  eapply produces_mono; [apply Hf| |]; cbv beta; intros;
    by eapply phased_C_switch.
Qed.

End Phases.

Section PassPhases.
Context {W : Type} (client : AAPClient.t W).
Context (prior : option aapInventoryResourceModel.t).

Lemma Create_groups_backed plan groups :
  produces prior (Create_groups client plan groups)
    (λ newGroups evs,
       Forall create_A evs ∧ Forall (group_answered evs) newGroups)
    (Forall create_A).
Proof.
  eapply produces_mono;
    [apply (produces_conj prior _ _ _ _ _
              (Create_groups_within client prior plan groups)
              (Create_groups_produces client prior plan groups))| |].
  - intros newGroups evs [HA H3]. split; [done|].
    eapply Forall3_answered; [apply group_created_answered| |exact H3].
    apply group_answered_app.
  - by intros evs [HA _].
Qed.

Lemma Create_hosts_backed plan hosts :
  produces prior (Create_hosts client plan hosts)
    (λ newHosts evs,
       Forall create_C evs ∧ Forall (host_answered evs) newHosts)
    (Forall create_C).
Proof.
  eapply produces_mono;
    [apply (produces_conj prior _ _ _ _ _
              (Create_hosts_within client prior plan hosts)
              (Create_hosts_produces client prior plan hosts))| |].
  - intros newHosts evs [HA H3]. split; [done|].
    eapply Forall3_answered; [apply host_created_answered| |exact H3].
    apply host_answered_app.
  - by intros evs [HA _].
Qed.

Lemma Update_groups_backed plan currentGroups groups :
  produces prior (Update_groups client plan currentGroups groups)
    (λ updatedGroups evs,
       Forall update_A evs ∧ Forall (group_answered evs) updatedGroups)
    (Forall update_A).
Proof.
  eapply produces_mono;
    [apply (produces_conj prior _ _ _ _ _
              (Update_groups_within client prior plan currentGroups groups)
              (Update_groups_produces client prior plan currentGroups groups))
    | |].
  - intros updatedGroups evs [HA H3]. split; [done|].
    eapply Forall3_answered; [apply group_reconciled_answered| |exact H3].
    apply group_answered_app.
  - by intros evs [HA _].
Qed.

Lemma Update_hosts_backed plan currentHosts hosts :
  produces prior (Update_hosts client plan currentHosts hosts)
    (λ updatedHosts evs,
       Forall update_C evs ∧ Forall (host_answered evs) updatedHosts)
    (Forall update_C).
Proof.
  eapply produces_mono;
    [apply (produces_conj prior _ _ _ _ _
              (Update_hosts_within client prior plan currentHosts hosts)
              (Update_hosts_produces client prior plan currentHosts hosts))
    | |].
  - intros updatedHosts evs [HA H3]. split; [done|].
    eapply Forall3_answered; [apply host_reconciled_answered| |exact H3].
    apply host_answered_app.
  - by intros evs [HA _].
Qed.

Lemma Create_phased plan :
  produces prior (Create client plan)
    (λ _, phased create_A create_B create_C create_D)
    (phased create_A create_B create_C create_D).
Proof.
  unfold Create. cbv zeta.
  apply runs_A_bind; [within_walk kind_of_call|intros variables].
  apply runs_A_bind; [within_walk kind_of_call|intros newInventory].
  apply runs_A_bind; [within_walk kind_of_call|intros newVariables].
  apply runs_A_bind; [within_walk kind_of_call|intros groups].
  eapply (runs_A_switch prior _ _ _ _ _ _ (λ newGroups, newGroups));
    [apply Create_groups_backed|intros newGroups].
  apply runs_B_bind; [apply Create_children_within|intros _].
  apply runs_B_bind; [within_walk kind_of_call|intros schemaGroups].
  apply runs_B_bind; [within_walk kind_of_call|intros stateGroups].
  apply runs_B_bind; [within_walk kind_of_call|intros hosts].
  apply runs_B_of_C.
  eapply (runs_C_switch prior _ _ _ _ _ (λ newHosts, newHosts));
    [apply Create_hosts_backed|intros newHosts].
  apply within_bind; [apply Create_hostGroups_within|intros _].
  within_walk kind_of_call.
Qed.

Lemma Update_phased plan :
  produces prior (Update client plan)
    (λ _, phased update_A update_B update_C update_D)
    (phased update_A update_B update_C update_D).
Proof.
  unfold Update. cbv zeta.
  apply runs_A_bind; [within_walk kind_of_call|intros variables].
  apply runs_A_bind; [within_walk kind_of_call|intros updatedInventory].
  apply runs_A_bind; [within_walk kind_of_call|intros updatedVariables].
  apply runs_A_bind; [within_walk kind_of_call|intros currentGroups].
  apply runs_A_bind; [within_walk kind_of_call|intros groups].
  eapply (runs_A_switch prior _ _ _ _ _ _ (λ updatedGroups, updatedGroups));
    [apply Update_groups_backed|intros updatedGroups].
  apply runs_B_bind; [apply Update_deleteGroups_within|intros _].
  apply runs_B_bind; [apply Update_children_within|intros _].
  apply runs_B_bind; [within_walk kind_of_call|intros schemaGroups].
  apply runs_B_bind; [within_walk kind_of_call|intros stateGroups].
  apply runs_B_of_C.
  apply runs_C_bind; [within_walk kind_of_call|intros currentHosts].
  apply runs_C_bind; [within_walk kind_of_call|intros hosts].
  eapply (runs_C_switch prior _ _ _ _ _ (λ updatedHosts, updatedHosts));
    [apply Update_hosts_backed|intros updatedHosts].
  apply within_bind; [apply Update_deleteHosts_within|intros _].
  apply within_bind; [apply Update_allHostGroups_within|intros _].
  within_walk kind_of_call.
Qed.

End PassPhases.

(** ** Where an association stands in the log *)

Lemma shape_of_run {W A} prior (m : M W A) (P : list Event → Prop) w :
  produces prior m (λ _, P) P → P (log (run m w prior)).
Proof.
  intros Hm. unfold run.
  destruct (ready_enter w prior) as [Hco Hq].
  specialize (Hm (enter w prior) Hco Hq).
  destruct (m (enter w prior)) as [[a|] st']; cbn [snd].
  - destruct Hm as (_ & evs & Hlog & _ & HP). cbn in Hlog. by subst.
  - destruct Hm as (_ & evs & Hlog & HP). cbn in Hlog. by subst.
Qed.

Lemma split_left (P : Event → Prop) (l1 rest pre post : list Event) e :
  Forall P l1 → ¬ P e → l1 ++ rest = pre ++ e :: post →
  ∃ mid, pre = l1 ++ mid ∧ rest = mid ++ e :: post.
Proof.
  revert pre. induction l1 as [|x l1 IH]; intros pre Hall Hne Heq.
  - exists pre. by cbn in *.
  - apply Forall_cons in Hall as [Hx Hall].
    destruct pre as [|y pre]; cbn in Heq.
    + injection Heq as -> _. done.
    + injection Heq as -> Heq. destruct (IH pre Hall Hne Heq) as (mid & -> & ->).
      by exists mid.
Qed.

Lemma split_right (P : Event → Prop) (l l2 mid post : list Event) e :
  Forall P l2 → ¬ P e → l ++ l2 = mid ++ e :: post →
  ∃ post', l = mid ++ e :: post' ∧ post = post' ++ l2.
Proof.
  revert mid. induction l as [|x l IH]; intros mid Hall Hne Heq.
  - cbn in Heq. subst l2. apply Forall_app in Hall as [_ Hall].
    by apply Forall_cons in Hall as [? _].
  - destruct mid as [|y mid]; cbn in Heq.
    + injection Heq as -> <-. by exists l.
    + injection Heq as -> Heq. destruct (IH mid Hall Hne Heq) as (post' & -> & ->).
      by exists post'.
Qed.

Lemma GroupIdFromName_inv n (G : list AapGroup.t) c :
  GroupIdFromName n G = (c, None) →
  ∃ g, g ∈ G ∧ AapGroup.Name g = n ∧ AapGroup.Id g = c.
Proof.
  induction G as [|g G IH]; [done|]. cbn.
  destruct (decide (AapGroup.Name g = n)) as [Hn|Hn].
  - intros [= <-]. exists g. split; [left|done].
  - intros H. destruct (IH H) as (g' & ? & ? & ?). exists g'.
    split; [by right|done].
Qed.

Lemma resolved_backed evs (G : list AapGroup.t) c :
  Forall (group_answered evs) G → resolved_in G c →
  ∃ name, group_reconciled_as evs name c.
Proof.
  intros HG [n Hn]. destruct (GroupIdFromName_inv _ _ _ Hn) as (g & Hin & <- & <-).
  rewrite Forall_forall in HG. exists (AapGroup.Name g). by apply HG.
Qed.

Lemma group_id_backed evs (G : list AapGroup.t) p :
  Forall (group_answered evs) G → p ∈ AapGroup.Id <$> G →
  ∃ name, group_reconciled_as evs name p.
Proof.
  intros HG Hp. apply list_elem_of_fmap in Hp as (g & -> & Hin).
  rewrite Forall_forall in HG. exists (AapGroup.Name g). by apply HG.
Qed.

Lemma host_id_backed evs (H : list AapHost.t) h :
  Forall (host_answered evs) H → h ∈ AapHost.Id <$> H →
  ∃ name, host_reconciled_as evs name h.
Proof.
  intros HH Hh. apply list_elem_of_fmap in Hh as (x & -> & Hin).
  rewrite Forall_forall in HH. exists (AapHost.Name x). by apply HH.
Qed.

Lemma group_reconciled_as_app evs1 evs2 name id :
  group_reconciled_as evs1 name id → group_reconciled_as (evs1 ++ evs2) name id.
Proof.
  intros (call & body & reply & Hin & ?). exists call, body, reply.
  split; [|done]. apply elem_of_app. auto.
Qed.

Lemma host_reconciled_as_app evs0 evs1 evs2 name id :
  host_reconciled_as evs1 name id →
  host_reconciled_as (evs0 ++ evs1 ++ evs2) name id.
Proof.
  intros (call & body & reply & Hin & ?). exists call, body, reply.
  split; [|done]. apply elem_of_app. right. apply elem_of_app. auto.
Qed.

Lemma created_of_reconciled evs name id :
  Forall create_A evs → group_reconciled_as evs name id →
  group_created_as evs name id.
Proof.
  intros HA (call & body & reply & Hin & [->|[i ->]] & ? & ?).
  - by exists body, reply.
  - rewrite Forall_forall in HA. by apply HA in Hin.
Qed.

Lemma host_created_of_reconciled evs name id :
  Forall create_C evs → host_reconciled_as evs name id →
  host_created_as evs name id.
Proof.
  intros HC (call & body & reply & Hin & [->|[i ->]] & ? & ?).
  - by exists body, reply.
  - rewrite Forall_forall in HC. by apply HC in Hin.
Qed.

Lemma group_created_as_app evs1 evs2 name id :
  group_created_as evs1 name id → group_created_as (evs1 ++ evs2) name id.
Proof.
  intros (body & reply & Hin & ?). exists body, reply.
  split; [|done]. apply elem_of_app. auto.
Qed.

Lemma host_created_as_app evs0 evs1 evs2 name id :
  host_created_as evs1 name id →
  host_created_as (evs0 ++ evs1 ++ evs2) name id.
Proof.
  intros (body & reply & Hin & ?). exists body, reply.
  split; [|done]. apply elem_of_app. right. apply elem_of_app. auto.
Qed.

(** Where the association of a child, and of a host with a group, stands
    in a phased log. *)
Lemma child_association_in_phase (A : Event → Prop)
    (B : list AapGroup.t → Event → Prop) (C : Event → Prop)
    (D : list AapGroup.t → list AapHost.t → Event → Prop)
    evs pre p c r post :
  (∀ r, ¬ A (Called (Call.AddChildToGroup p c) r)) →
  (∀ r, ¬ C (Called (Call.AddChildToGroup p c) r)) →
  (∀ G H r, ¬ D G H (Called (Call.AddChildToGroup p c) r)) →
  phased A B C D evs →
  evs = pre ++ Called (Call.AddChildToGroup p c) r :: post →
  ∃ eA mid post' eC eD G H,
    pre = eA ++ mid ∧ post = post' ++ eC ++ eD ∧
    Forall A eA ∧ Forall (group_answered eA) G ∧
    Forall (B G) (mid ++ Called (Call.AddChildToGroup p c) r :: post') ∧
    Forall C eC ∧ Forall (D G H) eD.
Proof.
  intros HA HC HD (eA & rest & G & -> & HeA & HG & eB & rest' & -> & HeB &
                   eC & eD & H & -> & HeC & HH & HeD) Heq.
  destruct (split_left A _ _ _ _ _ HeA (HA r) Heq) as (mid & -> & Heq1).
  destruct (split_right (λ e, C e ∨ D G H e) _ _ _ _ _
              (Forall_app_2 _ _ _
                 (Forall_impl _ _ _ HeC (λ e He, or_introl He))
                 (Forall_impl _ _ _ HeD (λ e He, or_intror He)))
              (λ Hor, match Hor with
                      | or_introl Hc => HC r Hc
                      | or_intror Hd => HD G H r Hd
                      end) Heq1) as (post' & -> & ->).
  exists eA, mid, post', eC, eD, G, H. done.
Qed.

Lemma host_association_in_phase (A : Event → Prop)
    (B : list AapGroup.t → Event → Prop) (C : Event → Prop)
    (D : list AapGroup.t → list AapHost.t → Event → Prop)
    evs pre h g r post :
  (∀ r, ¬ A (Called (Call.AddGroupToHost h g) r)) →
  (∀ G r, ¬ B G (Called (Call.AddGroupToHost h g) r)) →
  (∀ r, ¬ C (Called (Call.AddGroupToHost h g) r)) →
  phased A B C D evs →
  evs = pre ++ Called (Call.AddGroupToHost h g) r :: post →
  ∃ eA eB eC mid G H,
    pre = eA ++ eB ++ eC ++ mid ∧
    Forall A eA ∧ Forall (group_answered eA) G ∧
    Forall C eC ∧ Forall (host_answered eC) H ∧
    Forall (D G H) (mid ++ Called (Call.AddGroupToHost h g) r :: post).
Proof.
  intros HA HB HC (eA & rest & G & -> & HeA & HG & eB & rest' & -> & HeB &
                   eC & eD & H & -> & HeC & HH & HeD) Heq.
  destruct (split_left A _ _ _ _ _ HeA (HA r) Heq) as (mid1 & -> & Heq1).
  destruct (split_left (B G) _ _ _ _ _ HeB (HB G r) Heq1) as (mid2 & -> & Heq2).
  destruct (split_left C _ _ _ _ _ HeC (HC r) Heq2) as (mid & -> & ->).
  exists eA, eB, eC, mid, G, H. done.
Qed.

Lemma create_B_creates G e : create_B G e → ¬ creates_group e ∧ ¬ creates_host e.
Proof. destruct e as [[] ?| |]; cbn; tauto. Qed.

Lemma create_C_creates e : create_C e → ¬ creates_group e.
Proof. destruct e as [[] ?| |]; cbn; tauto. Qed.

Lemma create_D_creates G H e :
  create_D G H e → ¬ creates_group e ∧ ¬ creates_host e.
Proof. destruct e as [[] ?| |]; cbn; tauto. Qed.

(** C3.  In the log of a create pass, an association of a child with a
    group comes after the creation of both groups (each of the two ids was
    answered by the remote to an earlier group creation) and no group
    creation follows it; an association of a host with a group comes after
    the creation of that host and of that group, and no creation follows
    it. *)
Theorem create_associates_after_creation {W} (client : AAPClient.t W)
    (plan : aapInventoryResourceModel.t) (w : W)
    (prior : option aapInventoryResourceModel.t)
    (pre : list Event) (call : Call.t) (r : Reply.t) (post : list Event) :
  log (run (Create client plan) w prior) = pre ++ Called call r :: post →
  (∀ p c, call = Call.AddChildToGroup p c →
     (∃ name, group_created_as pre name p) ∧
     (∃ name, group_created_as pre name c) ∧
     Forall (λ e, ¬ creates_group e) post) ∧
  (∀ h g, call = Call.AddGroupToHost h g →
     (∃ name, host_created_as pre name h) ∧
     (∃ name, group_created_as pre name g) ∧
     Forall (λ e, ¬ creates_group e ∧ ¬ creates_host e) post).
Proof.
  intros Hlog.
  pose proof (shape_of_run prior _ _ w (Create_phased client prior plan))
    as Hph.
  split.
  - intros p c ->.
    destruct (child_association_in_phase _ _ _ _ _ pre p c r post
                (λ _ H, H) (λ _ H, H) (λ _ _ _ H, H) Hph Hlog)
      as (eA & mid & post' & eC & eD & G & H & -> & -> & HA & HG & HB & HC & HD).
    apply Forall_app in HB as [_ HB].
    apply Forall_cons in HB as [[Hp Hc] HB].
    destruct (group_id_backed _ _ _ HG Hp) as [np Hnp].
    destruct (resolved_backed _ _ _ HG Hc) as [nc Hnc].
    split; [|split].
    + exists np. by apply group_created_as_app, created_of_reconciled.
    + exists nc. by apply group_created_as_app, created_of_reconciled.
    + repeat apply Forall_app_2.
      * eapply Forall_impl; [exact HB|]. intros e He.
        by apply (create_B_creates G).
      * eapply Forall_impl; [exact HC|]. apply create_C_creates.
      * eapply Forall_impl; [exact HD|]. intros e He.
        by apply (create_D_creates G H).
  - intros h g ->.
    destruct (host_association_in_phase _ _ _ _ _ pre h g r post
                (λ _ H, H) (λ _ _ H, H) (λ _ H, H) Hph Hlog)
      as (eA & eB & eC & mid & G & H & -> & HA & HG & HC & HH & HD).
    apply Forall_app in HD as [_ HD].
    apply Forall_cons in HD as [[Hh Hg] HD].
    destruct (host_id_backed _ _ _ HH Hh) as [nh Hnh].
    destruct (resolved_backed _ _ _ HG Hg) as [ng Hng].
    split; [|split].
    + exists nh. rewrite (app_assoc eA eB).
      by apply host_created_as_app, host_created_of_reconciled.
    + exists ng. by apply group_created_as_app, created_of_reconciled.
    + eapply Forall_impl; [exact HD|]. apply create_D_creates.
Qed.

Lemma create_associates_after_creation_witness :
  ((∃ name, group_created_as (take 3 log_AB) name 2) ∧
   (∃ name, group_created_as (take 3 log_AB) name 3) ∧
   Forall (λ e, ¬ creates_group e) (drop 4 log_AB)) ∧
  ((∃ name, host_created_as (take 5 log_AB) name 4) ∧
   (∃ name, group_created_as (take 5 log_AB) name 2) ∧
   Forall (λ e, ¬ creates_group e ∧ ¬ creates_host e) (drop 6 log_AB)).
Proof.
  split.
  - apply (proj1 (create_associates_after_creation (Remote.client 25) plan_AB
                    Remote.empty None (take 3 log_AB)
                    (Call.AddChildToGroup 2 3) Reply.Done (drop 4 log_AB)
                    eq_refl) 2 3 eq_refl).
  - apply (proj2 (create_associates_after_creation (Remote.client 25) plan_AB
                    Remote.empty None (take 5 log_AB)
                    (Call.AddGroupToHost 4 2) Reply.Done (drop 6 log_AB)
                    eq_refl) 4 2 eq_refl).
Defined.

(** The end-to-end scenario: the calls of the create pass, in order. *)
Example create_AB_calls :
  brief <$> calls_of log_AB =
    [("CreateInventory", 0, 0); ("CreateGroup", 0, 0); ("CreateGroup", 0, 0);
     ("AddChildToGroup", 2, 3); ("CreateHost", 0, 0);
     ("AddGroupToHost", 4, 2); ("AddGroupToHost", 4, 3)]%Z.
Proof. reflexivity. Qed.

(** C8.  In the log of an update pass, the group id of every associate
    call (the child given to a group, the group given to a host) is what a
    name resolves to, by [GroupIdFromName], in a group set each of whose
    entries carries the name and the id of a group created or updated
    earlier in this very pass; so it is an id the remote answered in this
    pass, not one taken from the list of current groups. *)
Theorem update_associates_reconciled_groups {W} (client : AAPClient.t W)
    (plan : aapInventoryResourceModel.t) (w : W)
    (prior : option aapInventoryResourceModel.t)
    (pre : list Event) (call : Call.t) (r : Reply.t) (post : list Event) :
  log (run (Update client plan) w prior) = pre ++ Called call r :: post →
  (∀ parent id,
     call = Call.AddChildToGroup parent id ∨
     call = Call.AddGroupToHost parent id →
     (∃ updatedGroups name,
        Forall (group_answered pre) updatedGroups ∧
        GroupIdFromName name updatedGroups = (id, None)) ∧
     (∃ name, group_reconciled_as pre name id)).
Proof.
  intros Hlog parent id Hcall.
  pose proof (shape_of_run prior _ _ w (Update_phased client prior plan))
    as Hph.
  assert (Hmain : ∃ updatedGroups,
            Forall (group_answered pre) updatedGroups ∧
            resolved_in updatedGroups id).
  { destruct Hcall as [-> | ->].
    - destruct (child_association_in_phase _ _ _ _ _ pre parent id r post
                  (λ _ H, H) (λ _ H, H) (λ _ _ _ H, H) Hph Hlog)
        as (eA & mid & post' & eC & eD & G & H & -> & -> & HA & HG & HB & _).
      apply Forall_app in HB as [_ HB].
      apply Forall_cons in HB as [[_ Hc] _].
      exists G. split; [|done].
      eapply Forall_impl; [exact HG|]. intros g. apply group_reconciled_as_app.
    - destruct (host_association_in_phase _ _ _ _ _ pre parent id r post
                  (λ _ H, H) (λ _ _ H, H) (λ _ H, H) Hph Hlog)
        as (eA & eB & eC & mid & G & H & -> & HA & HG & HC & HH & HD).
      apply Forall_app in HD as [_ HD].
      apply Forall_cons in HD as [[_ Hg] _].
      exists G. split; [|done].
      eapply Forall_impl; [exact HG|]. intros g. apply group_reconciled_as_app. }
  destruct Hmain as (G & HG & Hres). split.
  - destruct Hres as [n Hn]. by exists G, n.
  - by eapply resolved_backed.
Qed.

Lemma update_associates_reconciled_groups_witness :
  (∃ updatedGroups name,
     Forall (group_answered (take 8 log_lost)) updatedGroups ∧
     GroupIdFromName name updatedGroups = (7%Z, None)) ∧
  (∃ name, group_reconciled_as (take 8 log_lost) name 7).
Proof.
  apply (update_associates_reconciled_groups (Remote.client 25) plan_P'
           world_lost None (take 8 log_lost) (Call.AddChildToGroup 2 7)
           Reply.Done (drop 9 log_lost) eq_refl 2%Z 7%Z).
  left. reflexivity.
Defined.

(** A group deleted out of band is created again by the update pass, and
    the association of its parent uses the id of the new group (7), which
    no current remote group had. *)
Example out_of_band_group_is_recreated :
  Response.Diagnostics
    (resp (run (Update (Remote.client 25) plan_P') world_lost None)) = [] ∧
  brief <$> calls_of log_lost =
    [("UpdateInventory", 1, 0); ("GetInventoryGroups", 1, 0);
     ("UpdateGroup", 2, 0); ("UpdateGroup", 3, 0); ("UpdateGroup", 4, 0);
     ("UpdateGroup", 5, 0); ("CreateGroup", 0, 0);
     ("GetGroupChildren", 2, 0); ("AddChildToGroup", 2, 7);
     ("RemoveChildFromGroup", 2, 3); ("GetGroupChildren", 3, 0);
     ("GetGroupChildren", 4, 0); ("GetGroupChildren", 5, 0);
     ("GetGroupChildren", 7, 0); ("GetInventoryHosts", 1, 0)]%Z ∧
  AapGroup.Id <$> Remote.groups world_lost = [2; 3; 4; 5]%Z.
Proof. vm_compute. repeat split. Qed.

(** The entity diff: the kept groups are updated in place, the new one is
    created, and the remote groups that are no longer declared (ids 4 and
    6) are deleted. *)
Example entity_diff_scenario :
  let st := run (Update (Remote.client 25) plan_diff) world_P None in
  Response.Diagnostics (resp st) = [] ∧
  take 8 (brief <$> calls_of (log st)) =
    [("UpdateInventory", 1, 0); ("GetInventoryGroups", 1, 0);
     ("UpdateGroup", 2, 0); ("UpdateGroup", 3, 0); ("UpdateGroup", 5, 0);
     ("CreateGroup", 0, 0); ("DeleteGroup", 4, 0); ("DeleteGroup", 6, 0)]%Z.
Proof. vm_compute. repeat split. Qed.

(** ** What the snapshot of a pass holds *)

Lemma Forall3_Forall2 {A B} (step : A → Event → B → Prop)
    (S : A → B → Prop) l evs kept :
  (∀ x e b, step x e b → S x b) →
  Forall3 step l evs kept → Forall2 S l kept.
Proof. intros HS. induction 1; constructor; eauto. Qed.

Lemma SetElements_SetValueFrom {A B} (f : A → B) (l : list A) :
  SetElements (SetValueFrom f l) = f <$> l.
Proof. by destruct l. Qed.

Lemma ObjectsElementsAs_elements {A} (v : tfval (list (tfval A))) :
  (ObjectsElementsAs v []).2 = [] → (ObjectsElementsAs v []).1 = SetElements v.
Proof. by destruct v. Qed.

Lemma GroupToSchema_shown kept o :
  GroupToSchema kept = inl o → group_shown kept o.
Proof.
  unfold GroupToSchema. cbv zeta.
  destruct (VariablesStringToMap (AapGroup.Variables kept)) as [v ds].
  destruct (HasError ds); [done|]. intros [= <-].
  eexists. split; [done|]. cbn.
  rewrite SetElements_SetValueFrom, length_fmap.
  destruct (AapGroup.Children kept); [done|]. cbn. done.
Qed.

Lemma HostToSchema_shown kept o :
  HostToSchema kept = inl o → host_shown kept o.
Proof.
  unfold HostToSchema. cbv zeta.
  destruct (VariablesStringToMap (AapHost.Variables kept)) as [v ds].
  destruct (HasError ds); [done|]. intros [= <-].
  eexists. split; [done|]. cbn.
  rewrite SetElements_SetValueFrom, length_fmap.
  destruct (AapHost.Groups kept); [done|]. cbn. done.
Qed.

Lemma GroupToSchema_error kept ds : GroupToSchema kept = inr ds → ds ≠ [].
Proof.
  unfold GroupToSchema. cbv zeta.
  destruct (VariablesStringToMap (AapGroup.Variables kept)) as [v ds'].
  destruct ds'; cbn; [done|]. by intros [= <-].
Qed.

Lemma HostToSchema_error kept ds : HostToSchema kept = inr ds → ds ≠ [].
Proof.
  unfold HostToSchema. cbv zeta.
  destruct (VariablesStringToMap (AapHost.Variables kept)) as [v ds'].
  destruct ds'; cbn; [done|]. by intros [= <-].
Qed.

Lemma GroupsToSchema_from_shown groups : ∀ acc,
  (GroupsToSchema_from acc groups).2 = [] →
  ∃ added, (GroupsToSchema_from acc groups).1 = acc ++ added ∧
           Forall2 group_shown groups added.
Proof.
  induction groups as [|kept groups IH]; intros acc H; cbn in *.
  - exists []. rewrite app_nil_r. split; [done|constructor].
  - destruct (GroupToSchema kept) as [o|ds] eqn:E; cbn in *.
    + destruct (IH _ H) as (added & -> & Hall). exists (o :: added).
      rewrite <- app_assoc. split; [done|]. constructor; [|done].
      by apply GroupToSchema_shown.
    + by apply GroupToSchema_error in E.
Qed.

Lemma HostsToSchema_from_shown hosts : ∀ acc,
  (HostsToSchema_from acc hosts).2 = [] →
  ∃ added, (HostsToSchema_from acc hosts).1 = acc ++ added ∧
           Forall2 host_shown hosts added.
Proof.
  induction hosts as [|kept hosts IH]; intros acc H; cbn in *.
  - exists []. rewrite app_nil_r. split; [done|constructor].
  - destruct (HostToSchema kept) as [o|ds] eqn:E; cbn in *.
    + destruct (IH _ H) as (added & -> & Hall). exists (o :: added).
      rewrite <- app_assoc. split; [done|]. constructor; [|done].
      by apply HostToSchema_shown.
    + by apply HostToSchema_error in E.
Qed.

Lemma GroupsToSchema_shown groups :
  (GroupsToSchema groups).2 = [] →
  Forall2 group_shown groups (GroupsToSchema groups).1.
Proof.
  intros H. destruct (GroupsToSchema_from_shown groups [] H) as (added & E & ?).
  unfold GroupsToSchema. by rewrite E.
Qed.

Lemma HostsToSchema_shown hosts :
  (HostsToSchema hosts).2 = [] →
  Forall2 host_shown hosts (HostsToSchema hosts).1.
Proof.
  intros H. destruct (HostsToSchema_from_shown hosts [] H) as (added & E & ?).
  unfold HostsToSchema. by rewrite E.
Qed.

Lemma groups_as_declared groups kept shown :
  Forall2 group_keeps groups kept → Forall2 group_shown kept shown →
  Forall2 group_as_declared groups shown.
Proof.
  intros H1. revert shown. induction H1 as [|g k groups kept Hk _ IH];
    intros shown H2; inversion H2; subst; constructor; [|by apply IH].
  destruct Hk as (r & -> & Hr).
  match goal with H : group_shown _ _ |- _ => destruct H as (o' & -> & Ho) end.
  exists r, o'. by rewrite Ho, Hr.
Qed.

Lemma hosts_as_declared hosts kept shown :
  Forall2 host_keeps hosts kept → Forall2 host_shown kept shown →
  Forall2 host_as_declared hosts shown.
Proof.
  intros H1. revert shown. induction H1 as [|h k hosts kept Hk _ IH];
    intros shown H2; inversion H2; subst; constructor; [|by apply IH].
  destruct Hk as (r & -> & Hr).
  match goal with H : host_shown _ _ |- _ => destruct H as (o' & -> & Ho) end.
  exists r, o'. by rewrite Ho, Hr.
Qed.

Section Snapshot.
Context {W : Type} (client : AAPClient.t W).
Context (prior : option aapInventoryResourceModel.t).

Lemma writes_bind {X Y} (m : M W X) (f : X → M W Y) (P : X → Prop) K :
  produces prior m (λ a _, P a) (λ _, True) →
  (∀ a, P a → produces prior (f a) (λ _, writes K) (λ _, True)) →
  produces prior (m ≫= f) (λ _, writes K) (λ _, True).
Proof.
  intros Hm Hf. eapply produces_bind; [apply Hm| |done].
  intros a evs1 Ha. eapply produces_mono; [by apply Hf| |done].
  intros _ evs2 (pre & s & -> & Hs). exists (evs1 ++ pre), s.
  by rewrite app_assoc.
Qed.

Lemma value_of_check {A} (p : A * Diagnostics) :
  produces (W:=W) prior (check p) (λ a _, a = p.1 ∧ p.2 = []) (λ _, True).
Proof. apply produces_check; done. Qed.

Lemma value_any {A} (m : M W A) :
  fail_fast prior m → produces prior m (λ _ _, True) (λ _, True).
Proof. intros Hm. eapply produces_mono; [apply Hm|done|done]. Qed.

Lemma Create_groups_keeps plan groups :
  produces prior (Create_groups client plan groups)
    (λ newGroups _, Forall2 group_keeps groups newGroups) (λ _, True).
Proof.
  eapply produces_mono; [apply Create_groups_produces| |done].
  intros newGroups evs H. eapply Forall3_Forall2; [|exact H].
  intros g e b (r & reply & -> & _ & ->). by exists r.
Qed.

Lemma Create_hosts_keeps plan hosts :
  produces prior (Create_hosts client plan hosts)
    (λ newHosts _, Forall2 host_keeps hosts newHosts) (λ _, True).
Proof.
  eapply produces_mono; [apply Create_hosts_produces| |done].
  intros newHosts evs H. eapply Forall3_Forall2; [|exact H].
  intros h e b (r & reply & -> & _ & ->). by exists r.
Qed.

Lemma Update_groups_keeps plan currentGroups groups :
  produces prior (Update_groups client plan currentGroups groups)
    (λ updatedGroups _, Forall2 group_keeps groups updatedGroups) (λ _, True).
Proof.
  eapply produces_mono; [apply Update_groups_produces| |done].
  intros updatedGroups evs H. eapply Forall3_Forall2; [|exact H].
  intros g e b (r & reply & -> & _ & ->). by exists r.
Qed.

Lemma Update_hosts_keeps plan currentHosts hosts :
  produces prior (Update_hosts client plan currentHosts hosts)
    (λ updatedHosts _, Forall2 host_keeps hosts updatedHosts) (λ _, True).
Proof.
  eapply produces_mono; [apply Update_hosts_produces| |done].
  intros updatedHosts evs H. eapply Forall3_Forall2; [|exact H].
  intros h e b (r & reply & -> & _ & ->). by exists r.
Qed.

Lemma Create_writes plan :
  produces prior (Create client plan)
    (λ _, writes (snapshot_as_declared plan)) (λ _, True).
Proof.
  unfold Create. cbv zeta.
  eapply writes_bind; [apply value_any; fail_fast_walk|intros variables _].
  eapply writes_bind; [apply value_any; fail_fast_walk|intros newInventory _].
  eapply writes_bind; [apply value_any; fail_fast_walk|intros newVariables _].
  eapply writes_bind; [apply value_of_check|intros groups [-> Hgroups]].
  apply ObjectsElementsAs_elements in Hgroups.
  eapply writes_bind; [apply Create_groups_keeps|intros newGroups HG].
  eapply writes_bind;
    [apply value_any, Create_children_fail_fast|intros _ _].
  eapply writes_bind; [apply value_of_check|intros schemaGroups [-> Hschema]].
  apply GroupsToSchema_shown in Hschema.
  eapply writes_bind; [apply value_of_check|intros stateGroups [-> _]].
  cbn [fst].
  eapply writes_bind; [apply value_of_check|intros hosts [-> Hhosts]].
  apply ObjectsElementsAs_elements in Hhosts.
  eapply writes_bind; [apply Create_hosts_keeps|intros newHosts HH].
  eapply writes_bind;
    [apply value_any, Create_hostGroups_fail_fast|intros _ _].
  eapply writes_bind; [apply value_of_check|intros schemaHosts [-> Hschema']].
  apply HostsToSchema_shown in Hschema'.
  eapply writes_bind; [apply value_of_check|intros stateHosts [-> _]].
  cbn [fst].
  apply produces_SetState. eexists [], _. split; [done|].
  split; cbn; rewrite SetElements_SetValueFrom, list_fmap_id.
  - rewrite Hgroups in HG. exact (groups_as_declared _ _ _ HG Hschema).
  - rewrite Hhosts in HH. exact (hosts_as_declared _ _ _ HH Hschema').
Qed.

Lemma Update_writes plan :
  produces prior (Update client plan)
    (λ _, writes (snapshot_as_declared plan)) (λ _, True).
Proof.
  unfold Update. cbv zeta.
  eapply writes_bind; [apply value_any; fail_fast_walk|intros variables _].
  eapply writes_bind;
    [apply value_any; fail_fast_walk|intros updatedInventory _].
  eapply writes_bind;
    [apply value_any; fail_fast_walk|intros updatedVariables _].
  eapply writes_bind; [apply value_any; fail_fast_walk|intros currentGroups _].
  eapply writes_bind; [apply value_of_check|intros groups [-> Hgroups]].
  apply ObjectsElementsAs_elements in Hgroups.
  eapply writes_bind; [apply Update_groups_keeps|intros updatedGroups HG].
  eapply writes_bind;
    [apply value_any, Update_deleteGroups_fail_fast|intros _ _].
  eapply writes_bind;
    [apply value_any, Update_children_fail_fast|intros _ _].
  eapply writes_bind; [apply value_of_check|intros schemaGroups [-> Hschema]].
  apply GroupsToSchema_shown in Hschema.
  eapply writes_bind; [apply value_of_check|intros stateGroups [-> _]].
  cbn [fst].
  eapply writes_bind; [apply value_any; fail_fast_walk|intros currentHosts _].
  eapply writes_bind; [apply value_of_check|intros hosts [-> Hhosts]].
  apply ObjectsElementsAs_elements in Hhosts.
  eapply writes_bind; [apply Update_hosts_keeps|intros updatedHosts HH].
  eapply writes_bind;
    [apply value_any, Update_deleteHosts_fail_fast|intros _ _].
  eapply writes_bind;
    [apply value_any, Update_allHostGroups_fail_fast|intros _ _].
  eapply writes_bind; [apply value_of_check|intros schemaHosts [-> Hschema']].
  apply HostsToSchema_shown in Hschema'.
  eapply writes_bind; [apply value_of_check|intros stateHosts [-> _]].
  cbn [fst].
  apply produces_SetState. eexists [], _. split; [done|].
  split; cbn; rewrite SetElements_SetValueFrom, list_fmap_id.
  - rewrite Hgroups in HG. exact (groups_as_declared _ _ _ HG Hschema).
  - rewrite Hhosts in HH. exact (hosts_as_declared _ _ _ HH Hschema').
Qed.

End Snapshot.

Lemma state_of_last prior evs s : state_of prior (evs ++ [StateSet s]) = Some s.
Proof. unfold state_of. by rewrite foldl_app. Qed.

Lemma run_writes {W A} prior (m : M W A) K (w : W) :
  finishing prior m →
  produces prior m (λ _, writes K) (λ _, True) →
  HasError (Response.Diagnostics (resp (run m w prior))) = false →
  ∃ s, Response.State (resp (run m w prior)) = Some s ∧ K s.
Proof.
  intros Hfin Hw. unfold run.
  destruct (ready_enter w prior) as [Hco Hq].
  pose proof (produces_conj prior m _ _ _ _ Hfin Hw (enter w prior) Hco Hq)
    as Hm.
  destruct (m (enter w prior)) as [[a|] st']; cbn [snd].
  - destruct Hm as ([Hd Hs] & evs & Hlog & _ & _ & pre & s & -> & HK).
    intros _. exists s. split; [|done]. rewrite Hs, Hlog. cbn [log enter app].
    apply state_of_last.
  - destruct Hm as ([Hd Hs] & evs & Hlog & Hst & _). cbn in Hlog. subst evs.
    rewrite Hd, (stopped_has_error _ Hst). done.
Qed.

Lemma create_kinds_list_nothing evs :
  phased create_A create_B create_C create_D evs →
  Forall (λ e, ¬ lists_members e) evs.
Proof.
  intros (eA & rest & G & -> & HA & _ & eB & rest' & -> & HB &
          eC & eD & H & -> & HC & _ & HD).
  repeat apply Forall_app_2; (eapply Forall_impl; [eassumption|]);
    intros [[] ?| |]; cbn; tauto.
Qed.

(** C6, as stated, fails.  Against a remote whose list pages hold one
    result, the create pass of a group P with the children A and B
    completes and its snapshot holds both names for P, while the gateway
    lists one child for P: the snapshot is not what a fetch gives. *)
Lemma snapshot_fresh_counterexample :
  Response.Diagnostics
    (resp (run (Create (Remote.client 1) plan_two) Remote.empty None)) = [] ∧
  ¬ snapshot_fresh (Remote.client 1)
      (run (Create (Remote.client 1) plan_two) Remote.empty None).
Proof.
  split; [reflexivity|]. intros Hfresh.
  change (run (Create (Remote.client 1) plan_two) Remote.empty None)
    with state_two in Hfresh.
  destruct (Hfresh _ eq_refl) as [Hgroups _].
  specialize (Hgroups object_P (list_elem_of_here _ _)).
  vm_compute in Hgroups. discriminate Hgroups.
Qed.

(** C6, amended.  A create or update pass that reports no error persists
    a snapshot in which every group holds the child names declared for it
    in the plan, and every host the group names declared for it; the log
    of a create pass has no listing of children or of host groups at all. *)
Theorem snapshot_holds_declared_names {W} (client : AAPClient.t W)
    (plan : aapInventoryResourceModel.t) (m : M W unit) (w : W)
    (prior : option aapInventoryResourceModel.t) :
  m = Create client plan ∨ m = Update client plan →
  HasError (Response.Diagnostics (resp (run m w prior))) = false →
  (∃ s, Response.State (resp (run m w prior)) = Some s ∧
        snapshot_as_declared plan s) ∧
  (m = Create client plan →
   Forall (λ e, ¬ lists_members e) (log (run m w prior))).
Proof.
  intros Hm Hok. split.
  - destruct Hm as [-> | ->].
    + apply run_writes;
        [apply Create_finishing|apply Create_writes|done].
    + apply run_writes;
        [apply Update_finishing|apply Update_writes|done].
  - intros ->. apply create_kinds_list_nothing.
    apply (shape_of_run prior _ _ w (Create_phased client prior plan)).
Qed.

Lemma snapshot_holds_declared_names_witness :
  (∃ s, Response.State
          (resp (run (Create (Remote.client 1) plan_two) Remote.empty None))
        = Some s ∧ snapshot_as_declared plan_two s) ∧
  (Create (Remote.client 1) plan_two = Create (Remote.client 1) plan_two →
   Forall (λ e, ¬ lists_members e)
     (log (run (Create (Remote.client 1) plan_two) Remote.empty None))).
Proof.
  apply (snapshot_holds_declared_names (Remote.client 1) plan_two
           (Create (Remote.client 1) plan_two) Remote.empty None).
  - left. reflexivity.
  - vm_compute. reflexivity.
Defined.

Lemma entity_diff_by_identity_witness :
  (∃ evs,
     log state_diff = log (enter world_P None) ++ evs ∧
     Forall3 (group_reconciled plan_diff (Remote.groups world_P))
       (SetElements (aapInventoryResourceModel.Groups plan_diff)) evs
       kept_diff) ∧
  log (Update_deleteGroups (Remote.client 25) (Remote.groups world_P)
         kept_diff state_diff).2
  = log state_diff ++ group_deletions (Remote.groups world_P) kept_diff.
Proof.
  split.
  - apply (proj1 (entity_diff_by_identity (Remote.client 25) None plan_diff
                    (enter world_P None) (ready_enter world_P None))).
    vm_compute. reflexivity.
  - assert (Hready : ready None state_diff).
    { split; [split; reflexivity|].
      repeat (constructor; [cbn; tauto|]). constructor. }
    apply (proj1 (proj2 (entity_diff_by_identity (Remote.client 25) None
                           plan_diff state_diff Hready))).
    vm_compute. reflexivity.
Defined.

(** The deletions of the entity-diff scenario: the remote groups 4 and 6,
    which no kept group has. *)
Example entity_diff_deletions :
  AapGroup.Id <$> kept_diff = [2; 3; 5; 7]%Z ∧
  calls_of (group_deletions (Remote.groups world_P) kept_diff)
  = [Call.DeleteGroup 4; Call.DeleteGroup 6].
Proof. vm_compute. repeat split. Qed.

(** ** The log is the record of the interaction with the gateway *)

Section Genuine.
Context {W : Type} (client : AAPClient.t W).

Lemma replays_app w evs1 w' evs2 w'' :
  replays client w evs1 w' → replays client w' evs2 w'' →
  replays client w (evs1 ++ evs2) w''.
Proof. induction 1; cbn; [done|econstructor; eauto|constructor; eauto..]. Qed.

Lemma replays_diags w ds : replays client w (Diagnosed <$> ds) w.
Proof. induction ds; constructor. done. Qed.

Lemma genuine_ret {A} (a : A) : genuine client (mret a).
Proof. intros st. exists []. rewrite app_nil_r. split; [done|constructor]. Qed.

Lemma genuine_Return {A} : genuine (A:=A) client Return.
Proof. intros st. exists []. rewrite app_nil_r. split; [done|constructor]. Qed.

Lemma genuine_bind {A B} (m : M W A) (f : A → M W B) :
  genuine client m → (∀ a, genuine client (f a)) → genuine client (m ≫= f).
Proof.
  intros Hm Hf st. unfold mbind, M_bind.
  destruct (Hm st) as (evs1 & Hl1 & Hr1).
  destruct (m st) as [[a|] st1]; cbn [snd] in *.
  - destruct (Hf a st1) as (evs2 & Hl2 & Hr2).
    exists (evs1 ++ evs2). rewrite Hl2, Hl1, app_assoc. split; [done|].
    by eapply replays_app.
  - by exists evs1.
Qed.

Lemma genuine_AddError summary detail err :
  genuine client (AddError summary detail err).
Proof. intros st. eexists [_]. split; [done|]. repeat constructor. Qed.

Lemma genuine_check {A} (p : A * Diagnostics) : genuine client (check p).
Proof.
  intros st. exists (Diagnosed <$> p.2).
  unfold check, Append, ReturnIfError, mbind, M_bind, mret, M_ret. proj.
  destruct (HasError _); proj; (split; [done|apply replays_diags]).
Qed.

Lemma genuine_call {A} c (reply : A → Reply.t) (f : W → res A * W) :
  (∀ w, perform client c w = answer reply (f w)) →
  genuine client (call c reply f).
Proof.
  intros Hp st. unfold call. specialize (Hp (world st)).
  destruct (f (world st)) as [r w'] eqn:E. proj.
  eexists [_]. split; [done|]. econstructor; [|constructor].
  rewrite Hp. unfold answer. cbn. by destruct r.
Qed.

Lemma genuine_try {A} (m : M W (res A)) summary detail :
  genuine client m → genuine client (try m summary detail).
Proof.
  intros Hm. unfold try. apply genuine_bind; [done|].
  intros [a|e]; [apply genuine_ret|].
  apply genuine_bind; [apply genuine_AddError|intros; apply genuine_Return].
Qed.

Lemma genuine_resolve name groups summary detail :
  genuine client (resolve name groups summary detail).
Proof.
  unfold resolve. destruct (GroupIdFromName name groups) as [id [err|]].
  - apply genuine_bind; [apply genuine_AddError|intros; apply genuine_Return].
  - apply genuine_ret.
Qed.

Lemma genuine_for_range {A S} (l : list A) (body : A → S → M W S) s0 :
  (∀ x s, genuine client (body x s)) → genuine client (for_range l body s0).
Proof.
  intros Hb. revert s0. induction l as [|x l IH]; intros s0.
  - apply genuine_ret.
  - cbn [for_range]. apply genuine_bind; [apply Hb|apply IH].
Qed.

Lemma genuine_for_each {A} (l : list A) (body : A → M W unit) :
  (∀ x, genuine client (body x)) → genuine client (for_each l body).
Proof. intros Hb. apply genuine_for_range. intros. apply Hb. Qed.

Lemma genuine_SetState plan : genuine client (SetState plan).
Proof.
  intros st. exists [StateSet plan].
  unfold SetState, StateSet_, Append, ReturnIfError, mbind, M_bind. proj.
  cbn [fmap list_fmap]. rewrite !app_nil_r.
  destruct (HasError _); proj; (split; [done|repeat constructor]).
Qed.

End Genuine.

Ltac genuine_walk :=
  repeat first
    [ apply genuine_ret
    | apply genuine_check
    | apply genuine_resolve
    | apply genuine_SetState
    | apply genuine_try
    | apply genuine_call; intros; reflexivity
    | apply genuine_for_each; intros
    | apply genuine_for_range; intros
    | apply genuine_bind; [|intros]
    | match goal with
      | |- genuine _ (if ?b then _ else _) => destruct b
      end
    | progress unfold_client
    | progress cbv beta zeta ].

Section HandlersGenuine.
Context {W : Type} (client : AAPClient.t W).

Lemma Create_genuine plan : genuine client (Create client plan).
Proof.
  unfold Create, Create_groups, Create_children, Create_hosts,
    Create_hostGroups.
  genuine_walk.
Qed.

Lemma Update_genuine plan : genuine client (Update client plan).
Proof.
  unfold Update, Update_groups, Update_deleteGroups, Update_children,
    Update_groupChildren, Update_hosts, Update_deleteHosts,
    Update_allHostGroups, Update_hostGroups.
  genuine_walk.
Qed.

Lemma Read_genuine state : genuine client (Read client state).
Proof. unfold Read, Read_children, Read_hostGroups. genuine_walk. Qed.

Lemma Delete_genuine state : genuine client (Delete client state).
Proof. unfold Delete. genuine_walk. Qed.

Lemma Update_groupChildren_genuine updatedGroups group :
  genuine client (Update_groupChildren client updatedGroups group).
Proof. unfold Update_groupChildren. genuine_walk. Qed.

Lemma Update_hostGroups_genuine updatedGroups host :
  genuine client (Update_hostGroups client updatedGroups host).
Proof. unfold Update_hostGroups. genuine_walk. Qed.

End HandlersGenuine.

(** The log of a handler is the record of its interaction with the
    gateway: replaying its calls from the world the handler started in
    gets the recorded replies and leads to the world it ended in. *)
Theorem log_is_genuine {W} (client : AAPClient.t W)
    (plan : aapInventoryResourceModel.t) (m : M W unit) (w : W)
    (prior : option aapInventoryResourceModel.t) :
  m = Create client plan ∨ m = Read client plan ∨
  m = Update client plan ∨ m = Delete client plan →
  replays client w (log (run m w prior)) (world (run m w prior)).
Proof.
  intros Hm.
  assert (Hg : genuine client m).
  { destruct Hm as [->|[->|[->| ->]]];
      [apply Create_genuine|apply Read_genuine|apply Update_genuine
      |apply Delete_genuine]. }
  destruct (Hg (enter w prior)) as (evs & Hlog & Hr). unfold run.
  cbn in Hlog. by rewrite Hlog.
Qed.

(** ** Set reconciliation, with the listing the gateway gave *)

Lemma listed_by_gateway {W} (client : AAPClient.t W) (k : list AapGroup.t → Reply.t)
    (out : res (list AapGroup.t) * W) current w' :
  (∀ l, k l = Reply.Groups l) →
  answer k out = (Reply.Groups current, w') → out.1 = Ok current.
Proof.
  intros Hk. destruct out as [[l|e] w'']; unfold answer; cbn.
  - rewrite Hk. by intros [= -> _].
  - done.
Qed.

(** C1.  In the update path, reconciling the children of a group (and the
    groups of a host) that goes through logs exactly: the listing of the
    current members, which is what the gateway answers, then one associate
    call for each declared name that no current member carries, then one
    disassociate call for each current member whose name is not declared;
    a name on both sides gets no call. *)
Theorem association_reconciliation {W} (client : AAPClient.t W)
    (prior : option aapInventoryResourceModel.t)
    (updatedGroups : list AapGroup.t) (st : St W) :
  ready prior st →
  (∀ group st',
     Update_groupChildren client updatedGroups group st = (Some tt, st') →
     ∃ current,
       (AAPClient.GetGroupChildren client (AapGroup.Id group) (world st)).1
         = Ok current ∧
       log st' = log st ++ group_reconciliation updatedGroups group current) ∧
  (∀ host st',
     Update_hostGroups client updatedGroups host st = (Some tt, st') →
     ∃ current,
       (AAPClient.GetHostGroups client (AapHost.Id host) (world st)).1
         = Ok current ∧
       log st' = log st ++ host_reconciliation updatedGroups host current).
Proof.
  intros Hready. split.
  - intros group st' Hrun.
    destruct (produces_run prior _ _ _ st tt st'
                (Update_groupChildren_produces client prior updatedGroups group)
                Hready Hrun) as (evs & Hlog & current & ->).
    exists current. split; [|done].
    destruct (Update_groupChildren_genuine client updatedGroups group st)
      as (evs & Hlog' & Hreplay).
    rewrite Hrun in Hlog', Hreplay. cbn [snd] in *.
    rewrite Hlog in Hlog'. apply app_inv_head in Hlog'. subst evs.
    inversion Hreplay as [|? ? ? w' ? ? Hperform| |]; subst.
    by eapply (listed_by_gateway client Reply.Groups).
  - intros host st' Hrun.
    destruct (produces_run prior _ _ _ st tt st'
                (Update_hostGroups_produces client prior updatedGroups host)
                Hready Hrun) as (evs & Hlog & current & ->).
    exists current. split; [|done].
    destruct (Update_hostGroups_genuine client updatedGroups host st)
      as (evs & Hlog' & Hreplay).
    rewrite Hrun in Hlog', Hreplay. cbn [snd] in *.
    rewrite Hlog in Hlog'. apply app_inv_head in Hlog'. subst evs.
    inversion Hreplay as [|? ? ? w' ? ? Hperform| |]; subst.
    by eapply (listed_by_gateway client Reply.Groups).
Qed.

Lemma association_reconciliation_witness :
  ∃ current,
    (AAPClient.GetGroupChildren (Remote.client 25) (AapGroup.Id group_P')
       (world (enter world_P None))).1 = Ok current ∧
    log (Update_groupChildren (Remote.client 25) groups_P' group_P'
           (enter world_P None)).2
    = log (enter world_P None) ++ group_reconciliation groups_P' group_P' current.
Proof.
  apply (proj1 (association_reconciliation (Remote.client 25) None groups_P'
                  (enter world_P None) (ready_enter world_P None))
           group_P').
  vm_compute. reflexivity.
Defined.

(** With the children A, B and C on the remote and B, C and D declared,
    the update pass associates D and disassociates A, and issues no
    other association call. *)
Example reconcile_ABC_to_BCD :
  let st := run (Update (Remote.client 25) plan_P') world_P None in
  Response.Diagnostics (resp st) = [] ∧
  AapGroup.Name <$> listed_children_groups world_P 2 =
    [str "A"; str "B"; str "C"] ∧
  AapGroup.Children group_P' = [str "B"; str "C"; str "D"] ∧
  association_calls (log st) =
    [Call.AddChildToGroup 2 6; Call.RemoveChildFromGroup 2 3].
Proof. vm_compute. repeat split. Qed.

(** * Further properties of the code: proofs *)

(** *** The codec on values *)

Lemma all_known_omap (m : gmap gostring (tfval gostring)) :
  all_known m = true → Known <$> omap known m = m.
Proof.
  unfold all_known. intros H. apply bool_decide_eq_true in H.
  apply map_eq. intros k. rewrite lookup_fmap, lookup_omap.
  destruct (m !! k) as [v|] eqn:E; [|done]. cbn.
  destruct (H k v E) as [s Hs]. destruct v; try done.
Qed.

Lemma omap_known_empty (m : gmap gostring (tfval gostring)) :
  all_known m = true → omap known m = ∅ → m = ∅.
Proof.
  intros H E. rewrite <- (all_known_omap m H), E. apply fmap_empty.
Qed.

Lemma fmap_Known_inj (m : gmap gostring gostring) : (Known <$> m : gmap gostring (tfval gostring)) = ∅ → m = ∅.
Proof. apply fmap_empty_inv. Qed.

Lemma normal_map_round_trip (v : MapValue) :
  normal_map v = true →
  (VariablesMapToString v).2 = [] ∧
  VariablesStringToMap (VariablesMapToString v).1 = (v, []).
Proof.
  destruct v as [| |m]; [done|done|]. cbn [normal_map].
  intros H. apply andb_true_iff in H as [Hne Hk].
  apply negb_true_iff, bool_decide_eq_false in Hne.
  unfold VariablesMapToString, MapElementsAs. rewrite Hk.
  cbn beta iota zeta. cbn [fst snd].
  split; [done|]. rewrite VariablesStringToMap_Marshal.
  destruct (decide (omap known m = ∅)) as [E|_].
  - by apply omap_known_empty in E.
  - unfold MapValueFrom. by rewrite all_known_omap.
Qed.

Lemma VariablesStringToMap_normal s :
  normal_map (VariablesStringToMap s).1 = true.
Proof.
  unfold VariablesStringToMap.
  destruct (Json.Unmarshal s) as [[m|]|]; [|done|done]. cbn [maplen].
  destruct (Nat.ltb_spec 0 (size m)) as [Hs|Hs]; [|done]. cbn.
  rewrite all_known_fmap, andb_true_r. apply negb_true_iff, bool_decide_eq_false.
  intros E. apply fmap_empty_inv in E. subst m. rewrite map_size_empty in Hs. lia.
Qed.

(** X2.  Decoding what [VariablesMapToString] wrote for a map value gives
    that very value, with no diagnostic, exactly when the value is in
    normal form: null, or known and not empty with known elements.  The
    known empty map, an unknown map and a map with a null or unknown
    element do not come back. *)
Theorem variables_value_round_trip (v : MapValue) :
  VariablesStringToMap (VariablesMapToString v).1 = (v, [])
  ↔ normal_map v = true.
Proof.
  split; [|apply normal_map_round_trip].
  intros H. pose proof (VariablesStringToMap_normal (VariablesMapToString v).1) as Hn.
  by rewrite H in Hn.
Qed.

(** X1.  [GroupIdFromName] returns the id of the first group of the slice
    that carries the name, whatever follows it: a second group of the same
    name is no error and is never chosen. *)
Theorem GroupIdFromName_first_match (name : gostring)
    (pre post : list AapGroup.t) (g : AapGroup.t) :
  name ∉ AapGroup.Name <$> pre → AapGroup.Name g = name →
  GroupIdFromName name (pre ++ g :: post) = (AapGroup.Id g, None).
Proof.
  intros Hpre Hg. induction pre as [|x pre IH]; cbn.
  - by rewrite decide_True.
  - rewrite fmap_cons, not_elem_of_cons in Hpre. destruct Hpre as [Hx Hpre].
    rewrite decide_False by done. by apply IH.
Qed.

(** *** The snapshot builder *)


Lemma mapM_known_all {A} (l : list (tfval A)) :
  forallb is_known l = true → ∃ l', mapM known l = Some l' ∧ Known <$> l' = l.
Proof.
  induction l as [|x l IH]; intros H; [by exists []|].
  cbn in H. apply andb_true_iff in H as [Hx Hl].
  destruct x as [| |a]; [done|done|]. destruct (IH Hl) as (l' & E & <-).
  exists (a :: l'). cbn. by rewrite E.
Qed.

Lemma VariablesStringToMap_decodable s :
  decodable s → (VariablesStringToMap s).2 = [].
Proof.
  unfold decodable, VariablesStringToMap. intros [m ->].
  by destruct (0 <? maplen m)%nat.
Qed.

Lemma VariablesStringToMap_undecodable s :
  ¬ decodable s → VariablesStringToMap s = (Null, [unmarshal_error]).
Proof.
  unfold decodable, VariablesStringToMap. intros H.
  destruct (Json.Unmarshal s) as [m|]; [|done]. destruct H. by eexists.
Qed.


Lemma keep_when_elements (v : MapValue) :
  normal_map v = true →
  (if (0 <? size (MapElements v))%nat then v else Null) = v.
Proof.
  destruct v as [| |m]; [done|done|]. cbn [normal_map MapElements].
  intros H. apply andb_true_iff in H as [Hne _].
  apply negb_true_iff, bool_decide_eq_false, map_size_non_empty_iff in Hne.
  destruct (Nat.ltb_spec 0 (size m)); [done|lia].
Qed.

Lemma keep_children (l : list gostring) :
  (if (0 <? length (SetElements (SetValueFrom Known l)))%nat
   then SetValueFrom Known l else Null) = SetValueFrom Known l.
Proof. by destruct l. Qed.

Lemma GroupToSchema_decodable g :
  decodable (AapGroup.Variables g) →
  GroupToSchema g =
    inl (Known (aapGroupResourceModel.mk
                  (Known (AapGroup.Id g))
                  (Known (AapGroup.Inventory g))
                  (Known (AapGroup.Name g))
                  (SetValueFrom Known (AapGroup.Children g))
                  (if decide (AapGroup.Description g ≠ [])
                   then Known (AapGroup.Description g) else Null)
                  (VariablesStringToMap (AapGroup.Variables g)).1)).
Proof.
  intros H. unfold GroupToSchema. cbv zeta.
  pose proof (VariablesStringToMap_decodable _ H) as Hd.
  pose proof (VariablesStringToMap_normal (AapGroup.Variables g)) as Hn.
  destruct (VariablesStringToMap (AapGroup.Variables g)) as [v ds].
  cbn [fst snd] in *. subst ds. cbn [HasError].
  by rewrite keep_children, keep_when_elements.
Qed.

Lemma GroupToSchema_undecodable g :
  ¬ decodable (AapGroup.Variables g) →
  GroupToSchema g = inr [unmarshal_error].
Proof.
  intros H. unfold GroupToSchema. cbv zeta.
  by rewrite (VariablesStringToMap_undecodable _ H).
Qed.

Lemma HostToSchema_decodable h :
  decodable (AapHost.Variables h) →
  HostToSchema h =
    inl (Known (aapHostResourceModel.mk
                  (Known (AapHost.Id h))
                  (Known (AapHost.Inventory h))
                  (Known (AapHost.Name h))
                  (if decide (AapHost.Description h ≠ [])
                   then Known (AapHost.Description h) else Null)
                  (SetValueFrom Known (AapHost.Groups h))
                  (VariablesStringToMap (AapHost.Variables h)).1)).
Proof.
  intros H. unfold HostToSchema. cbv zeta.
  pose proof (VariablesStringToMap_decodable _ H) as Hd.
  pose proof (VariablesStringToMap_normal (AapHost.Variables h)) as Hn.
  destruct (VariablesStringToMap (AapHost.Variables h)) as [v ds].
  cbn [fst snd] in *. subst ds. cbn [HasError].
  by rewrite keep_children, keep_when_elements.
Qed.

Lemma HostToSchema_undecodable h :
  ¬ decodable (AapHost.Variables h) →
  HostToSchema h = inr [unmarshal_error].
Proof.
  intros H. unfold HostToSchema. cbv zeta.
  by rewrite (VariablesStringToMap_undecodable _ H).
Qed.




(** The loop, by what it does on each element. *)
Lemma loop_from_ok {A B} (one : A → B + Diagnostics)
    (loop : list B → list A → list B * Diagnostics) (f : A → B) :
  (∀ acc, loop acc [] = (acc, [])) →
  (∀ acc x l, loop acc (x :: l) =
     match one x with
     | inr ds => (acc, ds)
     | inl b => loop (acc ++ [b]) l
     end) →
  ∀ l acc, Forall (λ x, one x = inl (f x)) l →
    loop acc l = (acc ++ (f <$> l), []).
Proof.
  intros Hnil Hcons l. induction l as [|x l IH]; intros acc H.
  - by rewrite Hnil, app_nil_r.
  - apply Forall_cons in H as [Hx Hl].
    rewrite Hcons, Hx, IH by done. by rewrite <- app_assoc.
Qed.

Lemma loop_from_stop {A B} (one : A → B + Diagnostics)
    (loop : list B → list A → list B * Diagnostics) (f : A → B) :
  (∀ acc, loop acc [] = (acc, [])) →
  (∀ acc x l, loop acc (x :: l) =
     match one x with
     | inr ds => (acc, ds)
     | inl b => loop (acc ++ [b]) l
     end) →
  ∀ pre acc x post ds, Forall (λ x, one x = inl (f x)) pre →
    one x = inr ds →
    loop acc (pre ++ x :: post) = (acc ++ (f <$> pre), ds).
Proof.
  intros Hnil Hcons pre. induction pre as [|y pre IH]; intros acc x post ds H Hx.
  - cbn. by rewrite Hcons, Hx, app_nil_r.
  - apply Forall_cons in H as [Hy Hl]. cbn [app].
    rewrite Hcons, Hy, (IH _ _ _ ds) by done. by rewrite <- app_assoc.
Qed.

Lemma GroupsToSchema_from_cons acc g l :
  GroupsToSchema_from acc (g :: l) =
    match GroupToSchema g with
    | inr ds => (acc, ds)
    | inl b => GroupsToSchema_from (acc ++ [b]) l
    end.
Proof. done. Qed.

Lemma HostsToSchema_from_cons acc h l :
  HostsToSchema_from acc (h :: l) =
    match HostToSchema h with
    | inr ds => (acc, ds)
    | inl b => HostsToSchema_from (acc ++ [b]) l
    end.
Proof. done. Qed.

Lemma GroupsToSchema_ok groups :
  Forall (λ g, decodable (AapGroup.Variables g)) groups →
  GroupsToSchema groups = (group_schema <$> groups, []).
Proof.
  intros H. unfold GroupsToSchema.
  apply (loop_from_ok GroupToSchema GroupsToSchema_from group_schema);
    [done|apply GroupsToSchema_from_cons|].
  eapply Forall_impl; [exact H|]. intros g. apply GroupToSchema_decodable.
Qed.

Lemma HostsToSchema_ok hosts :
  Forall (λ h, decodable (AapHost.Variables h)) hosts →
  HostsToSchema hosts = (host_schema <$> hosts, []).
Proof.
  intros H. unfold HostsToSchema.
  apply (loop_from_ok HostToSchema HostsToSchema_from host_schema);
    [done|apply HostsToSchema_from_cons|].
  eapply Forall_impl; [exact H|]. intros h. apply HostToSchema_decodable.
Qed.

Lemma GroupsToSchema_stop pre g post :
  Forall (λ g, decodable (AapGroup.Variables g)) pre →
  ¬ decodable (AapGroup.Variables g) →
  GroupsToSchema (pre ++ g :: post) = (group_schema <$> pre, [unmarshal_error]).
Proof.
  intros H Hg. unfold GroupsToSchema.
  apply (loop_from_stop GroupToSchema GroupsToSchema_from group_schema);
    [done|apply GroupsToSchema_from_cons| |by apply GroupToSchema_undecodable].
  eapply Forall_impl; [exact H|]. intros x. apply GroupToSchema_decodable.
Qed.

Lemma HostsToSchema_stop pre h post :
  Forall (λ h, decodable (AapHost.Variables h)) pre →
  ¬ decodable (AapHost.Variables h) →
  HostsToSchema (pre ++ h :: post) = (host_schema <$> pre, [unmarshal_error]).
Proof.
  intros H Hh. unfold HostsToSchema.
  apply (loop_from_stop HostToSchema HostsToSchema_from host_schema);
    [done|apply HostsToSchema_from_cons| |by apply HostToSchema_undecodable].
  eapply Forall_impl; [exact H|]. intros x. apply HostToSchema_decodable.
Qed.

(** A list splits at its first element that fails a decidable test. *)
Lemma first_failing {A} (P : A → Prop) `{∀ x, Decision (P x)} (l : list A) :
  Forall P l ∨ ∃ pre x post, l = pre ++ x :: post ∧ Forall P pre ∧ ¬ P x.
Proof.
  induction l as [|x l [IH|(pre & y & post & -> & Hpre & Hy)]].
  - left. constructor.
  - destruct (decide (P x)) as [Hx|Hx].
    + left. by constructor.
    + right. exists [], x, l. by repeat split.
  - destruct (decide (P x)) as [Hx|Hx].
    + right. exists (x :: pre), y, post. repeat split; [|done]. by constructor.
    + right. exists [], x, (pre ++ y :: post). by repeat split.
Qed.



Lemma GroupsToSchema_clean groups :
  (GroupsToSchema groups).2 = [] →
  Forall (λ g, decodable (AapGroup.Variables g)) groups.
Proof.
  intros Hok.
  destruct (first_failing (λ g, decodable (AapGroup.Variables g)) groups)
    as [H|(pre & g & post & -> & Hpre & Hg)]; [done|].
  by rewrite (GroupsToSchema_stop _ _ _ Hpre Hg) in Hok.
Qed.

Lemma HostsToSchema_clean hosts :
  (HostsToSchema hosts).2 = [] →
  Forall (λ h, decodable (AapHost.Variables h)) hosts.
Proof.
  intros Hok.
  destruct (first_failing (λ h, decodable (AapHost.Variables h)) hosts)
    as [H|(pre & h & post & -> & Hpre & Hh)]; [done|].
  by rewrite (HostsToSchema_stop _ _ _ Hpre Hh) in Hok.
Qed.



(** *** Normal forms *)

Lemma normal_set_SetValueFrom (l : list gostring) :
  normal_set (SetValueFrom Known l) = true.
Proof.
  destruct l as [|x l]; [done|]. cbn. induction l as [|y l IH]; [done|exact IH].
Qed.

Lemma normal_string_description (s : gostring) :
  normal_string (if decide (s ≠ []) then Known s else Null) = true.
Proof. destruct (decide (s ≠ [])); [|done]. by destruct s. Qed.

Lemma group_schema_normal g :
  ∃ r, group_schema g = Known r ∧
       is_known (aapGroupResourceModel.ID r) = true ∧
       is_known (aapGroupResourceModel.Inventory r) = true ∧
       normal_group r = true.
Proof.
  eexists. split; [done|]. cbn. split; [done|]. split; [done|].
  unfold normal_group. cbn.
  by rewrite normal_set_SetValueFrom, normal_string_description,
    VariablesStringToMap_normal.
Qed.

Lemma host_schema_normal h :
  ∃ r, host_schema h = Known r ∧
       is_known (aapHostResourceModel.Id r) = true ∧
       is_known (aapHostResourceModel.Inventory r) = true ∧
       normal_host r = true.
Proof.
  eexists. split; [done|]. cbn. split; [done|]. split; [done|].
  unfold normal_host. cbn.
  by rewrite normal_set_SetValueFrom, normal_string_description,
    VariablesStringToMap_normal.
Qed.

Lemma GroupsToSchema_objects groups :
  ∃ pre, pre `prefix_of` groups ∧ (GroupsToSchema groups).1 = group_schema <$> pre.
Proof.
  destruct (first_failing (λ g, decodable (AapGroup.Variables g)) groups)
    as [H|(pre & g & post & -> & Hpre & Hg)].
  - exists groups. by rewrite (GroupsToSchema_ok _ H).
  - exists pre. rewrite (GroupsToSchema_stop _ _ _ Hpre Hg).
    split; [by eexists|done].
Qed.

Lemma HostsToSchema_objects hosts :
  ∃ pre, pre `prefix_of` hosts ∧ (HostsToSchema hosts).1 = host_schema <$> pre.
Proof.
  destruct (first_failing (λ h, decodable (AapHost.Variables h)) hosts)
    as [H|(pre & h & post & -> & Hpre & Hh)].
  - exists hosts. by rewrite (HostsToSchema_ok _ H).
  - exists pre. rewrite (HostsToSchema_stop _ _ _ Hpre Hh).
    split; [by eexists|done].
Qed.

Lemma schema_group_normal groups o :
  o ∈ (GroupsToSchema groups).1 →
  ∃ r, o = Known r ∧
       is_known (aapGroupResourceModel.ID r) = true ∧
       is_known (aapGroupResourceModel.Inventory r) = true ∧
       normal_group r = true.
Proof.
  intros Hin. destruct (GroupsToSchema_objects groups) as (pre & _ & E).
  rewrite E in Hin. apply list_elem_of_fmap in Hin as (g & -> & _).
  apply group_schema_normal.
Qed.

Lemma schema_host_normal hosts o :
  o ∈ (HostsToSchema hosts).1 →
  ∃ r, o = Known r ∧
       is_known (aapHostResourceModel.Id r) = true ∧
       is_known (aapHostResourceModel.Inventory r) = true ∧
       normal_host r = true.
Proof.
  intros Hin. destruct (HostsToSchema_objects hosts) as (pre & _ & E).
  rewrite E in Hin. apply list_elem_of_fmap in Hin as (h & -> & _).
  apply host_schema_normal.
Qed.

(** X5.  Every object that [GroupsToSchema] or [HostsToSchema] returns,
    with or without a diagnostic, is known and in normal form: its id, its
    inventory and its name are known; its member names, its description
    and its variables are each null, or known and not empty with known
    elements.  No attribute is unknown and none is a known empty value. *)
Theorem schema_objects_normal :
  (∀ groups o, o ∈ (GroupsToSchema groups).1 →
     ∃ r, o = Known r ∧
          is_known (aapGroupResourceModel.ID r) = true ∧
          is_known (aapGroupResourceModel.Inventory r) = true ∧
          normal_group r = true) ∧
  (∀ hosts o, o ∈ (HostsToSchema hosts).1 →
     ∃ r, o = Known r ∧
          is_known (aapHostResourceModel.Id r) = true ∧
          is_known (aapHostResourceModel.Inventory r) = true ∧
          normal_host r = true).
Proof. split; [apply schema_group_normal|apply schema_host_normal]. Qed.

(** *** From a declaration to its object *)

Lemma normal_string_keep (v : tfval gostring) :
  normal_string v = true →
  (if decide (ValueString v ≠ []) then Known (ValueString v) else Null) = v.
Proof. destruct v as [| |[|c s]]; done. Qed.

Lemma normal_set_keep (v : tfval (list (tfval gostring))) :
  normal_set v = true → SetValueFrom Known (SetElementsAs v []).1 = v.
Proof.
  destruct v as [| |[|x l]]; [done|done|done|]. cbn [normal_set]. intros H.
  destruct (mapM_known_all _ H) as (l' & E & El).
  unfold SetElementsAs. rewrite E. cbn [fst]. rewrite <- El.
  destruct l'; [done|done].
Qed.

Lemma normal_map_decodable (v : MapValue) :
  normal_map v = true → decodable (VariablesMapToString v).1.
Proof.
  intros H. destruct (normal_map_round_trip v H) as [_ E].
  destruct (decodable_dec (VariablesMapToString v).1) as [|Hn]; [done|].
  by rewrite (VariablesStringToMap_undecodable _ Hn) in E.
Qed.

Lemma kept_group_schema plan r reply :
  normal_group r = true →
  decodable (AapGroup.Variables (kept_group plan r reply)) ∧
  group_schema (kept_group plan r reply) = group_object plan r reply.
Proof.
  unfold normal_group. intros H.
  apply andb_true_iff in H as [H Hv]. apply andb_true_iff in H as [H Hd].
  apply andb_true_iff in H as [Hn Hc].
  split; [by apply normal_map_decodable|].
  unfold group_schema, group_object, kept_group, group_body, declared_children.
  cbn. rewrite (normal_set_keep _ Hc), (normal_string_keep _ Hd).
  destruct (normal_map_round_trip _ Hv) as [_ ->]. cbn [fst].
  by destruct (aapGroupResourceModel.Name r).
Qed.

Lemma kept_host_schema plan r reply :
  normal_host r = true →
  decodable (AapHost.Variables (kept_host plan r reply)) ∧
  host_schema (kept_host plan r reply) = host_object plan r reply.
Proof.
  unfold normal_host. intros H.
  apply andb_true_iff in H as [H Hv]. apply andb_true_iff in H as [H Hd].
  apply andb_true_iff in H as [Hn Hc].
  split; [by apply normal_map_decodable|].
  unfold host_schema, host_object, kept_host, host_body, declared_groups.
  cbn. rewrite (normal_set_keep _ Hc), (normal_string_keep _ Hd).
  destruct (normal_map_round_trip _ Hv) as [_ ->]. cbn [fst].
  by destruct (aapHostResourceModel.Name r).
Qed.

Lemma Forall_zip_with {A B C} (f : A → B → C) (P : C → Prop) (Q : A → Prop)
    (l : list A) (k : list B) :
  (∀ a b, Q a → P (f a b)) → Forall Q l → Forall P (zip_with f l k).
Proof.
  intros Hf H. revert k. induction H as [|a l Ha _ IH]; intros [|b k]; cbn;
    constructor; eauto.
Qed.

Lemma kept_groups_schema plan rs replies :
  Forall (λ r, normal_group r = true) rs →
  GroupsToSchema (zip_with (kept_group plan) rs replies)
  = (zip_with (group_object plan) rs replies, []).
Proof.
  intros H. rewrite GroupsToSchema_ok.
  - f_equal. revert replies. induction H as [|r rs Hr _ IH];
      intros [|reply replies]; cbn; [done..|].
    f_equal; [|apply IH]. by apply kept_group_schema.
  - apply (Forall_zip_with _ _ (λ r, normal_group r = true)); [|done].
    intros r reply Hr. by apply kept_group_schema.
Qed.

Lemma kept_hosts_schema plan rs replies :
  Forall (λ r, normal_host r = true) rs →
  HostsToSchema (zip_with (kept_host plan) rs replies)
  = (zip_with (host_object plan) rs replies, []).
Proof.
  intros H. rewrite HostsToSchema_ok.
  - f_equal. revert replies. induction H as [|r rs Hr _ IH];
      intros [|reply replies]; cbn; [done..|].
    f_equal; [|apply IH]. by apply kept_host_schema.
  - apply (Forall_zip_with _ _ (λ r, normal_host r = true)); [|done].
    intros r reply Hr. by apply kept_host_schema.
Qed.

(** X6.  The entry the create and update paths keep for a declared group
    (a host likewise), converted by the snapshot builder, is the
    declaration itself with the id the remote answered and the id of the
    inventory, exactly when the declaration is in normal form: a known
    name, and member names, description and variables that are each null
    or known and not empty.  A declared empty set, empty text or empty map
    comes out null. *)
Theorem declared_entities_round_trip (plan : aapInventoryResourceModel.t) :
  (∀ r reply,
     GroupsToSchema [kept_group plan r reply]
     = ([group_object plan r reply], [])
     ↔ normal_group r = true) ∧
  (∀ r reply,
     HostsToSchema [kept_host plan r reply]
     = ([host_object plan r reply], [])
     ↔ normal_host r = true).
Proof.
  split.
  - intros r reply. split.
    + intros E.
      destruct (schema_group_normal [kept_group plan r reply]
                  (group_object plan r reply)) as (r' & [= <-] & _ & _ & Hn).
      { rewrite E. left. }
      exact Hn.
    + intros Hn.
      apply (kept_groups_schema plan [r] [reply]). by constructor.
  - intros r reply. split.
    + intros E.
      destruct (schema_host_normal [kept_host plan r reply]
                  (host_object plan r reply)) as (r' & [= <-] & _ & _ & Hn).
      { rewrite E. left. }
      exact Hn.
    + intros Hn.
      apply (kept_hosts_schema plan [r] [reply]). by constructor.
Qed.

Lemma variables_value_round_trip_witness :
  VariablesStringToMap
    (VariablesMapToString (Known {[ str "k" := Known (str "v") ]})).1
  = (Known {[ str "k" := Known (str "v") ]}, []).
Proof.
  apply (proj2 (variables_value_round_trip
                  (Known {[ str "k" := Known (str "v") ]}))).
  vm_compute. reflexivity.
Defined.

Lemma GroupIdFromName_first_match_witness :
  GroupIdFromName (str "A") groups_BAA = (2%Z, None).
Proof.
  apply (GroupIdFromName_first_match (str "A")
           [AapGroup.mk 3 1 (str "B") [] [] (str "null")]
           [AapGroup.mk 9 1 (str "A") [] [] (str "null")]
           (AapGroup.mk 2 1 (str "A") [] [] (str "null"))).
  - intros H. cbn in H. apply list_elem_of_singleton in H.
    vm_compute in H. discriminate H.
  - reflexivity.
Defined.



Lemma schema_objects_normal_witness :
  ∃ r, group_schema (AapGroup.mk 2 1 (str "A") [str "B"] [] (str "null"))
       = Known r ∧
       is_known (aapGroupResourceModel.ID r) = true ∧
       is_known (aapGroupResourceModel.Inventory r) = true ∧
       normal_group r = true.
Proof.
  apply (proj1 schema_objects_normal groups_AB).
  vm_compute. left.
Defined.

Lemma declared_entities_round_trip_witness :
  GroupsToSchema
    [kept_group plan_AB model_A (AapGroup.mk 7 1 (str "A") [] [] [])]
  = ([group_object plan_AB model_A (AapGroup.mk 7 1 (str "A") [] [] [])], []).
Proof.
  apply (proj2 (proj1 (declared_entities_round_trip plan_AB) model_A
                  (AapGroup.mk 7 1 (str "A") [] [] []))).
  vm_compute. reflexivity.
Defined.

Lemma run_completes {W A} prior (m : M W A) (Q : A → list Event → Prop)
    (w : W) :
  finishing prior m →
  produces prior m Q (λ _, True) →
  HasError (Response.Diagnostics (resp (run m w prior))) = false →
  ∃ a, Q a (log (run m w prior)).
Proof.
  intros Hfin Hw. unfold run.
  destruct (ready_enter w prior) as [Hco Hq].
  pose proof (produces_conj prior m _ _ _ _ Hfin Hw (enter w prior) Hco Hq)
    as Hm.
  destruct (m (enter w prior)) as [[a|] st']; cbn [snd].
  - destruct Hm as (_ & evs & Hlog & _ & _ & HQ). cbn in Hlog. subst evs.
    intros _. by exists a.
  - destruct Hm as ([Hd Hs] & evs & Hlog & Hst & _). cbn in Hlog. subst evs.
    rewrite Hd, (stopped_has_error _ Hst). done.
Qed.

Lemma Forall3_zip_with {A B C X} (step : A → B → C → Prop)
    (f : A → X → B) (g : A → X → C) l evs added :
  Forall3 (λ a b c, ∃ x, b = f a x ∧ c = g a x) l evs added →
  ∃ xs, length xs = length l ∧ evs = zip_with f l xs ∧ added = zip_with g l xs.
Proof.
  induction 1 as [|a b c l evs added (x & -> & ->) _ (xs & Hl & -> & ->)].
  - by exists [].
  - exists (x :: xs). cbn. by rewrite Hl.
Qed.

Section ReadPass.
Context {W : Type} (client : AAPClient.t W).
Context (prior : option aapInventoryResourceModel.t).

Lemma Read_children_produces groups :
  produces prior (Read_children client groups)
    (λ done evs, ∃ children,
       length children = length groups ∧
       evs = children_listings groups children ∧
       done = read_groups groups children)
    (λ _, True).
Proof.
  unfold Read_children.
  eapply produces_mono;
    [apply (produces_for_range prior groups _
              (λ g s s' evs, ∃ e b, evs = [e] ∧ s' = s ++ [b] ∧
                 ∃ c, e = Called (Call.GetGroupChildren (AapGroup.Id g))
                              (Reply.Groups c) ∧
                      b = AapGroup.with_Children g (AapGroup.Name <$> c))
              (λ _ _ _, True))| |done].
  - intros g done. cbv zeta. unfold_client.
    eapply (produces_bind prior _ _
              (λ c evs, evs = [Called (Call.GetGroupChildren (AapGroup.Id g))
                                 (Reply.Groups c)]) (λ _, True)); [| |done].
    { apply produces_try_call; [tauto|done|done]. }
    intros c evs ->. apply produces_ret. eexists _, _.
    split; [done|]. split; [done|]. by exists c.
  - intros done evs H. cbv beta in H.
    apply steps_Forall3 in H as (added & -> & H).
    apply (Forall3_zip_with (λ _ _ _, True)) in H as (xs & ? & ? & ?).
    by exists xs.
Qed.

Lemma Read_hostGroups_produces hosts :
  produces prior (Read_hostGroups client hosts)
    (λ done evs, ∃ hostGroups,
       length hostGroups = length hosts ∧
       evs = hostGroups_listings hosts hostGroups ∧
       done = read_hosts hosts hostGroups)
    (λ _, True).
Proof.
  unfold Read_hostGroups.
  eapply produces_mono;
    [apply (produces_for_range prior hosts _
              (λ h s s' evs, ∃ e b, evs = [e] ∧ s' = s ++ [b] ∧
                 ∃ c, e = Called (Call.GetHostGroups (AapHost.Id h))
                              (Reply.Groups c) ∧
                      b = AapHost.with_Groups h (AapGroup.Name <$> c))
              (λ _ _ _, True))| |done].
  - intros h done. cbv zeta. unfold_client.
    eapply (produces_bind prior _ _
              (λ c evs, evs = [Called (Call.GetHostGroups (AapHost.Id h))
                                 (Reply.Groups c)]) (λ _, True)); [| |done].
    { apply produces_try_call; [tauto|done|done]. }
    intros c evs ->. apply produces_ret. eexists _, _.
    split; [done|]. split; [done|]. by exists c.
  - intros done evs H. cbv beta in H.
    apply steps_Forall3 in H as (added & -> & H).
    apply (Forall3_zip_with (λ _ _ _, True)) in H as (xs & ? & ? & ?).
    by exists xs.
Qed.

Lemma Read_produces state :
  produces prior (Read client state)
    (λ _ evs, ∃ inventory groups children hosts hostGroups,
       length children = length groups ∧
       length hostGroups = length hosts ∧
       (VariablesStringToMap (AapInventory.Variables inventory)).2 = [] ∧
       (GroupsToSchema (read_groups groups children)).2 = [] ∧
       (HostsToSchema (read_hosts hosts hostGroups)).2 = [] ∧
       evs = read_log state inventory groups children hosts hostGroups)
    (λ _, True).
Proof.
  unfold Read. cbv zeta. unfold_client.
  eapply (produces_bind prior _ _
            (λ inventory evs,
               evs = [Called (Call.GetInventory
                                (Int64String (aapInventoryResourceModel.ID state)))
                        (Reply.Inventory inventory)]) (λ _, True)); [| |done].
  { apply produces_try_call; [tauto|done|done]. }
  intros inventory evs1 ->.
  eapply produces_bind; [apply produces_check_value| |done].
  intros variables evs2 (-> & -> & Hv). cbn [app].
  eapply (produces_bind prior _ _
            (λ groups evs,
               evs = [Called (Call.GetInventoryGroups (AapInventory.Id inventory))
                        (Reply.Groups groups)]) (λ _, True)); [| |done].
  { apply produces_try_call; [tauto|done|done]. }
  intros groups evs3 ->.
  eapply produces_bind; [apply Read_children_produces| |done].
  intros groups' evs4 (children & Hlen & -> & ->).
  eapply produces_bind; [apply produces_check_value| |done].
  intros updatedGroups evs5 (-> & -> & Hg).
  eapply produces_bind; [apply produces_check_value| |done].
  intros stateGroups evs6 (-> & -> & _). cbn [fst].
  eapply (produces_bind prior _ _
            (λ hosts evs,
               evs = [Called (Call.GetInventoryHosts (AapInventory.Id inventory))
                        (Reply.Hosts hosts)]) (λ _, True)); [| |done].
  { apply produces_try_call; [tauto|done|done]. }
  intros hosts evs7 ->.
  eapply produces_bind; [apply Read_hostGroups_produces| |done].
  intros hosts' evs8 (hostGroups & Hlen' & -> & ->).
  eapply produces_bind; [apply produces_check_value| |done].
  intros updatedHosts evs9 (-> & -> & Hh).
  eapply produces_bind; [apply produces_check_value| |done].
  intros stateHosts evs10 (-> & -> & _). cbn [fst].
  apply produces_SetState.
  exists inventory, groups, children, hosts, hostGroups.
  repeat split; done.
Qed.

End ReadPass.

Lemma HasError_false (ds : Diagnostics) : HasError ds = false ↔ ds = [].
Proof. by destruct ds. Qed.

(** X7.  A read pass ends in one of two ways.  Either it reports nothing,
    every call was answered, and the state write is its last step; or it
    stopped at its first failure: answered calls, then a failed call with
    the diagnostic of its error, or diagnostics alone; the response has an
    error and the state is the one the pass was entered with. *)
Theorem read_pass_outcome {W} (client : AAPClient.t W)
    (state : aapInventoryResourceModel.t) (w : W)
    (prior : option aapInventoryResourceModel.t) :
  let st := run (Read client state) w prior in
  (Response.Diagnostics (resp st) = [] ∧
   ∃ pre s, log st = pre ++ [StateSet s] ∧ Forall answered pre ∧
            Response.State (resp st) = Some s) ∨
  (HasError (Response.Diagnostics (resp st)) = true ∧
   Response.State (resp st) = prior ∧
   ∃ pre tail, log st = pre ++ tail ∧ Forall answered pre ∧ error_tail tail).
Proof.
  cbv zeta.
  destruct (finishing_run (Read client state) w prior
              (Read_finishing client prior state)) as (Hd & Hs & [Hc|Hst]).
  - left. rewrite Hd, Hs, (completed_diags _ Hc). split; [done|].
    destruct Hc as (pre & s & E & Hans). exists pre, s.
    rewrite E. split; [done|]. split; [done|]. apply state_of_last.
  - right. rewrite Hd, Hs, (stopped_has_error _ Hst), (stopped_state _ _ Hst).
    split; [done|]. split; [done|]. exact Hst.
Qed.

Section CallKinds.
Context {W : Type} (client : AAPClient.t W).
Context (prior : option aapInventoryResourceModel.t).

Lemma Create_calls plan :
  within prior (calls_only create_call) (Create client plan).
Proof.
  unfold Create, Create_groups, Create_children, Create_hosts,
    Create_hostGroups.
  within_walk ltac:(reflexivity).
Qed.

Lemma Read_calls state :
  within prior (calls_only read_call) (Read client state).
Proof.
  unfold Read, Read_children, Read_hostGroups.
  within_walk ltac:(reflexivity).
Qed.

Lemma Update_calls plan :
  within prior (calls_only update_call) (Update client plan).
Proof.
  unfold Update, Update_groups, Update_deleteGroups, Update_children,
    Update_groupChildren, Update_hosts, Update_deleteHosts,
    Update_allHostGroups, Update_hostGroups.
  within_walk ltac:(reflexivity).
Qed.

End CallKinds.

Lemma calls_only_calls_of (k : Call.t → bool) evs :
  Forall (calls_only k) evs → Forall (λ c, k c = true) (calls_of evs).
Proof.
  induction 1 as [|e evs He _ IH]; [constructor|].
  destruct e; cbn in *; [by constructor|done..].
Qed.

(** X8.  What each handler never asks of the gateway.  A create pass only
    creates and associates; a read pass only gets and lists; an update
    pass never creates, gets or deletes the inventory itself; a delete
    pass makes exactly one call, the deletion of the inventory named by
    the id of the state (it deletes no group and no host itself), and
    leaves the state in the response as it was. *)
Theorem handlers_call_kinds {W} (client : AAPClient.t W)
    (x : aapInventoryResourceModel.t) (w : W)
    (prior : option aapInventoryResourceModel.t) :
  Forall (λ c, create_call c = true)
    (calls_of (log (run (Create client x) w prior))) ∧
  Forall (λ c, read_call c = true)
    (calls_of (log (run (Read client x) w prior))) ∧
  Forall (λ c, update_call c = true)
    (calls_of (log (run (Update client x) w prior))) ∧
  calls_of (log (run (Delete client x) w prior))
  = [Call.DeleteInventory (Int64String (aapInventoryResourceModel.ID x))] ∧
  Response.State (resp (run (Delete client x) w prior)) = prior.
Proof.
  split; [|split; [|split]].
  - apply calls_only_calls_of.
    apply (shape_of_run prior _ _ w (Create_calls client prior x)).
  - apply calls_only_calls_of.
    apply (shape_of_run prior _ _ w (Read_calls client prior x)).
  - apply calls_only_calls_of.
    apply (shape_of_run prior _ _ w (Update_calls client prior x)).
  - unfold run, Delete, client_DeleteInventory, try, call, AddError, Return,
      mbind, M_bind, mret, M_ret, enter. cbn [world].
    destruct (AAPClient.DeleteInventory client _ w) as [[[]|e] w']; done.
Qed.

Lemma read_groups_variables groups children :
  length children = length groups →
  AapGroup.Variables <$> read_groups groups children
  = AapGroup.Variables <$> groups.
Proof.
  revert children. induction groups as [|g groups IH]; intros [|c cs] H;
    cbn in *; try done. f_equal. apply IH. lia.
Qed.

Lemma read_hosts_variables hosts hostGroups :
  length hostGroups = length hosts →
  AapHost.Variables <$> read_hosts hosts hostGroups
  = AapHost.Variables <$> hosts.
Proof.
  revert hostGroups. induction hosts as [|h hosts IH]; intros [|c cs] H;
    cbn in *; try done. f_equal. apply IH. lia.
Qed.

Lemma elem_of_zip_with_inv {A B C} (f : A → B → C) l k z :
  z ∈ zip_with f l k → ∃ x y, z = f x y.
Proof.
  revert k. induction l as [|x l IH]; intros [|y k] H; cbn in H;
    try by apply elem_of_nil in H.
  apply elem_of_cons in H as [->|H]; eauto.
Qed.

Lemma read_log_checked state inventory groups children hosts hostGroups e s :
  length children = length groups →
  length hostGroups = length hosts →
  (VariablesStringToMap (AapInventory.Variables inventory)).2 = [] →
  (GroupsToSchema (read_groups groups children)).2 = [] →
  (HostsToSchema (read_hosts hosts hostGroups)).2 = [] →
  e ∈ read_log state inventory groups children hosts hostGroups →
  s ∈ checked_variables e → decodable s.
Proof.
  intros Hl Hl' Hv Hg Hh He Hs.
  apply GroupsToSchema_clean in Hg. apply HostsToSchema_clean in Hh.
  apply Forall_fmap in Hg, Hh. cbv beta in Hg, Hh.
  change (Forall decodable (AapGroup.Variables <$> read_groups groups children)) in Hg.
  change (Forall decodable (AapHost.Variables <$> read_hosts hosts hostGroups)) in Hh.
  rewrite read_groups_variables in Hg by done.
  rewrite read_hosts_variables in Hh by done.
  rewrite Forall_forall in Hg, Hh.
  unfold read_log in He. rewrite !elem_of_app in He.
  destruct He as [He|[He|[He|[He|He]]]].
  - apply elem_of_cons in He as [->|He].
    + cbn in Hs. apply list_elem_of_singleton in Hs as ->.
      destruct (decodable_dec (AapInventory.Variables inventory)) as [|Hn];
        [done|].
      by rewrite (VariablesStringToMap_undecodable _ Hn) in Hv.
    + apply list_elem_of_singleton in He as ->. cbn in Hs. by apply Hg.
  - apply elem_of_zip_with_inv in He as (g & c & ->). cbn in Hs.
    by apply elem_of_nil in Hs.
  - apply list_elem_of_singleton in He as ->. cbn in Hs. by apply Hh.
  - apply elem_of_zip_with_inv in He as (h & c & ->). cbn in Hs.
    by apply elem_of_nil in Hs.
  - apply list_elem_of_singleton in He as ->. cbn in Hs.
    by apply elem_of_nil in Hs.
Qed.

Lemma Read_completes {W} (client : AAPClient.t W) state w prior :
  HasError (Response.Diagnostics (resp (run (Read client state) w prior)))
  = false →
  ∃ inventory groups children hosts hostGroups,
    length children = length groups ∧
    length hostGroups = length hosts ∧
    (VariablesStringToMap (AapInventory.Variables inventory)).2 = [] ∧
    (GroupsToSchema (read_groups groups children)).2 = [] ∧
    (HostsToSchema (read_hosts hosts hostGroups)).2 = [] ∧
    log (run (Read client state) w prior)
    = read_log state inventory groups children hosts hostGroups.
Proof.
  intros Hok.
  destruct (run_completes prior (Read client state) _ w
              (Read_finishing client prior state)
              (Read_produces client prior state) Hok) as [_ H].
  exact H.
Qed.

(** X9.  A read pass that reports nothing has made exactly these calls, in
    this order: the inventory named by the id of the state, the groups of
    that inventory, the children of each listed group, the hosts of the
    inventory, the groups of each listed host.  The state it writes is
    built from the answers alone: the inventory as answered, each listed
    group with the names of the children listed for it, each listed host
    with the names of the groups listed for it. *)
Theorem read_pass_log {W} (client : AAPClient.t W)
    (state : aapInventoryResourceModel.t) (w : W)
    (prior : option aapInventoryResourceModel.t) :
  Response.Diagnostics (resp (run (Read client state) w prior)) = [] →
  ∃ inventory groups children hosts hostGroups,
    length children = length groups ∧
    length hostGroups = length hosts ∧
    log (run (Read client state) w prior)
    = read_log state inventory groups children hosts hostGroups ∧
    Response.State (resp (run (Read client state) w prior))
    = Some (read_snapshot state inventory (read_groups groups children)
              (read_hosts hosts hostGroups)).
Proof.
  intros Hok. apply HasError_false in Hok.
  destruct (Read_completes client state w prior Hok)
    as (inventory & groups & children & hosts & hostGroups &
        Hl & Hl' & _ & _ & _ & Hlog).
  exists inventory, groups, children, hosts, hostGroups.
  split; [done|]. split; [done|]. split; [done|].
  destruct (finishing_run (Read client state) w prior
              (Read_finishing client prior state)) as (_ & Hs & _).
  rewrite Hs, Hlog. unfold read_log. rewrite !app_assoc.
  apply state_of_last.
Qed.

Lemma read_pass_log_witness :
  ∃ inventory groups children hosts hostGroups,
    length children = length groups ∧
    length hostGroups = length hosts ∧
    log (run (Read (Remote.client 25) state_1) world_P None)
    = read_log state_1 inventory groups children hosts hostGroups ∧
    Response.State (resp (run (Read (Remote.client 25) state_1) world_P None))
    = Some (read_snapshot state_1 inventory (read_groups groups children)
              (read_hosts hosts hostGroups)).
Proof.
  apply (read_pass_log (Remote.client 25) state_1 world_P None).
  vm_compute. reflexivity.
Defined.

(** X10.  A read pass decodes the variables text of the inventory and of
    every group and host listed for it (not those of the listed children
    and host groups, of which it keeps the names): when one of these texts
    does not decode, the empty text for one, the pass reports an error and
    leaves the state as it was. *)
Theorem read_fails_on_undecodable_variables {W} (client : AAPClient.t W)
    (state : aapInventoryResourceModel.t) (w : W)
    (prior : option aapInventoryResourceModel.t)
    (e : Event) (variables : gostring) :
  e ∈ log (run (Read client state) w prior) →
  variables ∈ checked_variables e →
  ¬ decodable variables →
  HasError (Response.Diagnostics (resp (run (Read client state) w prior)))
  = true ∧
  Response.State (resp (run (Read client state) w prior)) = prior.
Proof.
  intros He Hv Hn.
  destruct (HasError (Response.Diagnostics
                        (resp (run (Read client state) w prior)))) eqn:Herr.
  - split; [done|].
    destruct (finishing_run (Read client state) w prior
                (Read_finishing client prior state)) as (Hd & Hs & [Hc|Hst]).
    + rewrite Hd, (completed_diags _ Hc) in Herr. done.
    + rewrite Hs. by apply stopped_state.
  - destruct (Read_completes client state w prior Herr)
      as (inventory & groups & children & hosts & hostGroups &
          Hl & Hl' & H1 & H2 & H3 & Hlog).
    rewrite Hlog in He. destruct Hn.
    exact (read_log_checked _ _ _ _ _ _ _ _ Hl Hl' H1 H2 H3 He Hv).
Qed.

Lemma read_fails_on_undecodable_variables_witness :
  HasError (Response.Diagnostics
              (resp (run (Read (Remote.client 25) state_1) world_bare None)))
  = true ∧
  Response.State (resp (run (Read (Remote.client 25) state_1) world_bare None))
  = None.
Proof.
  apply (read_fails_on_undecodable_variables (Remote.client 25) state_1
           world_bare None
           (Called (Call.GetInventoryGroups 1)
              (Reply.Groups [AapGroup.mk 2 1 (str "A") [] [] []]))
           []).
  - vm_compute. right. left.
  - vm_compute. left.
  - vm_compute. intros [x Hx]. discriminate Hx.
Defined.

Lemma steps_events_facts {A} (ev : A → list Event) (P : A → Prop) l
    (s s' : unit) evs :
  steps (λ x _ _ evs, evs = ev x ∧ P x) l s s' evs →
  evs = List.concat (ev <$> l) ∧ Forall P l.
Proof.
  induction 1 as [|x l s s' s'' e1 e2 [-> HP] _ [IH1 IH2]];
    [by split; [|constructor]|].
  cbn. rewrite IH1. split; [done|by constructor].
Qed.

Lemma concat_singletons {A} (f : A → Event) (l : list A) :
  List.concat ((λ x, [f x]) <$> l) = f <$> l.
Proof. induction l as [|x l IH]; [done|]. cbn. by rewrite IH. Qed.

Lemma GroupIdFromName_elem name groups id :
  GroupIdFromName name groups = (id, None) →
  name ∈ AapGroup.Name <$> groups ∧ id = (GroupIdFromName name groups).1.
Proof.
  intros H. split; [|by rewrite H].
  induction groups as [|g groups IH]; [done|]. cbn in H.
  destruct (decide (AapGroup.Name g = name)) as [<-|Hne].
  - left.
  - right. by apply IH.
Qed.

Section CreatePass.
Context {W : Type} (client : AAPClient.t W).
Context (prior : option aapInventoryResourceModel.t).

Lemma produces_for_each_facts {A} (l : list A) (body : A → M W unit)
    (ev : A → list Event) (P : A → Prop) :
  (∀ x, produces prior (body x) (λ _ evs, evs = ev x ∧ P x) (λ _, True)) →
  produces prior (for_each l body)
    (λ _ evs, evs = List.concat (ev <$> l) ∧ Forall P l) (λ _, True).
Proof.
  intros Hb.
  eapply produces_mono;
    [apply (produces_for_each prior l body (λ x evs, evs = ev x ∧ P x)
              (λ _ _, True) Hb)| |done].
  intros u evs H. exact (steps_events_facts ev P l tt tt evs H).
Qed.

Lemma Create_children_produces newGroups :
  produces prior (Create_children client newGroups)
    (λ _ evs,
       evs = child_associations newGroups ∧
       Forall (λ g, Forall (λ n, n ∈ AapGroup.Name <$> newGroups)
                      (AapGroup.Children g)) newGroups)
    (λ _, True).
Proof.
  unfold Create_children, child_associations.
  apply produces_for_each_facts. intros g.
  eapply produces_mono; [| |done].
  { apply (produces_for_each_facts _ _
             (λ n, [Called (Call.AddChildToGroup (AapGroup.Id g)
                              (GroupIdFromName n newGroups).1) Reply.Done])
             (λ n, n ∈ AapGroup.Name <$> newGroups)).
    intros n.
    eapply produces_bind; [| |done].
    - apply (produces_resolve prior _ _ _ _
               (λ id evs, evs = [] ∧
                  n ∈ AapGroup.Name <$> newGroups ∧
                  id = (GroupIdFromName n newGroups).1) (λ _, True));
        [|done].
      intros id Hid. split; [done|]. by apply GroupIdFromName_elem.
    - intros id evs (-> & Hn & ->). cbn [app]. cbv zeta. unfold_client.
      apply produces_try_call; [tauto|done|done]. }
  intros _ evs [-> H]. split; [|done]. apply concat_singletons.
Qed.

Lemma Create_hostGroups_produces newGroups newHosts :
  produces prior (Create_hostGroups client newGroups newHosts)
    (λ _ evs,
       evs = host_associations newGroups newHosts ∧
       Forall (λ h, Forall (λ n, n ∈ AapGroup.Name <$> newGroups)
                      (AapHost.Groups h)) newHosts)
    (λ _, True).
Proof.
  unfold Create_hostGroups, host_associations.
  apply produces_for_each_facts. intros h.
  eapply produces_mono; [| |done].
  { apply (produces_for_each_facts _ _
             (λ n, [Called (Call.AddGroupToHost (AapHost.Id h)
                              (GroupIdFromName n newGroups).1) Reply.Done])
             (λ n, n ∈ AapGroup.Name <$> newGroups)).
    intros n.
    eapply produces_bind; [| |done].
    - apply (produces_resolve prior _ _ _ _
               (λ id evs, evs = [] ∧
                  n ∈ AapGroup.Name <$> newGroups ∧
                  id = (GroupIdFromName n newGroups).1) (λ _, True));
        [|done].
      intros id Hid. split; [done|]. by apply GroupIdFromName_elem.
    - intros id evs (-> & Hn & ->). cbn [app]. cbv zeta. unfold_client.
      apply produces_try_call; [tauto|done|done]. }
  intros _ evs [-> H]. split; [|done]. apply concat_singletons.
Qed.

Lemma Create_produces plan :
  produces prior (Create client plan)
    (λ _ evs, ∃ inventory evG G evH H,
       Forall3 (group_created (answered_plan plan inventory))
         (SetElements (aapInventoryResourceModel.Groups plan)) evG G ∧
       Forall3 (host_created (answered_plan plan inventory))
         (SetElements (aapInventoryResourceModel.Hosts plan)) evH H ∧
       names_closed G H ∧
       (GroupsToSchema G).2 = [] ∧ (HostsToSchema H).2 = [] ∧
       evs = create_log plan inventory evG G evH H)
    (λ _, True).
Proof.
  unfold Create. cbv zeta.
  eapply produces_bind; [apply produces_check_value| |done].
  intros variables evs0 (-> & -> & _). unfold_client.
  eapply (produces_bind prior _ _
            (λ inventory evs,
               evs = [Called (Call.CreateInventory (create_body plan))
                        (Reply.Inventory inventory)]) (λ _, True)); [| |done].
  { apply produces_try_call; [tauto|done|done]. }
  intros inventory evs1 ->.
  eapply produces_bind; [apply produces_check_value| |done].
  intros newVariables evs2 (-> & -> & _).
  change (with_Variables (with_inventory plan inventory)
            (VariablesStringToMap (AapInventory.Variables inventory)).1)
    with (answered_plan plan inventory).
  eapply produces_bind; [apply produces_check_value| |done].
  intros groups evs3 (-> & -> & Hgroups).
  apply ObjectsElementsAs_elements in Hgroups. rewrite Hgroups.
  eapply produces_bind; [apply Create_groups_produces| |done].
  intros G evG HG.
  eapply produces_bind; [apply Create_children_produces| |done].
  intros _ evs4 [-> Hclosed].
  eapply produces_bind; [apply produces_check_value| |done].
  intros schemaGroups evs5 (-> & -> & Hschema).
  eapply produces_bind; [apply produces_check_value| |done].
  intros stateGroups evs6 (-> & -> & _). cbn [fst].
  eapply produces_bind; [apply produces_check_value| |done].
  intros hosts evs7 (-> & -> & Hhosts).
  apply ObjectsElementsAs_elements in Hhosts. rewrite Hhosts.
  eapply produces_bind; [apply Create_hosts_produces| |done].
  intros H evH HH.
  eapply produces_bind; [apply Create_hostGroups_produces| |done].
  intros _ evs8 [-> Hclosed'].
  eapply produces_bind; [apply produces_check_value| |done].
  intros schemaHosts evs9 (-> & -> & Hschema').
  eapply produces_bind; [apply produces_check_value| |done].
  intros stateHosts evs10 (-> & -> & _). cbn [fst].
  apply produces_SetState.
  exists inventory, evG, G, evH, H.
  split; [exact HG|]. split; [exact HH|]. split; [by split|].
  split; [done|]. split; [done|].
  done.
Qed.

End CreatePass.

Lemma steps_exists {A X} (ev : A → X → list Event) l (s s' : unit) evs :
  steps (λ x _ _ evs, ∃ c, evs = ev x c) l s s' evs →
  ∃ cs, length cs = length l ∧ evs = List.concat (zip_with ev l cs).
Proof.
  induction 1 as [|x l s s' s'' e1 e2 [c ->] _ (cs & Hl & ->)];
    [by exists []|].
  exists (c :: cs). cbn. by rewrite Hl.
Qed.

Section UpdatePass.
Context {W : Type} (client : AAPClient.t W).
Context (prior : option aapInventoryResourceModel.t).

Lemma Update_children_produces G :
  produces prior (Update_children client G)
    (λ _ evs, ∃ children,
       length children = length G ∧
       evs = children_reconciliations G children)
    (λ _, True).
Proof.
  unfold Update_children.
  eapply produces_mono;
    [apply (produces_for_each prior G _
              (λ g evs, ∃ c, evs = group_reconciliation G g c)
              (λ _ _, True));
     intros g; apply Update_groupChildren_produces| |done].
  intros u evs H. exact (steps_exists _ _ tt tt _ H).
Qed.

Lemma Update_allHostGroups_produces G H :
  produces prior (Update_allHostGroups client G H)
    (λ _ evs, ∃ hostGroups,
       length hostGroups = length H ∧
       evs = hostGroups_reconciliations G H hostGroups)
    (λ _, True).
Proof.
  unfold Update_allHostGroups.
  eapply produces_mono;
    [apply (produces_for_each prior H _
              (λ h evs, ∃ c, evs = host_reconciliation G h c)
              (λ _ _, True));
     intros h; apply Update_hostGroups_produces| |done].
  intros u evs Hs. exact (steps_exists _ _ tt tt _ Hs).
Qed.

Lemma Update_produces plan :
  produces prior (Update client plan)
    (λ _ evs, ∃ inventory currentGroups evG G children
                currentHosts evH H hostGroups,
       Forall3 (group_reconciled (answered_plan plan inventory) currentGroups)
         (SetElements (aapInventoryResourceModel.Groups plan)) evG G ∧
       Forall3 (host_reconciled (answered_plan plan inventory) currentHosts)
         (SetElements (aapInventoryResourceModel.Hosts plan)) evH H ∧
       length children = length G ∧ length hostGroups = length H ∧
       (GroupsToSchema G).2 = [] ∧ (HostsToSchema H).2 = [] ∧
       evs = update_log plan inventory currentGroups evG G children
               currentHosts evH H hostGroups)
    (λ _, True).
Proof.
  unfold Update. cbv zeta.
  eapply produces_bind; [apply produces_check_value| |done].
  intros variables evs0 (-> & -> & _). unfold_client.
  eapply (produces_bind prior _ _
            (λ inventory evs,
               evs = [Called (Call.UpdateInventory
                                (ValueInt64 (aapInventoryResourceModel.ID plan))
                                (update_body plan))
                        (Reply.Inventory inventory)]) (λ _, True)); [| |done].
  { apply produces_try_call; [tauto|done|done]. }
  intros inventory evs1 ->.
  eapply produces_bind; [apply produces_check_value| |done].
  intros newVariables evs2 (-> & -> & _).
  change (with_Variables (with_inventory plan inventory)
            (VariablesStringToMap (AapInventory.Variables inventory)).1)
    with (answered_plan plan inventory).
  eapply (produces_bind prior _ _
            (λ currentGroups evs,
               evs = [Called (Call.GetInventoryGroups
                                (ValueInt64 (aapInventoryResourceModel.ID plan)))
                        (Reply.Groups currentGroups)]) (λ _, True)); [| |done].
  { apply produces_try_call; [tauto|done|done]. }
  intros currentGroups evs3 ->.
  eapply produces_bind; [apply produces_check_value| |done].
  intros groups evs4 (-> & -> & Hgroups).
  apply ObjectsElementsAs_elements in Hgroups. rewrite Hgroups.
  eapply produces_bind; [apply Update_groups_produces| |done].
  intros G evG HG.
  eapply produces_bind; [apply Update_deleteGroups_produces| |done].
  intros _ evs5 ->.
  eapply produces_bind; [apply Update_children_produces| |done].
  intros _ evs6 (children & Hlen & ->).
  eapply produces_bind; [apply produces_check_value| |done].
  intros schemaGroups evs7 (-> & -> & Hschema).
  eapply produces_bind; [apply produces_check_value| |done].
  intros stateGroups evs8 (-> & -> & _). cbn [fst].
  eapply (produces_bind prior _ _
            (λ currentHosts evs,
               evs = [Called (Call.GetInventoryHosts
                                (ValueInt64 (aapInventoryResourceModel.ID plan)))
                        (Reply.Hosts currentHosts)]) (λ _, True)); [| |done].
  { apply produces_try_call; [tauto|done|done]. }
  intros currentHosts evs9 ->.
  eapply produces_bind; [apply produces_check_value| |done].
  intros hosts evs10 (-> & -> & Hhosts).
  apply ObjectsElementsAs_elements in Hhosts. rewrite Hhosts.
  eapply produces_bind; [apply Update_hosts_produces| |done].
  intros H evH HH.
  eapply produces_bind; [apply Update_deleteHosts_produces| |done].
  intros _ evs11 ->.
  eapply produces_bind; [apply Update_allHostGroups_produces| |done].
  intros _ evs12 (hostGroups & Hlen' & ->).
  eapply produces_bind; [apply produces_check_value| |done].
  intros schemaHosts evs13 (-> & -> & Hschema').
  eapply produces_bind; [apply produces_check_value| |done].
  intros stateHosts evs14 (-> & -> & _). cbn [fst].
  apply produces_SetState.
  exists inventory, currentGroups, evG, G, children, currentHosts, evH, H,
    hostGroups.
  split; [exact HG|]. split; [exact HH|].
  split; [done|]. split; [done|]. split; [done|]. split; [done|].
  unfold update_log. cbv zeta. cbn [app]. rewrite <- ?app_assoc. done.
Qed.

End UpdatePass.

Lemma Create_completes {W} (client : AAPClient.t W) plan w prior :
  HasError (Response.Diagnostics (resp (run (Create client plan) w prior)))
  = false →
  ∃ inventory evG G evH H,
    Forall3 (group_created (answered_plan plan inventory))
      (SetElements (aapInventoryResourceModel.Groups plan)) evG G ∧
    Forall3 (host_created (answered_plan plan inventory))
      (SetElements (aapInventoryResourceModel.Hosts plan)) evH H ∧
    names_closed G H ∧
    (GroupsToSchema G).2 = [] ∧ (HostsToSchema H).2 = [] ∧
    log (run (Create client plan) w prior)
    = create_log plan inventory evG G evH H.
Proof.
  intros Hok.
  destruct (run_completes prior (Create client plan) _ w
              (Create_finishing client prior plan)
              (Create_produces client prior plan) Hok) as [_ H].
  exact H.
Qed.

Lemma Update_completes {W} (client : AAPClient.t W) plan w prior :
  HasError (Response.Diagnostics (resp (run (Update client plan) w prior)))
  = false →
  ∃ inventory currentGroups evG G children currentHosts evH H hostGroups,
    Forall3 (group_reconciled (answered_plan plan inventory) currentGroups)
      (SetElements (aapInventoryResourceModel.Groups plan)) evG G ∧
    Forall3 (host_reconciled (answered_plan plan inventory) currentHosts)
      (SetElements (aapInventoryResourceModel.Hosts plan)) evH H ∧
    length children = length G ∧ length hostGroups = length H ∧
    (GroupsToSchema G).2 = [] ∧ (HostsToSchema H).2 = [] ∧
    log (run (Update client plan) w prior)
    = update_log plan inventory currentGroups evG G children
        currentHosts evH H hostGroups.
Proof.
  intros Hok.
  destruct (run_completes prior (Update client plan) _ w
              (Update_finishing client prior plan)
              (Update_produces client prior plan) Hok) as [_ H].
  exact H.
Qed.

Lemma state_of_run_last {W A} (m : M W A) w prior pre s :
  finishing prior m →
  log (run m w prior) = pre ++ [StateSet s] →
  Response.State (resp (run m w prior)) = Some s.
Proof.
  intros Hfin Hlog. destruct (finishing_run m w prior Hfin) as (_ & Hs & _).
  rewrite Hs, Hlog. apply state_of_last.
Qed.

(** X11.  A create pass that reports nothing has made exactly these calls,
    in this order: the creation of the inventory (in organization 1,
    whatever the plan says); one creation per declared group; one
    association per declared child of each group, by the id its name has
    among the groups just created; one creation per declared host; one
    association per declared group of each host; then the state write.
    Every declared member name is then the name of a declared group. *)
Theorem create_pass_log {W} (client : AAPClient.t W)
    (plan : aapInventoryResourceModel.t) (w : W)
    (prior : option aapInventoryResourceModel.t) :
  Response.Diagnostics (resp (run (Create client plan) w prior)) = [] →
  ∃ inventory evG G evH H,
    Forall3 (group_created (answered_plan plan inventory))
      (SetElements (aapInventoryResourceModel.Groups plan)) evG G ∧
    Forall3 (host_created (answered_plan plan inventory))
      (SetElements (aapInventoryResourceModel.Hosts plan)) evH H ∧
    names_closed G H ∧
    log (run (Create client plan) w prior)
    = create_log plan inventory evG G evH H ∧
    Response.State (resp (run (Create client plan) w prior))
    = Some (pass_snapshot (answered_plan plan inventory) G H).
Proof.
  intros Hok. apply HasError_false in Hok.
  destruct (Create_completes client plan w prior Hok)
    as (inventory & evG & G & evH & H & HG & HH & Hc & _ & _ & Hlog).
  exists inventory, evG, G, evH, H.
  split; [done|]. split; [done|]. split; [done|]. split; [done|].
  eapply (state_of_run_last _ _ _
            ([Called (Call.CreateInventory (create_body plan))
                (Reply.Inventory inventory)]
             ++ evG ++ child_associations G ++ evH ++ host_associations G H));
    [apply Create_finishing|].
  rewrite Hlog. unfold create_log. by rewrite <- !app_assoc.
Qed.

Lemma create_pass_log_witness :
  ∃ inventory evG G evH H,
    Forall3 (group_created (answered_plan plan_AB inventory))
      (SetElements (aapInventoryResourceModel.Groups plan_AB)) evG G ∧
    Forall3 (host_created (answered_plan plan_AB inventory))
      (SetElements (aapInventoryResourceModel.Hosts plan_AB)) evH H ∧
    names_closed G H ∧
    log (run (Create (Remote.client 25) plan_AB) Remote.empty None)
    = create_log plan_AB inventory evG G evH H ∧
    Response.State
      (resp (run (Create (Remote.client 25) plan_AB) Remote.empty None))
    = Some (pass_snapshot (answered_plan plan_AB inventory) G H).
Proof.
  apply (create_pass_log (Remote.client 25) plan_AB Remote.empty None).
  vm_compute. reflexivity.
Defined.

(** X12.  An update pass that reports nothing has made exactly these calls,
    in this order: the update of the inventory; the listing of its groups;
    one creation or update per declared group; the deletion of the listed
    groups that were not kept; for each kept group, the reconciliation of
    its children; the listing of the hosts; one creation or update per
    declared host; the deletion of the listed hosts that were not kept;
    for each kept host, the reconciliation of its groups; then the state
    write. *)
Theorem update_pass_log {W} (client : AAPClient.t W)
    (plan : aapInventoryResourceModel.t) (w : W)
    (prior : option aapInventoryResourceModel.t) :
  Response.Diagnostics (resp (run (Update client plan) w prior)) = [] →
  ∃ inventory currentGroups evG G children currentHosts evH H hostGroups,
    Forall3 (group_reconciled (answered_plan plan inventory) currentGroups)
      (SetElements (aapInventoryResourceModel.Groups plan)) evG G ∧
    Forall3 (host_reconciled (answered_plan plan inventory) currentHosts)
      (SetElements (aapInventoryResourceModel.Hosts plan)) evH H ∧
    length children = length G ∧ length hostGroups = length H ∧
    log (run (Update client plan) w prior)
    = update_log plan inventory currentGroups evG G children
        currentHosts evH H hostGroups ∧
    Response.State (resp (run (Update client plan) w prior))
    = Some (pass_snapshot (answered_plan plan inventory) G H).
Proof.
  intros Hok. apply HasError_false in Hok.
  destruct (Update_completes client plan w prior Hok)
    as (inventory & currentGroups & evG & G & children & currentHosts & evH &
        H & hostGroups & HG & HH & Hl & Hl' & _ & _ & Hlog).
  exists inventory, currentGroups, evG, G, children, currentHosts, evH, H,
    hostGroups.
  split; [done|]. split; [done|]. split; [done|]. split; [done|].
  split; [done|].
  eapply (state_of_run_last _ _ _
            ([Called (Call.UpdateInventory
                        (ValueInt64 (aapInventoryResourceModel.ID plan))
                        (update_body plan)) (Reply.Inventory inventory);
              Called (Call.GetInventoryGroups
                        (ValueInt64 (aapInventoryResourceModel.ID plan)))
                (Reply.Groups currentGroups)]
             ++ evG ++ group_deletions currentGroups G
             ++ children_reconciliations G children
             ++ [Called (Call.GetInventoryHosts
                           (ValueInt64 (aapInventoryResourceModel.ID plan)))
                   (Reply.Hosts currentHosts)]
             ++ evH ++ host_deletions currentHosts H
             ++ hostGroups_reconciliations G H hostGroups));
    [apply Update_finishing|].
  rewrite Hlog. unfold update_log. cbv zeta. by rewrite <- !app_assoc.
Qed.

Lemma update_pass_log_witness :
  ∃ inventory currentGroups evG G children currentHosts evH H hostGroups,
    Forall3 (group_reconciled (answered_plan plan_P' inventory) currentGroups)
      (SetElements (aapInventoryResourceModel.Groups plan_P')) evG G ∧
    Forall3 (host_reconciled (answered_plan plan_P' inventory) currentHosts)
      (SetElements (aapInventoryResourceModel.Hosts plan_P')) evH H ∧
    length children = length G ∧ length hostGroups = length H ∧
    log (run (Update (Remote.client 25) plan_P') world_P None)
    = update_log plan_P' inventory currentGroups evG G children
        currentHosts evH H hostGroups ∧
    Response.State (resp (run (Update (Remote.client 25) plan_P') world_P None))
    = Some (pass_snapshot (answered_plan plan_P' inventory) G H).
Proof.
  apply (update_pass_log (Remote.client 25) plan_P' world_P None).
  vm_compute. reflexivity.
Defined.

(** *** The snapshot shows the plan *)

Lemma kept_groups_objects plan1 groups G :
  Forall2 (λ g k, ∃ r reply, g = Known r ∧ k = kept_group plan1 r reply)
    groups G →
  Forall (λ g, declared_normal_group g = true) groups →
  GroupsToSchema G = (group_schema <$> G, []) ∧
  Forall2 (group_as_planned (ValueInt64 (aapInventoryResourceModel.ID plan1)))
    groups (group_schema <$> G).
Proof.
  intros H2 Hn.
  assert (Hall : Forall2 (λ g k, decodable (AapGroup.Variables k) ∧
                   group_as_planned
                     (ValueInt64 (aapInventoryResourceModel.ID plan1))
                     g (group_schema k)) groups G).
  { induction H2 as [|g k groups G (r & reply & -> & ->) _ IH];
      [constructor|].
    apply Forall_cons in Hn as [Hg Hn]. constructor; [|by apply IH].
    destruct (kept_group_schema plan1 r reply Hg) as [Hd ->].
    split; [done|]. by exists r, (AapGroup.Id reply). }
  split.
  - apply GroupsToSchema_ok. eapply Forall2_Forall_r; [exact Hall|].
    apply Forall_true. by intros k g [? _].
  - apply Forall2_fmap_r. eapply Forall2_impl; [exact Hall|].
    by intros g k [_ ?].
Qed.

Lemma kept_hosts_objects plan1 hosts H :
  Forall2 (λ h k, ∃ r reply, h = Known r ∧ k = kept_host plan1 r reply)
    hosts H →
  Forall (λ h, declared_normal_host h = true) hosts →
  HostsToSchema H = (host_schema <$> H, []) ∧
  Forall2 (host_as_planned (ValueInt64 (aapInventoryResourceModel.ID plan1)))
    hosts (host_schema <$> H).
Proof.
  intros H2 Hn.
  assert (Hall : Forall2 (λ h k, decodable (AapHost.Variables k) ∧
                   host_as_planned
                     (ValueInt64 (aapInventoryResourceModel.ID plan1))
                     h (host_schema k)) hosts H).
  { induction H2 as [|h k hosts H (r & reply & -> & ->) _ IH];
      [constructor|].
    apply Forall_cons in Hn as [Hg Hn]. constructor; [|by apply IH].
    destruct (kept_host_schema plan1 r reply Hg) as [Hd ->].
    split; [done|]. by exists r, (AapHost.Id reply). }
  split.
  - apply HostsToSchema_ok. eapply Forall2_Forall_r; [exact Hall|].
    apply Forall_true. by intros k h [? _].
  - apply Forall2_fmap_r. eapply Forall2_impl; [exact Hall|].
    by intros h k [_ ?].
Qed.

Lemma pass_snapshot_planned plan1 groups G hosts H :
  Forall2 (λ g k, ∃ r reply, g = Known r ∧ k = kept_group plan1 r reply)
    groups G →
  Forall2 (λ h k, ∃ r reply, h = Known r ∧ k = kept_host plan1 r reply)
    hosts H →
  Forall (λ g, declared_normal_group g = true) groups →
  Forall (λ h, declared_normal_host h = true) hosts →
  let s := pass_snapshot plan1 G H in
  Forall2 (group_as_planned (ValueInt64 (aapInventoryResourceModel.ID s)))
    groups (SetElements (aapInventoryResourceModel.Groups s)) ∧
  Forall2 (host_as_planned (ValueInt64 (aapInventoryResourceModel.ID s)))
    hosts (SetElements (aapInventoryResourceModel.Hosts s)).
Proof.
  intros HG HH Hng Hnh. cbv zeta.
  destruct (kept_groups_objects _ _ _ HG Hng) as [EG FG].
  destruct (kept_hosts_objects _ _ _ HH Hnh) as [EH FH].
  unfold pass_snapshot. cbn. rewrite EG, EH. cbn [fst].
  by rewrite !SetElements_SetValueFrom, !list_fmap_id.
Qed.

(** X13.  When every declared group and host is in normal form, the state a
    create or an update pass writes shows each of them as declared: the
    name, the member names, the description and the variables of the
    plan, not those the gateway answered; only the id comes from the
    answer, and the inventory id is that of the state. *)
Theorem snapshot_shows_the_plan {W} (client : AAPClient.t W)
    (plan : aapInventoryResourceModel.t) (m : M W unit) (w : W)
    (prior : option aapInventoryResourceModel.t) :
  m = Create client plan ∨ m = Update client plan →
  Response.Diagnostics (resp (run m w prior)) = [] →
  Forall (λ g, declared_normal_group g = true)
    (SetElements (aapInventoryResourceModel.Groups plan)) →
  Forall (λ h, declared_normal_host h = true)
    (SetElements (aapInventoryResourceModel.Hosts plan)) →
  ∃ s, Response.State (resp (run m w prior)) = Some s ∧
    Forall2 (group_as_planned (ValueInt64 (aapInventoryResourceModel.ID s)))
      (SetElements (aapInventoryResourceModel.Groups plan))
      (SetElements (aapInventoryResourceModel.Groups s)) ∧
    Forall2 (host_as_planned (ValueInt64 (aapInventoryResourceModel.ID s)))
      (SetElements (aapInventoryResourceModel.Hosts plan))
      (SetElements (aapInventoryResourceModel.Hosts s)).
Proof.
  intros Hm Hok Hng Hnh. apply HasError_false in Hok.
  destruct Hm as [-> | ->].
  - destruct (Create_completes client plan w prior Hok)
      as (inventory & evG & G & evH & H & HG & HH & _ & _ & _ & Hlog).
    exists (pass_snapshot (answered_plan plan inventory) G H). split.
    + eapply (state_of_run_last _ _ _
                ([Called (Call.CreateInventory (create_body plan))
                    (Reply.Inventory inventory)]
                 ++ evG ++ child_associations G ++ evH
                 ++ host_associations G H));
        [apply Create_finishing|].
      rewrite Hlog. unfold create_log. by rewrite <- !app_assoc.
    + apply pass_snapshot_planned; [| |done|done].
      * eapply Forall3_Forall2; [|exact HG].
        intros g e b (r & reply & -> & _ & ->). by exists r, reply.
      * eapply Forall3_Forall2; [|exact HH].
        intros h e b (r & reply & -> & _ & ->). by exists r, reply.
  - destruct (Update_completes client plan w prior Hok)
      as (inventory & currentGroups & evG & G & children & currentHosts &
          evH & H & hostGroups & HG & HH & _ & _ & _ & _ & Hlog).
    exists (pass_snapshot (answered_plan plan inventory) G H). split.
    + eapply (state_of_run_last _ _ _
                ([Called (Call.UpdateInventory
                            (ValueInt64 (aapInventoryResourceModel.ID plan))
                            (update_body plan)) (Reply.Inventory inventory);
                  Called (Call.GetInventoryGroups
                            (ValueInt64 (aapInventoryResourceModel.ID plan)))
                    (Reply.Groups currentGroups)]
                 ++ evG ++ group_deletions currentGroups G
                 ++ children_reconciliations G children
                 ++ [Called (Call.GetInventoryHosts
                               (ValueInt64 (aapInventoryResourceModel.ID plan)))
                       (Reply.Hosts currentHosts)]
                 ++ evH ++ host_deletions currentHosts H
                 ++ hostGroups_reconciliations G H hostGroups));
        [apply Update_finishing|].
      rewrite Hlog. unfold update_log. cbv zeta. by rewrite <- !app_assoc.
    + apply pass_snapshot_planned; [| |done|done].
      * eapply Forall3_Forall2; [|exact HG].
        intros g e b (r & reply & -> & _ & ->). by exists r, reply.
      * eapply Forall3_Forall2; [|exact HH].
        intros h e b (r & reply & -> & _ & ->). by exists r, reply.
Qed.

Lemma snapshot_shows_the_plan_witness :
  ∃ s, Response.State
         (resp (run (Create (Remote.client 25) plan_AB) Remote.empty None))
       = Some s ∧
    Forall2 (group_as_planned (ValueInt64 (aapInventoryResourceModel.ID s)))
      (SetElements (aapInventoryResourceModel.Groups plan_AB))
      (SetElements (aapInventoryResourceModel.Groups s)) ∧
    Forall2 (host_as_planned (ValueInt64 (aapInventoryResourceModel.ID s)))
      (SetElements (aapInventoryResourceModel.Hosts plan_AB))
      (SetElements (aapInventoryResourceModel.Hosts s)).
Proof.
  apply (snapshot_shows_the_plan (Remote.client 25) plan_AB
           (Create (Remote.client 25) plan_AB) Remote.empty None).
  - left. reflexivity.
  - vm_compute. reflexivity.
  - vm_compute. repeat constructor.
  - vm_compute. repeat constructor.
Defined.

Section Reporting.
Context {W : Type} (prior : option aapInventoryResourceModel.t).
Context (L : Call.t → string).

Lemma halted_app evs1 evs2 :
  Forall answered evs1 → halted L evs2 → halted L (evs1 ++ evs2).
Proof.
  intros H1 (evs0 & tail & -> & H0 & Ht).
  exists (evs1 ++ evs0), tail. rewrite app_assoc.
  repeat split; [by apply Forall_app_2|done].
Qed.

Lemma halted_diags ds : ds ≠ [] → halted L (Diagnosed <$> ds).
Proof.
  intros H. exists [], (Diagnosed <$> ds). repeat split; [constructor|].
  right. eauto.
Qed.

Lemma reporting_ret {A} (a : A) : reporting (W:=W) prior L (mret a).
Proof. apply produces_ret. constructor. Qed.

Lemma reporting_bind {A B} (m : M W A) (f : A → M W B) :
  reporting prior L m → (∀ a, reporting prior L (f a)) →
  reporting prior L (m ≫= f).
Proof.
  intros Hm Hf. eapply produces_bind; [apply Hm| |done].
  intros a evs1 H1. eapply produces_mono; [apply Hf| |].
  - intros b evs2 H2. by apply Forall_app_2.
  - intros evs2 H2. by apply halted_app.
Qed.

Lemma reporting_check {A} (p : A * Diagnostics) :
  reporting (W:=W) prior L (check p).
Proof. apply produces_check; [constructor|]. apply halted_diags. Qed.

Lemma reporting_try_call {A} c (reply : A → Reply.t) (f : W → res A * W)
    summary detail :
  (∀ a, answered (Called c (reply a))) →
  summary = L c →
  reporting prior L (try (call c reply f) summary detail).
Proof.
  intros Ha ->. apply produces_try_call.
  - intros a Hd. specialize (Ha a). cbn in *. by destruct (reply a).
  - intros a. constructor; [apply Ha|constructor].
  - intros e. eexists [], _. repeat split; [constructor|]. left. eauto.
Qed.

Lemma reporting_resolve name groups summary detail :
  reporting (W:=W) prior L (resolve name groups summary detail).
Proof.
  apply produces_resolve; [constructor|].
  intros id err _. apply (halted_diags [_]). done.
Qed.

Lemma reporting_for_range {A S} (l : list A) (body : A → S → M W S) s0 :
  (∀ x s, reporting prior L (body x s)) →
  reporting prior L (for_range l body s0).
Proof.
  intros Hb.
  eapply produces_mono;
    [apply (produces_for_range prior l body
              (λ _ _ _ evs, Forall answered evs) (λ _ _ evs, halted L evs)
              s0 Hb)| |].
  - intros s' evs Hst. eapply steps_answered; [|done]. by cbn.
  - intros evs (l1 & x & l2 & s1 & e1 & e2 & _ & Hst & HR & ->).
    apply halted_app; [|done]. eapply steps_answered; [|done]. by cbn.
Qed.

Lemma reporting_for_each {A} (l : list A) (body : A → M W unit) :
  (∀ x, reporting prior L (body x)) → reporting prior L (for_each l body).
Proof. intros Hb. apply reporting_for_range. intros. apply Hb. Qed.

Lemma reporting_whole_bind {A B} (m : M W A) (f : A → M W B) :
  reporting prior L m → (∀ a, reporting_whole prior L (f a)) →
  reporting_whole prior L (m ≫= f).
Proof.
  intros Hm Hf. eapply produces_bind; [apply Hm| |done].
  intros a evs1 H1. eapply produces_mono; [apply Hf| |].
  - intros b evs2 (evs0 & s & -> & H0). exists (evs1 ++ evs0), s.
    rewrite app_assoc. split; [done|]. by apply Forall_app_2.
  - intros evs2 H2. by apply halted_app.
Qed.

Lemma reporting_whole_SetState plan :
  reporting_whole (W:=W) prior L (SetState plan).
Proof. apply produces_SetState. by exists [], plan. Qed.

Lemma halted_after evs pre c err post :
  halted L evs → evs = pre ++ Called c (Reply.Error err) :: post →
  ∃ detail,
    post = [Diagnosed (ErrorDiagnostic (L c) detail (Some err))] ∧
    Forall answered pre.
Proof.
  intros (evs0 & tail & -> & Hans & Htail) Heq.
  destruct (split_after_answered _ _ _ _ _ Heq Hans I) as (mid & -> & ->).
  destruct Htail as [(c0 & e0 & d0 & Ht)|(ds & Hne & Ht)].
  - destruct mid as [|x mid]; cbn in Ht.
    + injection Ht as -> -> ->. exists d0. by rewrite app_nil_r.
    + injection Ht as -> Ht. destruct mid as [|y mid]; cbn in Ht.
      * discriminate Ht.
      * injection Ht as _ Ht. by destruct mid.
  - destruct (Diagnosed_split _ _ _ _ (eq_sym Ht)) as [_ []].
Qed.

End Reporting.

Ltac reporting_walk :=
  repeat first
    [ apply reporting_ret
    | apply reporting_check
    | apply reporting_resolve
    | apply reporting_try_call; [intros; exact I|reflexivity]
    | apply reporting_for_each; intros
    | apply reporting_for_range; intros
    | apply reporting_bind; [|intros]
    | match goal with
      | |- reporting _ _ (if ?b then _ else _) => destruct b
      end
    | progress unfold_client
    | progress cbv beta zeta ].

Ltac reporting_whole_walk :=
  repeat first
    [ apply reporting_whole_SetState
    | apply reporting_whole_bind; [reporting_walk|intros]
    | progress cbv beta zeta ].

Section HandlersReporting.
Context {W : Type} (client : AAPClient.t W).
Context (prior : option aapInventoryResourceModel.t).

Lemma Create_reporting plan :
  reporting_whole prior (failure_summary OnCreate) (Create client plan).
Proof.
  unfold Create, Create_groups, Create_children, Create_hosts,
    Create_hostGroups.
  reporting_whole_walk.
Qed.

Lemma Read_reporting state :
  reporting_whole prior (failure_summary OnRead) (Read client state).
Proof.
  unfold Read, Read_children, Read_hostGroups. reporting_whole_walk.
Qed.

Lemma Update_reporting plan :
  reporting_whole prior (failure_summary OnUpdate) (Update client plan).
Proof.
  unfold Update, Update_groups, Update_deleteGroups, Update_children,
    Update_groupChildren, Update_hosts, Update_deleteHosts,
    Update_allHostGroups, Update_hostGroups.
  reporting_whole_walk.
Qed.

Lemma Delete_reporting state :
  reporting prior (failure_summary OnDelete) (Delete client state).
Proof. unfold Delete. reporting_walk. Qed.

End HandlersReporting.

Lemma answered_no_failed_call evs pre c err post :
  Forall answered evs → evs ≠ pre ++ Called c (Reply.Error err) :: post.
Proof.
  intros H ->. apply Forall_app in H as [_ H].
  by apply Forall_cons in H as [? _].
Qed.

Lemma reported_run {W A} (m : M W A) (Q : A → list Event → Prop) L w prior
    pre c err post :
  produces prior m Q (halted L) →
  (∀ a evs, Q a evs → evs ≠ pre ++ Called c (Reply.Error err) :: post) →
  log (run m w prior) = pre ++ Called c (Reply.Error err) :: post →
  ∃ detail,
    post = [Diagnosed (ErrorDiagnostic (L c) detail (Some err))] ∧
    Response.Diagnostics (resp (run m w prior))
    = [ErrorDiagnostic (L c) detail (Some err)] ∧
    Response.State (resp (run m w prior)) = prior.
Proof.
  intros Hm HQ. unfold run.
  destruct (ready_enter w prior) as [Hco Hq].
  specialize (Hm (enter w prior) Hco Hq).
  destruct (m (enter w prior)) as [[a|] st']; cbn [snd]; intros Hlog.
  - destruct Hm as (_ & evs & E & _ & Ha). cbn in E. subst evs.
    by destruct (HQ a _ Ha).
  - destruct Hm as ([Hd Hs] & evs & E & Hh). cbn in E. subst evs.
    destruct (halted_after _ _ _ _ _ _ Hh Hlog) as (detail & -> & Hpre).
    exists detail. split; [done|].
    rewrite Hd, Hs, Hlog, diags_of_app, state_of_app,
      (diags_of_answered _ Hpre), (state_of_answered _ _ Hpre). done.
Qed.

Lemma pass_reported {W} (client : AAPClient.t W) (h : Handler)
    (x : aapInventoryResourceModel.t) (w : W)
    (prior : option aapInventoryResourceModel.t)
    (pre : list Event) (c : Call.t) (err : error) (post : list Event) :
  log (run (pass client h x) w prior)
  = pre ++ Called c (Reply.Error err) :: post →
  ∃ detail,
    post = [Diagnosed (ErrorDiagnostic (failure_summary h c) detail (Some err))]
    ∧ Response.Diagnostics (resp (run (pass client h x) w prior))
      = [ErrorDiagnostic (failure_summary h c) detail (Some err)]
    ∧ Response.State (resp (run (pass client h x) w prior)) = prior.
Proof.
  destruct h; cbn [pass].
  - apply (reported_run _ _ _ _ _ _ _ _ _ (Create_reporting client prior x)).
    intros _ evs Hc E. by destruct (completed_no_failure _ _ _ _ Hc E).
  - apply (reported_run _ _ _ _ _ _ _ _ _ (Read_reporting client prior x)).
    intros _ evs Hc E. by destruct (completed_no_failure _ _ _ _ Hc E).
  - apply (reported_run _ _ _ _ _ _ _ _ _ (Update_reporting client prior x)).
    intros _ evs Hc E. by destruct (completed_no_failure _ _ _ _ Hc E).
  - apply (reported_run _ _ _ _ _ _ _ _ _ (Delete_reporting client prior x)).
    intros _ evs Ha. by apply answered_no_failed_call.
Qed.

(** X14.  In every pass, a call the gateway answers with an error is
    followed at once by one diagnostic, the only one of the response,
    which carries that error under the summary that names the operation
    for this handler: "Error creating AAP group" for a group creation,
    "Error reading AAP group children" in a read pass, and so on; the
    failed deletion of a host in an update pass is reported as "Error
    deleting group".  The state in the response is the one the pass was
    entered with. *)
Theorem failed_call_is_reported {W} (client : AAPClient.t W) (h : Handler)
    (x : aapInventoryResourceModel.t) (w : W)
    (prior : option aapInventoryResourceModel.t)
    (pre : list Event) (c : Call.t) (err : error) (post : list Event) :
  log (run (pass client h x) w prior)
  = pre ++ Called c (Reply.Error err) :: post →
  ∃ detail,
    post = [Diagnosed (ErrorDiagnostic (failure_summary h c) detail (Some err))]
    ∧ Response.Diagnostics (resp (run (pass client h x) w prior))
      = [ErrorDiagnostic (failure_summary h c) detail (Some err)]
    ∧ Response.State (resp (run (pass client h x) w prior)) = prior.
Proof. apply pass_reported. Qed.

Lemma failed_call_is_reported_witness :
  ∃ detail,
    drop 3 log_twice
    = [Diagnosed (ErrorDiagnostic "Error creating AAP group" detail
                    (Some (Remote.status "400")))]
    ∧ Response.Diagnostics
        (resp (run (Create (Remote.client 25) plan_twice) Remote.empty None))
      = [ErrorDiagnostic "Error creating AAP group" detail
           (Some (Remote.status "400"))]
    ∧ Response.State
        (resp (run (Create (Remote.client 25) plan_twice) Remote.empty None))
      = None.
Proof.
  apply (failed_call_is_reported (Remote.client 25) OnCreate plan_twice
           Remote.empty None (take 2 log_twice)
           (Call.CreateGroup (AapGroup.mk 0 1 (str "A") [] [] (str "null")))
           (Remote.status "400") (drop 3 log_twice)).
  vm_compute. reflexivity.
Defined.

Module HttpFacts.
Import Http.

Lemma as_string_Some v s : as_string v = Some s ↔ v = Some (string_ s).
Proof. destruct v as [[]|]; cbn; split; congruence. Qed.

Lemma as_slice_Some v l : as_slice v = Some l ↔ v = Some (slice_ l).
Proof. destruct v as [[]|]; cbn; split; congruence. Qed.

Lemma as_map_Some v m : as_map v = Some m ↔ v = Some (map_ m).
Proof. destruct v as [[]|]; cbn; split; congruence. Qed.

Lemma is_ansible_host_true v :
  is_ansible_host v = true ↔ v = Some (string_ (str "ansible_host")).
Proof.
  destruct v as [[]|]; cbn; try (split; congruence).
  rewrite bool_decide_eq_true. split; congruence.
Qed.

Lemma string_of_Some v s : string_of v = Some s ↔ v = string_ s.
Proof. destruct v; cbn; split; congruence. Qed.

Lemma strings_Some (l : list any) (names : list gostring) :
  mapM string_of l = Some names ↔ l = string_ <$> names.
Proof.
  revert names. induction l as [|v l IH]; intros names.
  - cbn. split.
    + intros [= <-]. done.
    + intros H. by destruct names.
  - cbn. destruct v; cbn;
      try (split; [done|intros H; destruct names; discriminate H]).
    destruct (mapM _ l) as [names'|] eqn:E; cbn.
    + split.
      * intros [= <-]. cbn. f_equal. by apply IH.
      * intros H. destruct names as [|n names]; [done|].
        injection H as -> H. apply IH in H. by injection H as ->.
    + split; [done|]. intros H. destruct names as [|n names]; [done|].
      injection H as -> H. apply IH in H. done.
Qed.

Lemma string_map_Some (m : gmap gostring any) :
  map_Forall (λ _ v, is_Some (string_of v)) m ↔
  ∃ vars : gmap gostring gostring, m = string_ <$> vars.
Proof.
  split.
  - intros H. exists (omap string_of m).
    apply map_eq. intros k. rewrite lookup_fmap, lookup_omap.
    destruct (m !! k) as [v|] eqn:E; [|done].
    destruct (H k v E) as [s Hs]. apply string_of_Some in Hs. by subst v.
  - intros [vars ->] k v Hv. rewrite lookup_fmap in Hv.
    destruct (vars !! k); [|done]. injection Hv as <-. by eexists.
Qed.

Lemma omap_strings (vars : gmap gostring gostring) :
  omap string_of (string_ <$> vars) = vars.
Proof.
  apply map_eq. intros k. rewrite lookup_omap, lookup_fmap.
  by destruct (vars !! k).
Qed.

Lemma host_of_Some attributes h :
  host_of attributes = Some h ↔ shaped attributes h.
Proof.
  unfold host_of, shaped. split.
  - intros H.
    destruct (as_string (attributes !! str "name")) as [name|] eqn:En;
      [|done]. cbn [mbind option_bind] in H.
    destruct (as_slice (attributes !! str "groups")) as [gs|] eqn:Eg;
      [|done]. cbn [mbind option_bind] in H.
    destruct (mapM _ gs) as [groups|] eqn:Es; [|done].
    cbn [mbind option_bind] in H.
    destruct (as_map (attributes !! str "variables")) as [vs|] eqn:Ev;
      [|done]. cbn [mbind option_bind] in H.
    case_bool_decide as Hall; [|done]. injection H as <-.
    cbn [Name Groups Variables].
    apply as_string_Some in En. apply as_slice_Some in Eg.
    apply strings_Some in Es. apply as_map_Some in Ev.
    apply string_map_Some in Hall as [vars ->].
    rewrite omap_strings. by subst gs.
  - intros (Hn & Hg & Hv). rewrite Hn, Hg, Hv.
    cbn [as_string as_slice as_map mbind option_bind].
    rewrite (proj2 (strings_Some _ (Groups h)) eq_refl).
    cbn [mbind option_bind].
    rewrite bool_decide_eq_true_2 by (apply string_map_Some; eauto).
    rewrite omap_strings. by destruct h.
Qed.

Lemma host_of_None attributes :
  host_of attributes = None ↔ ¬ ∃ h, shaped attributes h.
Proof.
  split.
  - intros H [h Hh]. apply host_of_Some in Hh. congruence.
  - intros H. destruct (host_of attributes) as [h|] eqn:E; [|done].
    destruct H. exists h. by apply host_of_Some.
Qed.

Lemma instances_hosts_Some instances : ∀ acc hosts,
  instances_hosts acc instances = Some hosts →
  ∀ h, h ∈ hosts ↔ h ∈ acc ∨ instanced instances h.
Proof.
  induction instances as [|instance instances IH]; intros acc hosts H h.
  - injection H as <-. split; [by left|].
    intros [?|(o & a & Hin & _)]; [done|]. by apply elem_of_nil in Hin.
  - cbn [instances_hosts] in H.
    destruct instance as [| | | | |instance_obj]; try done.
    destruct (as_map (instance_obj !! str "attributes")) as [attributes|]
      eqn:Ea.
    + apply as_map_Some in Ea.
      destruct (host_of attributes) as [host|] eqn:Eh; [|done].
      cbn [mbind option_bind] in H. rewrite (IH _ _ H h), elem_of_app.
      apply host_of_Some in Eh. split.
      * intros [[?|Hh]|(o & a & Hin & Ha & Hs)]; [by left| |].
        -- apply list_elem_of_singleton in Hh as ->. right.
           exists instance_obj, attributes. split; [left|done].
        -- right. exists o, a. split; [by right|done].
      * intros [?|(o & a & Hin & Ha & Hs)]; [by left; left|].
        apply elem_of_cons in Hin as [[= <-]|Hin].
        -- rewrite Ea in Ha. injection Ha as <-. left. right.
           apply list_elem_of_singleton. apply host_of_Some in Eh, Hs.
           congruence.
        -- right. by exists o, a.
    + rewrite (IH _ _ H h). split.
      * intros [?|(o & a & Hin & Ha & Hs)]; [by left|].
        right. exists o, a. split; [by right|done].
      * intros [?|(o & a & Hin & Ha & Hs)]; [by left|].
        apply elem_of_cons in Hin as [[= <-]|Hin].
        -- rewrite Ha in Ea. done.
        -- right. by exists o, a.
Qed.

Lemma instances_hosts_None instances : ∀ acc,
  instances_hosts acc instances = None ↔ Exists bad_instance instances.
Proof.
  induction instances as [|instance instances IH]; intros acc.
  - split; [done|]. intros H. by apply Exists_nil in H.
  - rewrite Exists_cons. cbn [instances_hosts].
    destruct instance as [| | | | |instance_obj];
      try (split; [by left|done]).
    destruct (as_map (instance_obj !! str "attributes")) as [attributes|]
      eqn:Ea.
    + apply as_map_Some in Ea.
      destruct (host_of attributes) as [host|] eqn:Eh;
        cbn [mbind option_bind].
      * rewrite IH. split; [by right|].
        intros [(a & Ha & Hbad)|?]; [|done].
        rewrite Ea in Ha. injection Ha as <-.
        apply host_of_None in Hbad. congruence.
      * split; [|done]. intros _. left. exists attributes.
        split; [done|]. by apply host_of_None.
    + rewrite IH. split; [by right|].
      intros [(a & Ha & _)|?]; [|done]. rewrite Ha in Ea. done.
Qed.

Lemma resources_hosts_Some resources : ∀ acc hosts,
  resources_hosts acc resources = Some hosts →
  ∀ h, h ∈ hosts ↔ h ∈ acc ∨ hosted resources h.
Proof.
  induction resources as [|resource resources IH]; intros acc hosts H h.
  - injection H as <-. split; [by left|].
    intros [?|(o & i & Hin & _)]; [done|]. by apply elem_of_nil in Hin.
  - cbn [resources_hosts] in H.
    destruct resource as [| | | | |resource_obj]; try done.
    destruct (is_ansible_host (resource_obj !! str "type")) eqn:Et.
    + apply is_ansible_host_true in Et.
      destruct (as_slice (resource_obj !! str "instances")) as [instances|]
        eqn:Ei.
      * apply as_slice_Some in Ei.
        destruct (instances_hosts acc instances) as [hosts'|] eqn:Eh;
          [|done].
        cbn [mbind option_bind] in H.
        rewrite (IH _ _ H h), (instances_hosts_Some _ _ _ Eh h). split.
        -- intros [[?|Hi]|(o & i & Hin & Ht & Hi & Hh)]; [by left| |].
           ++ right. exists resource_obj, instances. split; [left|done].
           ++ right. exists o, i. split; [by right|done].
        -- intros [?|(o & i & Hin & Ht & Hi & Hh)]; [by left; left|].
           apply elem_of_cons in Hin as [[= <-]|Hin].
           ++ rewrite Ei in Hi. injection Hi as <-. by left; right.
           ++ right. by exists o, i.
      * rewrite (IH _ _ H h). split.
        -- intros [?|(o & i & Hin & Ht & Hi & Hh)]; [by left|].
           right. exists o, i. split; [by right|done].
        -- intros [?|(o & i & Hin & Ht & Hi & Hh)]; [by left|].
           apply elem_of_cons in Hin as [[= <-]|Hin].
           ++ rewrite Hi in Ei. done.
           ++ right. by exists o, i.
    + rewrite (IH _ _ H h). split.
      * intros [?|(o & i & Hin & Ht & Hi & Hh)]; [by left|].
        right. exists o, i. split; [by right|done].
      * intros [?|(o & i & Hin & Ht & Hi & Hh)]; [by left|].
        apply elem_of_cons in Hin as [[= <-]|Hin].
        -- apply is_ansible_host_true in Ht. congruence.
        -- right. by exists o, i.
Qed.

Lemma resources_hosts_None resources : ∀ acc,
  resources_hosts acc resources = None ↔ Exists bad_resource resources.
Proof.
  induction resources as [|resource resources IH]; intros acc.
  - split; [done|]. intros H. by apply Exists_nil in H.
  - rewrite Exists_cons. cbn [resources_hosts].
    destruct resource as [| | | | |resource_obj];
      try (split; [by left|done]).
    destruct (is_ansible_host (resource_obj !! str "type")) eqn:Et.
    + apply is_ansible_host_true in Et.
      destruct (as_slice (resource_obj !! str "instances")) as [instances|]
        eqn:Ei.
      * apply as_slice_Some in Ei.
        destruct (instances_hosts acc instances) as [hosts'|] eqn:Eh;
          cbn [mbind option_bind].
        -- rewrite IH. split; [by right|].
           intros [(_ & i & Hi & Hbad)|?]; [|done].
           rewrite Ei in Hi. injection Hi as <-.
           apply (instances_hosts_None _ acc) in Hbad. congruence.
        -- split; [|done]. intros _. left. split; [done|].
           exists instances. split; [done|].
           by apply (instances_hosts_None _ acc).
      * rewrite IH. split; [by right|].
        intros [(_ & i & Hi & _)|?]; [|done]. rewrite Hi in Ei. done.
    + rewrite IH. split; [by right|].
      intros [(Ht & _)|?]; [|done].
      apply is_ansible_host_true in Ht. congruence.
Qed.

End HttpFacts.

(** X16.  Once the body decodes, [GetAnsibleHost] returns no error: it
    returns hosts or panics.  The hosts it returns are exactly those of
    the instances of the resources of type [ansible_host] listed under
    [resources]: one for each instance that has an [attributes] object
    holding a name, a list of group names and a mapping of variables, all
    strings.  Resources of another type, and instances without an
    [attributes] object, give no host; without a [resources] list there
    is none. *)
Theorem GetAnsibleHost_collects (codec : Http.Codec) (body : gostring)
    (result : gmap gostring Http.any) :
  Http.Unmarshal_map codec body = Ok result →
  (∀ err, Http.GetAnsibleHost codec body ≠ Http.Returns (Fail err)) ∧
  (∀ hosts h,
     Http.GetAnsibleHost codec body = Http.Returns (Ok hosts) →
     h ∈ hosts ↔
     ∃ resources,
       result !! str "resources" = Some (Http.slice_ resources) ∧
       Http.hosted resources h).
Proof.
  intros Hbody. unfold Http.GetAnsibleHost. rewrite Hbody.
  destruct (Http.as_slice (result !! str "resources")) as [resources|] eqn:Er.
  - apply HttpFacts.as_slice_Some in Er.
    destruct (Http.resources_hosts [] resources) as [hosts'|] eqn:Eh.
    + split; [done|]. intros hosts h [= <-].
      rewrite (HttpFacts.resources_hosts_Some _ _ _ Eh h). split.
      * intros [Hin|Hh]; [by apply elem_of_nil in Hin|]. by exists resources.
      * intros (resources' & Hr & Hh). right. congruence.
    + split; [done|]. intros hosts h [=].
  - split; [done|]. intros hosts h [= <-]. split.
    + intros Hin. by apply elem_of_nil in Hin.
    + intros (resources & Hr & _). rewrite Hr in Er. done.
Qed.

(** X17.  [GetAnsibleHost] panics on a decoded body exactly when the
    [resources] list holds an element that is not an object, or a resource
    of type [ansible_host] whose [instances] list holds an element that is
    not an object or whose [attributes] object lacks a string name, a list
    of strings [groups] or an object of strings [variables]. *)
Theorem GetAnsibleHost_panics (codec : Http.Codec) (body : gostring)
    (result : gmap gostring Http.any) :
  Http.Unmarshal_map codec body = Ok result →
  Http.GetAnsibleHost codec body = Http.Panics ↔
  ∃ resources,
    result !! str "resources" = Some (Http.slice_ resources) ∧
    Exists Http.bad_resource resources.
Proof.
  intros Hbody. unfold Http.GetAnsibleHost. rewrite Hbody.
  destruct (Http.as_slice (result !! str "resources")) as [resources|] eqn:Er.
  - apply HttpFacts.as_slice_Some in Er.
    destruct (Http.resources_hosts [] resources) as [hosts'|] eqn:Eh.
    + split; [done|]. intros (resources' & Hr & Hbad).
      rewrite Er in Hr. injection Hr as <-.
      apply (HttpFacts.resources_hosts_None _ []) in Hbad. congruence.
    + split; [|done]. intros _. exists resources. split; [done|].
      by apply (HttpFacts.resources_hosts_None _ []).
  - split; [done|]. intros (resources & Hr & _). rewrite Hr in Er. done.
Qed.

Lemma GetAnsibleHost_collects_witness :
  host_web ∈ [host_web] ↔
  ∃ resources,
    doc_web !! str "resources" = Some (Http.slice_ resources) ∧
    Http.hosted resources host_web.
Proof.
  apply (proj2 (GetAnsibleHost_collects (codec_of doc_web) [] doc_web eq_refl)
           [host_web] host_web).
  vm_compute. reflexivity.
Defined.

Lemma GetAnsibleHost_panics_witness :
  Http.GetAnsibleHost (codec_of doc_null) [] = Http.Panics ↔
  ∃ resources,
    doc_null !! str "resources" = Some (Http.slice_ resources) ∧
    Exists Http.bad_resource resources.
Proof.
  apply (GetAnsibleHost_panics (codec_of doc_null) [] doc_null).
  reflexivity.
Defined.

Lemma HasSuffix_app (s suffix : gostring) :
  Http.HasSuffix (s ++ suffix) suffix = true.
Proof.
  unfold Http.HasSuffix. rewrite length_app.
  apply andb_true_iff. split.
  - apply Nat.leb_le. lia.
  - apply bool_decide_eq_true.
    replace (length s + length suffix - length suffix)%nat with (length s)
      by lia.
    apply drop_app_length.
Qed.

(** X15.  [NewClient] never fails and keeps the credentials and the TLS
    flag as given; the host URL of the client ends with a slash: a host
    that ends with one is kept as it is, any other gets one appended.
    Making a client from the host URL of a client gives the same
    client. *)
Theorem NewClient_normalizes (host : gostring)
    (username password : option gostring) (insecure_skip_verify : bool) :
  ∃ c,
    Http.NewClient host username password insecure_skip_verify = Ok c ∧
    Http.HasSuffix (Http.HostURL c) (str "/") = true ∧
    Http.HostURL c
    = (if Http.HasSuffix host (str "/") then host else host ++ str "/") ∧
    Http.Username c = username ∧ Http.Password c = password ∧
    Http.InsecureSkipVerify c = insecure_skip_verify ∧
    Http.NewClient (Http.HostURL c) username password insecure_skip_verify
    = Ok c.
Proof.
  unfold Http.NewClient. cbv zeta.
  destruct (Http.HasSuffix host (str "/")) eqn:E; cbn [negb].
  - eexists. split; [done|]. cbn [Http.HostURL Http.Username Http.Password
      Http.InsecureSkipVerify]. rewrite E. done.
  - eexists. split; [done|]. cbn [Http.HostURL Http.Username Http.Password
      Http.InsecureSkipVerify]. rewrite HasSuffix_app. done.
Qed.

Module WireFacts.
Import Http Wire.

Section Requests.
Context {T : Type} (net : Net T) (codec : Codec) (c : Http.AAPClient).
Context (buildable : ∀ method url, NewRequest_ok net method url = true).

Lemma MakeRequest_recorded method endpoint requestBody exs t :
  ∃ o t' req back,
    MakeRequest (recording net) c method endpoint requestBody (exs, t)
    = (Returns o, (exs ++ [(req, back)], t')) ∧
    asked req = (method, endpoint, requestBody) ∧
    (∀ err, failed_exchange back = Some err → o = Fail err).
Proof.
  unfold MakeRequest. cbn [NewRequest_ok recording]. rewrite buildable.
  cbn [negb Do recording fst snd].
  destruct (Do net _ t) as [[resp|err] t'] eqn:E.
  - destruct (Http.Contains aapSuccessCodes (StatusCode resp)) eqn:Hc;
      cbn [negb]; eexists _, _, _, _; (split; [reflexivity|]);
      (split; [done|]); intros err H; cbn [failed_exchange] in H;
      rewrite Hc in H; first [discriminate H | by injection H as <-].
  - eexists _, _, _, _. split; [reflexivity|]. split; [done|].
    intros err' H. by simplify_eq/=.
Qed.

Lemma parsed_recorded {A} method endpoint requestBody
    (parse : gostring → res A) (k : A → Reply.t) exs t :
  ∃ rep w req back,
    answer k (returned (parsed (MakeRequest (recording net) c method endpoint
                                  requestBody (exs, t)) parse))
    = (rep, (exs ++ [(req, back)], w)) ∧
    asked req = (method, endpoint, requestBody) ∧
    (∀ err, failed_exchange back = Some err → rep = Reply.Error err).
Proof.
  destruct (MakeRequest_recorded method endpoint requestBody exs t)
    as (o & t' & req & back & -> & Hr & Ho).
  destruct o as [response|err0];
    eexists _, t', req, back; (split; [reflexivity|]); (split; [done|]);
    intros err Herr; specialize (Ho err Herr);
    first [discriminate Ho | injection Ho as ->; reflexivity].
Qed.

Lemma perform_recorded (call : Call.t) exs t :
  ∃ rep w req back,
    perform (gateway (recording net) codec c) call (exs, t)
    = (rep, (exs ++ [(req, back)], w)) ∧
    asked req = request_line c call ∧
    (∀ err, failed_exchange back = Some err → rep = Reply.Error err).
Proof.
  unfold request_line.
  destruct call; cbn [perform gateway snd verb path body
    AAPClient.CreateInventory AAPClient.GetInventory AAPClient.UpdateInventory
    AAPClient.DeleteInventory AAPClient.CreateGroup AAPClient.UpdateGroup
    AAPClient.DeleteGroup AAPClient.GetInventoryGroups
    AAPClient.GetGroupChildren AAPClient.AddChildToGroup
    AAPClient.RemoveChildFromGroup AAPClient.CreateHost AAPClient.UpdateHost
    AAPClient.DeleteHost AAPClient.GetInventoryHosts AAPClient.GetHostGroups
    AAPClient.AddGroupToHost AAPClient.RemoveGroupFromHost];
    unfold Http.CreateInventory, Http.GetInventory, Http.UpdateInventory,
      Http.DeleteInventory, Http.CreateGroup, Http.UpdateGroup,
      Http.DeleteGroup, Http.GetInventoryGroups, Http.GetGroupChildren,
      Http.AddChildToGroup, Http.RemoveChildFromGroup, Http.CreateHost,
      Http.UpdateHost, Http.DeleteHost, Http.GetInventoryHosts,
      Http.GetHostGroups, Http.AddGroupToHost, Http.RemoveGroupFromHost,
      done_; cbv zeta;
    rewrite <- ?app_assoc; apply parsed_recorded.
Qed.

(** An exchange stands for a call of the log. *)
Definition stands (ex : Exchange) (cr : Call.t * Reply.t) : Prop :=
  asked ex.1 = request_line c cr.1 ∧
  (∀ err, failed_exchange ex.2 = Some err → cr.2 = Reply.Error err).

Lemma replays_exchanges w evs w' :
  replays (gateway (recording net) codec c) w evs w' →
  ∃ new, w'.1 = w.1 ++ new ∧ Forall2 stands new (called evs).
Proof.
  induction 1 as [w|w call r w' evs w'' Hp _ (new & E & Hall)
                 |w d evs w' _ IH|w s evs w' _ IH].
  - exists []. rewrite app_nil_r. split; [done|constructor].
  - destruct w as [exs t].
    destruct (perform_recorded call exs t)
      as (rep & t' & req & back & Hperf & Hreq & Hback).
    rewrite Hp in Hperf. injection Hperf as -> ->. cbn [fst] in *.
    exists ((req, back) :: new). rewrite E, <- app_assoc. split; [done|].
    cbn [called omap]. constructor; [|done]. by split.
  - exact IH.
  - exact IH.
Qed.

End Requests.

Lemma verb_kinds (h : Handler) (call : Call.t) :
  handler_call h call = true →
  verb call ∈ verbs h ∧ (h = OnRead → body call = None).
Proof.
  destruct h, call; intros H; try discriminate H;
    (split; [|done]); cbn; repeat first [by left | right].
Qed.

Lemma calls_of_called evs : calls_of evs = fst <$> called evs.
Proof.
  induction evs as [|e evs IH]; [done|].
  destruct e; cbn; [f_equal|..]; exact IH.
Qed.

Lemma called_split evs k1 cr k2 :
  called evs = k1 ++ cr :: k2 →
  ∃ l1 l2, evs = l1 ++ Called cr.1 cr.2 :: l2 ∧ called l2 = k2.
Proof.
  revert k1. induction evs as [|e evs IH]; intros k1 H.
  - by destruct k1.
  - destruct e as [c0 r0|d|s]; cbn in H.
    + destruct k1 as [|y k1]; cbn in H.
      * injection H as <- <-. by exists [], evs.
      * injection H as _ H. destruct (IH _ H) as (l1 & l2 & -> & E).
        by exists (Called c0 r0 :: l1), l2.
    + destruct (IH _ H) as (l1 & l2 & -> & E).
      by exists (Diagnosed d :: l1), l2.
    + destruct (IH _ H) as (l1 & l2 & -> & E).
      by exists (StateSet s :: l1), l2.
Qed.

End WireFacts.

Lemma fmap_eq_Forall2 {A B C} (f : A → C) (g : B → C) (l : list A)
    (k : list B) :
  f <$> l = g <$> k → Forall2 (λ a b, f a = g b) l k.
Proof.
  revert k. induction l as [|a l IH]; intros [|b k] H; try done.
  injection H as Hab H. constructor; [done|by apply IH].
Qed.

Lemma pass_calls {W} (client : AAPClient.t W) prior h x :
  within prior (calls_only (handler_call h)) (pass client h x).
Proof.
  destruct h; cbn [pass handler_call].
  - apply Create_calls.
  - apply Read_calls.
  - apply Update_calls.
  - unfold Delete. within_walk ltac:(reflexivity).
Qed.

Lemma pass_exchanges {T} (net : Http.Net T) (codec : Http.Codec)
    (c : Http.AAPClient) (h : Handler) (x : aapInventoryResourceModel.t)
    (t : T) (prior : option aapInventoryResourceModel.t) :
  (∀ method url, Http.NewRequest_ok net method url = true) →
  let st :=
    run (pass (Wire.gateway (Wire.recording net) codec c) h x) ([], t) prior in
  Forall2 (WireFacts.stands c) (world st).1 (called (log st)).
Proof.
  intros buildable. cbv zeta.
  set (client := Wire.gateway (Wire.recording net) codec c).
  destruct (WireFacts.replays_exchanges net codec c buildable ([], t)
              (log (run (pass client h x) ([], t) prior))
              (world (run (pass client h x) ([], t) prior)))
    as (new & E & Hall).
  { apply (log_is_genuine client x). destruct h; cbn [pass]; tauto. }
  cbn [fst app] in E. by rewrite E.
Qed.

(** X18.  Over a network on which every request can be built, a pass of a
    handler through the HTTP client sends exactly one request for each
    call it makes, in the order of the calls and none else: the verb, the
    URL (the host URL of the client, [api/v2/] and the path of the entity)
    and the body that stand for the call.  So a read pass sends only GET
    requests, without a body; a create pass only POST requests; a delete
    pass only DELETE requests. *)
Theorem pass_requests {T} (net : Http.Net T) (codec : Http.Codec)
    (c : Http.AAPClient) (h : Handler) (x : aapInventoryResourceModel.t)
    (t : T) (prior : option aapInventoryResourceModel.t) :
  (∀ method url, Http.NewRequest_ok net method url = true) →
  let st :=
    run (pass (Wire.gateway (Wire.recording net) codec c) h x) ([], t) prior in
  Wire.asked <$> Wire.requests (world st)
  = Wire.request_line c <$> calls_of (log st) ∧
  Forall (λ r, Http.Method r ∈ Wire.verbs h ∧
               (h = OnRead → Http.Body r = None))
    (Wire.requests (world st)).
Proof.
  intros buildable. cbv zeta.
  pose proof (pass_exchanges net codec c h x t prior buildable) as Hall.
  cbv zeta in Hall.
  set (client := Wire.gateway (Wire.recording net) codec c) in *.
  set (st := run (pass client h x) ([], t) prior) in *.
  pose proof (shape_of_run prior _ _ ([], t) (pass_calls client prior h x))
    as Hkinds.
  apply calls_only_calls_of in Hkinds. fold st in Hkinds.
  rewrite WireFacts.calls_of_called in *. unfold Wire.requests.
  split.
  - rewrite <- !list_fmap_compose.
    induction Hall as [|ex cr exs crs [Hreq _] _ IH]; [done|].
    cbn. f_equal; [exact Hreq|]. apply IH.
    cbn in Hkinds. by apply Forall_cons in Hkinds as [_ ?].
  - induction Hall as [|ex cr exs crs [Hreq _] _ IH]; [constructor|].
    cbn in Hkinds. apply Forall_cons in Hkinds as [Hcr Hkinds].
    cbn. constructor; [|by apply IH].
    destruct (WireFacts.verb_kinds h cr.1 Hcr) as [Hv Hb].
    unfold Wire.asked, Wire.request_line in Hreq.
    injection Hreq as -> _ ->. done.
Qed.

Lemma pass_requests_witness :
  let st :=
    run (pass (Wire.gateway (Wire.recording net_404) (codec_of ∅) client_local)
           OnRead state_1) ([], tt) None in
  Wire.asked <$> Wire.requests (world st)
  = Wire.request_line client_local <$> calls_of (log st) ∧
  Forall (λ r, Http.Method r ∈ Wire.verbs OnRead ∧
               (OnRead = OnRead → Http.Body r = None))
    (Wire.requests (world st)).
Proof.
  apply (pass_requests net_404 (codec_of ∅) client_local OnRead state_1 tt
           None).
  reflexivity.
Defined.

(** X19.  Over such a network, an exchange that fails (the transport gives
    an error, or the status that comes back is none of 200, 201, 202 and
    204) is the last exchange of the pass: no request follows it.  The
    response of the pass then has one diagnostic, which carries the error
    made of this exchange (for a status, its number and the body) under
    the summary of the call the request stands for, and the state is the
    one the pass was entered with. *)
Theorem failed_exchange_stops_pass {T} (net : Http.Net T)
    (codec : Http.Codec) (c : Http.AAPClient) (h : Handler)
    (x : aapInventoryResourceModel.t) (t : T)
    (prior : option aapInventoryResourceModel.t)
    (pre : list Wire.Exchange) (req : Http.Request)
    (back : Http.Response + gostring) (post : list Wire.Exchange)
    (err : error) :
  (∀ method url, Http.NewRequest_ok net method url = true) →
  let st :=
    run (pass (Wire.gateway (Wire.recording net) codec c) h x) ([], t) prior in
  (world st).1 = pre ++ (req, back) :: post →
  Wire.failed_exchange back = Some err →
  post = [] ∧
  ∃ call detail,
    Wire.asked req = Wire.request_line c call ∧
    Response.Diagnostics (resp st)
    = [ErrorDiagnostic (failure_summary h call) detail (Some err)] ∧
    Response.State (resp st) = prior.
Proof.
  intros buildable. cbv zeta. intros Hex Hfail.
  pose proof (pass_exchanges net codec c h x t prior buildable) as Hall.
  cbv zeta in Hall. rewrite Hex in Hall.
  apply Forall2_app_inv_l in Hall as (k1 & k' & _ & Hall & Ek).
  apply Forall2_cons_inv_l in Hall as ([call rep] & k2 & [Hreq Hback] & Hpost & ->).
  cbn [fst snd] in *. rewrite (Hback err Hfail) in Ek.
  apply WireFacts.called_split in Ek as (l1 & l2 & Hlog & Hl2).
  cbn [fst snd] in Hlog.
  destruct (pass_reported _ h x ([], t) prior _ _ _ _ Hlog)
    as (detail & -> & Hd & Hs).
  subst k2. cbn in Hpost. apply Forall2_nil_inv_r in Hpost as ->.
  split; [done|]. by exists call, detail.
Qed.

Lemma failed_exchange_stops_pass_witness :
  ([] : list Wire.Exchange) = [] ∧
  ∃ call detail,
    Wire.asked
      (Http.mkRequest "GET" (str "http://localhost/api/v2/inventories/1/")
         None None
         [("Accept", "application/json"); ("Content-Type", "application/json")]
         false)
    = Wire.request_line client_local call ∧
    Response.Diagnostics
      (resp (run (pass (Wire.gateway (Wire.recording net_404) (codec_of ∅)
                          client_local) OnRead state_1) ([], tt) None))
    = [ErrorDiagnostic (failure_summary OnRead call) detail
         (Some (ErrRemote (str "status: 404, body: ")))] ∧
    Response.State
      (resp (run (pass (Wire.gateway (Wire.recording net_404) (codec_of ∅)
                          client_local) OnRead state_1) ([], tt) None))
    = None.
Proof.
  apply (failed_exchange_stops_pass net_404 (codec_of ∅) client_local OnRead
           state_1 tt None []
           (Http.mkRequest "GET" (str "http://localhost/api/v2/inventories/1/")
              None None
              [("Accept", "application/json");
               ("Content-Type", "application/json")]
              false)
           (inl (Http.mkResponse 404 [])) []
           (ErrRemote (str "status: 404, body: "))).
  - reflexivity.
  - vm_compute. reflexivity.
  - vm_compute. reflexivity.
Defined.

(** The requests of that read pass: the one for the inventory, which the
    network answers with 404. *)
Example read_pass_404 :
  let st :=
    run (pass (Wire.gateway (Wire.recording net_404) (codec_of ∅) client_local)
           OnRead state_1) ([], tt) None in
  Wire.asked <$> Wire.requests (world st)
  = [("GET", str "http://localhost/api/v2/inventories/1/", None)] ∧
  Response.Diagnostics (resp st)
  = [ErrorDiagnostic "Error reading AAP inventory"
       (str "Could not retrieve AAP inventory with ID 1: ")
       (Some (ErrRemote (str "status: 404, body: ")))].
Proof. vm_compute. split; reflexivity. Qed.
